(* ===== verification/_CoqProject ===== *)
-Q . S2P
Prelude.v
Bytes.v
Wire.v
Membership.v
Identity.v
Subjects.v
LogStore.v
Lifecycle.v
RouterState.v
Router.v
StreamInvariant.v
RouterSafety.v
RouterTraffic.v
MemStore.v
RouterCorrect.v
RouterOps.v
RouterFindings.v
Trace.v
FeedProjector.v
FeedTheorems.v
FeedOutputs.v
Fence.v
FeedRun.v
ProjectorNats.v
JetStreamStore.v
Observability.v
DesiredParticipation.v
DesiredTheorems.v
ParticipationConsumer.v
PgTx.v
ParticipationPg.v
ParticipationPgOK.v
ParticipationCorrect.v
ParticipationClient.v
ParticipationRuntime.v
ParticipationProgress.v
ParticipationRuns.v
AuthCallout.v
AuthTheorems.v
FeedSystem.v
FeedProgress.v
Uuid.v
Delivery.v
DeliveryPg.v
DeliveryTheorems.v
DeliveryCorrect.v
DeliveryRuns.v
RouteProjection.v
RouteProjectionPg.v
RouteTheorems.v
RouteCorrect.v
RouteSystem.v
RouteProgress.v
RouteRuns.v
ProjectorMain.v
ProjectorSetup.v
FeedRuns.v
AuthSetup.v
Health.v
Boot.v
