(* ===== verification/Prelude.v ===== *)
(** * RelayPoint: a verification of its signaling core

    RelayPoint moves interactions (conversations) between visitors, agents and
    backends over NATS. This library models the parts that decide what is written,
    who may write and read it, and what survives a failure, and proves the
    properties that make them correct. Names follow the Go source under src/.

    ** The program and the files

    Router. cmd/router subscribes to the command subjects and calls
    internal/signaling [Router.HandleCommand], the only writer of the per-
    interaction log. It keeps a bounded cache of interaction states that it can
    always rebuild from the log, and appends under optimistic concurrency control.
      - [Wire]: events, commands, results; [Identity]: identities and how the
        binary derives one from a subject; [Subjects]: the subject grammar;
        [Bytes]: framing and hexadecimal; [Membership]: participation intervals
        (participation.go); [Lifecycle]: legal transitions.
      - [LogStore]: the log port. A handler is a [prog], a tree of port calls; the
        broker's behaviour is a step relation with conflicts, duplicates, errors
        and lost acknowledgements; [pool_step] interleaves the port calls of any
        number of processes; [wp] is the program logic, sound for that relation.
      - [RouterState]: the cached state as objects in a heap (a handler keeps the
        object it locked even when the cache drops it); [Router]: every handler.
      - [StreamInvariant], [RouterSafety], [RouterTraffic], [RouterCorrect]: the
        invariant of the stream, that every handler preserves it under any
        interference, and the theorems about queue groups of routers.
      - [RouterOps]: retries, hashing, cache bounds. [RouterFindings]: runs that
        show where the code departs from its intent. [MemStore]: an in-memory log
        store, the ground of the concrete runs.
      - [JetStreamStore]: the JetStream adapter (store.go) and its refinement of
        the port's contract.

    Feed projector. internal/projector tails the log and publishes each fact to
    the feeds of the members it concerns, under a leader lease.
      - [FeedProjector]: processing, snapshots, takeover, over an oracle for the
        answers of its ports (done, done with the confirmation lost, refused) and
        with the trace header of every feed message; [FeedTheorems]: recipients, acknowledgement after
        delivery, takeover, deduplication ids.
      - [Fence]: the fence between the renew loop and the data loop, the renew
        budget, the defaults. [FeedRun]: Run, with both loops as one sequence of
        events; a paused [begin] stays blocked until its wake-up channel is closed
        or the process ends. [ProjectorNats]: the NATS adapters (delivery, FoldRange, lease
        election, snapshot history); [ProjectorSetup]: how stream, consumer and
        buckets are configured and what that gives the others.
      - [ProjectorMain]: the binary's database configuration and supervision.
      - [FeedOutputs]: what [process] can put out, by rules for its parts.
        [FeedSystem]: routers, stream, consumer and leaders as one system
        ([sys_step]): routers append, the consumer's position moves, leaders stop
        and are replaced by ones hydrated from the snapshot bucket and the stream
        (the flag [complete] says whether their readers get their whole range).
        [FeedProgress]: what a leader does while its ports answer.
        [FeedRuns]: concrete runs of that system, and commands no feed carries.

    Desired participation. internal/participation folds versioned commands of an
    authority into the participants of an interaction, reconciling gaps by replay
    or snapshot; internal/participationpg stores it; internal/participationnats
    consumes the commands.
      - [DesiredParticipation]: the projector over the class [PStore] of store
        operations; [DesiredTheorems]: the store's contract [PStoreOK] and what
        [Apply] guarantees against any store that keeps it.
      - [ParticipationConsumer]: the message handler. [ParticipationPg]: the
        PostgreSQL store, statement by statement, with failing statements and
        commits; [ParticipationPgOK]: that it keeps the contract.
        [ParticipationCorrect]: the deployed pair, and two runs in which it stops
        making progress.
      - [ParticipationClient]: the NATS and gRPC clients of the authority;
        [ParticipationRuntime]: stream, subscription and loop of the consumer, wired
        as cmd/projector does; [ParticipationProgress]: what the runtime makes of a
        history whose commands arrive in any order, repeated and with gaps, while
        database and authority answer; [ParticipationRuns]: concrete runs.

    Deliveries and routes. internal/delivery accepts delivery authorizations into a
    PostgreSQL log with an outbox of acknowledgements that a worker sends to the
    router of reservations; internal/routeprojection folds that router's versioned
    facts into the visibility of an interaction, which a ringing fact may set only
    when its delivery was accepted; internal/deliverypg stores both in one
    database and internal/deliverygrpc serves the acceptance.
      - [PgTx]: transactions of both PostgreSQL stores, with failing statements
        and commits, and their partial and total logic. [Uuid]: the uuid package
        as an interface, and the canonical UUIDv7 check.
      - [Delivery]: service.go, worker.go and the gRPC server over the classes
        [AuthorizationStore] and [AckStore]; [DeliveryPg]: the tables and store.go;
        [DeliveryTheorems]: hashes and the invariant [delivered]; [DeliveryCorrect]:
        the theorems over all histories of calls; [DeliveryRuns]: concrete runs.
      - [RouteProjection]: the projector as programs of store and router calls;
        [RouteProjectionPg]: projection.go; [RouteTheorems]: the invariant
        [route_inv] and the transactions; [RouteCorrect]: a weakest precondition
        for programs under interference; [RouteSystem]: any number of projectors,
        servers and workers on one database, interleaved call by call;
        [RouteProgress]: what happens while the database answers; [RouteRuns]:
        concrete runs.

    Auth callout. internal/authcallout verifies connection tokens and mints NATS
    permissions.
      - [AuthCallout]: token verification, key cache, grants, responder;
        [AuthTheorems]: what the grants allow under the documented meaning of NATS
        subject and response permissions, over the messages a connection is
        delivered and publishes ([admitted]), and the verifiers' guarantees; [AuthSetup]: the HTTP
        source of keys, the constructors, and the service cmd/authcallout starts
        from its environment.

    Shared. [Trace]: W3C trace contexts (internal/obs/trace.go). [Observability]:
    the values a Go context carries (trace, logger, request id, identity, span),
    spans with and without an exporter, and the contexts of the processes
    (internal/obs). [Health]: the probes of the binaries (internal/health).
    [Boot]: the start-up sequences of cmd/router, cmd/projector and cmd/authcallout
    as traces of the actions tried, and cmd/signaltest-inject. This file: tactics, hint
    database, machine integers, strings, decimal printing.

    ** Correspondence

    A Go pointer into shared state is a location of a heap; a mutex section is one
    step; a port call is a constructor of [prog] (router) or [rprog] (routes), an
    oracle's answer (feed projector) or an operation of a class (desired
    participation, deliveries). Errors
    are sums or options; integers keep their width where arithmetic is done on
    them ([i64], [u64], [add64]); Go maps are [gmap], sets [gset], and an iteration
    order is an argument. Protobuf, JSON, SHA-256, base64, JOSE and NATS JWT are
    arguments of the definitions that use them; a theorem that needs a law of one
    (a codec is injective, base64 round-trips) has it as a hypothesis.

    ** What the theorems show

    Router: under every interleaving and every broker answer the log of an
    interaction is a well-formed lifecycle, every fact in it is well typed, has
    exactly the contents of a command and was authorised, every accepted answer is
    durable (with its contents, unless its id was used for other contents), and
    sequence numbers are dense on a broker that answers no membership append as a
    duplicate. The brokers ([LogStore.broker]) check the expected sequence before
    they deduplicate, as a single JetStream server does; [nodup] and [noloss] say
    what else they do not do, and a theorem that needs one of them says so.
    Projector: recipients are exactly the members, over a whole run nothing is
    acknowledged unprojected, takeover is equivalent to a full fold, stale holders
    are fenced, and a run whose lease is lost ends. The plane as a whole: what is on
    an agent's feed is a fact that stems from an authorised command, only the
    agent's connections can read it, what a leader acknowledged was published or
    dead-lettered, and a leader whose ports answer works off the whole stream; that
    these go to exactly the members holds across takeovers whose readers got their
    whole range (a fetch that times out cuts it short, a finding), on a broker that
    answers no membership append as a duplicate. One trace, as the headers of the
    stored and of the published messages, goes from the sender of a command to the
    feeds. The router starts with its gates closed unless told otherwise, and
    before it has a password tries nothing but the trace exporter.
    Desired participation: histories are append-only and never move back, on the
    contract and on the PostgreSQL tables with failures; the runtime acknowledges
    only what the stored head covers, and replaces history by a snapshot only on
    the authority's own word; while its ports answer it converges: every command is
    acknowledged and the stored state is the history up to the greatest version that
    arrived, whatever the order of arrival. Deliveries: acceptance is
    idempotent, an acknowledgement is the one of an accepted authorization and is
    sent only under the stored hash, a claim
    token fences late workers, a completed acknowledgement stays completed, and
    as many healthy rounds as there are open acknowledgements complete all that are
    due. Routes: an interaction is visible only
    after its delivery was accepted, histories are append-only, the next fact is
    applied, and a settled version stays settled. SHA-256 is idealised there as
    injective ([collision_free]). Auth: credentials pin the author and keep the log
    to the router, except for the responses that subscribers and backends may send
    (and can provoke themselves, [response_permission_escapes]), readers are
    confined, and the service as started
    mints no backend where keys come from an endpoint. The findings are theorems and
    evaluated runs where the code does something else than its comments
    or its purpose say.

    ** Bounds and fuel

    The refold loops recurse on the remaining attempts (maxRefold). The loop of
    the JetStream replay runs on fuel; [js_Replay_contract] proves that one round
    per message of the subject is enough. The run of a leader ([feed_run]) takes
    fuel too; [feed_catches_up] proves MaxDeliver deliveries for each message left
    enough. [prune_lru] recurses on the size of the cache. Programs of the route
    projection are finite trees and need no fuel; a transaction counts its
    statements, and "the database answers" means that no statement from the
    current count on fails. Polling loops recurse on the list of answers they are
    given. Times are integers (nanoseconds where the code uses [time.Duration],
    microseconds in timestamptz columns).

    ** Not modelled

    The Prometheus registry and its counters, and the JSON formatting of log lines
    (nothing in the program reads them); the OpenTelemetry SDK, represented by what
    it documents; generated protobuf code beyond the message types; and the
    operation of NATS and PostgreSQL themselves, which are represented by their
    documented behaviour. *)

From stdpp Require Export pretty.
From stdpp Require Export base tactics list gmap strings sorting.
From Stdlib Require Export ZArith NArith Lia Ascii Decidable.

(** * Scope, hint database and tactics of the development *)

Declare Scope relay_scope.
Delimit Scope relay_scope with relay.

Create HintDb relay discriminated.

(** [split_and_all] breaks every conjunction of the context and the goal. *)
Ltac split_and_all := destruct_and?; repeat split.

(** [case_all] splits on every [match] and [if] of the goal, discarding the
    branches an equation of the context rules out. *)
Ltac case_all :=
  repeat (case_match || case_decide || case_bool_decide); simplify_eq/=.

(** [case_in H] does the same for a hypothesis. *)
Ltac case_in H :=
  repeat match type of H with
  | context [decide ?P] => destruct (decide P); simplify_eq/=
  | context [match ?x with _ => _ end] =>
      let E := fresh "E" in destruct x eqn:E; simplify_eq/=
  end.

(** [split_not_or] turns refuted disjunctions of the context into the refutations
    of their parts, double negations and refuted booleans resolved. *)
Ltac split_not_or :=
  repeat match goal with
  | H : ¬ (_ ∨ _) |- _ => apply Decidable.not_or in H; destruct H
  | H : ¬ (_ ≠ _) |- _ => apply dec_stable in H
  | H : _ ≠ false |- _ => apply not_false_iff_true in H
  end.

(** [done_with] closes a goal by the development's hints, then arithmetic. *)
Ltac done_with := solve [ done | eauto with relay | lia | naive_solver ].

(** * Machine integers

    Go's [uint64] and [int64] are integers with wrap-around written out. *)

Definition two63 : Z := 9223372036854775808%Z.
Definition two64 : Z := 18446744073709551616%Z.

(** [u64 z] is the value of the mathematical integer [z] as a [uint64]. *)
Definition u64 (z : Z) : Z := (z `mod` two64)%Z.

(** [i64 z] is the value of [z] as an [int64] (two's complement). *)
Definition i64 (z : Z) : Z := ((z + two63) `mod` two64 - two63)%Z.

Definition in_u64 (z : Z) : Prop := (0 <= z < two64)%Z.
Definition in_i64 (z : Z) : Prop := (- two63 <= z < two63)%Z.

Lemma u64_id z : in_u64 z → u64 z = z.
Proof. unfold in_u64, u64. intros. by apply Z.mod_small. Qed.

Lemma u64_range z : in_u64 (u64 z).
Proof. unfold in_u64, u64. apply Z.mod_pos_bound. done. Qed.

Lemma i64_id z : in_i64 z → i64 z = z.
Proof.
  unfold in_i64, i64. intros. rewrite Z.mod_small; unfold two63, two64 in *; lia.
Qed.

Lemma i64_range z : in_i64 (i64 z).
Proof.
  unfold in_i64, i64.
  pose proof (Z.mod_pos_bound (z + two63) two64 ltac:(done)).
  unfold two63, two64 in *; lia.
Qed.

#[export] Hint Resolve u64_range i64_range : relay.

(** * Strings

    A Go string is a sequence of bytes; [string] is that sequence. *)

(** Concatenation reduces on a known first character. *)
#[global] Arguments String.append !_ _ : simpl nomatch.

Definition str_eqb (a b : string) : bool := bool_decide (a = b).

Lemma str_eqb_refl a : str_eqb a a = true.
Proof. by apply bool_decide_true. Qed.

Lemma str_eqb_eq a b : str_eqb a b = true ↔ a = b.
Proof. apply bool_decide_eq_true. Qed.

Lemma str_eqb_neq a b : str_eqb a b = false ↔ a ≠ b.
Proof. apply bool_decide_eq_false. Qed.

(** [has_char c s]: the byte [c] occurs in [s]. *)
Fixpoint has_char (c : ascii) (s : string) : bool :=
  match s with
  | EmptyString => false
  | String a s' => bool_decide (a = c) || has_char c s'
  end.

(** [split_on c s] is Go's [strings.Split(s, c)] for a one-byte separator. *)
Fixpoint split_on (c : ascii) (s : string) : list string :=
  match s with
  | EmptyString => [""]
  | String a s' =>
      if decide (a = c) then "" :: split_on c s'
      else match split_on c s' with
           | [] => [String a ""]
           | t :: ts => String a t :: ts
           end
  end.

(** [join_on c l] is Go's [strings.Join(l, c)]. *)
Fixpoint join_on (c : ascii) (l : list string) : string :=
  match l with
  | [] => ""
  | [t] => t
  | t :: ts => t +:+ String c (join_on c ts)
  end.

Lemma str_app_nil_r s : s +:+ "" = s.
Proof. induction s as [|a s IH]; simpl; [done|by rewrite IH]. Qed.

Lemma str_app_assoc a b c : (a +:+ b) +:+ c = a +:+ (b +:+ c).
Proof. induction a as [|x a IH]; simpl; [done|by rewrite IH]. Qed.

Lemma str_length_app a b : String.length (a +:+ b) = String.length a + String.length b.
Proof. induction a as [|x a IH]; simpl; [done|by rewrite IH]. Qed.

Lemma str_app_inj_len a b c d :
  String.length a = String.length c → a +:+ b = c +:+ d → a = c ∧ b = d.
Proof.
  revert c. induction a as [|x a IH]; intros [|y c] Hl He; simplify_eq/=; [done|].
  by destruct (IH c) as [-> ->].
Qed.

Lemma str_app_inj_l a b c : a +:+ b = a +:+ c → b = c.
Proof. intros. by eapply (str_app_inj_len a b a c). Qed.

Lemma str_app_inj_r a b c : a +:+ c = b +:+ c → a = b.
Proof.
  intros H. eapply (str_app_inj_len a c b c); [|done].
  apply (f_equal String.length) in H. rewrite !str_length_app in H. lia.
Qed.

Lemma has_char_app c s t : has_char c (s +:+ t) = has_char c s || has_char c t.
Proof. induction s as [|a s IH]; simpl; [done|]. by rewrite IH, orb_assoc. Qed.

Lemma split_on_nonempty c s : split_on c s ≠ [].
Proof. destruct s; simpl; [done|]. by repeat case_match. Qed.

Lemma split_on_tok c t : has_char c t = false → split_on c t = [t].
Proof.
  induction t as [|a t IH]; simpl; [done|].
  intros [Ha%bool_decide_eq_false Ht]%orb_false_iff.
  rewrite decide_False by done. by rewrite IH.
Qed.

Lemma split_on_cons c t s :
  has_char c t = false → split_on c (t +:+ String c s) = t :: split_on c s.
Proof.
  induction t as [|a t IH]; simpl.
  - intros _. by rewrite decide_True.
  - intros [Ha%bool_decide_eq_false Ht]%orb_false_iff.
    rewrite decide_False by done. by rewrite IH.
Qed.

(** Splitting gives back the tokens that were joined, when none of them holds
    the separator: the fact behind every subject parser of the program. *)
Lemma split_join c l :
  l ≠ [] → Forall (λ t, has_char c t = false) l → split_on c (join_on c l) = l.
Proof.
  intros Hne Hl. induction Hl as [|t l Ht Hl IH]; [done|].
  destruct l as [|u l]; [by apply split_on_tok|].
  change (join_on c (t :: u :: l)) with (t +:+ String c (join_on c (u :: l))).
  rewrite split_on_cons by done. by rewrite IH.
Qed.

Lemma join_split c s : join_on c (split_on c s) = s.
Proof.
  induction s as [|a s IH]; simpl; [done|].
  pose proof (split_on_nonempty c s) as Hne.
  destruct (decide (a = c)) as [->|].
  - destruct (split_on c s) as [|t ts]; [done|].
    simpl. by rewrite <-IH.
  - destruct (split_on c s) as [|t ts]; [done|].
    destruct ts; simpl in *; by rewrite <-IH.
Qed.

Lemma split_on_no_sep c s : Forall (λ t, has_char c t = false) (split_on c s).
Proof.
  induction s as [|a s IH]; simpl; [by constructor|].
  destruct (decide (a = c)) as [->|].
  - by constructor.
  - destruct (split_on c s) as [|t ts] eqn:E.
    + constructor; [simpl|done]. by rewrite bool_decide_eq_false_2.
    + inv IH. constructor; [|done]. simpl. by rewrite bool_decide_eq_false_2.
Qed.

(** Two strings of the shape [t + c + rest] agree on the first token. *)
Lemma tok_sep_inj c t s t' s' :
  has_char c t = false → has_char c t' = false →
  t +:+ String c s = t' +:+ String c s' → t = t' ∧ s = s'.
Proof.
  revert t'. induction t as [|a t IH]; intros [|b t'] Ht Ht' He; simplify_eq/=.
  - done.
  - by rewrite bool_decide_eq_true_2 in Ht'.
  - by rewrite bool_decide_eq_true_2 in Ht.
  - apply orb_false_iff in Ht as [_ Ht]. apply orb_false_iff in Ht' as [_ Ht'].
    by destruct (IH t') as [-> ->].
Qed.

(** * Lists *)

Lemma last_snoc_eq {A} (l : list A) x : last (l ++ [x]) = Some x.
Proof. apply last_snoc. Qed.

Lemma foldl_snoc {A B} (f : A → B → A) a l x : foldl f a (l ++ [x]) = f (foldl f a l) x.
Proof. by rewrite foldl_app. Qed.

Lemma filter_none {A} (P : A → Prop) `{!∀ x, Decision (P x)} l :
  Forall (λ x, ¬ P x) l → filter P l = [].
Proof. induction 1 as [|x l Hx Hl IH]; [done|]. by rewrite filter_cons_False. Qed.

Lemma take_lookup_snoc {A} (l : list A) n x :
  l !! n = Some x → take (S n) l = take n l ++ [x].
Proof. apply take_S_r. Qed.

(** [mapM] in the option monad over a concatenation. *)
Lemma mapM_app_option {A B} (f : A → option B) l k :
  mapM f (l ++ k) = x ← mapM f l; y ← mapM f k; Some (x ++ y).
Proof.
  induction l as [|a l IH]; simpl; [by destruct (mapM f k)|].
  destruct (f a); simpl; [|done]. rewrite IH.
  destruct (mapM f l); simpl; [|done]. by destruct (mapM f k).
Qed.

Lemma mapM_length_option {A B} (f : A → option B) l k :
  mapM f l = Some k → length k = length l.
Proof.
  revert k. induction l as [|a l IH]; intros k; simpl; [by intros [= <-]|].
  destruct (f a); simpl; [|done]. destruct (mapM f l) eqn:E; simpl; [|done].
  intros [= <-]. simpl. f_equal. by apply IH.
Qed.

(** * Decimal printing, as [%d] *)

Definition fmt_d (z : Z) : string := pretty z.

Lemma fmt_d_inj z z' : fmt_d z = fmt_d z' → z = z'.
Proof. apply (inj pretty). Qed.

Lemma pretty_N_go_no_char c x s :
  (∀ n, pretty_N_char n ≠ c) → has_char c s = false → has_char c (pretty_N_go x s) = false.
Proof.
  intros Hc. revert s. induction (N.lt_wf_0 x) as [x _ IH]; intros s Hs.
  assert (x = 0 ∨ 0 < x)%N as [->|?] by lia; [done|].
  rewrite pretty_N_go_step by done. apply IH; [by apply N.div_lt|]. simpl.
  rewrite Hs, orb_false_r. apply bool_decide_eq_false. intros He. by destruct (Hc (x `mod` 10)%N).
Qed.

Lemma fmt_d_no_char c z :
  (∀ n, pretty_N_char n ≠ c) → c ≠ "-"%char → has_char c (fmt_d z) = false.
Proof.
  intros Hc Hd. unfold fmt_d, pretty, pretty_Z, pretty, pretty_positive, pretty, pretty_N.
  assert (c ≠ "0"%char) by (intros ->; by destruct (Hc 0%N)).
  destruct z as [|p|p]; [simpl; by rewrite bool_decide_eq_false_2 by done|..]; case_decide; try done.
  - by apply pretty_N_go_no_char.
  - simpl. rewrite bool_decide_eq_false_2 by done. by apply pretty_N_go_no_char.
Qed.

Lemma fmt_d_no_dot z : has_char "." (fmt_d z) = false.
Proof. apply fmt_d_no_char; [intros n; unfold pretty_N_char; by repeat case_match|done]. Qed.

(** The last token of a separated string is determined by the string. *)
Lemma tok_sep_inj_r c s t s' t' :
  has_char c t = false → has_char c t' = false →
  s +:+ String c t = s' +:+ String c t' → s = s' ∧ t = t'.
Proof.
  intros Ht Ht'. revert s'.
  assert (∀ x u v, has_char c u = false → u = x +:+ String c v → False) as Hno.
  { intros x u v Hu ->. rewrite has_char_app in Hu. simpl in Hu.
    rewrite bool_decide_eq_true_2, orb_true_r in Hu by done. done. }
  induction s as [|a s IH]; intros [|a' s'] He; simpl in He.
  - by injection He as ->.
  - injection He as -> He. by destruct (Hno s' t t').
  - injection He as -> He. by destruct (Hno s t' t).
  - injection He as -> He. by apply IH in He as [-> ->].
Qed.

Lemma filter_true {A} (P : A → Prop) `{!∀ x, Decision (P x)} l : Forall P l → filter P l = l.
Proof. induction 1 as [|x l Hx Hl IH]; [done|]. by rewrite filter_cons_True, IH. Qed.
