(* ===== verification/Bytes.v ===== *)
(** Byte-level encodings the program shares: the big-endian 64-bit integer of
    encoding/binary, the length-prefixed framing that feeds every SHA-256 of the
    program (signaling/router.go hashPayload, delivery/service.go writeHashPart,
    routeprojection/projector.go writePart), encoding/hex, and the comparison of hashes
    (bytesEqual of participation/projector.go and participationpg/store.go). *)

From S2P Require Import Prelude.

(** * Big-endian integers *)

(** The [k] low bytes of [n], most significant first. *)
Fixpoint be_bytes (k : nat) (n : N) : string :=
  match k with
  | O => ""
  | S k' => be_bytes k' (n / 256) +:+ String (ascii_of_N (n mod 256)) ""
  end.

(** [binary.BigEndian.PutUint64]. *)
Definition be64 (n : N) : string := be_bytes 8 n.

Lemma be_bytes_length k n : String.length (be_bytes k n) = k.
Proof.
  revert n. induction k as [|k IH]; intros n; simpl; [done|].
  rewrite str_length_app, IH. simpl. lia.
Qed.

Lemma ascii_of_N_inj_small n m :
  (n < 256)%N → (m < 256)%N → ascii_of_N n = ascii_of_N m → n = m.
Proof.
  intros Hn Hm H. rewrite <-(N_ascii_embedding n), <-(N_ascii_embedding m) by done.
  by rewrite H.
Qed.

Lemma be_bytes_inj k n m :
  (n < 256 ^ N.of_nat k)%N → (m < 256 ^ N.of_nat k)%N →
  be_bytes k n = be_bytes k m → n = m.
Proof.
  revert n m. induction k as [|k IH]; intros n m Hn Hm He; [simpl in *; lia|].
  rewrite Nat2N.inj_succ, N.pow_succ_r' in Hn, Hm. simpl in He.
  apply str_app_inj_len in He as [Hd Hr]; [|by rewrite !be_bytes_length].
  injection Hr as Hr%ascii_of_N_inj_small; [|by apply N.mod_lt..].
  apply IH in Hd; [|apply N.Div0.div_lt_upper_bound; lia..].
  rewrite (N.div_mod n 256), (N.div_mod m 256) by done. by rewrite Hd, Hr.
Qed.

Lemma be64_inj n m :
  (n < 18446744073709551616)%N → (m < 18446744073709551616)%N →
  be64 n = be64 m → n = m.
Proof. apply (be_bytes_inj 8). Qed.

(** * Length-prefixed framing *)

(** One part: its length as 8 bytes, then its bytes. *)
Definition put_part (b : string) : string := be64 (N.of_nat (String.length b)) +:+ b.

(** The byte stream written to the hasher for a list of parts. *)
Fixpoint put_parts (bs : list string) : string :=
  match bs with
  | [] => ""
  | b :: bs' => put_part b +:+ put_parts bs'
  end.

Lemma put_part_length b : String.length (put_part b) = 8 + String.length b.
Proof. unfold put_part, be64. by rewrite str_length_app, be_bytes_length. Qed.

(** A Go value's length fits a uint64. *)
Definition len_ok (b : string) : Prop :=
  (N.of_nat (String.length b) < 18446744073709551616)%N.

Lemma put_part_app_inj b b' s s' :
  len_ok b → len_ok b' → put_part b +:+ s = put_part b' +:+ s' → b = b' ∧ s = s'.
Proof.
  unfold put_part. intros Hb Hb' He. rewrite !str_app_assoc in He.
  apply str_app_inj_len in He as [Hl He]; [|unfold be64; by rewrite !be_bytes_length].
  apply be64_inj in Hl; [|done..]. apply Nat2N.inj in Hl.
  by apply str_app_inj_len in He.
Qed.

(** The framing is injective: two part lists with the same byte stream are the
    same list, whatever bytes the parts hold. *)
Lemma put_parts_inj bs bs' :
  Forall len_ok bs → Forall len_ok bs' → put_parts bs = put_parts bs' → bs = bs'.
Proof.
  intros Hb. revert bs'. induction Hb as [|b bs Hb Hbs IH]; intros bs' Hb' He.
  - destruct bs' as [|b' bs']; [done|].
    apply (f_equal String.length) in He. cbn [put_parts] in He.
    rewrite str_length_app, put_part_length in He. simpl in He. lia.
  - destruct bs' as [|b' bs']; [|apply Forall_cons in Hb' as [??]].
    + apply (f_equal String.length) in He. cbn [put_parts] in He.
      rewrite str_length_app, put_part_length in He. simpl in He. lia.
    + cbn [put_parts] in He. apply put_part_app_inj in He as [-> He]; [|done..].
      f_equal. by apply IH.
Qed.

(** * Comparison *)

(** [bytesEqual]: the lengths, then byte by byte. *)
Definition bytesEqual (left right : string) : bool :=
  if decide (String.length left ≠ String.length right) then false
  else forallb (λ index, bool_decide (String.get index left = String.get index right)) (seq 0 (String.length left)).

Lemma forallb_seq_S (f : nat → bool) k n : forallb f (seq (S k) n) = forallb (λ i, f (S i)) (seq k n).
Proof. revert k. induction n as [|n IH]; intros k; simpl; [done|]. by rewrite IH. Qed.

(** The loop decides equality, which is what the models of its callers test. *)
Lemma bytesEqual_spec left right : bytesEqual left right = bool_decide (left = right).
Proof.
  unfold bytesEqual. revert right. induction left as [|x left IH]; intros [|y right]; try done.
  cbn [String.length seq forallb String.get]. rewrite forallb_seq_S. cbn [String.get]. specialize (IH right).
  destruct (decide (String.length left = String.length right)) as [Hl|Hl].
  - rewrite decide_False in IH by tauto. rewrite decide_False by congruence. rewrite IH.
    rewrite <-bool_decide_and. apply bool_decide_ext. naive_solver.
  - rewrite decide_True by congruence. symmetry. apply bool_decide_eq_false. naive_solver.
Qed.

(** * Hexadecimal *)

Definition hex_digit (n : N) : ascii :=
  if (n <? 10)%N then ascii_of_N (48 + n) else ascii_of_N (87 + n).

(** [encoding/hex.EncodeToString]. *)
Fixpoint hex_encode (s : string) : string :=
  match s with
  | EmptyString => ""
  | String c s' =>
      String (hex_digit (N_of_ascii c / 16))
        (String (hex_digit (N_of_ascii c mod 16)) (hex_encode s'))
  end.

Definition hex_val (c : ascii) : option N :=
  let n := N_of_ascii c in
  if ((48 <=? n) && (n <=? 57))%N then Some (n - 48)%N
  else if ((97 <=? n) && (n <=? 102))%N then Some (n - 87)%N
  else None.

Fixpoint hex_decode (s : string) : option string :=
  match s with
  | EmptyString => Some ""
  | String a (String b s') =>
      match hex_val a, hex_val b, hex_decode s' with
      | Some x, Some y, Some r => Some (String (ascii_of_N (16 * x + y)) r)
      | _, _, _ => None
      end
  | _ => None
  end.

Lemma hex_val_byte c :
  hex_val (hex_digit (N_of_ascii c / 16)) = Some (N_of_ascii c / 16)%N ∧
  hex_val (hex_digit (N_of_ascii c mod 16)) = Some (N_of_ascii c mod 16)%N.
Proof. destruct c as [[] [] [] [] [] [] [] []]; split; reflexivity. Qed.

Lemma hex_decode_encode s : hex_decode (hex_encode s) = Some s.
Proof.
  induction s as [|c s IH]; [done|]. cbn [hex_encode hex_decode].
  destruct (hex_val_byte c) as [-> ->]. rewrite IH.
  rewrite <-N.div_mod by done. by rewrite ascii_N_embedding.
Qed.

Lemma hex_encode_inj s t : hex_encode s = hex_encode t → s = t.
Proof.
  intros H. apply (f_equal hex_decode) in H. rewrite !hex_decode_encode in H. by injection H.
Qed.

(** A byte that [isHex] (internal/obs/trace.go) accepts. *)
Definition is_hex_char (c : ascii) : bool :=
  let n := N_of_ascii c in
  (((48 <=? n) && (n <=? 57)) || ((97 <=? n) && (n <=? 102)))%N.

Fixpoint str_forallb (f : ascii → bool) (s : string) : bool :=
  match s with
  | EmptyString => true
  | String c s' => f c && str_forallb f s'
  end.

Lemma str_forallb_app f s t :
  str_forallb f (s +:+ t) = str_forallb f s && str_forallb f t.
Proof. induction s as [|c s IH]; simpl; [done|]. by rewrite IH, andb_assoc. Qed.

Lemma hex_encode_is_hex s : str_forallb is_hex_char (hex_encode s) = true.
Proof.
  induction s as [|c s IH]; [done|]. cbn [hex_encode str_forallb]. rewrite IH.
  destruct c as [[] [] [] [] [] [] [] []]; reflexivity.
Qed.

Lemma hex_encode_length s : String.length (hex_encode s) = 2 * String.length s.
Proof. induction s as [|c s IH]; simpl; [done|]. rewrite IH. lia. Qed.
