(* ===== verification/Wire.v ===== *)
(** The protobuf messages of the signaling plane (proto/relaypoint/interaction/v1,
    generated Go types in gen/go/relaypoint/interaction/v1/interaction.pb.go) as
    records, with the constants of signaling/envelope.go. A [bytes] field is a
    [string] of bytes; a timestamp is its count of nanoseconds. *)

From S2P Require Import Prelude.

(** A durable fact of an interaction's [.log]. *)
Record Event := mkEvent {
  ev_Schema : string;
  ev_EventType : string;
  ev_EventId : string;
  ev_Sequence : Z;
  ev_OccurredAt : Z;
  ev_TenantId : string;
  ev_ActorId : string;
  ev_Medium : string;
  ev_MediaProfile : string;
  ev_CommandId : string;
  ev_PayloadHash : string;
  ev_CausedBy : string;
  ev_RefId : string;
  ev_Data : string;
  ev_CommandedBy : string;
  ev_Reason : string;
  ev_RequestId : string;
}.

(** A client command, published on [tenant.T.interaction.I.cmd.SELF]. *)
Record Command := mkCommand {
  cmd_CommandId : string;
  cmd_TenantId : string;
  cmd_ActorId : string;
  cmd_Type : string;
  cmd_Medium : string;
  cmd_RefId : string;
  cmd_Data : string;
}.

Inductive Status := STATUS_UNSPECIFIED | STATUS_ACCEPTED | STATUS_REJECTED.

Record CommandResult := mkResult {
  res_CommandId : string;
  res_Status : Status;
  res_CausedBy : string;
  res_Reason : string;
}.

(** The revocation tombstone of an agent feed. *)
Record FeedControl := mkFeedControl {
  fc_Schema : string;
  fc_Control : string;
  fc_InteractionId : string;
  fc_AtSequence : Z;
}.

Definition SchemaV1 : string := "relaypoint.interaction.v1".

#[export] Instance Status_eq_dec : EqDecision Status.
Proof. solve_decision. Defined.
#[export] Instance Event_eq_dec : EqDecision Event.
Proof. solve_decision. Defined.
#[export] Instance Command_eq_dec : EqDecision Command.
Proof. solve_decision. Defined.
#[export] Instance CommandResult_eq_dec : EqDecision CommandResult.
Proof. solve_decision. Defined.

(** A rejection carrying the command's id. *)
Definition rejected (cid reason : string) : CommandResult :=
  mkResult cid STATUS_REJECTED "" reason.

(** An acceptance: [caused_by] is the command's own id. *)
Definition accepted (cid : string) : CommandResult :=
  mkResult cid STATUS_ACCEPTED cid "".

(** [orDefault] of signaling/router.go. *)
Definition orDefault (v d : string) : string := if decide (v = "") then d else v.

(** The two membership facts ([isParticipationFact] of signaling/router.go). *)
Definition isParticipationFact (t : string) : bool :=
  bool_decide (t = "participant.joined") || bool_decide (t = "participant.left").
