(* ===== verification/Membership.v ===== *)
(** Membership of an interaction, folded from its [.log]
    (internal/signaling/participation.go). The view is the single source both
    the router's write gate and the feed projector's fan-out read. *)

From S2P Require Import Prelude Wire.

(** Membership as a range of log sequences; [LeftOpen] is the open end. *)
Record Interval := mkInterval {
  JoinSeq : Z;
  LeftSeq : Z;
  LeftOpen : bool;
}.

#[export] Instance Interval_eq_dec : EqDecision Interval.
Proof. solve_decision. Defined.

(** [ParticipationView.intervals]. *)
Abbreviation ParticipationView := (gmap string (list Interval)).

Definition NewParticipationView : ParticipationView := ∅.

(** [cur := v.intervals[agent]]: a missing key reads as the nil slice. *)
Definition cur_intervals (v : ParticipationView) (agent : string) : list Interval :=
  default [] (v !! agent).

(** The last interval of a slice is open. *)
Definition last_open (cur : list Interval) : bool :=
  match last cur with Some i => LeftOpen i | None => false end.

Definition open_interval (agent : string) (seq : Z) (v : ParticipationView) : ParticipationView :=
  let cur := cur_intervals v agent in
  if last_open cur then v
  else <[agent := cur ++ [mkInterval seq 0 true]]> v.

(** The loop of [close], on the slice in reverse order. *)
Fixpoint close_rev (seq : Z) (rcur : list Interval) : list Interval :=
  match rcur with
  | [] => []
  | i :: r => if LeftOpen i then mkInterval (JoinSeq i) seq false :: r
              else i :: close_rev seq r
  end.

Definition close_interval (agent : string) (seq : Z) (v : ParticipationView) : ParticipationView :=
  match v !! agent with
  | None => v
  | Some cur => <[agent := rev (close_rev seq (rev cur))]> v
  end.

Definition ApplyFact (v : ParticipationView) (e : Event) : ParticipationView :=
  if decide (ev_EventType e = "participant.joined") then
    open_interval (ev_ActorId e) (ev_Sequence e) v
  else if decide (ev_EventType e = "participant.left") then
    close_interval (ev_ActorId e) (ev_Sequence e) v
  else v.

Definition FoldParticipation (facts : list Event) : ParticipationView :=
  foldl ApplyFact NewParticipationView facts.

Definition IsParticipantNow (v : ParticipationView) (agent : string) : bool :=
  last_open (cur_intervals v agent).

(** [Agents] ranges over the map, in an order the language leaves open. *)
Definition Agents (v : ParticipationView) : list string := (map_to_list v).*1.

(** [Intervals] copies the slice; a missing agent gives nil. *)
Definition Intervals (v : ParticipationView) (agent : string) : list Interval :=
  cur_intervals v agent.

(** [SetIntervals] ignores an empty slice. *)
Definition SetIntervals (agent : string) (ins : list Interval) (v : ParticipationView) : ParticipationView :=
  match ins with [] => v | _ => <[agent := ins]> v end.

(** * The abstract account of membership

    A fact about [agent] moves it in or out; the last such fact decides. *)

Definition moves (agent : string) (e : Event) : option bool :=
  if decide (ev_ActorId e = agent) then
    if decide (ev_EventType e = "participant.joined") then Some true
    else if decide (ev_EventType e = "participant.left") then Some false
    else None
  else None.

Definition member_step (agent : string) (b : bool) (e : Event) : bool :=
  default b (moves agent e).

Definition is_member (agent : string) (facts : list Event) : bool :=
  foldl (member_step agent) false facts.

(** * Well-formed views: only the last interval of an agent is open *)

Definition ints_wf (l : list Interval) : Prop :=
  l ≠ [] ∧ ∀ i n, l !! n = Some i → LeftOpen i = true → n = pred (length l).

Definition view_wf (v : ParticipationView) : Prop :=
  map_Forall (λ _ l, ints_wf l) v.

(** [closed l]: no interval of [l] is open. *)
Definition all_closed (l : list Interval) : Prop := Forall (λ i, LeftOpen i = false) l.

Lemma ints_wf_snoc l i : all_closed l → ints_wf (l ++ [i]).
Proof.
  intros Hl. split; [by destruct l|]. intros j n Hj Hopen.
  rewrite length_app. simpl.
  apply lookup_app_Some in Hj as [Hj|[Hn Hj]].
  - eapply Forall_lookup_1 in Hl; [|done]. congruence.
  - apply list_lookup_singleton_Some in Hj as [? ?]. lia.
Qed.

Lemma ints_wf_inv l : ints_wf l → ∃ l' i, l = l' ++ [i] ∧ all_closed l'.
Proof.
  intros [Hne Hl]. destruct (exists_last Hne) as (l' & i & ->).
  exists l', i. split; [done|]. apply Forall_lookup_2. intros n j Hj.
  destruct (LeftOpen j) eqn:Ho; [|done].
  apply (Hl j n) in Ho; [|by apply lookup_app_l_Some].
  apply lookup_lt_Some in Hj. rewrite length_app in Ho. simpl in Ho. lia.
Qed.

Lemma last_open_snoc l i : last_open (l ++ [i]) = LeftOpen i.
Proof. unfold last_open. by rewrite last_snoc. Qed.

Lemma ints_wf_closed l : ints_wf l → last_open l = false → all_closed l.
Proof.
  intros (l' & i & -> & Hl)%ints_wf_inv Ho. rewrite last_open_snoc in Ho.
  apply Forall_app. split; [done|]. by constructor.
Qed.

Lemma close_rev_closed seq l : all_closed l → close_rev seq l = l.
Proof. induction 1 as [|i l Hi Hl IH]; simpl; [done|]. by rewrite Hi, IH. Qed.

Lemma close_snoc seq l i :
  all_closed l →
  rev (close_rev seq (rev (l ++ [i]))) =
    l ++ [if LeftOpen i then mkInterval (JoinSeq i) seq false else i].
Proof.
  intros Hl. rewrite rev_app_distr. simpl. destruct (LeftOpen i); simpl.
  - by rewrite rev_involutive.
  - rewrite close_rev_closed; [by rewrite rev_involutive|].
    by apply List.Forall_rev.
Qed.

Lemma view_wf_empty : view_wf NewParticipationView.
Proof. apply map_Forall_empty. Qed.

Lemma view_wf_open a s v : view_wf v → view_wf (open_interval a s v).
Proof.
  intros Hv. unfold open_interval. destruct (last_open _) eqn:Ho; [done|].
  apply map_Forall_insert_2; [|done]. apply ints_wf_snoc.
  unfold cur_intervals in *. destruct (v !! a) as [l|] eqn:E; simpl in *; [|by apply Forall_nil].
  apply ints_wf_closed; [|done]. by apply (Hv a).
Qed.

Lemma view_wf_close a s v : view_wf v → view_wf (close_interval a s v).
Proof.
  intros Hv. unfold close_interval. destruct (v !! a) as [l|] eqn:E; [|done].
  apply map_Forall_insert_2; [|done].
  destruct (ints_wf_inv _ (Hv a l E)) as (l' & i & -> & Hl).
  rewrite close_snoc by done. by apply ints_wf_snoc.
Qed.

Lemma view_wf_apply v e : view_wf v → view_wf (ApplyFact v e).
Proof.
  intros. unfold ApplyFact. repeat case_decide; auto using view_wf_open, view_wf_close.
Qed.

Lemma view_wf_fold v facts : view_wf v → view_wf (foldl ApplyFact v facts).
Proof.
  revert v. induction facts as [|e fs IH]; simpl; auto using view_wf_apply.
Qed.

#[export] Hint Resolve view_wf_empty view_wf_apply view_wf_fold : relay.

(** * The view agrees with the abstract account *)

Lemma cur_insert v a l b :
  cur_intervals (<[a := l]> v) b = if decide (a = b) then l else cur_intervals v b.
Proof. unfold cur_intervals. rewrite lookup_insert. by case_decide. Qed.

Lemma now_open a s v b :
  IsParticipantNow (open_interval a s v) b =
    if decide (a = b) then true else IsParticipantNow v b.
Proof.
  unfold IsParticipantNow, open_interval.
  destruct (last_open (cur_intervals v a)) eqn:Ho.
  - case_decide; naive_solver.
  - rewrite cur_insert. case_decide; [|done]. by rewrite last_open_snoc.
Qed.

Lemma now_close a s v b :
  view_wf v →
  IsParticipantNow (close_interval a s v) b =
    if decide (a = b) then false else IsParticipantNow v b.
Proof.
  intros Hv. unfold IsParticipantNow, close_interval.
  destruct (v !! a) as [l|] eqn:E.
  - rewrite cur_insert. case_decide; [|done].
    destruct (ints_wf_inv _ (Hv a l E)) as (l' & i & -> & Hl).
    rewrite close_snoc, last_open_snoc by done. by destruct (LeftOpen i) eqn:?.
  - case_decide; [|done]. subst. unfold cur_intervals. by rewrite E.
Qed.

Lemma now_apply v e a :
  view_wf v → IsParticipantNow (ApplyFact v e) a = member_step a (IsParticipantNow v a) e.
Proof.
  intros Hv. unfold ApplyFact, member_step, moves.
  repeat case_decide; simplify_eq; try done;
    rewrite ?now_open, ?now_close by done; case_decide; done.
Qed.

Lemma now_fold v facts a :
  view_wf v →
  IsParticipantNow (foldl ApplyFact v facts) a =
    foldl (member_step a) (IsParticipantNow v a) facts.
Proof.
  revert v. induction facts as [|e fs IH]; intros v Hv; simpl; [done|].
  rewrite IH by eauto with relay. by rewrite now_apply.
Qed.

Lemma fold_participation_snoc facts e :
  FoldParticipation (facts ++ [e]) = ApplyFact (FoldParticipation facts) e.
Proof. unfold FoldParticipation. apply foldl_snoc. Qed.

(** * Re-applying a fact *)

Lemma open_idem a s v : open_interval a s (open_interval a s v) = open_interval a s v.
Proof.
  pose proof (now_open a s v a) as H. rewrite decide_True in H by done.
  unfold open_interval at 1. unfold IsParticipantNow in H. by rewrite H.
Qed.

Lemma close_idem a s v :
  view_wf v → close_interval a s (close_interval a s v) = close_interval a s v.
Proof.
  intros Hv. unfold close_interval at 2 3. destruct (v !! a) as [l|] eqn:E.
  - destruct (ints_wf_inv _ (Hv a l E)) as (l' & i & -> & Hl).
    rewrite close_snoc by done. unfold close_interval. rewrite lookup_insert_eq.
    rewrite close_snoc, insert_insert_eq by done. by destruct (LeftOpen i) eqn:Hi; simpl; rewrite ?Hi.
  - unfold close_interval. by rewrite E.
Qed.

Lemma ApplyFact_idem v e : view_wf v → ApplyFact (ApplyFact v e) e = ApplyFact v e.
Proof.
  intros. unfold ApplyFact. repeat case_decide; simplify_eq; try done;
    auto using open_idem, close_idem.
Qed.

(** * Bounds: every sequence number of a view is at most [s] *)

Definition view_le (v : ParticipationView) (s : Z) : Prop :=
  ∀ a i, i ∈ cur_intervals v a →
    (JoinSeq i <= s)%Z ∧ (LeftOpen i = false → (LeftSeq i <= s)%Z).

Lemma view_le_empty s : view_le NewParticipationView s.
Proof. intros a i Hi. unfold cur_intervals, NewParticipationView in Hi. rewrite lookup_empty in Hi. by apply not_elem_of_nil in Hi. Qed.

Lemma view_le_mono v s s' : (s <= s')%Z → view_le v s → view_le v s'.
Proof. intros Hs Hv a i Hi. destruct (Hv a i Hi) as [? H]. split; [lia|]. intros Ho. specialize (H Ho). lia. Qed.

Lemma close_rev_elem seq l i :
  i ∈ close_rev seq l → i ∈ l ∨ ∃ j, j ∈ l ∧ i = mkInterval (JoinSeq j) seq false.
Proof.
  induction l as [|j l IH]; simpl; [by left|]. intros Hi.
  destruct (LeftOpen j); apply elem_of_cons in Hi as [->|Hi]; set_solver.
Qed.

Lemma view_le_apply v e s :
  (ev_Sequence e <= s)%Z → view_le v s → view_le (ApplyFact v e) s.
Proof.
  intros Hs Hv. unfold ApplyFact. repeat case_decide; [| |done].
  - unfold open_interval. case_match; [done|]. intros b i. rewrite cur_insert.
    case_decide; [|by apply Hv]. intros [Hi| ->%list_elem_of_singleton]%elem_of_app; [by apply (Hv _ _ Hi)|].
    done.
  - unfold close_interval. destruct (v !! ev_ActorId e) as [l|] eqn:E; [|done].
    intros b i. rewrite cur_insert. case_decide; [|by apply Hv].
    assert (∀ j, j ∈ l → j ∈ cur_intervals v (ev_ActorId e)) as Hl
      by (intros; unfold cur_intervals; by rewrite E).
    intros Hi%list_elem_of_In%in_rev%list_elem_of_In.
    apply close_rev_elem in Hi as [Hi|(j & Hj & ->)].
    + apply list_elem_of_In, in_rev, list_elem_of_In in Hi. by apply (Hv (ev_ActorId e)), Hl.
    + apply list_elem_of_In, in_rev, list_elem_of_In, Hl in Hj. simpl.
      split; [by apply (Hv _ _ Hj)|done].
Qed.

Lemma view_le_fold facts s :
  Forall (λ f, (ev_Sequence f <= s)%Z) facts → view_le (FoldParticipation facts) s.
Proof.
  intros Hall. unfold FoldParticipation.
  induction facts as [|f facts IH] using rev_ind; [apply view_le_empty|].
  apply Forall_app in Hall as [? Hf]. rewrite Forall_singleton in Hf.
  rewrite foldl_snoc. apply view_le_apply; [done|by apply IH].
Qed.

(** * The view implements the abstract account *)

Lemma IsParticipantNow_fold facts agent :
  IsParticipantNow (FoldParticipation facts) agent = is_member agent facts.
Proof.
  unfold FoldParticipation, is_member. by rewrite now_fold by eauto with relay.
Qed.

Lemma ApplyFact_other v e : isParticipationFact (ev_EventType e) = false → ApplyFact v e = v.
Proof.
  unfold isParticipationFact, ApplyFact. intros [?%bool_decide_eq_false ?%bool_decide_eq_false]%orb_false_iff.
  by rewrite !decide_False.
Qed.

(** How one fact changes the intervals of one agent. *)
Lemma cur_apply v e a :
  cur_intervals (ApplyFact v e) a =
    match moves a e with
    | Some true => if last_open (cur_intervals v a) then cur_intervals v a
                   else cur_intervals v a ++ [mkInterval (ev_Sequence e) 0 true]
    | Some false => rev (close_rev (ev_Sequence e) (rev (cur_intervals v a)))
    | None => cur_intervals v a
    end.
Proof.
  unfold ApplyFact, moves. destruct (decide (ev_ActorId e = a)) as [<-|Hne].
  - repeat case_decide; [| |done].
    + unfold open_interval. destruct (last_open _); [done|]. rewrite cur_insert. by case_decide.
    + unfold close_interval. unfold cur_intervals at 2.
      destruct (v !! ev_ActorId e) as [l|] eqn:E; simpl.
      * rewrite cur_insert. by case_decide.
      * unfold cur_intervals. by rewrite E.
  - repeat case_decide; [| |done].
    + unfold open_interval. destruct (last_open _); [done|]. rewrite cur_insert. by case_decide.
    + unfold close_interval. destruct (v !! ev_ActorId e) as [l|]; [|done].
      rewrite cur_insert. by case_decide.
Qed.

Lemma cur_wf v a : view_wf v → cur_intervals v a = [] ∨ ints_wf (cur_intervals v a).
Proof. intros Hv. unfold cur_intervals. destruct (v !! a) as [l|] eqn:E; [right; by apply (Hv a)|by left]. Qed.
