(* ===== verification/Identity.v ===== *)
(** Authenticated identities (internal/signaling/identity.go) and how the router
    binary derives one from the subject a message arrived on (cmd/router/main.go). *)

From S2P Require Import Prelude.

Definition RoleAgent : string := "agent".
Definition RoleTrustedBackend : string := "trusted-backend".
Definition RoleVisitor : string := "visitor".
Definition CapabilityAgentFeed : string := "agent-feed".
Definition CapabilityAgentFeedAdminOperationObserver : string :=
  "agent-feed-admin-operation-observer".

(** The zero [ExpiresAt] ("no cap") is [None]. *)
Record Identity := mkIdentity {
  id_TenantID : string;
  id_UserID : string;
  id_Role : string;
  id_Capability : string;
  id_ConversationID : string;
  id_ExpiresAt : option Z;
}.

#[export] Instance Identity_eq_dec : EqDecision Identity.
Proof. solve_decision. Defined.

(** The zero value: what [IdentityFrom] gives on a context with no identity. *)
Definition noIdentity : Identity := mkIdentity "" "" "" "" "" None.

Definition RoleOf (id : Identity) : string := id_Role id.

Definition IsSubscriberCapability (capability : string) : bool :=
  bool_decide (capability = CapabilityAgentFeed)
  || bool_decide (capability = CapabilityAgentFeedAdminOperationObserver).

(** [isAuthenticated] of signaling/router.go. *)
Definition isAuthenticated (id : Identity) : bool :=
  negb (bool_decide (id_UserID id = "")) || negb (bool_decide (id_Role id = ""))
  || negb (bool_decide (id_Capability id = "")).

(** * cmd/router: identities from subjects *)

(** The UTF-8 encodings of the characters [unicode.IsSpace] accepts. *)
Definition bytes_of (l : list N) : string := String.concat "" ((λ n, String (ascii_of_N n) "") <$> l).
Definition spaces : list string :=
  bytes_of <$> [[9]; [10]; [11]; [12]; [13]; [32]; [194; 133]; [194; 160]; [225; 154; 128];
    [226; 128; 128]; [226; 128; 129]; [226; 128; 130]; [226; 128; 131]; [226; 128; 132]; [226; 128; 133];
    [226; 128; 134]; [226; 128; 135]; [226; 128; 136]; [226; 128; 137]; [226; 128; 138]; [226; 128; 168];
    [226; 128; 169]; [226; 128; 175]; [226; 129; 159]; [227; 128; 128]]%N.

(** The rest of [s] after the prefix [p]. *)
Fixpoint strip (p s : string) : option string :=
  match p, s with
  | EmptyString, _ => Some s
  | String a p', String b s' => if decide (a = b) then strip p' s' else None
  | _, _ => None
  end.

(** Removes leading members of [cut], at most [n] of them. *)
Fixpoint trim (cut : list string) (n : nat) (s : string) : string :=
  match n with
  | O => s
  | S n' => match head (omap (λ p, strip p s) cut) with Some s' => trim cut n' s' | None => s end
  end.

(** [strings.TrimSpace]; a string has at most as many characters as bytes. *)
Definition TrimSpace (s : string) : string :=
  let t := trim spaces (String.length s) s in
  String.rev (trim (String.rev <$> spaces) (String.length t) (String.rev t)).

Example TrimSpace_ideographic : TrimSpace (bytes_of [32; 227; 128; 128] +:+ "a b" +:+ bytes_of [226; 128; 138; 10])%N = "a b".
Proof. reflexivity. Qed.

(** [trustedSet]: the operator's comma-separated backends. *)
Definition trustedSet (csv : string) : gset string :=
  list_to_set (filter (λ s, s ≠ "") (TrimSpace <$> split_on "," csv)).

Definition identityFromSubject (subject : string) (trusted : gset string) : Identity :=
  match split_on "." subject with
  | [_; p1; _; _; _; p5] =>
      if decide (p1 = "" ∨ p5 = "") then noIdentity
      else if decide (p5 ∈ trusted) then mkIdentity p1 p5 RoleTrustedBackend "" "" None
      else mkIdentity p1 p5 "" CapabilityAgentFeed "" None
  | _ => noIdentity
  end.

Definition devTrustedIdentity (subject : string) (trusted : gset string) : Identity :=
  match split_on "." subject with
  | [_; p1; _; _; _; p5] =>
      if decide (p1 = "" ∨ p5 = "" ∨ p5 ∉ trusted) then noIdentity
      else mkIdentity p1 p5 RoleTrustedBackend "" "" None
  | _ => noIdentity
  end.

(** The identity the router's subscription handler puts on the context. *)
Definition subscription_identity (devMode : bool) (trusted : gset string) (subject : string) : Identity :=
  if devMode then
    let id := devTrustedIdentity subject trusted in
    if decide (id_Role id = "") then noIdentity else id
  else identityFromSubject subject trusted.
