(* ===== verification/Subjects.v ===== *)
(** NATS subjects: the router's command and log subjects
    (signaling/router.go), the projector's log and feed subjects
    (projector/nats.go, projector/projector.go) and the participation addresses
    (gen/go/relaypoint/interaction/v1/subjects.go). *)

From S2P Require Import Prelude Identity.

(** [parseCmdSubject]. *)
Definition parseCmdSubject (s : string) : option (string * string * string) :=
  match split_on "." s with
  | [p0; p1; p2; p3; p4; p5] =>
      if decide (p0 = "tenant" ∧ p2 = "interaction" ∧ p4 = "cmd") then
        if decide (p1 = "" ∨ p3 = "" ∨ p5 = "") then None
        else Some (p1, p3, p5)
      else None
  | _ => None
  end.

Definition logSubjectFor (tenant iid : string) : string :=
  "tenant." +:+ tenant +:+ ".interaction." +:+ iid +:+ ".log".

(** The router's cache key. *)
Definition stateKey (tenant iid : string) : string := tenant +:+ "/" +:+ iid.

(** The broker deduplication id of an append. *)
Definition dedupIDFor (tenant iid cid : string) : string :=
  tenant +:+ "." +:+ iid +:+ "." +:+ cid.

(** [iidFromLogSubject]: the empty string for a foreign subject. *)
Definition iidFromLogSubject (s : string) : string :=
  match split_on "." s with
  | [p0; _; p2; p3; p4] =>
      if decide (p0 = "tenant" ∧ p2 = "interaction" ∧ p4 = "log") then p3 else ""
  | _ => ""
  end.

Definition feedSubject (tenant agent iid : string) : string :=
  "tenant." +:+ tenant +:+ ".agent." +:+ agent +:+ ".feed." +:+ iid.

Definition dlqSubject (tenant : string) : string := "tenant." +:+ tenant +:+ ".agent.dlq.feed".

(** A string that can be one token of a subject. *)
Definition tok (s : string) : Prop := has_char "." s = false.

(** A string that cannot run into the separator of a cache key. *)
Definition no_slash (s : string) : Prop := has_char "/" s = false.

(** * Fixed-width character patterns, as the program's regular expressions are *)

Fixpoint match_classes (p : list (ascii → bool)) (s : string) : bool :=
  match p, s with
  | [], EmptyString => true
  | f :: p', String c s' => f c && match_classes p' s'
  | _, _ => false
  end.

Definition hexc (c : ascii) : bool :=
  let n := N_of_ascii c in
  (((48 <=? n) && (n <=? 57)) || ((97 <=? n) && (n <=? 102)))%N.
Definition isc (d c : ascii) : bool := bool_decide (c = d).
Definition varc (c : ascii) : bool :=
  isc "8" c || isc "9" c || isc "a" c || isc "b" c.

(** [^[0-9a-f]{8}-[0-9a-f]{4}-7[0-9a-f]{3}-[89ab][0-9a-f]{3}-[0-9a-f]{12}$]. *)
Definition uuidv7_classes : list (ascii → bool) :=
  replicate 8 hexc ++ [isc "-"] ++ replicate 4 hexc ++ [isc "-"; isc "7"]
  ++ replicate 3 hexc ++ [isc "-"; varc] ++ replicate 3 hexc ++ [isc "-"]
  ++ replicate 12 hexc.

Definition uuidv7Pattern (s : string) : bool := match_classes uuidv7_classes s.

(** [participationAddress] and the four addresses built on it. *)
Definition participationAddress (prefix tenant interaction : string) : option string :=
  if uuidv7Pattern tenant && uuidv7Pattern interaction
  then Some (prefix +:+ "." +:+ tenant +:+ "." +:+ interaction)
  else None.

Definition MutateDesiredParticipationAddress := participationAddress "rpc.corex.participation-mutate.v1".
Definition ParticipationCommandAddress := participationAddress "corex.participation.commands.v1".
Definition ReplayParticipationAddress := participationAddress "rpc.corex.participation-replay.v1".
Definition DesiredParticipationSnapshotAddress := participationAddress "rpc.corex.participation-snapshot.v1".

(** * Lemmas *)

Lemma match_classes_no_char d p s :
  Forall (λ f : ascii → bool, f d = false) p → match_classes p s = true → has_char d s = false.
Proof.
  revert s. induction p as [|f p IH]; intros [|c s] Hp Hm; simplify_eq/=; try done.
  apply andb_true_iff in Hm as [Hc Hm]. apply Forall_cons in Hp as [Hd Hp].
  rewrite (IH s) by done. rewrite bool_decide_eq_false_2; [done|]. intros ->. congruence.
Qed.

Lemma match_classes_length p s : match_classes p s = true → String.length s = length p.
Proof.
  revert s. induction p as [|f p IH]; intros [|c s] Hm; simplify_eq/=; try done.
  apply andb_true_iff in Hm as [_ Hm]. f_equal. by apply IH.
Qed.

Lemma uuidv7_tok s : uuidv7Pattern s = true → tok s.
Proof.
  apply match_classes_no_char. unfold uuidv7_classes.
  repeat (apply Forall_app; split); repeat (apply Forall_cons; split);
    try apply Forall_replicate; try apply Forall_nil; done.
Qed.

Lemma logSubjectFor_join tenant iid :
  logSubjectFor tenant iid = join_on "." ["tenant"; tenant; "interaction"; iid; "log"].
Proof. reflexivity. Qed.

Lemma split_logSubject tenant iid :
  tok tenant → tok iid →
  split_on "." (logSubjectFor tenant iid) = ["tenant"; tenant; "interaction"; iid; "log"].
Proof.
  intros Ht Hi. rewrite logSubjectFor_join. apply split_join; [done|].
  repeat (apply Forall_cons; split); try apply Forall_nil; done.
Qed.

Lemma logSubjectFor_inj t i t' i' :
  tok t → tok i → tok t' → tok i' →
  logSubjectFor t i = logSubjectFor t' i' → t = t' ∧ i = i'.
Proof.
  intros Ht Hi Ht' Hi' H. apply (f_equal (split_on ".")) in H.
  rewrite !split_logSubject in H by done. by simplify_eq.
Qed.

Lemma stateKey_inj t i t' i' :
  no_slash t → no_slash t' → stateKey t i = stateKey t' i' → t = t' ∧ i = i'.
Proof. unfold stateKey. intros. by apply (tok_sep_inj "/"). Qed.

Lemma dedupIDFor_inj t i c t' i' c' :
  tok t → tok i → tok t' → tok i' →
  dedupIDFor t i c = dedupIDFor t' i' c' → t = t' ∧ i = i' ∧ c = c'.
Proof.
  unfold dedupIDFor. intros Ht Hi Ht' Hi' H.
  apply (tok_sep_inj ".") in H as [-> H]; [|done..].
  by apply (tok_sep_inj ".") in H as [-> ->].
Qed.

Lemma iid_of_logSubject tenant iid :
  tok tenant → tok iid → iidFromLogSubject (logSubjectFor tenant iid) = iid.
Proof. intros. unfold iidFromLogSubject. by rewrite split_logSubject. Qed.

Lemma parseCmdSubject_toks s t i u :
  parseCmdSubject s = Some (t, i, u) →
  s = "tenant." +:+ t +:+ ".interaction." +:+ i +:+ ".cmd." +:+ u
  ∧ tok t ∧ tok i ∧ tok u ∧ t ≠ "" ∧ i ≠ "" ∧ u ≠ "".
Proof.
  unfold parseCmdSubject. intros H.
  pose proof (join_split "." s) as Hj. pose proof (split_on_no_sep "." s) as Hn.
  destruct (split_on "." s) as [|p0 [|p1 [|p2 [|p3 [|p4 [|p5 [|]]]]]]]; try done.
  case_decide as Hd; [|done]. case_decide as He; [done|]. simplify_eq.
  destruct Hd as (-> & -> & ->). rewrite !Forall_cons in Hn.
  split; [done|]. unfold tok. naive_solver.
Qed.

Lemma parseCmdSubject_build t i u :
  tok t → tok i → tok u → t ≠ "" → i ≠ "" → u ≠ "" →
  parseCmdSubject ("tenant." +:+ t +:+ ".interaction." +:+ i +:+ ".cmd." +:+ u) = Some (t, i, u).
Proof.
  intros Ht Hi Hu ???. unfold parseCmdSubject.
  change ("tenant." +:+ t +:+ ".interaction." +:+ i +:+ ".cmd." +:+ u)
    with (join_on "." ["tenant"; t; "interaction"; i; "cmd"; u]).
  rewrite split_join; [|done|].
  - rewrite decide_True by done. rewrite decide_False; naive_solver.
  - repeat (apply Forall_cons; split); try apply Forall_nil; done.
Qed.

(** The subject a client publishes on and the subject the router logs to name
    the same tenant and interaction. *)
Lemma cmd_to_log_subject s t i u :
  parseCmdSubject s = Some (t, i, u) →
  split_on "." (logSubjectFor t i) = ["tenant"; t; "interaction"; i; "log"]
  ∧ iidFromLogSubject (logSubjectFor t i) = i.
Proof.
  intros (_ & Ht & Hi & _)%parseCmdSubject_toks.
  split; [by apply split_logSubject|by apply iid_of_logSubject].
Qed.
