(* ===== verification/LogStore.v ===== *)
(** The router's only infrastructure port (internal/signaling/store.go):
    the operations [Append] and [Replay], the contract their interface comments
    state, and a rely-guarantee logic for programs that use the port while other
    routers append to the same stream.

    A handler is a value of [prog]: a finite tree of port calls. [exec] runs it
    on a concrete store; [wp] quantifies over every outcome the contract allows
    and over every interleaving with other writers. *)

From S2P Require Import Prelude Wire.

(** * Port calls *)

(** Result of [Append]: acknowledged (with the broker's duplicate flag and
    stream sequence), [ErrOCCConflict], or any other error. *)
Inductive append_res :=
| AppOK (duplicate : bool) (committedSeq : N)
| AppOCC
| AppErr.

(** Result of [Replay]: every fact of the subject with the subject's last stream
    sequence, or an error. *)
Inductive replay_res :=
| RepOK (events : list Event) (lastSubjSeq : N)
| RepErr.

Inductive prog (A : Type) : Type :=
| Ret (a : A)
| DoAppend (subject data dedupID : string) (expected : N) (k : append_res → prog A)
| DoReplay (subject : string) (k : replay_res → prog A)
| DoNow (k : Z → prog A)
| DoID (k : string → prog A).
Arguments Ret {A} _.
Arguments DoAppend {A} _ _ _ _ _.
Arguments DoReplay {A} _ _.
Arguments DoNow {A} _.
Arguments DoID {A} _.

Fixpoint prog_bind {A B} (p : prog A) (f : A → prog B) : prog B :=
  match p with
  | Ret a => f a
  | DoAppend s d i x k => DoAppend s d i x (λ r, prog_bind (k r) f)
  | DoReplay s k => DoReplay s (λ r, prog_bind (k r) f)
  | DoNow k => DoNow (λ t, prog_bind (k t) f)
  | DoID k => DoID (λ i, prog_bind (k i) f)
  end.

(** * The protobuf codec of a fact

    [proto.Marshal] and [proto.Unmarshal] are library code: a parameter, of which
    only the round trip is used. *)
Class EventCodec := {
  marshal_event : Event → string;
  unmarshal_event : string → option Event;
}.
Class EventCodecOK `{EventCodec} := {
  unmarshal_marshal_event : ∀ e, unmarshal_event (marshal_event e) = Some e;
}.

(** * The stream *)

(** One message of the stream INTERACTION_LOGS. *)
Record entry := mkEntry {
  e_subject : string;
  e_seq : N;
  e_dedup : string;
  e_data : string;
}.

Abbreviation log := (list entry).

Definition subj_msgs (l : log) (subject : string) : list entry :=
  filter (λ e, e_subject e = subject) l.

(** The subject's last stream sequence, 0 when it was never written. *)
Definition last_subj_seq (l : log) (subject : string) : N :=
  default 0%N (e_seq <$> last (subj_msgs l subject)).

Section Contract.
Context {EC : EventCodec}.

(** The facts of a subject, [None] when one of them is corrupt. *)
Definition facts_of (l : log) (subject : string) : option (list Event) :=
  mapM (unmarshal_event ∘ e_data) (subj_msgs l subject).

Definition is_participation_data (data : string) : bool :=
  match unmarshal_event data with
  | Some e => isParticipationFact (ev_EventType e)
  | None => false
  end.

(** What the deployment's broker may do. [occ_first]: the expected-sequence
    check precedes deduplication, as the interface documents for a single-server
    broker. [nodup]: participation appends are never answered as duplicates.
    [noloss]: ordinary appends fail only with the conflict error, so none is lost
    and no acknowledgement of one is. *)
Record broker := mkBroker { occ_first : bool; nodup : bool; noloss : bool }.
Definition quiet (b : broker) : bool := nodup b && noloss b.

Lemma quiet_flags b : quiet b = true → nodup b = true ∧ noloss b = true.
Proof. apply andb_prop. Qed.

(** A sequence the broker may assign next: above every one it assigned, on a
    stream of fewer than 2^63 messages. *)
Definition fresh_seq (l : log) (q : N) : Prop :=
  (0 < q)%N ∧ (∀ e, e ∈ l → (e_seq e < q)%N) ∧ (Z.of_nat (length l) + 1 < two63)%Z.

(** The contract of [LogStore.Append]. *)
Inductive append_step (b : broker) (l : log) (subject data dedupID : string) (expected : N) :
    append_res → log → Prop :=
| as_commit q :
    last_subj_seq l subject = expected → fresh_seq l q →
    append_step b l subject data dedupID expected (AppOK false q)
      (l ++ [mkEntry subject q dedupID data])
| as_dup e :
    e ∈ l → e_dedup e = dedupID →
    (occ_first b = true → last_subj_seq l subject = expected) →
    (nodup b = true → is_participation_data data = false) →
    append_step b l subject data dedupID expected (AppOK true (e_seq e)) l
| as_conflict :
    last_subj_seq l subject ≠ expected →
    append_step b l subject data dedupID expected AppOCC l
| as_failed :
    (noloss b = true → is_participation_data data = true) →
    append_step b l subject data dedupID expected AppErr l
| as_ack_lost q :
    (noloss b = true → is_participation_data data = true) →
    last_subj_seq l subject = expected → fresh_seq l q →
    append_step b l subject data dedupID expected AppErr
      (l ++ [mkEntry subject q dedupID data]).

(** The contract of [LogStore.Replay]: all facts or an error. *)
Inductive replay_step (l : log) (subject : string) : replay_res → Prop :=
| rs_ok facts :
    facts_of l subject = Some facts →
    replay_step l subject (RepOK facts (last_subj_seq l subject))
| rs_err : replay_step l subject RepErr.

(** * Rely-guarantee logic *)

Section Logic.
(** [ok]: the invariant of the stream every writer preserves; [G]: what one step
    of the program under study may add to it. *)
Context (b : broker) (ok : log → Prop) (G : log → log → Prop).

Definition grows (l l' : log) : Prop := l `prefix_of` l' ∧ ok l'.

Fixpoint wp {A} (p : prog A) (Q : A → log → Prop) (l : log) : Prop :=
  match p with
  | Ret a => Q a l
  | DoAppend s d i x k =>
      ∀ l1, grows l l1 → ∀ r l2, append_step b l1 s d i x r l2 →
        ok l2 ∧ G l1 l2 ∧ wp (k r) Q l2
  | DoReplay s k =>
      ∀ l1, grows l l1 → ∀ r, replay_step l1 s r → wp (k r) Q l1
  | DoNow k => ∀ t, wp (k t) Q l
  | DoID k => ∀ i, i ≠ "" → wp (k i) Q l
  end.

Lemma wp_bind {A B} (p : prog A) (f : A → prog B) Q l :
  wp p (λ a l', wp (f a) Q l') l → wp (prog_bind p f) Q l.
Proof.
  revert l. induction p as [a|s d i x k IH|s k IH|k IH|k IH]; intros l Hp; simpl in *.
  - done.
  - intros l1 Hl1 r l2 Hs. destruct (Hp l1 Hl1 r l2 Hs) as (?&?&?). auto.
  - intros l1 Hl1 r Hs. apply IH. by apply (Hp l1).
  - intros t. apply IH, Hp.
  - intros t Hne. by apply IH, Hp.
Qed.

Lemma wp_mono {A} (p : prog A) (Q Q' : A → log → Prop) l :
  (∀ a l', Q a l' → Q' a l') → wp p Q l → wp p Q' l.
Proof.
  intros HQ. revert l. induction p as [a|s d i x k IH|s k IH|k IH|k IH]; intros l Hp; simpl in *.
  - by apply HQ.
  - intros l1 Hl1 r l2 Hs. destruct (Hp l1 Hl1 r l2 Hs) as (?&?&?). auto.
  - intros l1 Hl1 r Hs. apply IH. by apply (Hp l1).
  - intros t. apply IH, Hp.
  - intros t Hne. by apply IH, Hp.
Qed.

Lemma grows_refl l : ok l → grows l l.
Proof. by split. Qed.

Lemma grows_trans l1 l2 l3 : grows l1 l2 → grows l2 l3 → grows l1 l3.
Proof. intros [H1 _] [H2 ?]. split; [by trans l2|done]. Qed.

(** An append never removes a message. *)
Lemma append_step_prefix l s d i x r l' :
  append_step b l s d i x r l' → l `prefix_of` l'.
Proof. intros []; try done; by apply prefix_app_r. Qed.

(** A specification with a precondition that only grows with the log holds at
    every later log. *)
Lemma wp_grows {A} (p : prog A) Q l l' :
  match p with Ret _ | DoNow _ | DoID _ => False | _ => True end →
  grows l l' → wp p Q l → wp p Q l'.
Proof.
  destruct p; simpl; try done; intros _ Hg Hp l1 Hl1; eauto using grows_trans.
Qed.

(** * Interleaved execution of several routers on one stream *)

(** One scheduler step: thread [n] performs its next port call. An identifier is
    a fresh UUID, of which only that it is not empty is used. *)
Inductive pool_step {A} : list (prog A) * log → list (prog A) * log → Prop :=
| ps_append n s d i x k ps l r l' :
    ps !! n = Some (DoAppend s d i x k) → append_step b l s d i x r l' →
    pool_step (ps, l) (<[n := k r]> ps, l')
| ps_replay n s k ps l r :
    ps !! n = Some (DoReplay s k) → replay_step l s r →
    pool_step (ps, l) (<[n := k r]> ps, l)
| ps_now n k ps l t :
    ps !! n = Some (DoNow k) → pool_step (ps, l) (<[n := k t]> ps, l)
| ps_id n k ps l i :
    ps !! n = Some (DoID k) → i ≠ "" → pool_step (ps, l) (<[n := k i]> ps, l).

(** Thread [p] is safe at [l] from any earlier log it was specified at. *)
Definition thread_ok {A} (Q : A → log → Prop) (l : log) (p : prog A) : Prop :=
  ∃ l0, l0 `prefix_of` l ∧ wp p Q l0.

Lemma thread_ok_grows {A} (Q : A → log → Prop) l l' p :
  l `prefix_of` l' → thread_ok Q l p → thread_ok Q l' p.
Proof. intros Hl (l0 & ? & ?). exists l0. split; [by trans l|done]. Qed.

(** One step keeps the invariant and every thread's own postcondition. *)
Lemma pool_step_safe {A} (Qs : list (A → log → Prop)) ps l ps' l' :
  ok l → Forall2 (λ Q p, thread_ok Q l p) Qs ps → pool_step (ps, l) (ps', l') →
  ok l' ∧ l `prefix_of` l' ∧ (l' = l ∨ G l l') ∧ Forall2 (λ Q p, thread_ok Q l' p) Qs ps'.
Proof.
  intros Hok Hps Hstep.
  assert (∀ l'' n Q p, l `prefix_of` l'' → Qs !! n = Some Q → thread_ok Q l'' p →
    Forall2 (λ Q p, thread_ok Q l'' p) Qs (<[n := p]> ps)) as Hins.
  { intros l'' n Q p Hl HQ Hp. rewrite <-(list_insert_id Qs n Q) by done.
    apply Forall2_insert; [|done]. eapply Forall2_impl; [done|]. intros. by eapply thread_ok_grows. }
  inv Hstep;
    match goal with H : ps !! _ = Some _ |- _ =>
      destruct (Forall2_lookup_r _ _ _ _ _ Hps H) as (Q & HQ & l0 & Hl0 & Hp); simpl in Hp end.
  - edestruct Hp as (Hok' & HG & Hk); [by split|done|].
    assert (l `prefix_of` l') by eauto using append_step_prefix.
    split_and!; [done..|by right|]. apply (Hins _ _ Q); [done..|]. by exists l'.
  - split_and!; [done..|by left|]. apply (Hins _ _ Q); [done..|].
    exists l'. split; [done|]. eapply Hp; [by split|done].
  - split_and!; [done..|by left|]. apply (Hins _ _ Q); [done..|]. exists l0. auto.
  - split_and!; [done..|by left|]. apply (Hins _ _ Q); [done..|]. exists l0. auto.
Qed.
End Logic.

(** * Stores that implement the port *)

(** A concrete store; [Append] and [Replay] are its two operations. *)
Class LogStore (St : Type) := {
  Append : string → string → string → N → St → append_res * St;
  Replay : string → St → replay_res * St;
}.

(** [St] keeps the contract: [abs] is the stream a store state holds. *)
Class LogStoreOK (b : broker) (St : Type) `{LogStore St} := {
  abs : St → log;
  Append_ok s d i x st r st' :
    Append s d i x st = (r, st') → append_step b (abs st) s d i x r (abs st');
  Replay_ok s st r st' :
    Replay s st = (r, st') → replay_step (abs st) s r ∧ abs st' = abs st;
}.

(** A store with the process's clock and id generator. *)
Record host (St : Type) := mkHost { h_store : St; h_now : Z; h_ids : nat }.
Arguments mkHost {St} _ _ _.
Arguments h_store {St} _.
Arguments h_now {St} _.
Arguments h_ids {St} _.

Fixpoint exec {A St} `{LogStore St} (p : prog A) (h : host St) : A * host St :=
  match p with
  | Ret a => (a, h)
  | DoAppend s d i x k =>
      let '(r, st) := Append s d i x (h_store h) in
      exec (k r) (mkHost st (h_now h) (h_ids h))
  | DoReplay s k =>
      let '(r, st) := Replay s (h_store h) in
      exec (k r) (mkHost st (h_now h) (h_ids h))
  | DoNow k => exec (k (h_now h)) (mkHost (h_store h) (h_now h + 1) (h_ids h))
  | DoID k =>
      exec (k ("id" +:+ String (ascii_of_nat (h_ids h)) ""))
        (mkHost (h_store h) (h_now h) (S (h_ids h)))
  end.

(** Every run on a store that keeps the contract is covered by [wp]. *)
Lemma exec_sound {A St} (b : broker) (ok : log → Prop) G `{LogStoreOK b St}
    (p : prog A) Q (h : host St) a h' :
  ok (abs (h_store h)) → wp b ok G p Q (abs (h_store h)) → exec p h = (a, h') →
  ok (abs (h_store h')) ∧ Q a (abs (h_store h')).
Proof.
  revert h. induction p as [x|s d i x k IH|s k IH|k IH|k IH]; intros h Hok Hp He; simpl in *.
  - by simplify_eq.
  - destruct (Append s d i x (h_store h)) as [r st] eqn:E. apply Append_ok in E.
    edestruct Hp as (Hok' & _ & Hk); [by apply grows_refl|done|]. by eapply IH in He.
  - destruct (Replay s (h_store h)) as [r st] eqn:E. apply Replay_ok in E as [Hs Ha].
    eapply IH in He; [done|simpl; by rewrite Ha|simpl; rewrite Ha].
    eapply Hp; [by apply grows_refl|done].
  - by eapply IH in He.
  - eapply IH in He; [done|done|]. by apply Hp.
Qed.
End Contract.

Arguments mkHost {St} _ _ _.
Arguments h_store {St} _.
Arguments h_now {St} _.
Arguments h_ids {St} _.
