(* ===== verification/Lifecycle.v ===== *)
(** The status machine of an interaction (internal/signaling/router.go,
    [legalTransition] and [applyTransition]) and the shape of a log every append
    of which was legal. *)

From S2P Require Import Prelude Wire.

Definition legalTransition (status cmdType : string) : bool :=
  if decide (cmdType = "interaction.started") then bool_decide (status = "")
  else if decide (cmdType = "interaction.ended") then bool_decide (status = "started")
  else bool_decide (status = "started").

(** [applyTransition] on the status field. *)
Definition applyTransition (status cmdType : string) : string :=
  if decide (cmdType = "interaction.started") then "started"
  else if decide (cmdType = "interaction.ended") then "ended"
  else status.

(** The status a log ends in. *)
Definition fold_status (facts : list Event) : string :=
  foldl (λ s e, applyTransition s (ev_EventType e)) "" facts.

(** A log in which every fact was legal when it was appended. *)
Inductive facts_legal : list Event → Prop :=
| fl_nil : facts_legal []
| fl_snoc facts e :
    facts_legal facts → legalTransition (fold_status facts) (ev_EventType e) = true →
    facts_legal (facts ++ [e]).

Lemma fold_status_snoc facts e :
  fold_status (facts ++ [e]) = applyTransition (fold_status facts) (ev_EventType e).
Proof. unfold fold_status. by rewrite foldl_app. Qed.

Lemma fold_status_nil : fold_status [] = "".
Proof. done. Qed.

Lemma legal_started s t :
  t ≠ "interaction.started" → legalTransition s t = true → s = "started".
Proof. unfold legalTransition. intros. repeat case_decide; simplify_eq; by case_bool_decide. Qed.

Lemma facts_legal_inv facts e :
  facts_legal (facts ++ [e]) →
  facts_legal facts ∧ legalTransition (fold_status facts) (ev_EventType e) = true.
Proof. inversion 1 as [Hn|f e' ? ? He]; [by destruct facts|]. apply app_inj_tail in He as [-> ->]. done. Qed.

Lemma facts_legal_take facts n : facts_legal facts → facts_legal (take n facts).
Proof.
  intros Hf. revert n. induction Hf as [|facts e Hf IH Hl]; intros n.
  - rewrite take_nil. constructor.
  - destruct (decide (n ≤ length facts)).
    + by rewrite take_app_le.
    + rewrite take_ge by (rewrite length_app; simpl; lia). by constructor.
Qed.

(** The three statuses, and what each says about the log. *)
Lemma fold_status_cases facts :
  facts_legal facts →
  (facts = [] ∧ fold_status facts = "") ∨
  (facts ≠ [] ∧ (fold_status facts = "started" ∨ fold_status facts = "ended")).
Proof.
  induction 1 as [|facts e Hf IH Hl]; [by left|right]. split; [by destruct facts|].
  rewrite fold_status_snoc. unfold applyTransition. repeat case_decide; auto.
  left. by eapply legal_started in Hl.
Qed.

Lemma fold_status_empty facts : facts_legal facts → fold_status facts = "" → facts = [].
Proof. intros [[? _]|[_ [?|?]]]%fold_status_cases ?; congruence. Qed.

(** An interaction that is open was open at every earlier non-empty prefix. *)
Lemma fold_status_started_take facts n :
  facts_legal facts → fold_status facts = "started" → 0 < n →
  fold_status (take n facts) = "started".
Proof.
  intros Hf Hs Hn. induction Hf as [|facts e Hf IH Hl]; [done|].
  rewrite fold_status_snoc in Hs.
  destruct (decide (n ≤ length facts)) as [Hle|].
  - rewrite take_app_le by done. apply IH.
    unfold applyTransition in Hs. repeat case_decide; simplify_eq; try done.
    unfold legalTransition in Hl. rewrite decide_True in Hl by done.
    apply bool_decide_eq_true, fold_status_empty in Hl; [|done]. subst. simpl in *. lia.
  - rewrite take_ge by (rewrite length_app; simpl; lia). by rewrite fold_status_snoc.
Qed.

(** A membership fact is legal only on an open interaction, and keeps it open. *)
Lemma participation_legal s t :
  isParticipationFact t = true → legalTransition s t = true →
  s = "started" ∧ applyTransition s t = "started".
Proof.
  unfold isParticipationFact, legalTransition, applyTransition.
  intros [->%bool_decide_eq_true| ->%bool_decide_eq_true]%orb_true_iff;
    rewrite !decide_False by done; by intros ->%bool_decide_eq_true.
Qed.

(** A legal log starts with [interaction.started], never repeats it, and holds
    nothing after [interaction.ended]. *)
Definition lifecycle_shape (facts : list Event) : Prop :=
  match facts with
  | [] => True
  | s :: rest =>
      ev_EventType s = "interaction.started" ∧
      Forall (λ e, ev_EventType e ≠ "interaction.started") rest ∧
      (∀ n e, facts !! n = Some e → ev_EventType e = "interaction.ended" →
              n = pred (length facts))
  end.

Lemma facts_legal_shape_aux facts :
  facts_legal facts →
  match facts with
  | [] => True
  | s :: rest =>
      ev_EventType s = "interaction.started" ∧
      Forall (λ e, ev_EventType e ≠ "interaction.started") rest ∧
      (∀ n e, facts !! n = Some e → ev_EventType e = "interaction.ended" →
              n = pred (length facts)) ∧
      (fold_status facts = "ended" ↔ ∃ e, last facts = Some e ∧ ev_EventType e = "interaction.ended")
  end.
Proof.
  induction 1 as [|facts e Hf IH Hl]; [done|].
  destruct facts as [|s rest].
  - simpl. unfold legalTransition in Hl. cbn in Hl.
    case_decide as Ht; [|case_decide; by rewrite bool_decide_eq_false_2 in Hl].
    split; [done|]. split; [done|]. split.
    + intros n e' He _. by apply list_lookup_singleton_Some in He as [-> _].
    + unfold fold_status. simpl. unfold applyTransition. rewrite decide_True by done.
      split; [done|]. intros (e' & ? & ?). simplify_eq. congruence.
  - destruct IH as (Hs & Hrest & Hend & Hst).
    assert (ev_EventType e ≠ "interaction.started") as Hne.
    { intros Ht. unfold legalTransition in Hl. rewrite decide_True in Hl by done.
      apply bool_decide_eq_true, fold_status_empty in Hl; done. }
    pose proof (legal_started _ _ Hne Hl) as Hstarted.
    simpl. split; [done|]. split; [apply Forall_app; split; [done|by apply Forall_singleton]|]. split.
    + intros n e' He Ht. rewrite app_comm_cons in He.
      apply lookup_app_Some in He as [He|[Hn He]].
      * pose proof (Hend n e' He Ht) as Hn. exfalso.
        assert (fold_status (s :: rest) = "ended"); [|congruence].
        apply Hst. exists e'. split; [|done]. rewrite last_lookup. by rewrite <-Hn.
      * apply list_lookup_singleton_Some in He as [He _]. rewrite length_app. simpl in *. lia.
    + rewrite app_comm_cons, fold_status_snoc, last_snoc, Hstarted.
      unfold applyTransition. rewrite decide_False by done. case_decide.
      * split; [by eexists|done].
      * split; [done|]. intros (e' & ? & ?). simplify_eq.
Qed.

Lemma facts_legal_shape facts : facts_legal facts → lifecycle_shape facts.
Proof. intros Hf%facts_legal_shape_aux. destruct facts; [done|]. simpl. naive_solver. Qed.
