(* ===== verification/RouterState.v ===== *)
(** The router's in-process state (internal/signaling/router.go): one cached
    [interactionState] per interaction with its bounded deduplication cache, the
    cache of interactions, and the fold that rebuilds a state from the log. *)

From S2P Require Import Prelude Wire Membership LogStore Lifecycle.

(** [storedResult]: an empty hash marks a legacy fact. *)
Record storedResult := mkStored {
  sr_payloadHash : string;
  sr_result : CommandResult;
}.

(** The mutex and the map identities are not part of the value; [st_part] is a
    pointer that may be nil. *)
Record interactionState := mkState {
  st_seq : Z;
  st_streamSeq : N;
  st_status : string;
  st_results : gmap string storedResult;
  st_resultOrder : list string;
  st_part : option ParticipationView;
  st_parents : gmap string (gset string);
  st_poisoned : bool;
  st_lastUsed : Z;
}.

(** * The deduplication cache *)

(** The eviction loop of [putResult]: [resultOrder] is consumed from its head
    while more than [max] results are kept. *)
Fixpoint evict_results (max : Z) (order : list string) (results : gmap string storedResult) :
    list string * gmap string storedResult :=
  match order with
  | [] => ([], results)
  | oldest :: rest =>
      if decide (0 < max ∧ max < Z.of_nat (size results))%Z
      then evict_results max rest (delete oldest results)
      else (order, results)
  end.

(** The loop would index an empty [resultOrder]: a run-time panic in Go. *)
Fixpoint evict_panics (max : Z) (order : list string) (results : gmap string storedResult) : bool :=
  match order with
  | [] => bool_decide (0 < max ∧ max < Z.of_nat (size results))%Z
  | oldest :: rest =>
      if decide (0 < max ∧ max < Z.of_nat (size results))%Z
      then evict_panics max rest (delete oldest results)
      else false
  end.

Definition putResult (id : string) (sr : storedResult) (max : Z) (st : interactionState) : interactionState :=
  let order := match st_results st !! id with
               | Some _ => st_resultOrder st
               | None => st_resultOrder st ++ [id]
               end in
  let '(order', results') := evict_results max order (<[id := sr]> (st_results st)) in
  mkState (st_seq st) (st_streamSeq st) (st_status st) results' order'
    (st_part st) (st_parents st) (st_poisoned st) (st_lastUsed st).

(** [copyMissingResults]: in the order of [fresh.resultOrder]. *)
Definition copyMissingResults (fresh : interactionState) (max : Z) (st : interactionState) : interactionState :=
  foldl (λ s id,
    match st_results fresh !! id with
    | None => s
    | Some sr =>
        match st_results s !! id with
        | Some _ => s
        | None => putResult id sr max s
        end
    end) st (st_resultOrder fresh).

(** * Rebuilding a state from the log *)

Definition isParticipationCommand (t : string) : bool :=
  bool_decide (t = "participant.assign") || bool_decide (t = "participant.unassign")
  || bool_decide (t = "participant.transfer").

(** One iteration of the loop of [rebuild]: the sequence and the status, then
    the stored result, then the parent binding. *)
Definition rebuild_status (st : interactionState) (e : Event) : interactionState :=
  mkState (if (st_seq st <? ev_Sequence e)%Z then ev_Sequence e else st_seq st)
    (st_streamSeq st) (applyTransition (st_status st) (ev_EventType e))
    (st_results st) (st_resultOrder st) (st_part st) (st_parents st)
    (st_poisoned st) (st_lastUsed st).

Definition rebuild_result (maxResults : Z) (e : Event) (st : interactionState) : interactionState :=
  if decide (ev_CommandId e = "") then st
  else putResult (ev_CommandId e)
         (mkStored (ev_PayloadHash e) (accepted (ev_CommandId e))) maxResults st.

Definition rebuild_parent (e : Event) (st : interactionState) : interactionState :=
  if isParticipationFact (ev_EventType e) && negb (bool_decide (ev_CausedBy e = "")) then
    mkState (st_seq st) (st_streamSeq st) (st_status st) (st_results st) (st_resultOrder st)
      (st_part st)
      (<[ev_CausedBy e := {[ev_CommandId e]} ∪ default ∅ (st_parents st !! ev_CausedBy e)]> (st_parents st))
      (st_poisoned st) (st_lastUsed st)
  else st.

Definition rebuild_step (maxResults : Z) (st : interactionState) (e : Event) : interactionState :=
  rebuild_parent e (rebuild_result maxResults e (rebuild_status st e)).

(** [rebuild] after a successful replay. *)
Definition rebuild_state (maxResults : Z) (facts : list Event) (lastSubjSeq : N) : interactionState :=
  foldl (rebuild_step maxResults)
    (mkState 0 lastSubjSeq "" ∅ [] (Some (FoldParticipation facts)) ∅ false 0) facts.

(** The re-fold of an optimistic-concurrency loser: the log-derived fields are
    replaced, missing results are copied in. *)
Definition refold (maxResults : Z) (fresh st : interactionState) : interactionState :=
  copyMissingResults fresh maxResults
    (mkState (st_seq fresh) (st_streamSeq fresh) (st_status fresh) (st_results st)
       (st_resultOrder st) (st_part fresh) (st_parents fresh) (st_poisoned st) (st_lastUsed st)).

(** * Configuration and the cache of interactions *)

Record RouterConfig := mkConfig {
  devMode : bool;
  maxInter : Z;
  idleTTL : Z;
  maxResults : Z;
  maxRefold : nat;
}.

(** [NewRouter]'s defaults (durations in nanoseconds). *)
Definition defaultConfig : RouterConfig := mkConfig false 4096 1800000000000 1024 32.

(** [WithStateLimits]: a non-positive value keeps what was there. *)
Definition WithStateLimits (mi mr ttl : Z) (c : RouterConfig) : RouterConfig :=
  mkConfig (devMode c)
    (if (0 <? mi)%Z then mi else maxInter c)
    (if (0 <? ttl)%Z then ttl else idleTTL c)
    (if (0 <? mr)%Z then mr else maxResults c)
    (maxRefold c).

Definition WithDevMode (c : RouterConfig) : RouterConfig :=
  mkConfig true (maxInter c) (idleTTL c) (maxResults c) (maxRefold c).

(** State objects live on a heap; [inter] maps a cache key to one of them, and a
    handler may hold an object the cache has since dropped. *)
Record rst := mkRst {
  inter : gmap string nat;
  heap : gmap nat interactionState;
  next_loc : nat;
}.

Definition emptyRouter : rst := mkRst ∅ ∅ 0.

(** [st.lastUsed] of the object a key maps to. *)
Definition lastUsedOf (s : rst) (loc : nat) : Z :=
  match heap s !! loc with Some st => st_lastUsed st | None => 0%Z end.

(** The idle-TTL loop of [pruneLocked]: its result does not depend on the order
    in which the map is ranged over. *)
Definition prune_idle (cutoff : Z) (s : rst) : rst :=
  mkRst (filter (λ kv, ¬ (lastUsedOf s kv.2 < cutoff)%Z) (inter s)) (heap s) (next_loc s).

(** The scan for the least recently used key, over the keys in some order. *)
Fixpoint lru_scan (s : rst) (kvs : list (string * nat)) (best : option (string * Z)) : option (string * Z) :=
  match kvs with
  | [] => best
  | (k, loc) :: rest =>
      let at_ := lastUsedOf s loc in
      let best' :=
        match best with
        | None => Some (k, at_)
        | Some (k0, t0) => if (at_ <? t0)%Z then Some (k, at_) else best
        end in
      lru_scan s rest best'
  end.

(** The size loop of [pruneLocked]; each round deletes one key, so [size inter]
    rounds are enough. [order] is the order in which Go ranges over the map. *)
Fixpoint prune_lru (order : list (string * nat) → list (string * nat))
    (fuel : nat) (max : Z) (s : rst) : rst :=
  match fuel with
  | O => s
  | S fuel' =>
      if decide (0 < max ∧ max < Z.of_nat (size (inter s)))%Z then
        match lru_scan s (order (map_to_list (inter s))) None with
        | Some (k, _) => prune_lru order fuel' max (mkRst (delete k (inter s)) (heap s) (next_loc s))
        | None => s
        end
      else s
  end.

(** [evict] and the inlined deletions of the same shape. *)
Definition evict_key (key : string) (s : rst) : rst :=
  mkRst (delete key (inter s)) (heap s) (next_loc s).

(** Store an updated object at its location. *)
Definition put_loc (loc : nat) (st : interactionState) (s : rst) : rst :=
  mkRst (inter s) (<[loc := st]> (heap s)) (next_loc s).

(** Allocate a rebuilt object and enter it in the cache. *)
Definition insert_state (key : string) (st : interactionState) (s : rst) : rst :=
  mkRst (<[key := next_loc s]> (inter s)) (<[next_loc s := st]> (heap s)) (S (next_loc s)).

Definition set_lastUsed (t : Z) (st : interactionState) : interactionState :=
  mkState (st_seq st) (st_streamSeq st) (st_status st) (st_results st) (st_resultOrder st)
    (st_part st) (st_parents st) (st_poisoned st) t.

Definition set_poisoned (st : interactionState) : interactionState :=
  mkState (st_seq st) (st_streamSeq st) (st_status st) (st_results st) (st_resultOrder st)
    (st_part st) (st_parents st) true (st_lastUsed st).

(** The object after a committed append: [seq] is an int64. *)
Definition advance (committedSeq : N) (cmdType : string) (st : interactionState) : interactionState :=
  mkState (i64 (st_seq st + 1)) committedSeq (applyTransition (st_status st) cmdType)
    (st_results st) (st_resultOrder st) (st_part st) (st_parents st) (st_poisoned st) (st_lastUsed st).

(** * The deduplication cache is a bounded FIFO *)

(** [resultOrder] lists exactly the ids of [results], each once. *)
Definition results_wf (order : list string) (results : gmap string storedResult) : Prop :=
  NoDup order ∧ ∀ id, id ∈ order ↔ is_Some (results !! id).

Definition state_wf (st : interactionState) : Prop :=
  results_wf (st_resultOrder st) (st_results st).

(** The bound a positive [max] imposes. *)
Definition results_bounded (max : Z) (results : gmap string storedResult) : Prop :=
  (0 < max)%Z → (Z.of_nat (size results) <= max)%Z.

Lemma results_wf_size order results : results_wf order results → size results = length order.
Proof.
  intros [Hnd Hdom].
  assert (dom results = list_to_set order) as Hd.
  { apply set_eq. intros id. rewrite elem_of_dom, elem_of_list_to_set. by rewrite Hdom. }
  rewrite <-size_dom, Hd. by apply size_list_to_set.
Qed.

Lemma results_wf_tail oldest rest results :
  results_wf (oldest :: rest) results → results_wf rest (delete oldest results).
Proof.
  intros [Hnd Hdom]. apply NoDup_cons in Hnd as [Hni Hnd]. split; [done|].
  intros id. rewrite lookup_delete. case_decide as Hid.
  - subst. split; [done|]. by intros [? ?].
  - rewrite <-Hdom. set_solver.
Qed.

Lemma results_wf_put id sr order results :
  results_wf order results →
  results_wf (match results !! id with Some _ => order | None => order ++ [id] end)
    (<[id := sr]> results).
Proof.
  intros [Hnd Hdom]. destruct (results !! id) as [old|] eqn:E.
  - split; [done|]. intros id'. rewrite lookup_insert. case_decide; [subst|done].
    rewrite Hdom, E. by split.
  - split.
    + apply NoDup_app. split; [done|]. split; [|apply NoDup_singleton].
      intros x Hx Hx'. apply list_elem_of_singleton in Hx' as ->.
      apply Hdom in Hx. rewrite E in Hx. by destruct Hx.
    + intros id'. rewrite elem_of_app, list_elem_of_singleton, Hdom, lookup_insert.
      case_decide; split; naive_solver.
Qed.

(** What the eviction loop leaves: a suffix of the order, within the bound, with
    the entries of that suffix unchanged; and it never indexes an empty slice. *)
Lemma evict_results_spec max order results order' results' :
  results_wf order results → evict_results max order results = (order', results') →
  results_wf order' results' ∧ results_bounded max results' ∧ order' `suffix_of` order ∧
  (∀ id, id ∈ order' → results' !! id = results !! id) ∧
  evict_panics max order results = false.
Proof.
  revert results. induction order as [|o rest IH]; intros results Hwf He; simpl in *.
  - simplify_eq. pose proof (results_wf_size _ _ Hwf) as Hs. simpl in Hs.
    split_and!; try done; [intros ?; lia|]. rewrite bool_decide_eq_false_2; [done|]. lia.
  - case_decide as Hd.
    + apply IH in He as (? & ? & ? & Hl & ?); [|by apply results_wf_tail].
      split_and!; try done; [by apply suffix_cons_r|].
      intros id Hid. rewrite Hl by done. rewrite lookup_delete_ne; [done|].
      intros ->. destruct Hwf as [Hnd _]. apply NoDup_cons in Hnd as [Hni _].
      apply Hni. by eapply elem_of_suffix.
    + simplify_eq. split_and!; try done. intros ?. lia.
Qed.

Lemma putResult_wf id sr max st : state_wf st → state_wf (putResult id sr max st).
Proof.
  intros Hwf. unfold putResult, state_wf. destruct (evict_results _ _ _) as [o r] eqn:E. simpl.
  eapply evict_results_spec in E; [|by apply results_wf_put]. naive_solver.
Qed.

Lemma putResult_bounded id sr max st :
  state_wf st → results_bounded max (st_results (putResult id sr max st)).
Proof.
  intros Hwf. unfold putResult. destruct (evict_results _ _ _) as [o r] eqn:E. simpl.
  eapply evict_results_spec in E; [|by apply results_wf_put]. naive_solver.
Qed.

(** Fields [putResult] leaves alone. *)
Lemma putResult_fields id sr max st :
  let st' := putResult id sr max st in
  st_seq st' = st_seq st ∧ st_streamSeq st' = st_streamSeq st ∧ st_status st' = st_status st ∧
  st_part st' = st_part st ∧ st_parents st' = st_parents st ∧ st_poisoned st' = st_poisoned st.
Proof. unfold putResult. by destruct (evict_results _ _ _). Qed.

Lemma evict_noop max order results :
  results_wf order results → results_bounded max results →
  evict_results max order results = (order, results).
Proof.
  intros Hwf Hb. destruct order as [|o rest]; [done|]. simpl. rewrite decide_False; [done|].
  intros [H1 H2]. specialize (Hb H1). lia.
Qed.

(** One insertion evicts at most the oldest entry. *)
Lemma evict_one max order id results sr :
  results_wf (order ++ [id]) (<[id := sr]> results) → results !! id = None →
  results_bounded max results → (0 < max)%Z →
  ∃ order', evict_results max (order ++ [id]) (<[id := sr]> results) =
    (order' ++ [id], if decide (max < Z.of_nat (S (size results)))%Z
                     then from_option (λ o, delete o (<[id := sr]> results)) ∅ (head (order ++ [id]))
                     else <[id := sr]> results).
Proof.
  intros Hwf Hnone Hb Hm. specialize (Hb Hm).
  assert (size (<[id := sr]> results) = S (size results)) as Hsz
    by (by apply map_size_insert_None).
  case_decide as Hd.
  - destruct order as [|o rest].
    + pose proof (results_wf_size _ _ Hwf) as Hs. rewrite Hsz in Hs. simpl in Hs. lia.
    + exists rest. simpl. rewrite decide_True by lia.
      rewrite evict_noop; [done|by apply results_wf_tail|].
      assert (is_Some (<[id := sr]> results !! o)) as [x Hx].
      { apply Hwf. apply elem_of_cons. by left. }
      intros _. rewrite map_size_delete, Hx, Hsz. lia.
  - exists order. rewrite evict_noop; [done|done|]. intros _. rewrite Hsz. lia.
Qed.

(** The entry just stored is readable, whatever was evicted to make room. *)
Lemma putResult_lookup id sr max st :
  state_wf st → results_bounded max (st_results st) →
  st_results (putResult id sr max st) !! id = Some sr.
Proof.
  intros Hwf Hb. unfold putResult.
  pose proof (results_wf_put id sr _ _ Hwf) as Hwf'.
  destruct (st_results st !! id) as [old|] eqn:E.
  - rewrite evict_noop; [simpl; by rewrite lookup_insert_eq|done|].
    intros Hm. rewrite map_size_insert_Some by (by eexists). auto.
  - destruct (decide (0 < max)%Z) as [Hm|Hm].
    + destruct (evict_one _ _ _ _ sr Hwf' E Hb Hm) as [o Ho].
      pose proof Ho as Hspec.
      apply evict_results_spec in Hspec as (_ & _ & _ & Hl & _); [|done].
      rewrite Ho. simpl. rewrite Hl by set_solver. by rewrite lookup_insert_eq.
    + rewrite evict_noop; [simpl; by rewrite lookup_insert_eq|done|]. intros ?. lia.
Qed.

(** Storing an entry adds that entry and no other. *)
Lemma evict_results_sub max order results :
  (evict_results max order results).2 ⊆ results.
Proof.
  revert results. induction order as [|o rest IH]; intros results; simpl; [done|].
  case_decide; [|done]. etrans; [apply IH|]. apply delete_subseteq.
Qed.

Lemma putResult_results id sr max st cid x :
  st_results (putResult id sr max st) !! cid = Some x →
  (cid = id ∧ x = sr) ∨ st_results st !! cid = Some x.
Proof.
  unfold putResult.
  pose proof (evict_results_sub max
    (match st_results st !! id with Some _ => st_resultOrder st | None => st_resultOrder st ++ [id] end)
    (<[id := sr]> (st_results st))) as Hsub.
  destruct (evict_results _ _ _) as [o r]. simpl in *. intros Hx.
  apply (lookup_weaken _ _ _ _ Hx), lookup_insert_Some in Hsub. naive_solver.
Qed.
