(* ===== verification/Router.v ===== *)
(** The router (internal/signaling/router.go): the sole writer of every [.log]
    fact. Each handler is a state-passing program over the [LogStore] port. *)

From S2P Require Import Prelude Bytes Wire Identity Subjects Membership.
From S2P Require Import LogStore Lifecycle RouterState.

(** The payload of a privileged participation command (JSON in [Command.Data]). *)
Record participationData := mkPD {
  pd_Agent : string;
  pd_From : string;
  pd_Reason : string;
  pd_RequestID : string;
}.

Definition emptyPD : participationData := mkPD "" "" "" "".

(** What the router takes from its libraries: the protobuf decoding of a command,
    the JSON decoding of participation data, SHA-256, the quoting of [%q], and
    the order in which a map is ranged over. No law of them is assumed here. *)
Class Externals := {
  unmarshal_command : string → option Command;
  unmarshal_pd : string → option participationData;
  sha256 : string → string;
  quote : string → string;
  range_order : list (string * nat) → list (string * nat);
}.

(** * The handler monad: router state over port calls *)

Definition M (A : Type) : Type := rst → prog (A * rst).

#[export] Instance M_ret : MRet M := λ A a s, Ret (a, s).
#[export] Instance M_bind : MBind M := λ A B f m s, prog_bind (m s) (λ '(a, s'), f a s').

Definition get_state : M rst := λ s, Ret (s, s).
Definition modify_state (f : rst → rst) : M unit := λ s, Ret (tt, f s).
Definition op_append (subject data dedupID : string) (expected : N) : M append_res :=
  λ s, DoAppend subject data dedupID expected (λ r, Ret (r, s)).
Definition op_replay (subject : string) : M replay_res :=
  λ s, DoReplay subject (λ r, Ret (r, s)).
Definition op_now : M Z := λ s, DoNow (λ t, Ret (t, s)).
Definition op_id : M string := λ s, DoID (λ i, Ret (i, s)).

Section Handlers.
Context {EC : EventCodec} {EX : Externals}.
Context (cfg : RouterConfig).

(** [hashPayload]: the framed fields of a command, hashed and hex-encoded. *)
Definition payload_parts (c : Command) : list string :=
  [cmd_TenantId c; cmd_ActorId c; cmd_Type c; cmd_Medium c; cmd_RefId c; cmd_Data c].
Definition hashPayload (c : Command) : string :=
  hex_encode (sha256 (put_parts (payload_parts c))).

Definition rebuild (tenant iid : string) : M (option interactionState) :=
  r ← op_replay (logSubjectFor tenant iid);
  mret (match r with
        | RepErr => None
        | RepOK facts last => Some (rebuild_state (maxResults cfg) facts last)
        end).

(** [pruneLocked]. *)
Definition pruneLocked : M unit :=
  (if decide (0 < idleTTL cfg)%Z then
     t ← op_now; modify_state (prune_idle (t - idleTTL cfg))
   else mret tt);;
  modify_state (λ s, prune_lru range_order (size (inter s)) (maxInter cfg) s).

(** [getState]: the location of the cached or rebuilt object, [None] when the
    replay failed. Concurrent callers share the rebuild (singleflight), so one
    caller's sequence is the whole behaviour. *)
Definition getState (tenant iid : string) : M (option nat) :=
  let key := stateKey tenant iid in
  s ← get_state;
  match inter s !! key with
  | Some loc =>
      t ← op_now;
      modify_state (λ s', match heap s' !! loc with
                          | Some st => put_loc loc (set_lastUsed t st) s'
                          | None => s'
                          end);;
      mret (Some loc)
  | None =>
      built ← rebuild tenant iid;
      match built with
      | None => mret None
      | Some st =>
          t ← op_now;
          s' ← get_state;
          modify_state (insert_state key (set_lastUsed t st));;
          pruneLocked;;
          mret (Some (next_loc s'))
      end
  end.

(** Lock the object and read it. *)
Definition load_loc (loc : nat) : M (option interactionState) :=
  s ← get_state; mret (heap s !! loc).

Definition save_loc (loc : nat) (st : interactionState) : M unit := modify_state (put_loc loc st).

Definition evict (tenant iid : string) : M unit := modify_state (evict_key (stateKey tenant iid)).

(** Poison the object, drop it from the cache and answer. *)
Definition poison (tenant iid : string) (loc : nat) (st : interactionState) (r : CommandResult) :
    M CommandResult :=
  save_loc loc (set_poisoned st);; evict tenant iid;; mret r.

Definition conflict_reason : string := "conflict: command_id reused with a different payload".
Definition illegal_reason (t status : string) : string :=
  "illegal transition " +:+ quote t +:+ " from state " +:+ quote status.

(** ** Ordinary commands *)

(** The deduplication check at the head of each attempt; [None] falls through. *)
Definition check_results (st : interactionState) (cid ph : string) : option CommandResult :=
  match st_results st !! cid with
  | None => None
  | Some prev =>
      if decide (sr_payloadHash prev = "") then Some (sr_result prev)
      else if decide (sr_payloadHash prev ≠ ph) then Some (rejected cid conflict_reason)
      else if decide (res_Status (sr_result prev) = STATUS_ACCEPTED) then Some (sr_result prev)
      else None
  end.

Definition gate_closed (gate : bool) (st : interactionState) (suffix : string) : bool :=
  gate && match st_part st with
          | None => true
          | Some v => negb (IsParticipantNow v suffix)
          end.

(** The fact an ordinary command becomes. *)
Definition command_event (tenant ph eid : string) (now seq : Z) (cmd : Command) : Event :=
  mkEvent SchemaV1 (cmd_Type cmd) eid seq now tenant (cmd_ActorId cmd)
    (orDefault (cmd_Medium cmd) "chat") "" (cmd_CommandId cmd) ph (cmd_CommandId cmd)
    (cmd_RefId cmd) (cmd_Data cmd) "" "" "".

(** After the loop: the duplicate reconciliation, or the commit. *)
Definition finish_append (tenant iid : string) (loc : nat) (cmd : Command) (ph : string)
    (st : interactionState) (dup : bool) (committedSeq : N) : M CommandResult :=
  let cid := cmd_CommandId cmd in
  let res := accepted cid in
  if dup then
    fresh ← rebuild tenant iid;
    match fresh with
    | None => poison tenant iid loc st res
    | Some fr =>
        let st' := refold (maxResults cfg) fr st in
        match st_results st' !! cid with
        | Some committed =>
            save_loc loc st';;
            mret (if decide (sr_payloadHash committed ≠ "" ∧ sr_payloadHash committed ≠ ph)
                  then rejected cid conflict_reason
                  else sr_result committed)
        | None =>
            save_loc loc (putResult cid (mkStored ph res) (maxResults cfg) st');;
            mret res
        end
    end
  else
    let st' := putResult cid (mkStored ph res) (maxResults cfg)
                 (advance committedSeq (cmd_Type cmd) st) in
    save_loc loc st';;
    (if decide (st_status st' = "ended") then evict tenant iid else mret tt);;
    mret res.

(** The attempts; [remaining] is [maxRefold - attempt]. *)
Fixpoint append_loop (tenant iid suffix : string) (gate : bool) (loc : nat) (cmd : Command)
    (remaining : nat) (st : interactionState) : M CommandResult :=
  let cid := cmd_CommandId cmd in
  let ph := hashPayload cmd in
  match check_results st cid ph with
  | Some r => save_loc loc st;; mret r
  | None =>
      if gate_closed gate st suffix then
        save_loc loc st;; mret (rejected cid "not_a_participant")
      else if negb (legalTransition (st_status st) (cmd_Type cmd)) then
        let res := rejected cid (illegal_reason (cmd_Type cmd) (st_status st)) in
        save_loc loc (putResult cid (mkStored ph res) (maxResults cfg) st);;
        mret res
      else
        eid ← op_id;
        t ← op_now;
        let ev := command_event tenant ph eid t (i64 (st_seq st + 1)) cmd in
        r ← op_append (logSubjectFor tenant iid) (marshal_event ev)
              (dedupIDFor tenant iid cid) (st_streamSeq st);
        match r with
        | AppOCC =>
            fresh ← rebuild tenant iid;
            match fresh, remaining with
            | Some fr, S remaining' =>
                append_loop tenant iid suffix gate loc cmd remaining' (refold (maxResults cfg) fr st)
            | _, _ => poison tenant iid loc st (rejected cid "lost concurrent append — retry")
            end
        | AppErr =>
            fresh ← rebuild tenant iid;
            match fresh ≫= (λ fr, prev ← st_results fr !! cid; Some (fr, prev)) with
            | Some (fr, prev) =>
                save_loc loc (mkState (st_seq fr) (st_streamSeq fr) (st_status fr) (st_results st)
                  (st_resultOrder st) (st_part st) (st_parents st) (st_poisoned st) (st_lastUsed st));;
                mret (sr_result prev)
            | None => poison tenant iid loc st (rejected cid "log append failed — retry")
            end
        | AppOK dup cseq => finish_append tenant iid loc cmd ph st dup cseq
        end
  end.

(** The ordinary path of [HandleCommand], from [getState] on. *)
Definition appendCommand (tenant iid suffix : string) (gate : bool) (cmd : Command) : M CommandResult :=
  let cid := cmd_CommandId cmd in
  ol ← getState tenant iid;
  match ol with
  | None => mret (rejected cid "state unavailable (log replay failed) — retry")
  | Some loc =>
      ost ← load_loc loc;
      match ost with
      | None => mret (rejected cid "state unavailable — retry")
      | Some st =>
          if st_poisoned st then mret (rejected cid "state unavailable — retry")
          else append_loop tenant iid suffix gate loc cmd (maxRefold cfg) st
      end
  end.

(** ** Participation commands *)

(** The fact one sub-command of a privileged command becomes. *)
Definition participation_event (tenant ph eid parentID commandedBy : string) (now seq : Z)
    (pd : participationData) (fcmd : Command) : Event :=
  mkEvent SchemaV1 (cmd_Type fcmd) eid seq now tenant (cmd_ActorId fcmd)
    (orDefault (cmd_Medium fcmd) "chat") "" (cmd_CommandId fcmd) ph parentID
    "" "" commandedBy (pd_Reason pd) (pd_RequestID pd).

(** [check_results] of [appendParticipationFact]: an unknown hash does not
    short-circuit. *)
Definition check_fact_results (st : interactionState) (cid ph : string) : option CommandResult :=
  match st_results st !! cid with
  | None => None
  | Some prev =>
      if decide (sr_payloadHash prev ≠ "" ∧ sr_payloadHash prev ≠ ph)
      then Some (rejected cid conflict_reason)
      else if decide (res_Status (sr_result prev) = STATUS_ACCEPTED) then Some (sr_result prev)
      else None
  end.

(** [st.part.ApplyFact(ev)] after a committed participation fact. *)
Definition apply_part (ev : Event) (st : interactionState) : interactionState :=
  mkState (st_seq st) (st_streamSeq st) (st_status st) (st_results st) (st_resultOrder st)
    ((λ v, ApplyFact v ev) <$> st_part st) (st_parents st) (st_poisoned st) (st_lastUsed st).

Fixpoint fact_loop (tenant iid commandedBy parentID : string) (pd : participationData)
    (loc : nat) (fcmd : Command) (remaining : nat) (st : interactionState) : M CommandResult :=
  let cid := cmd_CommandId fcmd in
  let ph := hashPayload fcmd in
  match check_fact_results st cid ph with
  | Some r =>
      save_loc loc st;;
      (if decide (res_Status r = STATUS_ACCEPTED ∧ st_status st = "ended")
       then evict tenant iid else mret tt);;
      mret r
  | None =>
      if negb (legalTransition (st_status st) (cmd_Type fcmd)) then
        save_loc loc st;;
        mret (rejected cid (illegal_reason (cmd_Type fcmd) (st_status st)))
      else
        eid ← op_id;
        t ← op_now;
        let ev := participation_event tenant ph eid parentID commandedBy t
                    (i64 (st_seq st + 1)) pd fcmd in
        r ← op_append (logSubjectFor tenant iid) (marshal_event ev)
              (dedupIDFor tenant iid cid) (st_streamSeq st);
        match r with
        | AppOCC =>
            fresh ← rebuild tenant iid;
            match fresh, remaining with
            | Some fr, S remaining' =>
                fact_loop tenant iid commandedBy parentID pd loc fcmd remaining'
                  (refold (maxResults cfg) fr st)
            | _, _ => poison tenant iid loc st (rejected cid "lost concurrent append — retry")
            end
        | AppErr => poison tenant iid loc st (rejected cid "log append failed — retry")
        | AppOK _ cseq =>
            let res := accepted cid in
            let st' := putResult cid (mkStored ph res) (maxResults cfg)
                         (apply_part ev (advance cseq (cmd_Type fcmd) st)) in
            save_loc loc st';;
            (if decide (st_status st' = "ended") then evict tenant iid else mret tt);;
            mret res
        end
  end.

Definition appendParticipationFact (tenant iid commandedBy parentID : string)
    (pd : participationData) (fcmd : Command) : M CommandResult :=
  let cid := cmd_CommandId fcmd in
  ol ← getState tenant iid;
  match ol with
  | None => mret (rejected cid "state unavailable (log replay failed) — retry")
  | Some loc =>
      ost ← load_loc loc;
      match ost with
      | None => mret (rejected cid "state unavailable — retry")
      | Some st =>
          if st_poisoned st then mret (rejected cid "state unavailable — retry")
          else fact_loop tenant iid commandedBy parentID pd loc fcmd (maxRefold cfg) st
      end
  end.

(** The facts a participation command stands for: event type and agent, or the
    reason it is refused. A transfer joins the new agent before the old leaves. *)
Definition participation_facts (t : string) (pd : participationData) : string + list (string * string) :=
  if decide (t = "participant.assign") then
    if decide (pd_Agent pd = "") then inl "missing agent"
    else inr [("participant.joined", pd_Agent pd)]
  else if decide (t = "participant.unassign") then
    if decide (pd_Agent pd = "") then inl "missing agent"
    else inr [("participant.left", pd_Agent pd)]
  else if decide (t = "participant.transfer") then
    if decide (pd_Agent pd = "" ∨ pd_From pd = "") then inl "missing from/agent"
    else inr [("participant.joined", pd_Agent pd); ("participant.left", pd_From pd)]
  else inr [].

(** The id of a sub-fact. *)
Definition subID (cid : string) (f : string * string) : string :=
  cid +:+ ":" +:+ f.1 +:+ ":" +:+ f.2.

Definition recordedSubsetOf (recorded want : gset string) : bool := bool_decide (recorded ⊆ want).

(** The loop over the facts: stops at the first that is not accepted. *)
Fixpoint append_facts (tenant iid actor : string) (cmd : Command) (pd : participationData)
    (first : bool) (facts : list (string * string)) : M (option CommandResult) :=
  match facts with
  | [] => mret None
  | f :: rest =>
      let fcmd := mkCommand (subID (cmd_CommandId cmd) f) tenant f.2 f.1 (cmd_Medium cmd) "" "" in
      ev ← appendParticipationFact tenant iid actor (cmd_CommandId cmd) pd fcmd;
      if decide (res_Status ev = STATUS_ACCEPTED) then
        append_facts tenant iid actor cmd pd false rest
      else
        let reason := if first then res_Reason ev
                      else "transfer partially applied (" +:+ res_Reason ev +:+ ")" in
        mret (Some (mkResult (cmd_CommandId cmd) (res_Status ev) (res_CausedBy ev) reason))
  end.

(** Record the sub-facts of a parent command on the object the handler holds. *)
Definition record_parent (cid : string) (subIDs : list string) (st : interactionState) : interactionState :=
  mkState (st_seq st) (st_streamSeq st) (st_status st) (st_results st) (st_resultOrder st)
    (st_part st) (<[cid := list_to_set subIDs ∪ default ∅ (st_parents st !! cid)]> (st_parents st))
    (st_poisoned st) (st_lastUsed st).

Definition decode_pd (data : string) : option participationData :=
  if decide (data = "") then Some emptyPD else unmarshal_pd data.

Definition handleParticipation (tenant iid actor role : string) (cmd : Command) : M CommandResult :=
  let cid := cmd_CommandId cmd in
  if decide (role ≠ RoleTrustedBackend) then
    mret (rejected cid "privileged command requires trusted-backend actor")
  else match decode_pd (cmd_Data cmd) with
  | None => mret (rejected cid "bad participation payload")
  | Some pd =>
      match participation_facts (cmd_Type cmd) pd with
      | inl reason => mret (rejected cid reason)
      | inr facts =>
          let subIDs := subID cid <$> facts in
          ol ← getState tenant iid;
          match ol with
          | None => mret (rejected cid "state unavailable (log replay failed) — retry")
          | Some loc =>
              ost ← load_loc loc;
              let recorded := ost ≫= λ st, st_parents st !! cid in
              if match recorded with
                 | Some subs => negb (recordedSubsetOf subs (list_to_set subIDs))
                 | None => false
                 end
              then mret (rejected cid conflict_reason)
              else
                failed ← append_facts tenant iid actor cmd pd true facts;
                match failed with
                | Some r => mret r
                | None =>
                    ost' ← load_loc loc;
                    match ost' with
                    | Some st => save_loc loc (record_parent cid subIDs st)
                    | None => mret tt
                    end;;
                    mret (accepted cid)
                end
          end
      end
  end.

(** ** HandleCommand *)

(** The checks before any state is read: subject, payload, authentication,
    tenant and actor binding. *)
Definition admission (id : Identity) (subject data : string) :
    CommandResult + (string * string * string * Command) :=
  match parseCmdSubject subject with
  | None => inl (rejected "" "bad subject")
  | Some (tenant, iid, suffix) =>
      match unmarshal_command data with
      | None => inl (rejected "" "bad payload")
      | Some cmd =>
          let cid := cmd_CommandId cmd in
          if negb (isAuthenticated id) && negb (devMode cfg) then inl (rejected cid "unauthenticated")
          else
            let authTenant := orDefault (id_TenantID id) tenant in
            if decide (cid = "") then inl (rejected cid "missing command_id")
            else if decide (tenant ≠ authTenant) then
              inl (rejected cid "subject tenant != authenticated tenant")
            else if decide (cmd_TenantId cmd ≠ authTenant) then
              inl (rejected cid "payload tenant_id != authenticated tenant")
            else if decide (RoleOf id = RoleTrustedBackend) then inr (tenant, iid, suffix, cmd)
            else if decide (cmd_ActorId cmd = "") then inl (rejected cid "missing actor_id")
            else if decide (cmd_ActorId cmd ≠ suffix) then inl (rejected cid "actor_mismatch")
            else if decide (id_UserID id ≠ "" ∧ suffix ≠ id_UserID id) then
              inl (rejected cid "actor_id != authenticated user")
            else inr (tenant, iid, suffix, cmd)
      end
  end.

(** Whether the write requires an open membership interval. *)
Definition gateParticipation (id : Identity) (cmd : Command) : bool :=
  isAuthenticated id && negb (bool_decide (RoleOf id = RoleTrustedBackend))
  && negb (bool_decide (cmd_Type cmd = "interaction.started")).

Definition HandleCommand (id : Identity) (subject data : string) : M CommandResult :=
  match admission id subject data with
  | inl r => mret r
  | inr (tenant, iid, suffix, cmd) =>
      let cid := cmd_CommandId cmd in
      if isParticipationCommand (cmd_Type cmd) then
        handleParticipation tenant iid suffix (RoleOf id) cmd
      else if isParticipationFact (cmd_Type cmd) then
        mret (rejected cid "participation fact requires a privileged command")
      else if isAuthenticated id && negb (bool_decide (RoleOf id = RoleTrustedBackend))
              && negb (IsSubscriberCapability (id_Capability id)) then
        mret (rejected cid "capability_denied")
      else appendCommand tenant iid suffix (gateParticipation id cmd) cmd
  end.
End Handlers.
