(* ===== verification/StreamInvariant.v ===== *)
(** The invariant of the stream INTERACTION_LOGS that every router preserves:
    each message decodes, each fact was legal where it landed, stream sequences
    increase, and (on a broker without duplicate answers) the facts of a subject are numbered 1, 2,
    3, ... without a gap. *)

From S2P Require Import Prelude Wire Subjects Membership LogStore Lifecycle.

(** Facts numbered densely from 1. *)
Definition dense (facts : list Event) : Prop :=
  ∀ n e, facts !! n = Some e → ev_Sequence e = (Z.of_nat n + 1)%Z.

(** The stream sequence after the first [n] messages of a subject. *)
Definition seq_at (msgs : list entry) (n : nat) : N :=
  match n with
  | O => 0%N
  | S m => default 0%N (e_seq <$> msgs !! m)
  end.

Lemma dense_sequences facts :
  dense facts → ev_Sequence <$> facts = (λ n, Z.of_nat (S n)) <$> seq 0 (length facts).
Proof.
  intros Hd. apply list_eq. intros n. rewrite !list_lookup_fmap.
  destruct (facts !! n) as [e|] eqn:He.
  - rewrite lookup_seq_lt by (by eapply lookup_lt_Some). simpl. rewrite (Hd n e He). f_equal. lia.
  - rewrite lookup_seq_ge; [done|]. by apply lookup_ge_None.
Qed.

Section Invariant.
Context {EC : EventCodec}.

(** What an entry must satisfy to be added to [l]; [q] asks for density. *)
Definition good_entry (q : bool) (l : log) (e : entry) : Prop :=
  ∃ t i c ev facts,
    tok t ∧ tok i ∧ e_subject e = logSubjectFor t i ∧ e_dedup e = dedupIDFor t i c ∧
    unmarshal_event (e_data e) = Some ev ∧ ev_CommandId ev = c ∧
    facts_of l (e_subject e) = Some facts ∧
    legalTransition (fold_status facts) (ev_EventType ev) = true ∧
    (q = true → ev_Sequence ev = (Z.of_nat (length facts) + 1)%Z) ∧
    fresh_seq l (e_seq e).

Inductive log_ok (q : bool) : log → Prop :=
| lo_nil : log_ok q []
| lo_snoc l e : log_ok q l → good_entry q l e → log_ok q (l ++ [e]).

Lemma subj_msgs_app l l' s : subj_msgs (l ++ l') s = subj_msgs l s ++ subj_msgs l' s.
Proof. apply filter_app. Qed.

Lemma subj_msgs_snoc l e s :
  subj_msgs (l ++ [e]) s = if decide (e_subject e = s) then subj_msgs l s ++ [e] else subj_msgs l s.
Proof.
  rewrite subj_msgs_app. unfold subj_msgs at 2. rewrite filter_cons, filter_nil.
  case_decide; [done|]. by rewrite app_nil_r.
Qed.

Lemma facts_of_snoc l e s :
  facts_of (l ++ [e]) s =
    if decide (e_subject e = s) then
      fs ← facts_of l s; ev ← unmarshal_event (e_data e); Some (fs ++ [ev])
    else facts_of l s.
Proof.
  unfold facts_of. rewrite subj_msgs_snoc. case_decide; [|done].
  rewrite mapM_app_option. destruct (mapM _ (subj_msgs l s)); simpl; [|done].
  by destruct (unmarshal_event (e_data e)).
Qed.

Lemma facts_of_length l s facts : facts_of l s = Some facts → length facts = length (subj_msgs l s).
Proof. unfold facts_of. by apply mapM_length_option. Qed.

Lemma subj_msgs_length l s : length (subj_msgs l s) ≤ length l.
Proof. unfold subj_msgs. apply length_filter. Qed.

(** The facts of every subject of a good stream. *)
Lemma log_ok_facts q l s :
  log_ok q l → ∃ facts, facts_of l s = Some facts ∧ facts_legal facts ∧ (q = true → dense facts).
Proof.
  induction 1 as [|l e Hl (facts & Hf & Hlegal & Hd) (t&i&c&ev&fs&_&_&_&_&Hev&_&Hfs&Hleg&Hseq&_)].
  - exists []. split_and!; [done|constructor|]. intros _ n e He. by rewrite lookup_nil in He.
  - rewrite facts_of_snoc. case_decide as Hs; [|by exists facts].
    subst s. rewrite Hf in Hfs |- *. simplify_eq. rewrite Hev. simpl.
    eexists. split; [done|]. split; [by constructor|].
    intros Hq n e' He. apply lookup_app_Some in He as [He|[Hn He]].
    + by apply (Hd Hq).
    + apply list_lookup_singleton_Some in He as [Hn' ->]. rewrite (Hseq Hq). lia.
Qed.

Lemma good_entry_facts q l e :
  log_ok q l → good_entry q l e → ∃ facts, facts_of l (e_subject e) = Some facts.
Proof. intros _ (?&?&?&?&fs&?&?&?&?&?&?&?&?). by exists fs. Qed.

Lemma log_ok_prefix q l l' : l `prefix_of` l' → log_ok q l' → log_ok q l.
Proof.
  intros [k ->]. induction k as [|x k IH] using rev_ind; [by rewrite app_nil_r|].
  rewrite app_assoc. intros Hok. apply IH. inversion Hok as [Hn|l0 e ? ? He].
  - by destruct (l ++ k).
  - by apply app_inj_tail in He as [-> _].
Qed.

(** ** Stream sequences *)

Lemma log_ok_seq_pos q l e : log_ok q l → e ∈ l → (0 < e_seq e)%N.
Proof.
  induction 1 as [|l e' Hl IH (t&i&c&ev&fs&?&?&?&?&?&?&?&?&?&Hq)]; [by intros ?%not_elem_of_nil|].
  intros [?| ->%list_elem_of_singleton]%elem_of_app; [auto|]. by destruct Hq.
Qed.

Lemma log_ok_seq_lt q l n m e f :
  log_ok q l → l !! n = Some e → l !! m = Some f → n < m → (e_seq e < e_seq f)%N.
Proof.
  intros Hl. revert n m e f.
  induction Hl as [|l e' Hl IH (t&i&c&ev&fs&?&?&?&?&?&?&?&?&?&(?&Hlt&?))]; intros n m e f He Hf Hnm.
  - by rewrite lookup_nil in He.
  - apply lookup_app_Some in Hf as [Hf|[Hm Hf]].
    + apply lookup_lt_Some in Hf as Hlen. rewrite lookup_app_l in He by lia. by eapply IH.
    + apply list_lookup_singleton_Some in Hf as [Hm' <-].
      rewrite lookup_app_l in He by lia. apply Hlt. by eapply list_elem_of_lookup_2.
Qed.

Lemma subj_seq_lt q l s n m e f :
  log_ok q l → subj_msgs l s !! n = Some e → subj_msgs l s !! m = Some f → n < m →
  (e_seq e < e_seq f)%N.
Proof.
  intros Hl. revert n m e f.
  induction Hl as [|l e' Hl IH (t&i&c&ev&fs&?&?&?&?&?&?&?&?&?&(?&Hlt&?))]; intros n m e f He Hf Hnm.
  - unfold subj_msgs in He. by rewrite filter_nil, lookup_nil in He.
  - rewrite subj_msgs_snoc in He, Hf. case_decide; [|by eapply IH].
    apply lookup_app_Some in Hf as [Hf|[Hm Hf]].
    + apply lookup_lt_Some in Hf as Hlen. rewrite lookup_app_l in He by lia. by eapply IH.
    + apply list_lookup_singleton_Some in Hf as [Hm' <-].
      rewrite lookup_app_l in He by lia. apply Hlt.
      apply list_elem_of_lookup_2 in He. unfold subj_msgs in He.
      by apply list_elem_of_filter in He as [_ ?].
Qed.

Lemma subj_msgs_elem l s e : e ∈ subj_msgs l s → e ∈ l ∧ e_subject e = s.
Proof. unfold subj_msgs. by intros [? ?]%list_elem_of_filter. Qed.

Lemma last_subj_seq_at l s : last_subj_seq l s = seq_at (subj_msgs l s) (length (subj_msgs l s)).
Proof.
  unfold last_subj_seq. rewrite last_lookup. destruct (subj_msgs l s) as [|e ms]; [done|]. done.
Qed.

Lemma seq_at_inj q l s n m :
  log_ok q l → n ≤ length (subj_msgs l s) → m ≤ length (subj_msgs l s) →
  seq_at (subj_msgs l s) n = seq_at (subj_msgs l s) m → n = m.
Proof.
  intros Hl Hn Hm He.
  assert (∀ k, k < length (subj_msgs l s) → ∃ e, subj_msgs l s !! k = Some e ∧ (0 < e_seq e)%N) as Hpos.
  { intros k Hk. destruct (lookup_lt_is_Some_2 _ _ Hk) as [e Hke]. exists e. split; [done|].
    eapply log_ok_seq_pos; [done|]. by apply (subj_msgs_elem l s), list_elem_of_lookup_2 with k. }
  destruct n as [|n], m as [|m]; simpl in *; try done.
  - destruct (Hpos m) as (e & Hk & ?); [lia|]. rewrite Hk in He. simpl in He. lia.
  - destruct (Hpos n) as (e & Hk & ?); [lia|]. rewrite Hk in He. simpl in He. lia.
  - destruct (Hpos n) as (e & Hne & _); [lia|]. destruct (Hpos m) as (f & Hmf & _); [lia|].
    rewrite Hne, Hmf in He. simpl in He.
    destruct (lt_eq_lt_dec n m) as [[?| ->]|?]; [|done|].
    + pose proof (subj_seq_lt _ _ _ _ _ _ _ Hl Hne Hmf). lia.
    + pose proof (subj_seq_lt _ _ _ _ _ _ _ Hl Hmf Hne). lia.
Qed.

Lemma seq_at_lt q l s n m :
  log_ok q l → n < m → m ≤ length (subj_msgs l s) →
  (seq_at (subj_msgs l s) n < seq_at (subj_msgs l s) m)%N.
Proof.
  intros Hl Hnm Hm. destruct m as [|m]; [lia|]. simpl.
  destruct (lookup_lt_is_Some_2 (subj_msgs l s) m) as [f Hf]; [lia|]. rewrite Hf.
  destruct n as [|n]; simpl.
  - eapply log_ok_seq_pos; [done|]. by apply (subj_msgs_elem l s), list_elem_of_lookup_2 with m.
  - destruct (lookup_lt_is_Some_2 (subj_msgs l s) n) as [e He]; [lia|]. rewrite He. simpl.
    eapply subj_seq_lt; eauto. lia.
Qed.

Lemma seq_at_le q l s n m :
  log_ok q l → n ≤ m → m ≤ length (subj_msgs l s) →
  (seq_at (subj_msgs l s) n <= seq_at (subj_msgs l s) m)%N.
Proof.
  intros Hl Hnm Hm. destruct (decide (n = m)) as [->|]; [lia|].
  pose proof (seq_at_lt q l s n m Hl). lia.
Qed.

Lemma seq_at_app ms ms' n : n ≤ length ms → seq_at (ms ++ ms') n = seq_at ms n.
Proof. intros. destruct n; simpl; [done|]. by rewrite lookup_app_l by lia. Qed.

(** ** Growth *)

Lemma facts_of_grows q l l' s facts :
  l `prefix_of` l' → log_ok q l' → facts_of l s = Some facts →
  ∃ ext, facts_of l' s = Some (facts ++ ext).
Proof.
  intros [k ->] Hok Hf. destruct (log_ok_facts q (l ++ k) s Hok) as (fs & Hfs & _).
  rewrite Hfs. unfold facts_of in Hf, Hfs. rewrite subj_msgs_app, mapM_app_option, Hf in Hfs. simpl in Hfs.
  destruct (mapM _ (subj_msgs k s)) as [ext|]; simplify_eq/=. by exists ext.
Qed.

(** An entry with the deduplication id of [(t, i)] lies on that subject. *)
Lemma log_ok_dedup q l e t i c :
  log_ok q l → e ∈ l → tok t → tok i → e_dedup e = dedupIDFor t i c →
  e ∈ subj_msgs l (logSubjectFor t i).
Proof.
  intros Hl He Ht Hi Hd. apply list_elem_of_filter. split; [|done].
  revert He. induction Hl as [|l e' Hl IH (t'&i'&c'&ev&fs&Ht'&Hi'&Hs&Hd'&_)].
  - by intros ?%not_elem_of_nil.
  - intros [?| ->%list_elem_of_singleton]%elem_of_app; [auto|].
    rewrite Hd' in Hd. apply dedupIDFor_inj in Hd as (-> & -> & _); done.
Qed.

(** ** Durability *)

(** A fact of command [cid] is on the log of [(t, i)]. *)
Definition committed (l : log) (t i cid : string) : Prop :=
  ∃ e ev, e ∈ l ∧ e_subject e = logSubjectFor t i ∧ unmarshal_event (e_data e) = Some ev ∧
    ev_CommandId ev = cid.

Lemma committed_grows l l' t i cid : l `prefix_of` l' → committed l t i cid → committed l' t i cid.
Proof.
  intros [k ->] (e & ev & He & H). exists e, ev. split; [|done]. apply elem_of_app. by left.
Qed.

Lemma committed_snoc l e ev t i :
  e_subject e = logSubjectFor t i → unmarshal_event (e_data e) = Some ev →
  committed (l ++ [e]) t i (ev_CommandId ev).
Proof. intros. exists e, ev. split_and!; try done. apply elem_of_app. right. by left. Qed.

Lemma committed_dedup q l e t i c :
  log_ok q l → e ∈ l → tok t → tok i → e_dedup e = dedupIDFor t i c → committed l t i c.
Proof.
  intros Hl He Ht Hi Hd.
  induction Hl as [|l e' Hl IH (t'&i'&c'&ev&fs&Ht'&Hi'&Hs&Hd'&Hev&Hc&_)];
    [by apply not_elem_of_nil in He|].
  apply elem_of_app in He as [He| ->%list_elem_of_singleton].
  - eapply committed_grows; [|by apply IH]. by apply prefix_app_r.
  - rewrite Hd' in Hd. apply dedupIDFor_inj in Hd as (-> & -> & ->); try done. subst c.
    by apply committed_snoc.
Qed.

Lemma committed_fact l t i facts ev :
  facts_of l (logSubjectFor t i) = Some facts → ev ∈ facts → committed l t i (ev_CommandId ev).
Proof.
  intros Hf Hin. apply list_elem_of_lookup_1 in Hin as [n Hn]. unfold facts_of in Hf.
  apply mapM_Some_1 in Hf. destruct (Forall2_lookup_r _ _ _ _ _ Hf Hn) as (e & He & Hev).
  apply list_elem_of_lookup_2, subj_msgs_elem in He as [??]. by exists e, ev.
Qed.
End Invariant.
