(* ===== verification/RouterSafety.v ===== *)
(** Safety of the router under concurrency: whatever the broker answers and
    however other routers interleave, a router's cached state is a prefix of the
    log and every fact it appends is legal where it lands. *)

From S2P Require Import Prelude Bytes Wire Identity Subjects Membership.
From S2P Require Import LogStore Lifecycle RouterState Router StreamInvariant.

(** * The log-derived fields of a state object *)

Definition core (st : interactionState) :=
  (st_seq st, st_streamSeq st, st_status st, st_part st, st_poisoned st).

Lemma putResult_core id sr max st : core (putResult id sr max st) = core st.
Proof. unfold core. by destruct (putResult_fields id sr max st) as (-> & -> & -> & -> & _ & ->). Qed.

Lemma copyMissing_core fresh max st : core (copyMissingResults fresh max st) = core st.
Proof.
  unfold copyMissingResults. generalize (st_resultOrder fresh). intros order.
  revert st. induction order as [|id order IH]; intros st; simpl; [done|]. rewrite IH.
  repeat case_match; try done. apply putResult_core.
Qed.

Lemma refold_core max fr st :
  core (refold max fr st) =
    (st_seq fr, st_streamSeq fr, st_status fr, st_part fr, st_poisoned st).
Proof. unfold refold. by rewrite copyMissing_core. Qed.

Lemma rebuild_step_fields max st e :
  let st' := rebuild_step max st e in
  st_seq st' = Z.max (st_seq st) (ev_Sequence e) ∧ st_streamSeq st' = st_streamSeq st ∧
  st_status st' = applyTransition (st_status st) (ev_EventType e) ∧
  st_part st' = st_part st ∧ st_poisoned st' = st_poisoned st.
Proof.
  assert (core (rebuild_step max st e) = core (rebuild_status st e)) as Hc.
  { unfold rebuild_step, rebuild_parent, rebuild_result.
    destruct (isParticipationFact _ && _), (decide _); unfold core; simpl; try done;
      apply (putResult_core _ _ _ (rebuild_status st e)). }
  unfold core in Hc. cbv zeta. injection Hc as -> -> -> -> ->. simpl.
  destruct (Z.ltb_spec (st_seq st) (ev_Sequence e)); split_and!; try done; lia.
Qed.

Lemma rebuild_fold_fields max facts st :
  let st' := foldl (rebuild_step max) st facts in
  st_seq st' = foldl (λ z e, Z.max z (ev_Sequence e)) (st_seq st) facts ∧
  st_streamSeq st' = st_streamSeq st ∧
  st_status st' = foldl (λ s e, applyTransition s (ev_EventType e)) (st_status st) facts ∧
  st_part st' = st_part st ∧ st_poisoned st' = st_poisoned st.
Proof.
  revert st. induction facts as [|e facts IH]; intros st; simpl; [done|].
  destruct (IH (rebuild_step max st e)) as (-> & -> & -> & -> & ->).
  by destruct (rebuild_step_fields max st e) as (-> & -> & -> & -> & ->).
Qed.

Lemma dense_max facts :
  dense facts → foldl (λ z e, Z.max z (ev_Sequence e)) 0%Z facts = Z.of_nat (length facts).
Proof.
  induction facts as [|e facts IH] using rev_ind; intros Hd; [done|].
  rewrite foldl_snoc, IH.
  - rewrite (Hd (length facts) e), length_app by (by rewrite list_lookup_middle). simpl. lia.
  - intros n e' He. apply Hd. by apply lookup_app_l_Some.
Qed.

Section Safety.
Context {EC : EventCodec} {ECOK : EventCodecOK} {EX : Externals}.
Context (cfg : RouterConfig) (b : broker).
Hypothesis Hocc : occ_first b = true.

(** Numbering needs no membership append deduplicated ([d]); membership needs that
    no ordinary append is lost either ([q]). *)
Local Abbreviation d := (nodup b).
Local Abbreviation q := (quiet b).
Local Abbreviation ok := (log_ok d).

Lemma quiet_nodup : q = true → d = true.
Proof. by intros [? _]%quiet_flags. Qed.

(** * Coherence: a state object is the fold of a prefix of its subject *)

Definition coh (l : log) (t i : string) (st : interactionState) : Prop :=
  st_poisoned st = false →
  ∃ facts n,
    facts_of l (logSubjectFor t i) = Some facts ∧ n ≤ length facts ∧
    st_streamSeq st = seq_at (subj_msgs l (logSubjectFor t i)) n ∧
    st_status st = fold_status (take n facts) ∧
    (d = true → st_seq st = Z.of_nat n) ∧
    (q = true → st_part st = Some (FoldParticipation (take n facts))).

Lemma coh_core l t i st st' : core st' = core st → coh l t i st → coh l t i st'.
Proof. unfold core, coh. intros [= -> -> -> -> ->]. done. Qed.

Lemma coh_grows l l' t i st : grows ok l l' → coh l t i st → coh l' t i st.
Proof.
  intros [Hp Hok] Hc Hnp. destruct (Hc Hnp) as (facts & n & Hf & Hn & Hs & Hst & Hd & Hq).
  destruct (facts_of_grows d l l' _ _ Hp Hok Hf) as [ext Hf'].
  exists (facts ++ ext), n. destruct Hp as [k ->].
  rewrite subj_msgs_app, seq_at_app by (by rewrite <-(facts_of_length _ _ _ Hf)).
  rewrite take_app_le, length_app by done. split_and!; try done. lia.
Qed.

Lemma coh_poisoned l t i st : st_poisoned st = true → coh l t i st.
Proof. intros Hp Hnp. congruence. Qed.

(** A rebuilt object is coherent with the log it was read from. *)
Lemma coh_rebuild l t i facts :
  ok l → facts_of l (logSubjectFor t i) = Some facts →
  coh l t i (rebuild_state (maxResults cfg) facts (last_subj_seq l (logSubjectFor t i))).
Proof.
  intros Hok Hf _. exists facts, (length facts). unfold rebuild_state.
  set (st0 := mkState _ _ _ _ _ _ _ _ _).
  destruct (rebuild_fold_fields (maxResults cfg) facts st0) as (-> & -> & -> & -> & _).
  simpl. rewrite last_subj_seq_at, firstn_all, (facts_of_length _ _ _ Hf).
  split_and!; try done. intros Hq.
  destruct (log_ok_facts d l (logSubjectFor t i) Hok) as (fs & Hfs & _ & Hd).
  rewrite Hf in Hfs. simplify_eq. rewrite <-(facts_of_length _ _ _ Hf). by apply dense_max, Hd.
Qed.

Lemma rebuild_not_poisoned max facts last : st_poisoned (rebuild_state max facts last) = false.
Proof. unfold rebuild_state. by destruct (rebuild_fold_fields max facts
  (mkState 0 last "" ∅ [] (Some (FoldParticipation facts)) ∅ false 0)) as (_ & _ & _ & _ & ->). Qed.

Lemma coh_refold l t i st fr :
  st_poisoned fr = false → coh l t i fr → coh l t i (refold (maxResults cfg) fr st).
Proof.
  intros Hp Hc Hnp. destruct (Hc Hp) as (facts & n & ? & ? & Hs & Hst & Hd & Hq). exists facts, n.
  pose proof (refold_core (maxResults cfg) fr st) as Hcore. unfold core in Hcore.
  injection Hcore as -> -> -> -> _. done.
Qed.

(** An object whose stream sequence is the subject's last one is the fold of
    the whole subject. *)
Lemma coh_current l t i st :
  ok l → coh l t i st → st_poisoned st = false →
  last_subj_seq l (logSubjectFor t i) = st_streamSeq st →
  ∃ facts, facts_of l (logSubjectFor t i) = Some facts ∧ facts_legal facts ∧
    st_status st = fold_status facts ∧
    (d = true → st_seq st = Z.of_nat (length facts)) ∧ (q = true → st_part st = Some (FoldParticipation facts)).
Proof.
  intros Hok Hc Hnp Hlast. destruct (Hc Hnp) as (facts & n & Hf & Hn & Hs & Hst & Hd & Hq).
  pose proof (facts_of_length _ _ _ Hf) as Hlen.
  rewrite Hs, last_subj_seq_at in Hlast. apply (seq_at_inj d) in Hlast; [|done|lia..].
  subst n. rewrite <-Hlen, firstn_all in *. exists facts.
  destruct (log_ok_facts d l (logSubjectFor t i) Hok) as (fs & Hfs & Hleg & _).
  rewrite Hf in Hfs. simplify_eq. done.
Qed.

(** * The deduplication cache: every accepted result is durable *)

Definition durable (l : log) (t i : string) (st : interactionState) : Prop :=
  ∀ cid sr, st_results st !! cid = Some sr → res_Status (sr_result sr) = STATUS_ACCEPTED →
    committed l t i cid.

Definition cache_ok (l : log) (t i : string) (st : interactionState) : Prop :=
  durable l t i st ∧ state_wf st ∧ results_bounded (maxResults cfg) (st_results st).

(** An object of interaction [(t, i)]: its log-derived fields and its cache. *)
Definition sound (l : log) (t i : string) (st : interactionState) : Prop :=
  coh l t i st ∧ cache_ok l t i st.

Lemma cache_same l t i st st' :
  st_results st' = st_results st → st_resultOrder st' = st_resultOrder st →
  cache_ok l t i st → cache_ok l t i st'.
Proof. unfold cache_ok, durable, state_wf. by intros -> ->. Qed.

Lemma cache_put l t i st id sr :
  (res_Status (sr_result sr) = STATUS_ACCEPTED → committed l t i id) →
  cache_ok l t i st → cache_ok l t i (putResult id sr (maxResults cfg) st).
Proof.
  intros Hsr (Hd & Hwf & Hb). split_and!; [|by apply putResult_wf|by apply putResult_bounded].
  intros cid x [[-> ->]|Hx]%putResult_results ?; eauto.
Qed.

Lemma cache_copy l t i fresh st :
  cache_ok l t i fresh → cache_ok l t i st →
  cache_ok l t i (copyMissingResults fresh (maxResults cfg) st).
Proof.
  intros (Hd & _) Hst. unfold copyMissingResults. generalize (st_resultOrder fresh). intros order.
  revert st Hst. induction order as [|id order IH]; intros st Hst; simpl; [done|]. apply IH.
  repeat case_match; try done. apply cache_put; eauto.
Qed.

Lemma cache_rebuild_fold l t i facts st :
  (∀ ev, ev ∈ facts → committed l t i (ev_CommandId ev)) → cache_ok l t i st →
  cache_ok l t i (foldl (rebuild_step (maxResults cfg)) st facts).
Proof.
  revert st. induction facts as [|e facts IH]; intros st Hf Hst; simpl; [done|].
  apply IH; [set_solver|].
  assert (cache_ok l t i (rebuild_result (maxResults cfg) e (rebuild_status st e))) as Hr.
  { unfold rebuild_result. case_decide; [done|]. apply cache_put; [|done]. intros _. set_solver. }
  unfold rebuild_step, rebuild_parent. by case_match.
Qed.

Lemma sound_rebuild l t i facts :
  ok l → facts_of l (logSubjectFor t i) = Some facts →
  sound l t i (rebuild_state (maxResults cfg) facts (last_subj_seq l (logSubjectFor t i))).
Proof.
  intros Hok Hf. split; [by apply coh_rebuild|]. apply cache_rebuild_fold.
  - intros ev. by apply committed_fact.
  - split_and!; [done| |intros ?; simpl; rewrite map_size_empty; lia].
    split; [constructor|]. intros id. simpl. rewrite lookup_empty.
    split; [by intros ?%not_elem_of_nil|by intros [? ?]].
Qed.

Lemma sound_refold l t i st fr :
  st_poisoned fr = false → sound l t i fr → cache_ok l t i st →
  sound l t i (refold (maxResults cfg) fr st).
Proof. intros Hp [Hc Hca] Hst. split; [by apply coh_refold|]. by apply cache_copy. Qed.

Lemma sound_put l t i st id sr :
  (res_Status (sr_result sr) = STATUS_ACCEPTED → committed l t i id) →
  sound l t i st → sound l t i (putResult id sr (maxResults cfg) st).
Proof.
  intros Hsr [Hc Hca]. split; [|by apply cache_put].
  eapply coh_core; [apply putResult_core|done].
Qed.

Lemma sound_core l t i st st' :
  core st' = core st → st_results st' = st_results st → st_resultOrder st' = st_resultOrder st →
  sound l t i st → sound l t i st'.
Proof. intros ? ? ? [??]. split; [by eapply coh_core|by eapply cache_same]. Qed.

Lemma sound_poisoned l t i st : cache_ok l t i st → sound l t i (set_poisoned st).
Proof. intros Hca. split; [by apply coh_poisoned|done]. Qed.

Lemma cache_grows l l' t i st : l `prefix_of` l' → cache_ok l t i st → cache_ok l' t i st.
Proof. intros Hp (Hd & ?). split; [|done]. intros ????. eapply committed_grows; eauto. Qed.

Lemma sound_grows l l' t i st : grows ok l l' → sound l t i st → sound l' t i st.
Proof.
  intros Hg [??]. split; [by eapply coh_grows|]. eapply cache_grows; [apply Hg|done].
Qed.

(** * The invariant of a router's memory *)

(** [loc] is an object of interaction [(t, i)], in the cache under no other key. *)
Definition own (l : log) (s : rst) (t i : string) (loc : nat) : Prop :=
  ∃ st, heap s !! loc = Some st ∧ sound l t i st ∧
        ∀ k, inter s !! k = Some loc → k = stateKey t i.

Definition RI (l : log) (s : rst) : Prop :=
  (∀ t i loc, no_slash t → inter s !! stateKey t i = Some loc → own l s t i loc) ∧
  (∀ k loc, inter s !! k = Some loc → loc < next_loc s) ∧
  (∀ loc, is_Some (heap s !! loc) → loc < next_loc s).

Lemma own_grows l l' s t i loc : grows ok l l' → own l s t i loc → own l' s t i loc.
Proof. intros Hg (st & ? & ? & ?). exists st. eauto using sound_grows. Qed.

Lemma RI_grows l l' s : grows ok l l' → RI l s → RI l' s.
Proof. intros Hg (H1 & H2 & H3). split; [|done]. eauto using own_grows. Qed.

Lemma RI_empty l : RI l emptyRouter.
Proof. split_and!; intros *; simpl; rewrite ?lookup_empty; done. Qed.

(** Dropping keys keeps the invariant. *)
Lemma RI_sub l s m :
  m ⊆ inter s → RI l s → RI l (mkRst m (heap s) (next_loc s)).
Proof.
  intros Hm (H1 & H2 & H3). split_and!; simpl; [|eauto using lookup_weaken|done].
  intros t i loc Ht Hk. destruct (H1 t i loc Ht) as (st & ? & ? & ?); [by eapply lookup_weaken|].
  exists st. split_and!; simpl; eauto using lookup_weaken.
Qed.

Lemma own_sub l s m t i loc :
  m ⊆ inter s → own l s t i loc → own l (mkRst m (heap s) (next_loc s)) t i loc.
Proof. intros Hm (st & ? & ? & ?). exists st. split_and!; simpl; eauto using lookup_weaken. Qed.

(** Writing a coherent object at a location the handler owns. *)
Lemma own_put l s t i loc st t' i' loc' :
  no_slash t → no_slash t' → inter s !! stateKey t' i' = Some loc' →
  own l s t i loc → sound l t i st → own l s t' i' loc' → own l (put_loc loc st s) t' i' loc'.
Proof.
  intros Ht Ht' Hk (_ & _ & _ & Hkeys) Hc (st' & Hst' & Hc' & Hk'). unfold own. simpl.
  destruct (decide (loc = loc')) as [<-|Hne].
  - exists st. rewrite lookup_insert_eq. split_and!; [done| |done].
    pose proof (Hkeys _ Hk) as He. apply stateKey_inj in He as [-> ->]; done.
  - exists st'. rewrite lookup_insert_ne by done. done.
Qed.

Lemma RI_put l s t i loc st :
  no_slash t → RI l s → own l s t i loc → sound l t i st → RI l (put_loc loc st s).
Proof.
  intros Ht (H1 & H2 & H3) Hown Hc. split_and!; simpl.
  - intros t' i' loc' Ht' Hk. apply (own_put l s t i loc st); auto.
  - done.
  - intros loc'. rewrite lookup_insert. case_decide; [|apply H3]. intros _. subst.
    destruct Hown as (st0 & Hst0 & _). apply H3. by eexists.
Qed.

Lemma own_put_same l s t i loc st loc' :
  own l s t i loc → sound l t i st → own l s t i loc' → own l (put_loc loc st s) t i loc'.
Proof.
  intros (_ & _ & _ & Hkeys) Hc (st' & Hst' & Hc' & Hk'). unfold own. simpl.
  destruct (decide (loc = loc')) as [<-|Hne].
  - exists st. by rewrite lookup_insert_eq.
  - exists st'. by rewrite lookup_insert_ne.
Qed.

(** Allocating a coherent object under its own key. *)
Lemma RI_insert l s t i st :
  no_slash t → RI l s → sound l t i st →
  RI l (insert_state (stateKey t i) st s) ∧
  own l (insert_state (stateKey t i) st s) t i (next_loc s) ∧
  (∀ loc, own l s t i loc → own l (insert_state (stateKey t i) st s) t i loc).
Proof.
  intros Ht (H1 & H2 & H3) Hc.
  assert (∀ k, inter s !! k ≠ Some (next_loc s)) as Hfresh.
  { intros k Hk. apply H2 in Hk. lia. }
  assert (∀ loc st', heap s !! loc = Some st' → loc ≠ next_loc s) as Hold.
  { intros loc st' Hl ->. assert (next_loc s < next_loc s); [|lia]. apply H3. by eexists. }
  assert (∀ t' i' loc, no_slash t' ∨ (t', i') = (t, i) → own l s t' i' loc →
    own l (insert_state (stateKey t i) st s) t' i' loc) as Hkeep.
  { intros t' i' loc Ht' (st' & Hst' & Hc' & Hk'). exists st'. simpl.
    rewrite lookup_insert_ne by (symmetry; by eapply Hold). split_and!; [done..|].
    intros k. rewrite lookup_insert. case_decide; [|apply Hk'].
    intros [= <-]. by destruct (Hold _ _ Hst'). }
  split_and!; [split_and!| |]; simpl.
  - intros t' i' loc Ht'. rewrite lookup_insert. case_decide as Hd.
    + apply stateKey_inj in Hd as [-> ->]; [|done..]. intros [= <-]. exists st. simpl.
      rewrite lookup_insert_eq. split_and!; [done..|]. intros k. rewrite lookup_insert.
      case_decide; [done|]. intros Hk. by destruct (Hfresh k).
    + intros Hk. apply Hkeep; [by left|]. by apply H1.
  - intros k loc. rewrite lookup_insert. case_decide; [intros [= <-]; lia|].
    intros Hk. apply H2 in Hk. lia.
  - intros loc. rewrite lookup_insert. case_decide; [lia|]. intros Hl. apply H3 in Hl. lia.
  - exists st. simpl. rewrite lookup_insert_eq. split_and!; [done..|].
    intros k. rewrite lookup_insert. case_decide; [done|]. intros Hk. by destruct (Hfresh k).
  - intros loc. apply Hkeep. by right.
Qed.
(** * Specifications of handlers *)

(** What one port call of a handler of [(t, i)] may add: nothing, or one fact on
    its own subject that satisfies [gp] of the facts already there. *)
Definition appends (t i : string) (gp : list Event → Event → Prop) (l1 l2 : log) : Prop :=
  l2 = l1 ∨ ∃ e ev facts,
    l2 = l1 ++ [e] ∧ e_subject e = logSubjectFor t i ∧ unmarshal_event (e_data e) = Some ev ∧
    facts_of l1 (logSubjectFor t i) = Some facts ∧ gp facts ev.

Section Call.
Context (t i : string) (gp : list Event → Event → Prop).
Hypothesis Ht : tok t.
Hypothesis Hi : tok i.
Hypothesis Hns : no_slash t.

(** The relation between the worlds before and after a handler. *)
Definition ext (l : log) (s : rst) (l' : log) (s' : rst) : Prop :=
  grows ok l l' ∧ RI l' s' ∧ ∀ loc, own l s t i loc → own l' s' t i loc.

Definition triple {A} (l : log) (s : rst) (m : M A) (Post : A → rst → log → Prop) : Prop :=
  wp b ok (appends t i gp) (m s) (λ x l', ext l s l' x.2 ∧ Post x.1 x.2 l') l.

Lemma ext_refl l s : ok l → RI l s → ext l s l s.
Proof. by split. Qed.

Lemma ext_trans l1 s1 l2 s2 l3 s3 : ext l1 s1 l2 s2 → ext l2 s2 l3 s3 → ext l1 s1 l3 s3.
Proof. intros (Hg & HR & Ho) (Hg' & HR' & Ho'). split; [by eapply grows_trans|]. eauto. Qed.

Lemma ext_ok l s l' s' : ext l s l' s' → ok l'.
Proof. by intros [[_ ?] _]. Qed.

Lemma triple_ret {A} l s (a : A) (Post : A → rst → log → Prop) :
  ok l → RI l s → Post a s l → triple l s (mret a) Post.
Proof. intros. unfold triple. simpl. split; [by apply ext_refl|done]. Qed.

Lemma triple_bind {A B} l s (m : M A) (f : A → M B) P Q :
  triple l s m P →
  (∀ a s' l', ext l s l' s' → P a s' l' → triple l' s' (f a) Q) →
  triple l s (m ≫= f) Q.
Proof.
  intros Hm Hf. unfold triple, mbind, M_bind. apply wp_bind.
  eapply wp_mono; [|done]. intros [a s'] l' [Hext HP]. simpl in *.
  eapply wp_mono; [|by apply Hf]. intros [c s''] l'' [Hext' HQ]. simpl in *.
  split; [by eapply ext_trans|done].
Qed.

Lemma triple_conseq {A} l s (m : M A) (P Q : A → rst → log → Prop) :
  (∀ a s' l', ext l s l' s' → P a s' l' → Q a s' l') → triple l s m P → triple l s m Q.
Proof. intros HPQ. apply wp_mono. intros [a s'] l' [? ?]. simpl in *. auto. Qed.

Lemma triple_get l s : ok l → RI l s → triple l s get_state (λ a s' l', a = s ∧ s' = s ∧ l' = l).
Proof. intros. unfold triple. simpl. split; [by apply ext_refl|done]. Qed.

Lemma triple_modify l s f :
  ok l → RI l (f s) → (∀ loc, own l s t i loc → own l (f s) t i loc) →
  triple l s (modify_state f) (λ _ s' l', s' = f s ∧ l' = l).
Proof. intros. unfold triple. simpl. split; [|done]. split; [by apply grows_refl|done]. Qed.

Lemma triple_now l s : ok l → RI l s → triple l s op_now (λ _ s' l', s' = s ∧ l' = l).
Proof. intros ? ? z. simpl. split; [by apply ext_refl|done]. Qed.

Lemma triple_id l s : ok l → RI l s → triple l s op_id (λ eid s' l', eid ≠ "" ∧ s' = s ∧ l' = l).
Proof. intros ? ? z Hz. simpl. split; [by apply ext_refl|done]. Qed.

(** Writing a coherent object. *)
Lemma triple_save l s loc st :
  ok l → RI l s → own l s t i loc → sound l t i st →
  triple l s (save_loc loc st) (λ _ s' l', s' = put_loc loc st s ∧ l' = l).
Proof.
  intros. apply triple_modify; [done|by eapply RI_put|]. intros. by eapply own_put_same.
Qed.

Lemma triple_evict l s :
  ok l → RI l s → triple l s (evict t i) (λ _ _ l', l' = l).
Proof.
  intros Hok HR. eapply triple_conseq; [|apply triple_modify; [done|..]].
  - by intros ? ? ? ? [_ ->].
  - apply (RI_sub l s); [apply delete_subseteq|done].
  - intros loc. apply (own_sub l s), delete_subseteq.
Qed.

Lemma triple_rebuild l s :
  ok l → RI l s →
  triple l s (rebuild cfg t i) (λ r s' l', s' = s ∧
    ∀ fr, r = Some fr → sound l' t i fr ∧ st_poisoned fr = false).
Proof.
  intros Hok HR. unfold triple, rebuild, mbind, M_bind. simpl.
  intros l1 Hg r Hr. split.
  - split; [done|]. split; [by eapply RI_grows|]. intros. by eapply own_grows.
  - split; [done|]. intros fr Hfr. destruct Hr as [facts Hf|]; simplify_eq.
    split; [apply sound_rebuild; [apply Hg|done]|apply rebuild_not_poisoned].
Qed.

(** ** Cache lookups *)

Lemma prune_lru_sub order fuel max s :
  ∃ m, m ⊆ inter s ∧ prune_lru order fuel max s = mkRst m (heap s) (next_loc s).
Proof.
  revert s. induction fuel as [|fuel IH]; intros s; simpl.
  - exists (inter s). split; [done|by destruct s].
  - case_decide; [|exists (inter s); split; [done|by destruct s]].
    destruct (lru_scan _ _ _) as [[k z]|]; [|exists (inter s); split; [done|by destruct s]].
    destruct (IH (mkRst (delete k (inter s)) (heap s) (next_loc s))) as (m & Hm & ->).
    simpl in *. exists m. split; [|done]. etrans; [done|]. apply delete_subseteq.
Qed.

(** Any update of the state that only drops cache keys. *)
Lemma triple_drop l s f :
  ok l → RI l s → (∃ m, m ⊆ inter s ∧ f s = mkRst m (heap s) (next_loc s)) →
  triple l s (modify_state f) (λ _ s' l', heap s' = heap s ∧ l' = l).
Proof.
  intros Hok HR (m & Hm & Hf). eapply triple_conseq; [|apply triple_modify; [done|..]].
  - intros ? s' ? ? [-> ->]. by rewrite Hf.
  - rewrite Hf. by apply RI_sub.
  - rewrite Hf. intros. by apply own_sub.
Qed.

Lemma triple_prune l s :
  ok l → RI l s → triple l s (pruneLocked cfg) (λ _ s' l', heap s' = heap s ∧ l' = l).
Proof.
  intros Hok HR. unfold pruneLocked.
  eapply (triple_bind _ _ _ _ (λ _ s' l', heap s' = heap s ∧ l' = l)).
  - case_decide.
    + eapply triple_bind; [by apply triple_now|]. intros z s1 l1 Hext [-> ->].
      apply triple_drop; [done..|]. eexists. split; [|done]. apply map_filter_subseteq.
    + by apply triple_ret.
  - intros _ s1 l1 (_ & HR1 & _) [Hh ->]. eapply triple_conseq; [|apply triple_drop; [done..|]].
    + intros ? ? ? ? [-> ->]. done.
    + apply prune_lru_sub.
Qed.

Lemma triple_getState l s :
  ok l → RI l s →
  triple l s (getState cfg t i) (λ r s' l', ∀ loc, r = Some loc → own l' s' t i loc).
Proof.
  intros Hok HR. unfold getState. eapply triple_bind; [by apply triple_get|].
  intros a s0 l0 _ (-> & -> & ->).
  destruct (inter s !! stateKey t i) as [loc|] eqn:Hk.
  - eapply triple_bind; [by apply triple_now|]. intros z s1 l1 _ [-> ->].
    destruct HR as (HR1 & HR2 & HR3). pose proof (HR1 t i loc Hns Hk) as Hown.
    pose proof Hown as (st & Hst & Hc & Hkeys).
    eapply triple_bind; [apply triple_modify; [done|..]|].
    + rewrite Hst. by eapply RI_put.
    + rewrite Hst. intros. by eapply own_put_same.
    + intros _ s2 l2 (_ & HR' & _) [-> ->]. rewrite Hst. apply triple_ret; [done|..].
      * by rewrite Hst in HR'.
      * intros loc' [= <-]. by eapply own_put_same.
  - eapply triple_bind; [by apply triple_rebuild|].
    intros r s1 l1 Hext [-> Hr]. pose proof (ext_ok _ _ _ _ Hext) as Hok1.
    destruct Hext as (Hg1 & HR1 & _). destruct r as [st|]; [|by apply triple_ret].
    destruct (Hr st eq_refl) as [Hc _].
    eapply triple_bind; [by apply triple_now|]. intros z s2 l2 _ [-> ->].
    eapply triple_bind; [by apply triple_get|]. intros s' s3 l3 _ (-> & -> & ->).
    destruct (RI_insert l1 s t i (set_lastUsed z st)) as (HRi & Howni & Hkeep);
      [done..|by apply (sound_core l1 t i st)|].
    eapply triple_bind; [by apply triple_modify|]. intros _ s4 l4 Hext4 [-> ->].
    eapply triple_bind; [by apply triple_prune|]. intros _ s5 l5 Hext5 _.
    pose proof Hext5 as (_ & HR5 & Hown5). apply triple_ret; [by eapply ext_ok|done|].
    intros loc [= <-]. by apply Hown5.
Qed.

(** ** One append *)

Lemma participation_data_marshal ev :
  is_participation_data (marshal_event ev) = isParticipationFact (ev_EventType ev).
Proof. unfold is_participation_data. by rewrite unmarshal_marshal_event. Qed.

(** What the handler knows after [Append] was called with the stream sequence of
    a coherent object [st] and a fact [ev] legal in its status. *)
Definition append_post (st : interactionState) (ev : Event) (r : append_res) (l' : log) : Prop :=
  match r with
  | AppOK false cseq =>
      committed l' t i (ev_CommandId ev) ∧
      ∃ facts, facts_of l' (logSubjectFor t i) = Some (facts ++ [ev]) ∧
        st_status st = fold_status facts ∧
        cseq = seq_at (subj_msgs l' (logSubjectFor t i)) (S (length facts)) ∧
        (d = true → st_seq st = Z.of_nat (length facts) ∧
                    i64 (st_seq st + 1) = (Z.of_nat (length facts) + 1)%Z) ∧
        (q = true → st_part st = Some (FoldParticipation facts))
  | AppOK true cseq =>
      committed l' t i (ev_CommandId ev) ∧
      (d = true → isParticipationFact (ev_EventType ev) = false) ∧
      ∃ facts n, facts_of l' (logSubjectFor t i) = Some facts ∧ facts_legal facts ∧
        0 < n ≤ length facts ∧ st_status st = fold_status facts ∧
        cseq = seq_at (subj_msgs l' (logSubjectFor t i)) n
  | AppOCC => True
  | AppErr => noloss b = true → isParticipationFact (ev_EventType ev) = true
  end.

Lemma append_post_committed st ev dup cseq l' :
  append_post st ev (AppOK dup cseq) l' → committed l' t i (ev_CommandId ev).
Proof. destruct dup; by intros [? _]. Qed.

(** The fact a coherent object would number next. *)
Definition next_fact (st : interactionState) (ev : Event) : Prop :=
  legalTransition (st_status st) (ev_EventType ev) = true ∧
  ev_Sequence ev = i64 (st_seq st + 1) ∧
  ∀ facts, facts_legal facts → st_status st = fold_status facts →
    (q = true → st_part st = Some (FoldParticipation facts)) → gp facts ev.

Lemma commit_good l1 st ev qn :
  ok l1 → coh l1 t i st → st_poisoned st = false → next_fact st ev →
  last_subj_seq l1 (logSubjectFor t i) = st_streamSeq st → fresh_seq l1 qn →
  let e := mkEntry (logSubjectFor t i) qn (dedupIDFor t i (ev_CommandId ev)) (marshal_event ev) in
  ok (l1 ++ [e]) ∧ appends t i gp l1 (l1 ++ [e]) ∧
  append_post st ev (AppOK false qn) (l1 ++ [e]).
Proof.
  intros Hok Hc Hnp (Hleg & Hseq & Hgp) Hlast Hfresh e.
  destruct (coh_current l1 t i st Hok Hc Hnp Hlast) as (facts & Hf & Hfl & Hst & Hd & Hq).
  assert (i64 (Z.of_nat (length facts) + 1) = Z.of_nat (length facts) + 1)%Z as Hi64.
  { apply i64_id. destruct Hfresh as (_ & _ & Hsmall).
    pose proof (subj_msgs_length l1 (logSubjectFor t i)). rewrite <-(facts_of_length _ _ _ Hf) in *.
    unfold in_i64, two63 in *. lia. }
  assert (unmarshal_event (e_data e) = Some ev) as Hev by apply unmarshal_marshal_event.
  assert (d = true → ev_Sequence ev = (Z.of_nat (length facts) + 1)%Z) as Hevseq.
  { intros Hdt. by rewrite Hseq, (Hd Hdt). }
  split_and!.
  - constructor; [done|]. exists t, i, (ev_CommandId ev), ev, facts. rewrite <-Hst. split_and!; done.
  - right. exists e, ev, facts. split_and!; try done. apply Hgp; [done..|]. intros. by apply Hq.
  - simpl. split; [by apply committed_snoc|].
    exists facts. rewrite facts_of_snoc, subj_msgs_snoc. simpl.
    rewrite !decide_True, Hf, unmarshal_marshal_event by done. simpl. rewrite (facts_of_length _ _ _ Hf).
    rewrite list_lookup_middle by done. split_and!; try done.
    intros Hdt. rewrite (Hd Hdt), <-(facts_of_length _ _ _ Hf). done.
Qed.

Lemma triple_append l s st ev cid :
  ok l → RI l s → coh l t i st → st_poisoned st = false → next_fact st ev → ev_CommandId ev = cid →
  triple l s (op_append (logSubjectFor t i) (marshal_event ev) (dedupIDFor t i cid) (st_streamSeq st))
    (λ r s' l', s' = s ∧ append_post st ev r l').
Proof.
  intros Hok HR Hc Hnp Hnext <- l1 Hg r l2 Hstep. pose proof (coh_grows _ _ _ _ _ Hg Hc) as Hc1.
  destruct Hg as [Hp1 Hok1].
  assert (ok l2 ∧ appends t i gp l1 l2 ∧ append_post st ev r l2) as (Hok2 & HG & Hpost).
  { inv Hstep.
    - by apply commit_good.
    - split; [done|]. split; [by left|]. simpl. rewrite <-participation_data_marshal.
      split; [by eapply committed_dedup|]. split; [done|].
      destruct (coh_current l2 t i st Hok1 Hc1 Hnp) as (facts & Hf & Hfl & Hst & _); [auto|].
      match goal with He : _ ∈ l2, Hd : e_dedup _ = _ |- _ =>
        destruct (list_elem_of_lookup_1 _ _ (log_ok_dedup d l2 _ t i _ Hok1 He Ht Hi Hd))
          as [n Hn] end.
      exists facts, (S n). apply lookup_lt_Some in Hn as Hlt.
      rewrite <-(facts_of_length _ _ _ Hf) in Hlt. simpl. rewrite Hn.
      split_and!; try done; lia.
    - split; [done|]. by split; [left|].
    - split; [done|]. split; [by left|]. simpl. by rewrite <-participation_data_marshal.
    - edestruct (commit_good l1 st ev) as (? & ? & _); [done..|].
      split; [done|]. split; [done|]. simpl. by rewrite <-participation_data_marshal. }
  split; [done|]. split; [done|]. simpl.
  assert (grows ok l l2) as Hg2.
  { split; [|done]. trans l1; [done|]. by eapply append_step_prefix. }
  split; [|done]. split; [done|]. split; [by eapply RI_grows|]. intros. by eapply own_grows.
Qed.

(** ** Leaving a handler *)

Lemma triple_save_ret {A} l s loc st (r : A) (P : A → log → Prop) :
  ok l → RI l s → own l s t i loc → sound l t i st → P r l →
  triple l s (save_loc loc st;; mret r) (λ r' _ l', P r' l').
Proof.
  intros. eapply triple_bind; [by apply triple_save|].
  intros _ s' l' Hext [_ ->]. apply triple_ret; [by eapply ext_ok|apply Hext|done].
Qed.

Lemma triple_poison l s loc st r (P : CommandResult → log → Prop) :
  ok l → RI l s → own l s t i loc → cache_ok l t i st → P r l →
  triple l s (poison t i loc st r) (λ r' _ l', P r' l').
Proof.
  intros. unfold poison.
  eapply triple_bind; [apply triple_save; [done..|by apply sound_poisoned]|].
  intros _ s' l' Hext [_ ->]. eapply triple_bind; [apply triple_evict; [by eapply ext_ok|apply Hext]|].
  intros _ s'' l'' Hext' ->. apply triple_ret; [by eapply ext_ok|apply Hext'|done].
Qed.

Lemma triple_save_evict {A} l s loc st (c : Prop) `{Decision c} (r : A) (P : A → log → Prop) :
  ok l → RI l s → own l s t i loc → sound l t i st → P r l →
  triple l s (save_loc loc st;; (if decide c then evict t i else mret tt);; mret r)
    (λ r' _ l', P r' l').
Proof.
  intros. eapply triple_bind; [by apply triple_save|]. intros _ s' l' Hext [_ ->].
  pose proof (ext_ok _ _ _ _ Hext). destruct Hext as (_ & HR' & _).
  eapply (triple_bind _ _ _ _ (λ _ _ l', l' = l)).
  - case_decide; [by apply triple_evict|by apply triple_ret].
  - intros _ s'' l'' Hext' ->. apply triple_ret; [by eapply ext_ok|apply Hext'|done].
Qed.

(** ** Coherence of the object after an acknowledged append *)

Lemma coh_committed st ev cseq l' st' part' :
  append_post st ev (AppOK false cseq) l' →
  core st' = (i64 (st_seq st + 1), cseq, applyTransition (st_status st) (ev_EventType ev), part', false) →
  (∀ facts, st_part st = Some (FoldParticipation facts) → part' = Some (FoldParticipation (facts ++ [ev]))) →
  coh l' t i st'.
Proof.
  intros (_ & facts & Hf & Hst & Hcs & Hd & Hq) Hcore Hp _. unfold core in Hcore.
  injection Hcore as -> -> -> -> _. exists (facts ++ [ev]), (S (length facts)).
  rewrite length_app. simpl. rewrite take_ge by (rewrite length_app; simpl; lia).
  rewrite fold_status_snoc, Hst. split_and!; try done; [lia|..].
  - intros Hdt. destruct (Hd Hdt) as [_ ->]. lia.
  - intros Hqt. by apply Hp, Hq.
Qed.

(** A participation append answered as a duplicate leaves the status coherent
    (the numbering is not: see [RouterFindings]). *)
Lemma coh_duplicate st ev cseq l' st' part' :
  isParticipationFact (ev_EventType ev) = true →
  legalTransition (st_status st) (ev_EventType ev) = true →
  append_post st ev (AppOK true cseq) l' →
  core st' = (i64 (st_seq st + 1), cseq, applyTransition (st_status st) (ev_EventType ev), part', false) →
  coh l' t i st'.
Proof.
  intros Hp Hleg (_ & Hq & facts & n & Hf & Hfl & Hn & Hst & Hcs) Hcore _. unfold core in Hcore.
  destruct (participation_legal _ _ Hp Hleg) as [Hs Ht']. rewrite Ht' in Hcore.
  injection Hcore as _ -> -> _ _. exists facts, n. split_and!; try done; [lia|..].
  - symmetry. apply fold_status_started_take; [done| |lia]. congruence.
  - intros Hdt. specialize (Hq Hdt). congruence.
  - intros Hqt%quiet_nodup. specialize (Hq Hqt). congruence.
Qed.

(** Reconciling a lost acknowledgement refreshes numbering and status only, so
    the membership of the object stays what it was. *)
Lemma sound_reconciled l st fr :
  sound l t i fr → st_poisoned fr = false → cache_ok l t i st → noloss b = false →
  sound l t i (mkState (st_seq fr) (st_streamSeq fr) (st_status fr) (st_results st)
    (st_resultOrder st) (st_part st) (st_parents st) (st_poisoned st) (st_lastUsed st)).
Proof.
  intros [Hc _] Hp Hca Hq. split; [|done]. intros _. destruct (Hc Hp) as (fs & n & ? & ? & ? & ? & ? & _).
  exists fs, n. split_and!; try done. intros [_ Hqt]%quiet_flags. congruence.
Qed.

(** What an answer to command [cid] promises. *)
Definition answer (cid : string) (r : CommandResult) (l : log) : Prop :=
  res_Status r = STATUS_ACCEPTED → committed l t i cid.

Lemma answer_rejected cid cid' reason l : answer cid (rejected cid' reason) l.
Proof. done. Qed.

Lemma answer_stored cid sr st l :
  cache_ok l t i st → st_results st !! cid = Some sr → answer cid (sr_result sr) l.
Proof. intros (Hd & _) Hl Hs. by eapply Hd. Qed.

Lemma check_results_answer st cid ph r l :
  cache_ok l t i st → check_results st cid ph = Some r → answer cid r l.
Proof.
  unfold check_results. intros Hca Hr. destruct (st_results st !! cid) as [prev|] eqn:Hl; [|done].
  repeat case_decide; simplify_eq; try done; by eapply answer_stored.
Qed.

Lemma check_fact_results_answer st cid ph r l :
  cache_ok l t i st → check_fact_results st cid ph = Some r → answer cid r l.
Proof.
  unfold check_fact_results. intros Hca Hr. destruct (st_results st !! cid) as [prev|] eqn:Hl; [|done].
  repeat case_decide; simplify_eq; try done; by eapply answer_stored.
Qed.

(** ** The ordinary path *)

Lemma gate_open gate st suffix facts :
  gate_closed gate st suffix = false →
  (q = true → st_part st = Some (FoldParticipation facts)) →
  q = true → gate = true → is_member suffix facts = true.
Proof.
  unfold gate_closed. intros Hg Hp Hq ->. rewrite (Hp Hq) in Hg. simpl in Hg.
  apply negb_false_iff in Hg. by rewrite <-IsParticipantNow_fold.
Qed.

Section Ordinary.
Context (cmd : Command) (suffix : string) (gate : bool) (loc : nat).
Hypothesis Hord : isParticipationFact (cmd_Type cmd) = false.
Hypothesis Hgp : ∀ facts eid now seq, eid ≠ "" → facts_legal facts →
  (q = true → gate = true → is_member suffix facts = true) →
  gp facts (command_event t (hashPayload cmd) eid now seq cmd).

Local Abbreviation post := (λ r _ l', answer (cmd_CommandId cmd) r l').

Lemma triple_finish l s st ev cseq dup :
  ok l → RI l s → own l s t i loc → cache_ok l t i st → st_poisoned st = false →
  ev_EventType ev = cmd_Type cmd → ev_CommandId ev = cmd_CommandId cmd →
  append_post st ev (AppOK dup cseq) l →
  triple l s (finish_append cfg t i loc cmd (hashPayload cmd) st dup cseq) post.
Proof.
  intros Hok HR Hown Hca Hnp Htype Hcid Hpost. unfold finish_append.
  pose proof (append_post_committed _ _ _ _ _ Hpost) as Hcom. rewrite Hcid in Hcom.
  destruct dup.
  - eapply triple_bind; [by apply triple_rebuild|]. intros r s1 l1 Hext [-> Hr].
    pose proof (ext_ok _ _ _ _ Hext). destruct Hext as (Hg1 & HR1 & Hown1).
    pose proof (cache_grows _ l1 _ _ _ (proj1 Hg1) Hca) as Hca1.
    pose proof (committed_grows _ l1 _ _ _ (proj1 Hg1) Hcom) as Hcom1.
    destruct r as [fr|]; [|apply (triple_poison _ _ _ _ _ (answer _)); auto; by intros _].
    destruct (Hr fr eq_refl) as [Hc Hfp].
    pose proof (sound_refold l1 t i st fr Hfp Hc Hca1) as Hc'.
    destruct (st_results _ !! _) as [prev|] eqn:Hprev;
      apply (triple_save_ret _ _ _ _ _ (answer _)); auto; try (by intros _).
    by apply sound_put.
  - apply (triple_save_evict _ _ _ _ _ _ (answer _)); auto; [|by intros _].
    apply sound_put; [done|]. split; [|done].
    eapply (coh_committed st ev cseq l _ (st_part st)); [done|..].
    + unfold core, advance. simpl. by rewrite Htype, Hnp.
    + intros facts Hp. by rewrite fold_participation_snoc, ApplyFact_other by (by rewrite Htype).
Qed.

(** The lost-acknowledgement branch. *)
Lemma triple_reconcile l s st fr (reason : string) :
  ok l → RI l s → own l s t i loc → cache_ok l t i st → noloss b = false →
  (∀ f, fr = Some f → sound l t i f ∧ st_poisoned f = false) →
  triple l s
    (match fr ≫= (λ fr, prev ← st_results fr !! cmd_CommandId cmd; Some (fr, prev)) with
     | Some (fr, prev) =>
         save_loc loc (mkState (st_seq fr) (st_streamSeq fr) (st_status fr) (st_results st)
           (st_resultOrder st) (st_part st) (st_parents st) (st_poisoned st) (st_lastUsed st));;
         mret (sr_result prev)
     | None => poison t i loc st (rejected (cmd_CommandId cmd) reason)
     end) post.
Proof.
  intros Hok HR Hown Hca Hq Hr. destruct fr as [fr|]; simpl;
    [|by apply (triple_poison _ _ _ _ _ (answer _))].
  destruct (Hr fr eq_refl) as [Hcf Hpf].
  destruct (st_results fr !! _) as [prev|] eqn:Hprev; simpl;
    [|by apply (triple_poison _ _ _ _ _ (answer _))].
  apply (triple_save_ret _ _ _ _ _ (answer _)); auto; [by apply sound_reconciled|].
  eapply answer_stored; [apply Hcf|done].
Qed.

Lemma triple_append_loop remaining l s st :
  ok l → RI l s → own l s t i loc → sound l t i st → st_poisoned st = false →
  triple l s (append_loop cfg t i suffix gate loc cmd remaining st) post.
Proof.
  revert l s st. induction remaining as [|rem IH]; intros l s st Hok HR Hown [Hc Hca] Hnp; simpl.
  all: destruct (check_results _ _ _) eqn:Hchk;
    [apply (triple_save_ret _ _ _ _ _ (answer _)); try done; by eapply check_results_answer|].
  all: destruct (gate_closed gate st suffix) eqn:Hgate;
    [by apply (triple_save_ret _ _ _ _ _ (answer _))|].
  all: destruct (legalTransition _ _) eqn:Hleg; simpl;
    [|apply (triple_save_ret _ _ _ _ _ (answer _)); try done; by apply sound_put].
  all: eapply triple_bind; [by apply triple_id|]; intros eid s1 l1 _ (Heid & -> & ->).
  all: eapply triple_bind; [by apply triple_now|]; intros now s1 l1 _ [-> ->].
  all: eapply triple_bind; [apply triple_append; try done; split_and!; try done;
    intros; apply Hgp; try done; by eapply gate_open|].
  all: intros r s1 l1 Hext [-> Hpost]; pose proof (ext_ok _ _ _ _ Hext) as Hok1;
    destruct Hext as (Hg1 & HR1 & Hown1); pose proof (cache_grows _ l1 _ _ _ (proj1 Hg1) Hca) as Hca1.
  all: destruct r as [dup cseq| |]; [by eapply triple_finish; eauto|..].
  all: eapply triple_bind; [by apply triple_rebuild|]; intros fresh s2 l2 Hext [-> Hr];
    pose proof (ext_ok _ _ _ _ Hext) as Hok2; destruct Hext as (Hg2 & HR2 & Hown2);
    pose proof (cache_grows _ l2 _ _ _ (proj1 Hg2) Hca1) as Hca2.
  2, 4: apply triple_reconcile; auto; apply not_true_is_false; intros Hnl; specialize (Hpost Hnl); simpl in Hpost; congruence.
  all: destruct fresh as [fr|]; simpl; try (by apply (triple_poison _ _ _ _ _ (answer _)); auto).
  destruct (Hr fr eq_refl) as [Hcf Hpf]. apply IH; auto; [by apply sound_refold|].
  pose proof (refold_core (maxResults cfg) fr st) as Hcore. unfold core in Hcore. congruence.
Qed.
End Ordinary.

(** Lookup of the object and the poison check, shared by both append paths. *)
Lemma triple_with_state (P : CommandResult → log → Prop) (bad1 bad2 bad3 : CommandResult)
    (k : nat → interactionState → M CommandResult) l s :
  ok l → RI l s → (∀ l', P bad1 l' ∧ P bad2 l' ∧ P bad3 l') →
  (∀ l' s' loc st, ok l' → RI l' s' → own l' s' t i loc → sound l' t i st → st_poisoned st = false →
     triple l' s' (k loc st) (λ r _ l'', P r l'')) →
  triple l s
    (ol ← getState cfg t i;
     match ol with
     | None => mret bad1
     | Some loc =>
         ost ← load_loc loc;
         match ost with
         | None => mret bad2
         | Some st => if st_poisoned st then mret bad3 else k loc st
         end
     end) (λ r _ l', P r l').
Proof.
  intros Hok HR Hbad Hk. eapply triple_bind; [by apply triple_getState|].
  intros ol s1 l1 Hext Hol. pose proof (ext_ok _ _ _ _ Hext). destruct Hext as (_ & HR1 & _).
  destruct ol as [loc|]; [|apply triple_ret; try done; apply Hbad].
  pose proof (Hol loc eq_refl) as Hown.
  unfold load_loc. eapply triple_bind.
  { eapply triple_bind; [by apply triple_get|]. intros a s2 l2 _ (-> & -> & ->).
    apply (triple_ret _ _ _ (λ a s' l', a = heap s1 !! loc ∧ s' = s1 ∧ l' = l1)); done. }
  intros ost s2 l2 _ (-> & -> & ->). pose proof Hown as (st & Hst & Hc & _). rewrite Hst.
  destruct (st_poisoned st) eqn:Hp; [apply triple_ret; try done; apply Hbad|]. by apply Hk.
Qed.

(** ** The participation path *)

Section Participation.
Context (commandedBy parentID : string) (pd : participationData) (fcmd : Command).
Hypothesis Hpart : isParticipationFact (cmd_Type fcmd) = true.
Hypothesis Hgpf : ∀ facts eid now seq, eid ≠ "" → facts_legal facts →
  gp facts (participation_event t (hashPayload fcmd) eid parentID commandedBy now seq pd fcmd).

Lemma triple_fact_loop loc remaining l s st :
  ok l → RI l s → own l s t i loc → sound l t i st → st_poisoned st = false →
  triple l s (fact_loop cfg t i commandedBy parentID pd loc fcmd remaining st)
    (λ r _ l', answer (cmd_CommandId fcmd) r l').
Proof.
  revert l s st. induction remaining as [|rem IH]; intros l s st Hok HR Hown [Hc Hca] Hnp; simpl.
  all: destruct (check_fact_results _ _ _) eqn:Hchk;
    [apply (triple_save_evict _ _ _ _ _ _ (answer _)); try done; by eapply check_fact_results_answer|].
  all: destruct (legalTransition _ _) eqn:Hleg; simpl;
    [|by apply (triple_save_ret _ _ _ _ _ (answer _))].
  all: eapply triple_bind; [by apply triple_id|]; intros eid s1 l1 _ (Heid & -> & ->).
  all: eapply triple_bind; [by apply triple_now|]; intros now s1 l1 _ [-> ->].
  all: eapply triple_bind; [apply triple_append; try done; split_and!; try done;
    intros; by apply Hgpf|].
  all: intros r s1 l1 Hext [-> Hpost]; pose proof (ext_ok _ _ _ _ Hext) as Hok1;
    destruct Hext as (Hg1 & HR1 & Hown1); pose proof (cache_grows _ l1 _ _ _ (proj1 Hg1) Hca) as Hca1.
  all: destruct r as [dup cseq| |]; [|..|by apply (triple_poison _ _ _ _ _ (answer _)); auto].
  1, 3: pose proof (append_post_committed _ _ _ _ _ Hpost) as Hcom;
    apply (triple_save_evict _ _ _ _ _ _ (answer _)); auto; [|by intros _];
    match goal with |- sound _ _ _ (putResult _ _ _ (apply_part ?ev _)) =>
      apply sound_put; [done|]; split; [|done]; destruct dup;
      [ eapply (coh_duplicate st ev cseq); try done; unfold core; simpl; by rewrite Hnp
      | eapply (coh_committed st ev cseq); [done|unfold core; simpl; by rewrite Hnp|];
        intros facts ->; simpl; by rewrite fold_participation_snoc ] end.
  all: eapply triple_bind; [by apply triple_rebuild|]; intros fresh s2 l2 Hext [-> Hr];
    pose proof (ext_ok _ _ _ _ Hext) as Hok2; destruct Hext as (Hg2 & HR2 & Hown2);
    pose proof (cache_grows _ l2 _ _ _ (proj1 Hg2) Hca1) as Hca2.
  all: destruct fresh as [fr|]; simpl; try (by apply (triple_poison _ _ _ _ _ (answer _)); auto).
  destruct (Hr fr eq_refl) as [Hcf Hpf]. apply IH; auto; [by apply sound_refold|].
  pose proof (refold_core (maxResults cfg) fr st) as Hcore. unfold core in Hcore. congruence.
Qed.

Lemma triple_participation_fact l s :
  ok l → RI l s →
  triple l s (appendParticipationFact cfg t i commandedBy parentID pd fcmd)
    (λ r _ l', answer (cmd_CommandId fcmd) r l').
Proof.
  intros. apply (triple_with_state (answer _)); [done..|]. intros. by apply triple_fact_loop.
Qed.
End Participation.

Lemma participation_facts_types ct pd facts :
  participation_facts ct pd = inr facts → Forall (λ f, isParticipationFact f.1 = true) facts.
Proof.
  unfold participation_facts. intros Hf. repeat case_decide; simplify_eq;
    repeat (apply Forall_cons; split); done || apply Forall_nil_2.
Qed.

(** The event one fact [f] of the participation command [cmd] becomes. *)
Definition sub_command (cmd : Command) (f : string * string) : Command :=
  mkCommand (subID (cmd_CommandId cmd) f) t f.2 f.1 (cmd_Medium cmd) "" "".
Definition sub_event (actor : string) (cmd : Command) (pd : participationData) (f : string * string)
    (eid : string) (now seq : Z) : Event :=
  participation_event t (hashPayload (sub_command cmd f)) eid (cmd_CommandId cmd) actor now seq pd (sub_command cmd f).

Lemma triple_append_facts actor cmd pd first facts l s :
  ok l → RI l s → Forall (λ f, isParticipationFact f.1 = true) facts →
  (∀ fs f eid now seq, eid ≠ "" → facts_legal fs → f ∈ facts → gp fs (sub_event actor cmd pd f eid now seq)) →
  triple l s (append_facts cfg t i actor cmd pd first facts)
    (λ r _ l', match r with
               | None => Forall (committed l' t i) (subID (cmd_CommandId cmd) <$> facts)
               | Some res => res_Status res ≠ STATUS_ACCEPTED
               end).
Proof.
  intros Hok HR Hfs. revert first l s Hok HR.
  induction Hfs as [|f facts Hf Hfs IH]; intros first l s Hok HR Hgpf; simpl; [by apply triple_ret|].
  eapply triple_bind.
  - apply triple_participation_fact; [done| |done..]. intros fs eid now seq ??.
    apply Hgpf; [done..|by left].
  - intros r s1 l1 Hext Hans. pose proof (ext_ok _ _ _ _ Hext). destruct Hext as (_ & HR1 & _).
    case_decide as Hacc; [|by apply triple_ret].
    eapply triple_conseq; [|apply IH; [done..|]; intros; apply Hgpf; [done..|by right]]. intros [res|] s2 l2 ((Hp & _) & _ & _) Hrest; [done|].
    apply Forall_cons. split; [|done]. eapply committed_grows; [done|]. by apply Hans.
Qed.

Lemma triple_load l s loc :
  ok l → RI l s → triple l s (load_loc loc) (λ a s' l', a = heap s !! loc ∧ s' = s ∧ l' = l).
Proof.
  intros. unfold load_loc. eapply triple_bind; [by apply triple_get|].
  intros a s2 l2 _ (-> & -> & ->). by apply triple_ret.
Qed.

Lemma triple_record_parent l s loc cid subs (P : CommandResult → log → Prop) :
  ok l → RI l s → own l s t i loc → P (accepted cid) l →
  triple l s (ost' ← load_loc loc;
              match ost' with
              | Some st => save_loc loc (record_parent cid subs st)
              | None => mret tt
              end;; mret (accepted cid)) (λ r _ l', P r l').
Proof.
  intros Hok HR Hown HP. eapply triple_bind; [by apply triple_load|].
  intros ost s1 l1 _ (-> & -> & ->). pose proof Hown as (st & Hst & Hc & _). rewrite Hst.
  by apply triple_save_ret.
Qed.

(** What an accepted participation command promises: every fact it stands for. *)
Definition participation_answer (cmd : Command) (r : CommandResult) (l : log) : Prop :=
  res_Status r = STATUS_ACCEPTED →
  ∃ pd facts, decode_pd (cmd_Data cmd) = Some pd ∧ participation_facts (cmd_Type cmd) pd = inr facts ∧
    Forall (committed l t i) (subID (cmd_CommandId cmd) <$> facts).

Lemma triple_handleParticipation actor role cmd l s :
  ok l → RI l s →
  (role = RoleTrustedBackend → ∀ pd facts fs f eid now seq, decode_pd (cmd_Data cmd) = Some pd →
     participation_facts (cmd_Type cmd) pd = inr facts → eid ≠ "" → facts_legal fs → f ∈ facts →
     gp fs (sub_event actor cmd pd f eid now seq)) →
  triple l s (handleParticipation cfg t i actor role cmd) (λ r _ l', participation_answer cmd r l').
Proof.
  intros Hok HR Hgpf. unfold handleParticipation.
  case_decide as Hrole; [by apply triple_ret|]. specialize (Hgpf Hrole).
  destruct (decode_pd _) as [pd|] eqn:Hpd; [|by apply triple_ret].
  destruct (participation_facts _ _) as [|facts] eqn:Hpf; [by apply triple_ret|].
  pose proof (participation_facts_types _ _ _ Hpf) as Hfacts.
  eapply triple_bind; [by apply triple_getState|]. intros ol s1 l1 Hext Hol.
  pose proof (ext_ok _ _ _ _ Hext). destruct Hext as (_ & HR1 & _).
  destruct ol as [loc|]; [|by apply triple_ret]. pose proof (Hol loc eq_refl) as Hown.
  eapply triple_bind; [by apply triple_load|]. intros ost s2 l2 _ (-> & -> & ->).
  case_match; [by apply triple_ret|].
  eapply triple_bind; [apply triple_append_facts; eauto|].
  intros failed s3 l3 Hext3 Hfail. pose proof (ext_ok _ _ _ _ Hext3).
  destruct Hext3 as (_ & HR3 & Hown3).
  destruct failed; [apply triple_ret; [done..|by intros ?]|].
  apply triple_record_parent; auto. intros _. by exists pd, facts.
Qed.

Lemma triple_appendCommand suffix gate cmd l s :
  ok l → RI l s → isParticipationFact (cmd_Type cmd) = false →
  (∀ facts eid now seq, eid ≠ "" → facts_legal facts → (q = true → gate = true → is_member suffix facts = true) →
     gp facts (command_event t (hashPayload cmd) eid now seq cmd)) →
  triple l s (appendCommand cfg t i suffix gate cmd) (λ r _ l', answer (cmd_CommandId cmd) r l').
Proof.
  intros. apply (triple_with_state (answer _)); [done..|]. intros. by apply triple_append_loop.
Qed.
End Call.
End Safety.
