(* ===== verification/RouterTraffic.v ===== *)
(** Routers serving traffic: the queue-group subscription of cmd/router/main.go
    hands each router process its messages one at a time, and any number of
    processes append to the same stream. The theorems of this file hold for
    every interleaving of their port calls and every answer the broker may give. *)

From S2P Require Import Prelude Bytes Wire Identity Subjects Membership.
From S2P Require Import LogStore Lifecycle RouterState Router StreamInvariant RouterSafety.

(** A message with the identity its context carries. *)
Record request := mkRequest {
  rq_id : Identity;
  rq_subject : string;
  rq_data : string;
}.

(** The request the subscription callback of the router binary makes of a message. *)
Definition on_message (devMode : bool) (trusted : gset string) (subject data : string) : request :=
  mkRequest (subscription_identity devMode trusted subject) subject data.

Section Serve.
Context {EC : EventCodec} {EX : Externals}.

(** One router process: the messages of its subscription, in order. *)
Fixpoint serve (cfg : RouterConfig) (rs : list request) : M (list CommandResult) :=
  match rs with
  | [] => mret []
  | r :: rs' =>
      res ← HandleCommand cfg (rq_id r) (rq_subject r) (rq_data r);
      rest ← serve cfg rs';
      mret (res :: rest)
  end.

(** The processes of a queue group, each with an empty cache. *)
Definition start (routers : list (RouterConfig * list request)) :
    list (prog (list CommandResult * rst)) :=
  (λ '(cfg, rs), serve cfg rs emptyRouter) <$> routers.
End Serve.

(** No tenant segment of a command subject holds the cache key's separator. *)
Definition subject_ok (subject : string) : Prop :=
  ∀ t i u, parseCmdSubject subject = Some (t, i, u) → no_slash t.

(** * Authorisation of a fact *)

Section Authorised.
Context {EX : Externals}.

(** The facts command [cmd] on interaction [i] of tenant [t], sent by [u], stands
    for: one event with its contents, or one per membership it changes, under a
    fresh identifier. *)
Definition writes (t u : string) (cmd : Command) (ev : Event) : Prop :=
  ∃ eid now seq, eid ≠ "" ∧
    if isParticipationCommand (cmd_Type cmd) then
      ∃ pd facts f, decode_pd (cmd_Data cmd) = Some pd ∧
        participation_facts (cmd_Type cmd) pd = inr facts ∧ f ∈ facts ∧
        ev = sub_event t u cmd pd f eid now seq
    else isParticipationFact (cmd_Type cmd) = false ∧ ev = command_event t (hashPayload cmd) eid now seq cmd.

(** What an appended fact [ev] on [subject], with [facts] before it, says about
    the request that caused it. [q] is the broker's [quiet] flag. *)
Definition authorised (q dev : bool) (r : request) (subject : string) (facts : list Event)
    (ev : Event) : Prop :=
  let id := rq_id r in
  ∃ t i u cmd, parseCmdSubject (rq_subject r) = Some (t, i, u) ∧ subject = logSubjectFor t i ∧ no_slash t ∧
    unmarshal_command (rq_data r) = Some cmd ∧ cmd_CommandId cmd ≠ "" ∧ cmd_TenantId cmd = t ∧ writes t u cmd ev ∧
    (isAuthenticated id = true ∨ dev = true) ∧
    (id_TenantID id ≠ "" → t = id_TenantID id) ∧
    (RoleOf id ≠ RoleTrustedBackend →
       isParticipationFact (ev_EventType ev) = false ∧ ev_ActorId ev = u ∧
       (id_UserID id ≠ "" → u = id_UserID id) ∧
       (isAuthenticated id = true →
          IsSubscriberCapability (id_Capability id) = true ∧
          (q = true → ev_EventType ev ≠ "interaction.started" → is_member u facts = true))).

(** The shape of every event on the log of a tenant [t]: the schema and the
    identifiers are set, the hash is 64 hexadecimal digits, and a membership fact names its
    agent and who commanded it and carries nothing else, while an ordinary fact is
    its own cause and has none of the membership fields. *)
Definition well_typed (t : string) (ev : Event) : Prop :=
  ev_Schema ev = SchemaV1 ∧ ev_EventId ev ≠ "" ∧ ev_TenantId ev = t ∧ ev_CommandId ev ≠ "" ∧ ev_CausedBy ev ≠ "" ∧ ev_Medium ev ≠ "" ∧
  ev_MediaProfile ev = "" ∧ String.length (ev_PayloadHash ev) = 64 ∧ str_forallb is_hex_char (ev_PayloadHash ev) = true ∧
  if isParticipationFact (ev_EventType ev) then
    ev_ActorId ev ≠ "" ∧ ev_CommandedBy ev ≠ "" ∧ ev_CommandId ev ≠ ev_CausedBy ev ∧ ev_RefId ev = "" ∧ ev_Data ev = ""
  else ev_CommandId ev = ev_CausedBy ev ∧ ev_CommandedBy ev = "" ∧ ev_Reason ev = "" ∧ ev_RequestId ev = "".

Lemma participation_facts_wf ct pd facts f :
  participation_facts ct pd = inr facts → f ∈ facts → isParticipationFact f.1 = true ∧ f.2 ≠ "".
Proof.
  unfold participation_facts. intros Hf Hin. repeat case_decide; simplify_eq; split_not_or;
    repeat (apply elem_of_cons in Hin as [->|Hin]); try (by apply elem_of_nil in Hin); done.
Qed.

Lemma orDefault_set s d : d ≠ "" → orDefault s d ≠ "".
Proof. unfold orDefault. by case_decide. Qed.

Lemma subID_longer cid f : subID cid f ≠ cid.
Proof.
  unfold subID. intros H. apply (f_equal String.length) in H. rewrite !str_length_app in H. simpl in H. lia.
Qed.

Lemma writes_well_typed t u cmd ev :
  (∀ x, String.length (sha256 x) = 32) → u ≠ "" → cmd_CommandId cmd ≠ "" → writes t u cmd ev → well_typed t ev.
Proof.
  intros Hsha Hu Hc (eid & now & seq & Heid & Hw).
  assert (∀ c, String.length (hashPayload c) = 64) as Hlen by (intros c; unfold hashPayload; by rewrite hex_encode_length, Hsha).
  destruct (isParticipationCommand (cmd_Type cmd)).
  - destruct Hw as (pd & facts & f & _ & Hpf & Hin & ->). destruct (participation_facts_wf _ _ _ _ Hpf Hin) as [Hp Ha].
    unfold well_typed, sub_event, participation_event, sub_command. simpl. rewrite Hp.
    split_and!; try done; [|by apply orDefault_set|apply hex_encode_is_hex|apply subID_longer].
    unfold subID. destruct (cmd_CommandId cmd); [done|]. by simpl.
  - destruct Hw as [Hp ->]. unfold well_typed, command_event. simpl. rewrite Hp.
    split_and!; try done; [by apply orDefault_set|apply hex_encode_is_hex].
Qed.

(** ** The contents of a request *)

(** An event without what the router adds: its identifier, time and number. *)
Definition contents (ev : Event) : Event :=
  mkEvent (ev_Schema ev) (ev_EventType ev) "" 0 0 (ev_TenantId ev) (ev_ActorId ev) (ev_Medium ev) (ev_MediaProfile ev)
    (ev_CommandId ev) (ev_PayloadHash ev) (ev_CausedBy ev) (ev_RefId ev) (ev_Data ev) (ev_CommandedBy ev) (ev_Reason ev)
    (ev_RequestId ev).

(** The contents of the facts a request stands for, with their interaction. *)
Definition request_facts (r : request) : list (string * string * Event) :=
  match parseCmdSubject (rq_subject r), unmarshal_command (rq_data r) with
  | Some (t, i, u), Some cmd =>
      if isParticipationCommand (cmd_Type cmd) then
        match decode_pd (cmd_Data cmd) with
        | Some pd =>
            match participation_facts (cmd_Type cmd) pd with
            | inr facts => (λ f, (t, i, sub_event t u cmd pd f "" 0 0)) <$> facts
            | inl _ => []
            end
        | None => []
        end
      else [(t, i, command_event t (hashPayload cmd) "" 0 0 cmd)]
  | _, _ => []
  end.

(** No client of the group uses a command id of an interaction for two different
    contents. *)
Definition unambiguous (rs : list request) : Prop :=
  ∀ r r' t i c c', r ∈ rs → r' ∈ rs → (t, i, c) ∈ request_facts r → (t, i, c') ∈ request_facts r' →
    ev_CommandId c = ev_CommandId c' → c = c'.

Lemma writes_contents r t i u cmd ev :
  parseCmdSubject (rq_subject r) = Some (t, i, u) → unmarshal_command (rq_data r) = Some cmd → writes t u cmd ev →
  (t, i, contents ev) ∈ request_facts r.
Proof.
  intros Hp Hc (eid & now & seq & _ & Hw). unfold request_facts. rewrite Hp, Hc.
  destruct (isParticipationCommand (cmd_Type cmd)).
  - destruct Hw as (pd & facts & f & -> & -> & Hin & ->). apply list_elem_of_fmap. by exists f.
  - destruct Hw as [_ ->]. by left.
Qed.
End Authorised.

Section Traffic.
Context {EC : EventCodec} {ECOK : EventCodecOK} {EX : Externals}.
Context (b : broker).
Hypothesis Hocc : occ_first b = true.

Local Abbreviation q := (quiet b).
Local Abbreviation ok := (log_ok (nodup b)).

(** What the answer [res] to request [r] promises of the log: an accepted
    command is on it, and so is every fact an accepted participation command
    stands for. *)
Definition promised (l : log) (r : request) (res : CommandResult) : Prop :=
  res_Status res = STATUS_ACCEPTED →
  ∃ t i u cmd, parseCmdSubject (rq_subject r) = Some (t, i, u) ∧
    unmarshal_command (rq_data r) = Some cmd ∧
    if isParticipationCommand (cmd_Type cmd) then
      ∃ pd facts, decode_pd (cmd_Data cmd) = Some pd ∧
        participation_facts (cmd_Type cmd) pd = inr facts ∧
        Forall (committed l t i) (subID (cmd_CommandId cmd) <$> facts)
    else committed l t i (cmd_CommandId cmd).

Lemma promised_grows l l' r res : l `prefix_of` l' → promised l r res → promised l' r res.
Proof.
  intros Hp Hr Hs. destruct (Hr Hs) as (t & i & u & cmd & ? & ? & Hc). exists t, i, u, cmd.
  split_and!; try done. case_match; [|by eapply committed_grows].
  destruct Hc as (pd & facts & ? & ? & Hall). exists pd, facts. split_and!; try done.
  eapply Forall_impl; [done|]. intros. by eapply committed_grows.
Qed.

(** The guarantee of a group of routers: at most one fact per port call, and
    that fact authorised by one of their requests. *)
Definition group_step (routers : list (RouterConfig * list request)) (l1 l2 : log) : Prop :=
  l2 = l1 ∨ ∃ e ev facts cfg rs r,
    l2 = l1 ++ [e] ∧ unmarshal_event (e_data e) = Some ev ∧
    facts_of l1 (e_subject e) = Some facts ∧ (cfg, rs) ∈ routers ∧ r ∈ rs ∧
    authorised q (devMode cfg) r (e_subject e) facts ev.

Lemma wp_guarantee_mono {A} (G G' : log → log → Prop) (p : prog A) Q l :
  (∀ l1 l2, G l1 l2 → G' l1 l2) → wp b ok G p Q l → wp b ok G' p Q l.
Proof.
  intros HG. revert l. induction p as [a|s d i x k IH|s k IH|k IH|k IH]; intros l Hp; simpl in *.
  - done.
  - intros l1 Hl1 r l2 Hs. destruct (Hp l1 Hl1 r l2 Hs) as (?&?&?). auto.
  - intros l1 Hl1 r Hs. apply IH. by apply (Hp l1).
  - intros t. apply IH, Hp.
  - intros t Hne. by apply IH, Hp.
Qed.

(** ** One command *)

Section Command.
Context (cfg : RouterConfig).

Lemma admission_spec id subject data t i u cmd :
  admission cfg id subject data = inr (t, i, u, cmd) →
  parseCmdSubject subject = Some (t, i, u) ∧ unmarshal_command data = Some cmd ∧
  (isAuthenticated id = true ∨ devMode cfg = true) ∧ cmd_CommandId cmd ≠ "" ∧
  cmd_TenantId cmd = t ∧ (id_TenantID id ≠ "" → t = id_TenantID id) ∧
  (RoleOf id ≠ RoleTrustedBackend →
     cmd_ActorId cmd = u ∧ u ≠ "" ∧ (id_UserID id ≠ "" → u = id_UserID id)).
Proof.
  unfold admission. destruct (parseCmdSubject subject) as [[[t' i'] u']|] eqn:Hp; [|done].
  destruct (unmarshal_command data) as [cmd'|]; [|done]. unfold orDefault.
  destruct (isAuthenticated id) eqn:Ha, (devMode cfg) eqn:Hd; simpl; try done.
  all: repeat case_decide; intros; simplify_eq; try done.
  all: repeat match goal with H : ¬ (_ ≠ _) |- _ => apply dec_stable in H end.
  all: split_and!; try done; try (by left); try (by right); try congruence.
  all: intros; split_and!; try congruence; intros; apply dec_stable; naive_solver congruence.
Qed.

Lemma admission_rejects id subject data res :
  admission cfg id subject data = inl res → res_Status res ≠ STATUS_ACCEPTED.
Proof.
  unfold admission. repeat (case_match || case_decide); intros; simplify_eq; done.
Qed.

(** The guarantee of one request. *)
Definition request_gp (r : request) (t i : string) (facts : list Event) (ev : Event) : Prop :=
  authorised q (devMode cfg) r (logSubjectFor t i) facts ev.

Lemma triple_HandleCommand r t i u l s :
  parseCmdSubject (rq_subject r) = Some (t, i, u) → no_slash t → ok l → RI cfg b l s →
  triple cfg b t i (request_gp r t i) l s
    (HandleCommand cfg (rq_id r) (rq_subject r) (rq_data r)) (λ res _ l', promised l' r res).
Proof.
  intros Hp Hns Hok HR. unfold HandleCommand.
  pose proof (parseCmdSubject_toks _ _ _ _ Hp) as (_ & Ht & Hi & _).
  destruct (admission _ _ _ _) as [res|[[[t' i'] u'] cmd]] eqn:Hadm.
  { apply triple_ret; try done. intros Hs. by apply admission_rejects in Hadm. }
  apply admission_spec in Hadm as (Hp' & Hcmd & Hauth & Hcid & Htid & Hten & Hact).
  rewrite Hp in Hp'. injection Hp' as <- <- <-.
  destruct (isParticipationCommand _) eqn:Hpc.
  { eapply triple_conseq; [|apply triple_handleParticipation; try done].
    - intros res s' l' _ Hans Hs. exists t, i, u, cmd. rewrite Hpc. split_and!; try done. by apply Hans.
    - intros Hrole pd facts fs f eid now seq Hpd Hpf Heid _ Hin. exists t, i, u, cmd. split_and!; try done.
      exists eid, now, seq. rewrite Hpc. split; [done|]. by exists pd, facts, f. }
  destruct (isParticipationFact _) eqn:Hpf; [by apply triple_ret|].
  destruct (isAuthenticated (rq_id r) && _ && negb _) eqn:Hcap; [by apply triple_ret|].
  eapply triple_conseq; [|apply triple_appendCommand; try done].
  { intros res s' l' _ Hans Hs. exists t, i, u, cmd. rewrite Hpc. split_and!; try done. by apply Hans. }
  intros fs eid now seq Heid _ Hgate.
  exists t, i, u, cmd. split_and!; try done; [by exists eid, now, seq; rewrite Hpc|].
  intros Hrole. destruct (Hact Hrole) as (Hau & _ & Huid). simpl. split_and!; try done.
  intros Ha. rewrite Ha, bool_decide_eq_false_2 in Hcap by done. simpl in Hcap.
  split; [by apply negb_false_iff|]. intros Hq Hne. apply Hgate; [done|].
  unfold gateParticipation. by rewrite Ha, !bool_decide_eq_false_2 by done.
Qed.

(** A subject that does not parse is answered without any port call. *)
Lemma HandleCommand_bad_subject id subject data s :
  parseCmdSubject subject = None →
  HandleCommand cfg id subject data s = Ret (rejected "" "bad subject", s).
Proof. intros Hp. unfold HandleCommand, admission. by rewrite Hp. Qed.

Lemma wp_HandleCommand r l s :
  subject_ok (rq_subject r) → ok l → RI cfg b l s →
  wp b ok (group_step [(cfg, [r])]) (HandleCommand cfg (rq_id r) (rq_subject r) (rq_data r) s)
    (λ x l', l `prefix_of` l' ∧ ok l' ∧ RI cfg b l' x.2 ∧ promised l' r x.1) l.
Proof.
  intros Hs Hok HR. destruct (parseCmdSubject (rq_subject r)) as [[[t i] u]|] eqn:Hp.
  - eapply wp_guarantee_mono; [|eapply wp_mono; [|by eapply triple_HandleCommand; eauto]].
    + intros l1 l2 [->|(e & ev & facts & -> & Hsub & Hev & Hf & Hgp)]; [by left|right].
      exists e, ev, facts, cfg, [r], r. rewrite Hsub. split_and!; try done; by apply list_elem_of_singleton.
    + intros [x s'] l' [((? & Hok') & HR' & _) ?]. done.
  - rewrite HandleCommand_bad_subject by done. split_and!; try done.
Qed.

Lemma group_step_mono routers rs rs' l1 l2 :
  (cfg, rs') ∈ routers → (∀ r, r ∈ rs → r ∈ rs') →
  group_step [(cfg, rs)] l1 l2 → group_step routers l1 l2.
Proof.
  intros Hin Hsub [->|(e & ev & facts & c & rs0 & r & -> & Hev & Hf & Hc & Hr & Ha)]; [by left|right].
  apply list_elem_of_singleton in Hc. simplify_eq.
  exists e, ev, facts, cfg, rs', r. split_and!; auto.
Qed.

(** What a router has established when its messages are served. *)
Definition served (rs : list request) (x : list CommandResult * rst) (l : log) : Prop :=
  RI cfg b l x.2 ∧ Forall2 (promised l) rs x.1.

Lemma wp_serve routers rs0 rs l s :
  (cfg, rs0) ∈ routers → (∀ r, r ∈ rs → r ∈ rs0) →
  Forall (λ r, subject_ok (rq_subject r)) rs → ok l → RI cfg b l s →
  wp b ok (group_step routers) (serve cfg rs s) (λ x l', l `prefix_of` l' ∧ served rs x l') l.
Proof.
  intros Hin Hsub Hs. revert l s Hsub.
  induction Hs as [|r rs Hr Hs IH]; intros l s Hsub Hok HR; simpl; [done|].
  unfold mbind, M_bind. apply wp_bind.
  eapply wp_mono; [|eapply wp_guarantee_mono; [|by apply wp_HandleCommand]].
  - intros [res s1] l1 (Hp1 & Hok1 & HR1 & Hres). simpl in *. apply wp_bind.
    eapply wp_mono; [|by apply IH; [set_solver|..]].
    intros [rest s2] l2 (Hp2 & HR2 & Hrest). split; [by trans l1|]. split; [done|].
    constructor; [|done]. by eapply promised_grows.
  - intros l1 l2. apply (group_step_mono _ _ rs0); [done|]. intros x ->%list_elem_of_singleton.
    apply Hsub. by left.
Qed.
End Command.

(** ** The group *)

(** The entries of [l] after the first [length l0] are all authorised. *)
Definition authored (routers : list (RouterConfig * list request)) (l0 l : log) : Prop :=
  ∀ l1 e l2, l = l1 ++ e :: l2 → length l0 ≤ length l1 →
  ∃ ev facts cfg rs r, unmarshal_event (e_data e) = Some ev ∧
    facts_of l1 (e_subject e) = Some facts ∧ (cfg, rs) ∈ routers ∧ r ∈ rs ∧
    authorised q (devMode cfg) r (e_subject e) facts ev.

Lemma authored_step routers l0 l l' :
  l0 `prefix_of` l → authored routers l0 l → group_step routers l l' → authored routers l0 l'.
Proof.
  intros Hp Ha [->|(e & ev & facts & c & rs & r & -> & H)]; [done|].
  intros l1 e1 l2 He Hlen. destruct l2 as [|e2 l2 _] using rev_ind.
  - apply app_inj_tail in He as [<- <-]. by exists ev, facts, c, rs, r.
  - rewrite app_comm_cons, app_assoc in He. apply app_inj_tail in He as [-> <-]. by eapply Ha.
Qed.

Lemma group_safe_from routers l0 (Qs : list (list CommandResult * rst → log → Prop)) c c' :
  rtc (pool_step b) c c' → l0 `prefix_of` c.2 → authored routers l0 c.2 → ok c.2 →
  Forall2 (λ Q p, thread_ok b ok (group_step routers) Q c.2 p) Qs c.1 →
  ok c'.2 ∧ authored routers l0 c'.2 ∧
  Forall2 (λ Q p, thread_ok b ok (group_step routers) Q c'.2 p) Qs c'.1.
Proof.
  induction 1 as [c|[pc lc] [ps1 l1] c2 Hstep Hr IH]; simpl; intros Hp Ha Hok Hps; [done|].
  destruct (pool_step_safe b ok (group_step routers) Qs pc lc ps1 l1) as (Hok1 & Hp1 & HG & Hps1);
    try done.
  apply IH; simpl; try done.
  - by trans lc.
  - destruct HG as [->|HG]; [done|]. by eapply authored_step.
Qed.

(** The group, with the postcondition each member has when it is done. *)
Lemma group_safe routers l0 ps l :
  ok l0 → (∀ cfg rs, (cfg, rs) ∈ routers → Forall (λ r, subject_ok (rq_subject r)) rs) →
  rtc (pool_step b) (start routers, l0) (ps, l) →
  ok l ∧ authored routers l0 l ∧
  ∀ n cfg rs x, routers !! n = Some (cfg, rs) → ps !! n = Some (Ret x) →
    ∃ l', l' `prefix_of` l ∧ served cfg rs x l'.
Proof.
  intros Hok Hs Hr.
  apply (group_safe_from routers l0 ((λ '(cfg, rs) x l', l0 `prefix_of` l' ∧ served cfg rs x l') <$> routers))
    in Hr as (Hok' & Ha & Hps); simpl in *; try done.
  - split_and!; try done. intros n cfg rs x Hn Hx.
    eapply (Forall2_lookup_lr _ _ _ n) in Hps; [|by rewrite list_lookup_fmap, Hn|done].
    destruct Hps as (l1 & Hl1 & Hw). simpl in Hw. exists l1. naive_solver.
  - intros l1 e l2 -> Hlen. rewrite length_app in Hlen. simpl in Hlen. lia.
  - apply Forall2_fmap, Forall_Forall2_diag, Forall_forall. intros [cfg rs] Hin. exists l0.
    split; [done|]. eapply wp_serve; eauto using RI_empty.
Qed.

(** ** What is recorded of an accepted request *)

Definition requests (routers : list (RouterConfig * list request)) : list request := concat (snd <$> routers).

Lemma in_requests routers cfg rs r : (cfg, rs) ∈ routers → r ∈ rs → r ∈ requests routers.
Proof.
  intros Hc Hr. apply list_elem_of_In, in_concat. exists rs. rewrite <-!list_elem_of_In. split; [|done].
  apply list_elem_of_fmap. by exists (cfg, rs).
Qed.

(** Every fact an accepted request stands for is on the log of its interaction under
    its command id, and with its contents unless a client of the group used the id
    for something else. *)
Definition recorded (routers : list (RouterConfig * list request)) (l : log) (r : request) (res : CommandResult) : Prop :=
  res_Status res = STATUS_ACCEPTED →
  request_facts r ≠ [] ∧
  ∀ t i c, (t, i, c) ∈ request_facts r → ∃ e ev, e ∈ l ∧ e_subject e = logSubjectFor t i ∧
    unmarshal_event (e_data e) = Some ev ∧ ev_CommandId ev = ev_CommandId c ∧
    (unambiguous (requests routers) → contents ev = c).

(** The contents of a committed fact, from the request that caused it. *)
Lemma committed_contents routers l r t i c :
  authored routers [] l → r ∈ requests routers → (t, i, c) ∈ request_facts r → tok t → tok i →
  committed l t i (ev_CommandId c) →
  ∃ e ev, e ∈ l ∧ e_subject e = logSubjectFor t i ∧ unmarshal_event (e_data e) = Some ev ∧ ev_CommandId ev = ev_CommandId c ∧
    (unambiguous (requests routers) → contents ev = c).
Proof.
  intros Ha Hr Hc Ht Hi (e & ev & He & Hs & Hev & Hid). exists e, ev. split_and!; try done. intros Hu.
  apply list_elem_of_split in He as (l1 & l2 & ->).
  destruct (Ha l1 e l2 eq_refl) as (ev' & facts & cfg & rs & r' & Hev' & _ & Hcfg & Hr' & t' & i' & u' & cmd' & Hp & Hs' & _ & Hcmd & _ & _ & Hw & _);
    [simpl; lia|].
  rewrite Hev in Hev'. injection Hev' as <-. rewrite Hs in Hs'. pose proof (parseCmdSubject_toks _ _ _ _ Hp) as (_ & Ht' & Hi' & _).
  apply logSubjectFor_inj in Hs' as [<- <-]; try done.
  eapply (Hu r' r t i); [by eapply in_requests|done|by eapply writes_contents|done|done].
Qed.

Lemma participation_facts_some ct pd facts :
  isParticipationCommand ct = true → participation_facts ct pd = inr facts → facts ≠ [].
Proof. unfold isParticipationCommand, participation_facts. intros Hc Hf. repeat case_decide; simplify_eq; done. Qed.

Lemma promised_recorded routers l r res :
  authored routers [] l → r ∈ requests routers → promised l r res → recorded routers l r res.
Proof.
  intros Ha Hr Hpr Hacc. destruct (Hpr Hacc) as (t & i & u & cmd & Hp & Hcmd & Hw).
  pose proof (parseCmdSubject_toks _ _ _ _ Hp) as (_ & Ht & Hi & _).
  assert (request_facts r ≠ [] ∧ ∀ t' i' c, (t', i', c) ∈ request_facts r → t' = t ∧ i' = i ∧ committed l t i (ev_CommandId c)) as [Hne Hall].
  { unfold request_facts. rewrite Hp, Hcmd. destruct (isParticipationCommand (cmd_Type cmd)) eqn:Hpc.
    - destruct Hw as (pd & facts & -> & Hpf & Hcom). rewrite Hpf. split.
      + intros He%fmap_nil_inv. by eapply participation_facts_some.
      + intros t' i' c (f & [= -> -> ->] & Hf)%list_elem_of_fmap. split_and!; try done. simpl.
        rewrite Forall_forall in Hcom. apply Hcom, list_elem_of_fmap. by exists f.
    - split; [done|]. intros t' i' c [= -> -> ->]%list_elem_of_singleton. done. }
  split; [done|]. intros t' i' c Hc. destruct (Hall t' i' c Hc) as (-> & -> & Hcom). by eapply committed_contents.
Qed.
End Traffic.
