(* ===== verification/MemStore.v ===== *)
(** An in-memory log store, as the unit tests of internal/signaling use one, with
    concrete codecs: the ground on which the theorems are instantiated. *)

From stdpp Require Import countable.
From S2P Require Import Prelude Bytes Wire Identity Subjects LogStore RouterState Router.

(** * Concrete codecs *)

Fixpoint pos_str (p : positive) : string :=
  match p with
  | xH => ""
  | xO p' => String "0" (pos_str p')
  | xI p' => String "1" (pos_str p')
  end.

Fixpoint str_pos (s : string) : positive :=
  match s with
  | EmptyString => xH
  | String c s' => if decide (c = "0"%char) then xO (str_pos s') else xI (str_pos s')
  end.

Lemma str_pos_str p : str_pos (pos_str p) = p.
Proof. induction p; simpl; by rewrite ?IHp. Qed.

Definition z_str (z : Z) : string := pos_str (encode z).
Definition str_z (s : string) : option Z := decode (str_pos s).

Lemma str_z_str z : str_z (z_str z) = Some z.
Proof. unfold str_z, z_str. by rewrite str_pos_str, decode_encode. Qed.

Definition pack (l : list string) : string := pos_str (encode l).
Definition unpack (s : string) : option (list string) := decode (str_pos s).

Lemma unpack_pack l : unpack (pack l) = Some l.
Proof. unfold pack, unpack. by rewrite str_pos_str, decode_encode. Qed.

#[export] Instance mem_codec : EventCodec := {
  marshal_event e :=
    pack [ev_Schema e; ev_EventType e; ev_EventId e; z_str (ev_Sequence e); z_str (ev_OccurredAt e);
          ev_TenantId e; ev_ActorId e; ev_Medium e; ev_MediaProfile e; ev_CommandId e;
          ev_PayloadHash e; ev_CausedBy e; ev_RefId e; ev_Data e; ev_CommandedBy e; ev_Reason e;
          ev_RequestId e];
  unmarshal_event s :=
    match unpack s with
    | Some [a; b; c; d; e; f; g; h; i; j; k; l; m; n; o; p; q] =>
        d' ← str_z d; e' ← str_z e; Some (mkEvent a b c d' e' f g h i j k l m n o p q)
    | _ => None
    end;
}.

#[export] Instance mem_codec_ok : EventCodecOK.
Proof.
  constructor. intros []. unfold marshal_event, unmarshal_event, mem_codec.
  by rewrite unpack_pack, !str_z_str.
Qed.

Definition command_data (c : Command) : string :=
  pack [cmd_CommandId c; cmd_TenantId c; cmd_ActorId c; cmd_Type c; cmd_Medium c; cmd_RefId c; cmd_Data c].
Definition pd_data (p : participationData) : string :=
  pack [pd_Agent p; pd_From p; pd_Reason p; pd_RequestID p].

(** A digest of 32 bytes in place of SHA-256. *)
Fixpoint checksum (acc : N) (s : string) : N :=
  match s with
  | EmptyString => acc
  | String c s' => checksum ((acc * 257 + N_of_ascii c + 1) mod 2 ^ 256) s'
  end.
Definition digest (s : string) : string := be_bytes 32 (checksum 0 s).

Lemma digest_length s : String.length (digest s) = 32.
Proof. apply be_bytes_length. Qed.

(** The libraries of the router. *)
#[export] Instance mem_externals : Externals := {
  unmarshal_command s :=
    match unpack s with
    | Some [a; b; c; d; e; f; g] => Some (mkCommand a b c d e f g)
    | _ => None
    end;
  unmarshal_pd s :=
    match unpack s with
    | Some [a; b; c; d] => Some (mkPD a b c d)
    | _ => None
    end;
  sha256 := digest;
  quote s := s;
  range_order l := l;
}.

(** * The store *)

(** Append with the expected-sequence check before deduplication. *)
Definition mem_append (s d i : string) (x : N) (l : log) : append_res * log :=
  if decide (last_subj_seq l s = x) then
    match list_find (λ e, e_dedup e = i) l with
    | Some (_, e) => (AppOK true (e_seq e), l)
    | None => let q := N.of_nat (S (length l)) in (AppOK false q, l ++ [mkEntry s q i d])
    end
  else (AppOCC, l).

Definition mem_replay (s : string) (l : log) : replay_res * log :=
  match facts_of l s with
  | Some facts => (RepOK facts (last_subj_seq l s), l)
  | None => (RepErr, l)
  end.

#[export] Instance mem_store : LogStore log := { Append := mem_append; Replay := mem_replay }.

(** The broker whose contract the store keeps on the runs [exec_ok] accepts. *)
Definition quiet_broker : broker := mkBroker true true true.

(** Sequences of the store count its messages. *)
Definition mem_seqs (l : log) : bool :=
  forallb (λ e, (e_seq e <=? N.of_nat (length l))%N) l
  && bool_decide (Z.of_nat (length l) + 1 < two63)%Z.

(** Every append of the run stays within the contract of [quiet_broker]. *)
Fixpoint exec_ok {A} (p : prog A) (h : host log) : bool :=
  match p with
  | Ret _ => true
  | DoAppend s d i x k =>
      let '(r, l') := Append s d i x (h_store h) in
      mem_seqs (h_store h)
      && match r with AppOK true _ => negb (is_participation_data d) | _ => true end
      && exec_ok (k r) (mkHost l' (h_now h) (h_ids h))
  | DoReplay s k =>
      let '(r, l') := Replay s (h_store h) in exec_ok (k r) (mkHost l' (h_now h) (h_ids h))
  | DoNow k => exec_ok (k (h_now h)) (mkHost (h_store h) (h_now h + 1) (h_ids h))
  | DoID k =>
      exec_ok (k ("id" +:+ String (ascii_of_nat (h_ids h)) ""))
        (mkHost (h_store h) (h_now h) (S (h_ids h)))
  end.

Lemma mem_seqs_fresh l : mem_seqs l = true → fresh_seq l (N.of_nat (S (length l))).
Proof.
  unfold mem_seqs. rewrite andb_true_iff, forallb_forall, bool_decide_eq_true.
  intros [He Hl]. split_and!; [lia| |done]. intros e Hin%list_elem_of_In.
  specialize (He e Hin). apply N.leb_le in He. lia.
Qed.

Lemma mem_append_step l s d i x r l' :
  mem_append s d i x l = (r, l') → mem_seqs l = true →
  match r with AppOK true _ => negb (is_participation_data d) | _ => true end = true →
  append_step quiet_broker l s d i x r l'.
Proof.
  unfold mem_append. intros Ha Hs Hq. case_decide as Hlast; [|simplify_eq; by constructor].
  destruct (list_find _ l) as [[n e]|] eqn:Hf; simplify_eq.
  - apply list_find_Some in Hf as (Hl & Hd & _). apply as_dup; try done.
    + by eapply list_elem_of_lookup_2.
    + intros _. by apply negb_true_iff.
  - apply as_commit; [done|]. by apply mem_seqs_fresh.
Qed.

(** A run of one process on the store is a run of the pool. *)
Lemma exec_pool {A} (p : prog A) (h : host log) a h' ps n :
  exec_ok p h = true → exec p h = (a, h') → ps !! n = Some p →
  rtc (pool_step quiet_broker) (ps, h_store h) (<[n := Ret a]> ps, h_store h').
Proof.
  revert h ps. induction p as [x|s d i x k IH|s k IH|k IH|k IH]; intros h ps Hok He Hn; simpl in *.
  - simplify_eq. by rewrite list_insert_id.
  - destruct (mem_append s d i x (h_store h)) as [r l'] eqn:E.
    apply andb_true_iff in Hok as [[Hs Hq]%andb_true_iff Hok].
    eapply rtc_l; [by eapply ps_append; eauto using mem_append_step|].
    eapply IH in He; [|done|by apply list_lookup_insert_eq, lookup_lt_is_Some; eexists].
    by rewrite list_insert_insert_eq in He.
  - assert (∃ r, mem_replay s (h_store h) = (r, h_store h) ∧ replay_step (h_store h) s r)
      as (r & E & Hr).
    { unfold mem_replay. destruct (facts_of (h_store h) s) eqn:Hf; eexists; split; by constructor. }
    rewrite E in He, Hok. eapply rtc_l; [by eapply ps_replay|].
    eapply IH in He; [|done|by apply list_lookup_insert_eq, lookup_lt_is_Some; eexists].
    by rewrite list_insert_insert_eq in He.
  - eapply rtc_l; [by apply ps_now|].
    eapply IH in He; [|done|by apply list_lookup_insert_eq, lookup_lt_is_Some; eexists].
    by rewrite list_insert_insert_eq in He.
  - eapply rtc_l; [apply (ps_id _ n k _ _ (String "i" (String "d" (String (ascii_of_nat (h_ids h)) ""))) Hn); discriminate|].
    eapply IH in He; [|done|by apply list_lookup_insert_eq, lookup_lt_is_Some; eexists].
    by rewrite list_insert_insert_eq in He.
Qed.
