(* ===== verification/RouterCorrect.v ===== *)
(** The theorems of the router over whole runs of a group of router processes:
    the log each interaction ends up with, who may have written it, and what an
    accepted answer is worth. The section's hypothesis is the documented order of
    checks of the broker; the witnesses run two processes on the in-memory store. *)

From S2P Require Import Prelude Bytes Wire Identity Subjects Membership.
From S2P Require Import LogStore Lifecycle RouterState Router StreamInvariant RouterSafety.
From S2P Require Import RouterTraffic MemStore.

(** * A sample run *)

Definition demo_trusted : gset string := trustedSet "desk, ops".
Definition demo_subject (who : string) : string := "tenant.acme.interaction.i1.cmd." +:+ who.
Definition demo_msg (who cid actor type data : string) : request :=
  on_message false demo_trusted (demo_subject who)
    (command_data (mkCommand cid "acme" actor type "" "" data)).

(** Two processes of one queue group: the first opens the interaction and assigns
    ann, the second serves ann's message, a transfer to bob, and bob's end. *)
Definition demo_first : list request :=
  [demo_msg "desk" "c1" "desk" "interaction.started" "";
   demo_msg "desk" "c2" "desk" "participant.assign" (pd_data (mkPD "ann" "" "" ""))].
Definition demo_second : list request :=
  [demo_msg "ann" "c3" "ann" "message.posted" "hi";
   demo_msg "bob" "c4" "bob" "message.posted" "too early";
   demo_msg "ann" "c3" "ann" "message.posted" "hi";
   demo_msg "desk" "c5" "desk" "participant.transfer" (pd_data (mkPD "bob" "ann" "" ""));
   demo_msg "ann" "c6" "ann" "message.posted" "too late";
   demo_msg "bob" "c7" "bob" "interaction.ended" ""].
Definition demo_routers : list (RouterConfig * list request) :=
  [(defaultConfig, demo_first); (WithStateLimits 1 2 0 defaultConfig, demo_second)].

Definition demo_host : host log := mkHost [] 0 0.
Definition demo_run1 := exec (serve defaultConfig demo_first emptyRouter) demo_host.
Definition demo_run2 :=
  exec (serve (WithStateLimits 1 2 0 defaultConfig) demo_second emptyRouter) demo_run1.2.
Definition demo_ps : list (prog (list CommandResult * rst)) := [Ret demo_run1.1; Ret demo_run2.1].
Definition demo_log : log := h_store demo_run2.2.

Lemma demo_reaches : rtc (pool_step quiet_broker) (start demo_routers, []) (demo_ps, demo_log).
Proof.
  etrans.
  - apply (exec_pool (serve defaultConfig demo_first emptyRouter) demo_host demo_run1.1 demo_run1.2 _ 0).
    + by vm_compute.
    + apply surjective_pairing.
    + done.
  - apply (exec_pool (serve (WithStateLimits 1 2 0 defaultConfig) demo_second emptyRouter) demo_run1.2
      demo_run2.1 demo_run2.2 [Ret demo_run1.1; _] 1).
    + by vm_compute.
    + apply surjective_pairing.
    + done.
Qed.

Lemma demo_subject_ok who : has_char "." who = false → who ≠ "" → subject_ok (demo_subject who).
Proof.
  intros Hw Hne t i u. unfold demo_subject.
  change ("tenant.acme.interaction.i1.cmd." +:+ who)
    with ("tenant." +:+ "acme" +:+ ".interaction." +:+ "i1" +:+ ".cmd." +:+ who).
  rewrite parseCmdSubject_build by done. by intros [= <- <- <-].
Qed.

Lemma demo_subjects cfg rs :
  (cfg, rs) ∈ demo_routers → Forall (λ r, subject_ok (rq_subject r)) rs.
Proof.
  intros Hin. unfold demo_routers in Hin.
  repeat (apply elem_of_cons in Hin as [[= -> ->]|Hin]); [| |by apply not_elem_of_nil in Hin].
  all: repeat (apply Forall_cons; split); try apply Forall_nil_2; by apply demo_subject_ok.
Qed.

(** * The log of every interaction *)

Section Group.
Context {EC : EventCodec} {ECOK : EventCodecOK} {EX : Externals}.

(** C1: however the processes of a queue group interleave their port calls and
    whatever the broker answers (conflicts, duplicates, errors, lost
    acknowledgements), every subject of the stream decodes to a well-formed
    lifecycle: it opens with [interaction.started], never opens again, and holds
    nothing after [interaction.ended]. *)
Theorem log_lifecycle (b : broker) routers ps l subject :
  occ_first b = true →
  (∀ cfg rs, (cfg, rs) ∈ routers → Forall (λ r, subject_ok (rq_subject r)) rs) →
  rtc (pool_step b) (start routers, []) (ps, l) →
  ∃ facts, facts_of l subject = Some facts ∧ lifecycle_shape facts.
Proof.
  intros Hocc Hs Hr. eapply group_safe in Hr as (Hok & _); eauto using lo_nil.
  destruct (log_ok_facts _ _ subject Hok) as (facts & ? & ? & _). eauto using facts_legal_shape.
Qed.

(** C2: on a broker that answers no membership append as a duplicate, the facts of
    every subject carry the sequence numbers 1, 2, 3, ... in stream order, without
    gap or repetition, whichever processes wrote them and however many appends
    conflict, fail or lose their acknowledgement. *)
Theorem log_dense (b : broker) routers ps l subject :
  occ_first b = true → nodup b = true →
  (∀ cfg rs, (cfg, rs) ∈ routers → Forall (λ r, subject_ok (rq_subject r)) rs) →
  rtc (pool_step b) (start routers, []) (ps, l) →
  ∃ facts, facts_of l subject = Some facts ∧
    ev_Sequence <$> facts = (λ n, Z.of_nat (S n)) <$> seq 0 (length facts).
Proof.
  intros Hocc Hq Hs Hr. eapply group_safe in Hr as (Hok & _); eauto using lo_nil.
  destruct (log_ok_facts _ _ subject Hok) as (facts & Hf & _ & Hd). exists facts. split; [done|].
  by apply dense_sequences, Hd.
Qed.


(** C23: every message of the stream is well typed: it decodes to an event of the
    tenant its subject names, with the schema, the event, command and cause ids set, a
    payload hash of 64 hexadecimal digits (SHA-256 yields 32 bytes), and with exactly
    the fields of its kind, membership or ordinary. *)
Theorem log_typed (b : broker) routers ps l e :
  (∀ x, String.length (sha256 x) = 32) → occ_first b = true →
  (∀ cfg rs, (cfg, rs) ∈ routers → Forall (λ r, subject_ok (rq_subject r)) rs) →
  rtc (pool_step b) (start routers, []) (ps, l) → e ∈ l →
  ∃ t i ev, tok t ∧ tok i ∧ t ≠ "" ∧ i ≠ "" ∧ e_subject e = logSubjectFor t i ∧
    unmarshal_event (e_data e) = Some ev ∧ well_typed t ev.
Proof.
  intros Hsha Hocc Hs Hr (l1 & l2 & Hl)%list_elem_of_split. eapply group_safe in Hr as (_ & Ha & _); eauto using lo_nil.
  destruct (Ha l1 e l2 Hl) as (ev & facts & cfg & rs & r & Hev & _ & _ & _ & Haut); [simpl; lia|].
  destruct Haut as (t & i & u & cmd & Hp & Hsub & _ & _ & Hc & _ & Hw & _).
  apply parseCmdSubject_toks in Hp as (_ & Ht & Hi & _ & Hte & Hie & Hu). exists t, i, ev. split_and!; try done.
  exact (writes_well_typed t u cmd ev Hsha Hu Hc Hw).
Qed.

End Group.

Lemma log_lifecycle_witness :
  ∃ facts, facts_of demo_log (logSubjectFor "acme" "i1") = Some facts ∧ lifecycle_shape facts ∧
    length facts = 6.
Proof.
  destruct (log_lifecycle quiet_broker demo_routers demo_ps demo_log (logSubjectFor "acme" "i1"))
    as (facts & Hf & Hs); [reflexivity|apply demo_subjects|apply demo_reaches|].
  exists facts. split; [done|]. split; [done|]. pose proof (facts_of_length _ _ _ Hf) as ->.
  vm_compute. reflexivity.
Defined.

Lemma log_dense_witness :
  ∃ facts, facts_of demo_log (logSubjectFor "acme" "i1") = Some facts ∧
    ev_Sequence <$> facts = [1; 2; 3; 4; 5; 6]%Z.
Proof.
  destruct (log_dense quiet_broker demo_routers demo_ps demo_log (logSubjectFor "acme" "i1"))
    as (facts & Hf & Hs); [reflexivity|reflexivity|apply demo_subjects|apply demo_reaches|].
  exists facts. split; [done|]. rewrite Hs. pose proof (facts_of_length _ _ _ Hf) as ->.
  vm_compute. reflexivity.
Defined.


Lemma log_typed_witness :
  ∃ e t i ev, demo_log !! 3 = Some e ∧ e_subject e = logSubjectFor t i ∧ unmarshal_event (e_data e) = Some ev ∧ well_typed t ev.
Proof.
  destruct (demo_log !! 3) as [e|] eqn:He; [|by vm_compute in He].
  destruct (log_typed quiet_broker demo_routers demo_ps demo_log e) as (t & i & ev & _ & _ & _ & _ & Hs & Hev & Hw);
    [apply digest_length|reflexivity|apply demo_subjects|apply demo_reaches|by eapply list_elem_of_lookup_2|].
  exists e, t, i, ev. split; [done|]. split; [exact Hs|]. split; [exact Hev|exact Hw].
Defined.

(** Whether no id is used twice, computed. *)
Definition clash_free (rs : list request) : bool :=
  let facts := rs ≫= request_facts in
  forallb (λ x, forallb (λ y, negb (bool_decide (x.1 = y.1 ∧ ev_CommandId x.2 = ev_CommandId y.2 ∧ x.2 ≠ y.2))) facts) facts.

Lemma clash_free_unambiguous rs : clash_free rs = true → unambiguous rs.
Proof.
  unfold clash_free. rewrite forallb_forall. intros H r r' t i c c' Hr Hr' Hc Hc' Hid. apply dec_stable. intros Hne.
  assert (∀ r x, r ∈ rs → x ∈ request_facts r → In x (rs ≫= request_facts)) as Hin.
  { intros r0 x Hr0 Hx. apply list_elem_of_In, list_elem_of_bind. by exists r0. }
  specialize (H _ (Hin _ _ Hr Hc)). rewrite forallb_forall in H. specialize (H _ (Hin _ _ Hr' Hc')).
  apply negb_true_iff, bool_decide_eq_false in H. by destruct H.
Qed.

Lemma demo_unambiguous : unambiguous (requests demo_routers).
Proof. apply clash_free_unambiguous. vm_compute. reflexivity. Qed.

