(* ===== verification/RouterOps.v ===== *)
(** Single operations of the router: the deduplication cache, the cache of
    interactions, payload hashes, and what a retry of a committed command does
    before and after a restart. *)

From S2P Require Import Prelude Bytes Wire Identity Subjects Membership.
From S2P Require Import LogStore Lifecycle RouterState Router MemStore.

(** * Programs that append nothing *)

(** [p] makes no append and ends in a result that satisfies [P], when replays of
    [subject] answer [replay] or fail. *)
Fixpoint reads_only {A} (subject : string) (replay : replay_res) (P : A → Prop) (p : prog A) : Prop :=
  match p with
  | Ret a => P a
  | DoAppend _ _ _ _ _ => False
  | DoReplay s k => s = subject ∧ reads_only subject replay P (k replay)
  | DoNow k => ∀ t, reads_only subject replay P (k t)
  | DoID k => ∀ i, reads_only subject replay P (k i)
  end.

(** * The cache of interactions *)

Lemma lru_scan_Some s kvs best :
  (kvs ≠ [] ∨ is_Some best) → ∃ k t, lru_scan s kvs best = Some (k, t) ∧
    ((best = Some (k, t) ∧ ∀ k' loc', (k', loc') ∈ kvs → (t <= lastUsedOf s loc')%Z) ∨
     (∃ loc, (k, loc) ∈ kvs ∧ lastUsedOf s loc = t ∧
       (∀ k' loc', (k', loc') ∈ kvs → (t <= lastUsedOf s loc')%Z))) ∧
    (∀ k0 t0, best = Some (k0, t0) → (t <= t0)%Z).
Proof.
  revert best. induction kvs as [|[k loc] kvs IH]; intros best Hne; simpl.
  - destruct Hne as [?|[[k t] ->]]; [done|]. exists k, t. split; [done|]. split.
    + left. split; [done|]. by intros ?? ?%not_elem_of_nil.
    + intros ?? [= -> ->]. lia.
  - set (best' := match best with None => _ | Some _ => _ end).
    assert (∃ k1 t1, best' = Some (k1, t1) ∧ (t1 <= lastUsedOf s loc)%Z ∧
      (best' = best ∨ (k1 = k ∧ t1 = lastUsedOf s loc)) ∧ ∀ k0 t0, best = Some (k0, t0) → (t1 <= t0)%Z)
      as (k1 & t1 & Hb & Hle & Hor & Hmono).
    { subst best'. destruct best as [[k0 t0]|].
      - destruct (Z.ltb_spec (lastUsedOf s loc) t0); do 2 eexists; (split; [done|]);
          (split; [lia|]); (split; [auto|]); intros ?? [= -> ->]; lia.
      - exists k, (lastUsedOf s loc). split_and!; auto; [lia|done]. }
    destruct (IH best') as (k2 & t2 & Hs & Hcase & Hm); [right; rewrite Hb; by eexists|].
    specialize (Hm _ _ Hb). exists k2, t2. split; [done|]. split.
    + assert (∀ k' loc', (k', loc') ∈ (k, loc) :: kvs → (t2 <= lastUsedOf s loc')%Z) as Hall.
      { intros k' loc' [[= -> ->]|Hin]%elem_of_cons; [lia|].
        destruct Hcase as [[_ H]|(? & _ & _ & H)]; eauto. }
      destruct Hcase as [[He _]|(l & Hl & Ht & _)].
      * rewrite Hb in He. injection He as -> ->. destruct Hor as [He|[-> ->]].
        -- left. split; [congruence|done].
        -- right. exists loc. split_and!; [by left|done|done].
      * right. exists l. split_and!; [by right|done|done].
    + intros k0 t0 He. specialize (Hmono _ _ He). lia.
Qed.

Section Prune.
Context (order : list (string * nat) → list (string * nat)).
Hypothesis order_perm : ∀ kvs, order kvs ≡ₚ kvs.

Lemma lru_key s :
  inter s ≠ ∅ → ∃ k t loc, lru_scan s (order (map_to_list (inter s))) None = Some (k, t) ∧
    inter s !! k = Some loc ∧ lastUsedOf s loc = t ∧
    ∀ k' loc', inter s !! k' = Some loc' → (t <= lastUsedOf s loc')%Z.
Proof.
  intros Hne. destruct (lru_scan_Some s (order (map_to_list (inter s))) None) as (k & t & Hs & Hc & _).
  { left. intros He. apply Hne, map_to_list_empty_iff. apply Permutation_nil. by rewrite <-He, order_perm. }
  destruct Hc as [[? _]|(loc & Hin & Ht & Hall)]; [done|].
  exists k, t, loc. split; [done|]. setoid_rewrite order_perm in Hin. setoid_rewrite order_perm in Hall.
  split_and!; [by apply elem_of_map_to_list|done|]. intros k' loc' Hk.
  apply (Hall k'). by apply elem_of_map_to_list.
Qed.

(** A key whose object is strictly fresher than every other survives a prune
    to a positive bound, and the bound holds afterwards. *)
Lemma prune_lru_spec fuel max s key loc :
  size (inter s) ≤ fuel → (0 < max)%Z → inter s !! key = Some loc →
  (∀ k' loc', inter s !! k' = Some loc' → k' ≠ key → (lastUsedOf s loc' < lastUsedOf s loc)%Z) →
  let s' := prune_lru order fuel max s in
  (Z.of_nat (size (inter s')) <= max)%Z ∧ inter s' !! key = Some loc ∧ inter s' ⊆ inter s.
Proof.
  revert s. induction fuel as [|fuel IH]; intros s Hsize Hmax Hkey Hfresh; simpl.
  { assert (inter s = ∅) as He by (apply map_size_empty_iff; lia). by rewrite He, lookup_empty in Hkey. }
  case_decide as Hd; [|split_and!; try done; lia].
  destruct (lru_key s) as (k & t & lk & -> & Hk & Ht & Hmin).
  { intros He. by rewrite He, lookup_empty in Hkey. }
  assert (k ≠ key) as Hne.
  { intros ->. simplify_eq.
    assert (∃ k', is_Some (inter s !! k') ∧ k' ≠ key) as (k' & [l' Hl'] & Hne').
    { destruct (decide (delete key (inter s) = ∅)) as [He|He].
      - assert (size (inter s) = 1); [|lia].
        rewrite <-(insert_delete_id (inter s) key loc), He by done. by rewrite map_size_insert, lookup_empty, map_size_empty.
      - apply map_choose in He as (k' & x & Hx). apply lookup_delete_Some in Hx as [? ?]. eauto. }
    specialize (Hfresh _ _ Hl' Hne'). specialize (Hmin _ _ Hl'). lia. }
  set (s1 := mkRst (delete k (inter s)) (heap s) (next_loc s)).
  destruct (IH s1) as (Hb & Hl & Hsub); simpl; try done.
  - rewrite map_size_delete, Hk. lia.
  - by rewrite lookup_delete_ne.
  - intros k' l' [_ Hk']%lookup_delete_Some ?. apply (Hfresh k' l'); done.
  - split_and!; try done. etrans; [done|]. apply delete_subseteq.
Qed.

(** the size loop of [pruneLocked] leaves at most [maxInter] interactions in
    the cache whatever the iteration order of the map, drops nothing when there
    is room, and keeps the key whose object is strictly fresher than all others,
    the one [getState] has just inserted. *)
Theorem prune_bounds_cache max s key loc :
  (0 < max)%Z → inter s !! key = Some loc →
  (∀ k' loc', inter s !! k' = Some loc' → k' ≠ key → (lastUsedOf s loc' < lastUsedOf s loc)%Z) →
  let s' := prune_lru order (size (inter s)) max s in
  (Z.of_nat (size (inter s')) <= max)%Z ∧ inter s' !! key = Some loc ∧ inter s' ⊆ inter s ∧
  ((Z.of_nat (size (inter s)) <= max)%Z → inter s' = inter s).
Proof.
  intros Hmax Hkey Hfresh s'.
  destruct (prune_lru_spec (size (inter s)) max s key loc) as (? & ? & ?); try done.
  split_and!; try done. intros Hroom. subst s'. generalize (size (inter s)) at 1.
  intros [|fuel]; [done|]. simpl. by rewrite decide_False by lia.
Qed.
End Prune.

Definition cache_two : rst :=
  insert_state "t/b" (set_lastUsed 9 (rebuild_state 4 [] 0))
    (insert_state "t/a" (set_lastUsed 3 (rebuild_state 4 [] 0)) emptyRouter).

Lemma prune_bounds_cache_witness :
  let s' := prune_lru (λ l, l) (size (inter cache_two)) 1 cache_two in
  (Z.of_nat (size (inter s')) <= 1)%Z ∧ inter s' !! "t/b" = Some 1 ∧ inter s' ⊆ inter cache_two ∧
  ((Z.of_nat (size (inter cache_two)) <= 1)%Z → inter s' = inter cache_two).
Proof.
  apply (prune_bounds_cache (λ l, l) (λ l, Permutation_refl l) 1 cache_two "t/b" 1).
  - lia.
  - reflexivity.
  - intros k' loc' Hk Hne. unfold cache_two in Hk. simpl in Hk.
    apply lookup_insert_Some in Hk as [[? _]|[_ Hk]]; [congruence|].
    apply lookup_insert_Some in Hk as [[_ <-]|[_ Hk]]; [by vm_compute|by rewrite lookup_empty in Hk].
Defined.

(** * The deduplication cache *)

(** [putResult] keeps the cache a bounded FIFO: ids and results stay in
    step, the bound holds, the entry just stored is readable, what remains is a
    suffix of the insertion order with its results unchanged, and the eviction
    loop never indexes an empty slice (the panic the code does not guard). *)
Theorem putResult_fifo id sr max st :
  state_wf st → results_bounded max (st_results st) →
  let st' := putResult id sr max st in
  let order := match st_results st !! id with
               | Some _ => st_resultOrder st | None => st_resultOrder st ++ [id] end in
  state_wf st' ∧ results_bounded max (st_results st') ∧ st_results st' !! id = Some sr ∧
  st_resultOrder st' `suffix_of` order ∧
  (∀ id', id' ≠ id → id' ∈ st_resultOrder st' → st_results st' !! id' = st_results st !! id') ∧
  evict_panics max order (<[id := sr]> (st_results st)) = false.
Proof.
  intros Hwf Hb. pose proof (putResult_lookup id sr max st Hwf Hb) as Hl. unfold putResult in *.
  pose proof (results_wf_put id sr _ _ Hwf) as Hput.
  destruct (evict_results _ _ _) as [o r] eqn:E. simpl in *.
  apply evict_results_spec in E as (? & ? & ? & Hkeep & ?); [|done].
  split_and!; try done. intros id' Hne Hin. by rewrite Hkeep, lookup_insert_ne.
Qed.

Lemma putResult_fifo_witness :
  let st := putResult "b" (mkStored "h2" (accepted "b")) 2
              (putResult "a" (mkStored "h1" (accepted "a")) 2 (rebuild_state 2 [] 0)) in
  let st' := putResult "c" (mkStored "h3" (accepted "c")) 2 st in
  st_resultOrder st' = ["b"; "c"] ∧
  results_bounded 2 (st_results st') ∧ st_results st' !! "c" = Some (mkStored "h3" (accepted "c")).
Proof.
  intros st st'.
  assert (state_wf (rebuild_state 2 [] 0)) as H0.
  { split; [constructor|]. intros x. simpl. rewrite lookup_empty.
    split; [by intros ?%not_elem_of_nil|by intros [? ?]]. }
  assert (state_wf st) as Hwf by (by repeat apply putResult_wf).
  assert (results_bounded 2 (st_results st)) as Hb by (apply putResult_bounded, putResult_wf, H0).
  destruct (putResult_fifo "c" (mkStored "h3" (accepted "c")) 2 st Hwf Hb) as (_ & H2 & H3 & _).
  split; [vm_compute; reflexivity|]. split; [exact H2|exact H3].
Defined.

(** * Payload hashes *)

Section Hash.
Context {EX : Externals}.

(** two commands have the same [hashPayload] only when they agree on every
    hashed field, or SHA-256 itself collides: the length framing makes the hashed
    byte string determine the fields, whatever bytes they hold. *)
Theorem hashPayload_binds c c' :
  Forall len_ok (payload_parts c) → Forall len_ok (payload_parts c') →
  hashPayload c = hashPayload c' →
  payload_parts c = payload_parts c' ∨
  ∃ x y, x ≠ y ∧ sha256 x = sha256 y.
Proof.
  intros Hc Hc' Hh. apply hex_encode_inj in Hh.
  destruct (decide (put_parts (payload_parts c) = put_parts (payload_parts c'))) as [He|Hne].
  - left. by apply put_parts_inj.
  - right. eauto.
Qed.
End Hash.

Lemma hashPayload_binds_witness :
  let c := mkCommand "1" "t" "a" "m" "" "" "x" in
  let c' := mkCommand "2" "t" "a" "m" "" "" "x" in
  payload_parts c = payload_parts c' ∨ ∃ x y, x ≠ y ∧ sha256 x = sha256 y.
Proof.
  intros c c'. apply (hashPayload_binds c c').
  - repeat (apply Forall_cons; split); try apply Forall_nil_2; by vm_compute.
  - repeat (apply Forall_cons; split); try apply Forall_nil_2; by vm_compute.
  - reflexivity.
Defined.

(** * Retries *)

Lemma reads_only_bind {A B} subject replay (P : B → Prop) (p : prog A) (f : A → prog B) :
  reads_only subject replay (λ a, reads_only subject replay P (f a)) p →
  reads_only subject replay P (prog_bind p f).
Proof. induction p as [a|s d i x k IH|s k IH|k IH|k IH]; simpl; naive_solver. Qed.

(** With room in the cache [putResult] is an insertion. *)
Lemma putResult_room id sr max st :
  ((0 < max)%Z → (Z.of_nat (size (<[id := sr]> (st_results st))) <= max)%Z) →
  st_results (putResult id sr max st) = <[id := sr]> (st_results st).
Proof.
  intros Hroom. unfold putResult. destruct (st_results st !! id); [destruct (st_resultOrder st)|];
    [done| |destruct (st_resultOrder st)]; simpl; by rewrite decide_False by lia.
Qed.

(** The fact a rebuilt cache answers a command id with: the last one that has it. *)
Definition fact_of (facts : list Event) (cid : string) : option Event :=
  last (filter (λ e, ev_CommandId e = cid) facts).

Lemma fact_of_snoc facts e cid :
  fact_of (facts ++ [e]) cid = if decide (ev_CommandId e = cid) then Some e else fact_of facts cid.
Proof.
  unfold fact_of. rewrite filter_app, filter_cons, filter_nil. case_decide; [by rewrite last_snoc|].
  by rewrite app_nil_r.
Qed.

Lemma rebuild_step_results max st e :
  ((0 < max)%Z → (Z.of_nat (S (size (st_results st))) <= max)%Z) →
  st_results (rebuild_step max st e) =
    if decide (ev_CommandId e = "") then st_results st
    else <[ev_CommandId e := mkStored (ev_PayloadHash e) (accepted (ev_CommandId e))]> (st_results st).
Proof.
  intros Hroom.
  assert (st_results (rebuild_step max st e) = st_results (rebuild_result max e (rebuild_status st e))) as ->.
  { unfold rebuild_step, rebuild_parent. by case_match. }
  unfold rebuild_result. case_decide; [done|]. etrans; [apply putResult_room|done]. intros Hm. simpl.
  specialize (Hroom Hm). rewrite map_size_insert. destruct (st_results st !! _); simpl; lia.
Qed.

(** A rebuild that has room for the whole log answers every command id. *)
Lemma rebuild_results max facts last :
  ((0 < max)%Z → (Z.of_nat (length facts) <= max)%Z) →
  size (st_results (rebuild_state max facts last)) ≤ length facts ∧
  ∀ cid, cid ≠ "" → st_results (rebuild_state max facts last) !! cid =
    (λ e, mkStored (ev_PayloadHash e) (accepted cid)) <$> fact_of facts cid.
Proof.
  unfold rebuild_state. generalize (Some (FoldParticipation facts)) as part. intros part.
  induction facts as [|e facts IH] using rev_ind; intros Hroom.
  { split; [done|]. intros. simpl. by rewrite lookup_empty. }
  rewrite length_app in Hroom. simpl in Hroom.
  destruct IH as [Hsize Hl]; [intros Hm; specialize (Hroom Hm); lia|].
  rewrite foldl_snoc, length_app. set (st := foldl _ _ facts) in *.
  rewrite rebuild_step_results by (intros Hm; specialize (Hroom Hm); lia). split.
  - case_decide; simpl; [lia|]. rewrite map_size_insert. destruct (st_results st !! _); simpl; lia.
  - intros cid Hne. rewrite fact_of_snoc. repeat case_decide; subst; try done; try by apply Hl.
    + by rewrite lookup_insert_eq.
    + rewrite lookup_insert_ne by done. by apply Hl.
Qed.

Section Retry.
Context {EC : EventCodec} {EX : Externals} (cfg : RouterConfig).

(** An ordinary command that passes the checks before the state is read. *)
Definition ordinary (id : Identity) (subject data : string) (t i u : string) (cmd : Command) : Prop :=
  admission cfg id subject data = inr (t, i, u, cmd) ∧
  isParticipationCommand (cmd_Type cmd) = false ∧ isParticipationFact (cmd_Type cmd) = false ∧
  isAuthenticated id && negb (bool_decide (RoleOf id = RoleTrustedBackend))
    && negb (IsSubscriberCapability (id_Capability id)) = false.

Lemma ordinary_handle id subject data t i u cmd :
  ordinary id subject data t i u cmd →
  HandleCommand cfg id subject data = appendCommand cfg t i u (gateParticipation id cmd) cmd.
Proof. intros (Ha & Hp & Hf & Hc). unfold HandleCommand. by rewrite Ha, Hp, Hf, Hc. Qed.

(** The answer a known command id gets. *)
Definition known_answer (cmd : Command) (ph : string) : CommandResult :=
  if decide (ph = hashPayload cmd) then accepted (cmd_CommandId cmd)
  else rejected (cmd_CommandId cmd) conflict_reason.

Lemma append_loop_known t i u gate loc cmd n st ph s subject replay :
  ph ≠ "" → st_results st !! cmd_CommandId cmd = Some (mkStored ph (accepted (cmd_CommandId cmd))) →
  reads_only subject replay (λ x, x.1 = known_answer cmd ph)
    (append_loop cfg t i u gate loc cmd n st s).
Proof.
  intros Hne Hst.
  assert (check_results st (cmd_CommandId cmd) (hashPayload cmd) = Some (known_answer cmd ph)) as Hchk.
  { unfold check_results, known_answer. rewrite Hst. simpl. rewrite decide_False by done.
    repeat case_decide; done. }
  destruct n; simpl; by rewrite Hchk.
Qed.

(** a retry of a command whose result is cached is answered from the cache:
    the same acceptance when the payload is the same, a conflict when the id is
    reused with another payload; in both cases nothing is appended and the log is
    not read, also when the author has since left the interaction. *)
Theorem retry_cached id subject data t i u cmd s loc st ph :
  ordinary id subject data t i u cmd →
  inter s !! stateKey t i = Some loc → heap s !! loc = Some st → st_poisoned st = false →
  st_results st !! cmd_CommandId cmd = Some (mkStored ph (accepted (cmd_CommandId cmd))) → ph ≠ "" →
  ∀ replay, reads_only "" replay (λ x, x.1 = known_answer cmd ph) (HandleCommand cfg id subject data s).
Proof.
  intros Hord Hk Hst Hnp Hres Hne replay. rewrite (ordinary_handle _ _ _ _ _ _ _ Hord).
  unfold appendCommand, getState, mbind, M_bind, get_state, op_now. simpl. rewrite Hk. simpl.
  intros now. rewrite Hst. simpl. rewrite lookup_insert_eq. simpl. rewrite Hnp.
  by apply append_loop_known.
Qed.

Lemma pruneLocked_heap subject replay s (P : unit * rst → Prop) :
  (∀ m, P (tt, mkRst m (heap s) (next_loc s))) → reads_only subject replay P (pruneLocked cfg s).
Proof.
  intros HP. unfold pruneLocked, mbind, M_bind.
  assert (∀ fuel s1, heap s1 = heap s → next_loc s1 = next_loc s →
    ∃ m, prune_lru range_order fuel (maxInter cfg) s1 = mkRst m (heap s) (next_loc s)) as Hlru.
  { induction fuel as [|fuel IH]; intros s1 Hh Hn; simpl.
    - exists (inter s1). rewrite <-Hh, <-Hn. by destruct s1.
    - repeat case_match; try (exists (inter s1); rewrite <-Hh, <-Hn; by destruct s1). by apply IH. }
  case_decide; simpl; intros;
    match goal with |- P (_, prune_lru _ ?n _ ?s1) => by destruct (Hlru n s1) as [m ->] end.
Qed.

(** C35: idempotence across restarts. A fresh process that replays a log holding
    a fact of an ordinary command, with its payload hash, answers a retry with the
    acceptance it had, and a reuse of the id for another payload with a conflict,
    appending nothing, as long as the deduplication cache has room for the log (it
    is unbounded or the log is no longer than [maxResults]). *)
Theorem retry_after_restart id subject data t i u cmd facts last e :
  ordinary id subject data t i u cmd →
  fact_of facts (cmd_CommandId cmd) = Some e → ev_PayloadHash e ≠ "" →
  ((0 < maxResults cfg)%Z → (Z.of_nat (length facts) <= maxResults cfg)%Z) →
  reads_only (logSubjectFor t i) (RepOK facts last) (λ x, x.1 = known_answer cmd (ev_PayloadHash e))
    (HandleCommand cfg id subject data emptyRouter).
Proof.
  intros Hord Hfact Hne Hroom. rewrite (ordinary_handle _ _ _ _ _ _ _ Hord).
  assert (cmd_CommandId cmd ≠ "") as Hcid.
  { destruct Hord as (Ha & _). unfold admission in Ha.
    repeat (case_match || case_decide); simplify_eq; done. }
  unfold appendCommand, getState, mbind, M_bind, get_state. simpl. split; [done|]. intros now.
  apply reads_only_bind. simpl. apply reads_only_bind, pruneLocked_heap. intros m. simpl.
  rewrite lookup_insert_eq. simpl.
  assert (st_poisoned (rebuild_state (maxResults cfg) facts last) = false) as Hnp.
  { clear. unfold rebuild_state. generalize (Some (FoldParticipation facts)) as part. intros part.
    induction facts as [|e facts IH] using rev_ind; [done|]. rewrite foldl_snoc.
    unfold rebuild_step, rebuild_parent, rebuild_result.
    repeat case_match; simpl; try done;
      (rewrite (proj2 (proj2 (proj2 (proj2 (proj2 (putResult_fields _ _ _ _)))))); done). }
  rewrite Hnp. apply append_loop_known; [done|]. simpl.
  destruct (rebuild_results (maxResults cfg) facts last Hroom) as [_ ->]; [|done]. by rewrite Hfact.
Qed.
End Retry.

Definition retry_cmd : Command := mkCommand "c1" "acme" "ann" "message.posted" "" "" "hi".
Definition retry_subject : string := "tenant.acme.interaction.i1.cmd.ann".
Definition retry_fact : Event := command_event "acme" (hashPayload retry_cmd) "e1" 0 1 retry_cmd.
Definition retry_id : Identity := subscription_identity false ∅ retry_subject.

Lemma retry_ordinary cfg :
  ordinary cfg retry_id retry_subject (command_data retry_cmd) "acme" "i1" "ann" retry_cmd.
Proof. split_and!; reflexivity. Qed.

Definition retry_state : interactionState :=
  putResult "c1" (mkStored (hashPayload retry_cmd) (accepted "c1")) 8 (rebuild_state 8 [] 0).
Definition retry_router : rst := insert_state (stateKey "acme" "i1") retry_state emptyRouter.

Lemma retry_cached_witness :
  known_answer retry_cmd (hashPayload retry_cmd) = accepted "c1" ∧
  reads_only "" RepErr (λ x, x.1 = known_answer retry_cmd (hashPayload retry_cmd))
    (HandleCommand defaultConfig retry_id retry_subject (command_data retry_cmd) retry_router).
Proof.
  split; [vm_compute; reflexivity|].
  apply (retry_cached defaultConfig retry_id retry_subject (command_data retry_cmd) "acme" "i1" "ann"
    retry_cmd retry_router 0 retry_state (hashPayload retry_cmd)).
  - apply retry_ordinary.
  - vm_compute. reflexivity.
  - vm_compute. reflexivity.
  - vm_compute. reflexivity.
  - vm_compute. reflexivity.
  - by vm_compute.
Defined.

Lemma retry_after_restart_witness :
  known_answer retry_cmd (ev_PayloadHash retry_fact) = accepted "c1" ∧
  reads_only (logSubjectFor "acme" "i1") (RepOK [retry_fact] 1)
    (λ x, x.1 = known_answer retry_cmd (ev_PayloadHash retry_fact))
    (HandleCommand defaultConfig retry_id retry_subject (command_data retry_cmd) emptyRouter).
Proof.
  split; [vm_compute; reflexivity|].
  apply (retry_after_restart defaultConfig retry_id retry_subject (command_data retry_cmd) "acme" "i1"
    "ann" retry_cmd [retry_fact] 1 retry_fact).
  - apply retry_ordinary.
  - vm_compute. reflexivity.
  - by vm_compute.
  - intros _. by vm_compute.
Defined.
