(* ===== verification/RouterFindings.v ===== *)
(** Runs of the router that its own comments do not foresee, evaluated on the
    in-memory store. Each marks the limit of a theorem: the hypotheses [nodup],
    [noloss] and [subject_ok], the room of the deduplication cache, the strictly freshest
    entry of a prune. *)

From S2P Require Import Prelude Bytes Wire Identity Subjects Membership.
From S2P Require Import LogStore Lifecycle RouterState Router StreamInvariant RouterTraffic MemStore.

Definition desk : gset string := {["desk"]}.
Definition msg_to (t i who cid actor type data : string) : request :=
  on_message false desk ("tenant." +:+ t +:+ ".interaction." +:+ i +:+ ".cmd." +:+ who)
    (command_data (mkCommand cid t actor type "" "" data)).
Definition msg (who cid type data : string) : request := msg_to "acme" "i1" who cid who type data.

(** Statuses answered and (type, actor, sequence) of the facts left on a subject. *)
Definition run_on (cfg : RouterConfig) (rs : list request) (h : host log) :=
  exec (serve cfg rs emptyRouter) h.
Definition answers (x : (list CommandResult * rst) * host log) : list Status :=
  res_Status <$> x.1.1.
Definition trace (l : log) (subject : string) : list (string * string * Z) :=
  match facts_of l subject with
  | Some facts => (λ e, (ev_EventType e, ev_ActorId e, ev_Sequence e)) <$> facts
  | None => []
  end.

Definition small_cache : RouterConfig := WithStateLimits 0 1 0 defaultConfig.
Definition assign_ann : string := pd_data (mkPD "ann" "" "" "").

(** * A duplicate participation append *)

(** What the fact of a membership command leaves in the object when its append is
    answered as a duplicate. *)
Definition after_duplicate (cfg : RouterConfig) (ev : Event) (fcmd : Command) (cseq : N) (st : interactionState) : interactionState :=
  putResult (cmd_CommandId fcmd) (mkStored (hashPayload fcmd) (accepted (cmd_CommandId fcmd))) (maxResults cfg)
    (apply_part ev (advance cseq (cmd_Type fcmd) st)).

#[local] Arguments marshal_event : simpl never.
#[local] Arguments unmarshal_event : simpl never.

Lemma fact_loop_duplicate cfg t i by_ parentID pd loc fcmd n st s h k e :
  check_fact_results st (cmd_CommandId fcmd) (hashPayload fcmd) = None →
  legalTransition (st_status st) (cmd_Type fcmd) = true →
  last_subj_seq (h_store h) (logSubjectFor t i) = st_streamSeq st →
  list_find (λ e, e_dedup e = dedupIDFor t i (cmd_CommandId fcmd)) (h_store h) = Some (k, e) →
  ∃ ev s1 h1, exec (fact_loop cfg t i by_ parentID pd loc fcmd n st s) h = ((accepted (cmd_CommandId fcmd), s1), h1) ∧
    h_store h1 = h_store h ∧ heap s1 !! loc = Some (after_duplicate cfg ev fcmd (e_seq e) st).
Proof.
  intros Hchk Hleg Hlast Hdup.
  destruct n; simpl; rewrite Hchk, Hleg; simpl; unfold mem_append; rewrite decide_True, Hdup by done; simpl;
    case_decide; do 3 eexists; (split; [reflexivity|]); (split; [done|]); simpl; apply lookup_insert_eq.
Qed.

Lemma append_loop_commit cfg t i suffix gate loc cmd m st s h facts :
  check_results st (cmd_CommandId cmd) (hashPayload cmd) = None → gate_closed gate st suffix = false →
  legalTransition (st_status st) (cmd_Type cmd) = true →
  last_subj_seq (h_store h) (logSubjectFor t i) = st_streamSeq st → facts_of (h_store h) (logSubjectFor t i) = Some facts →
  list_find (λ e, e_dedup e = dedupIDFor t i (cmd_CommandId cmd)) (h_store h) = None →
  ∃ ev s2 h2, exec (append_loop cfg t i suffix gate loc cmd m st s) h = ((accepted (cmd_CommandId cmd), s2), h2) ∧
    facts_of (h_store h2) (logSubjectFor t i) = Some (facts ++ [ev]) ∧ ev_Sequence ev = i64 (st_seq st + 1) ∧
    ev_CommandId ev = cmd_CommandId cmd.
Proof.
  intros Hchk Hgate Hleg Hlast Hf Hnew.
  destruct m; simpl; rewrite Hchk, Hgate, Hleg; simpl; unfold mem_append; rewrite decide_True, Hnew by done; simpl;
    case_decide; do 3 eexists; (split; [reflexivity|]); simpl; rewrite facts_of_snoc, decide_True, Hf by done;
    cbn [e_data option_bind mbind]; rewrite unmarshal_marshal_event; done.
Qed.

(** C38: the append of a membership fact ignores the broker's duplicate flag. Take
    any object that is up to date with a log of [n] facts, and a membership fact whose
    cached result is gone while the broker still knows it, as the subject's last
    message: its retry is accepted, nothing is written, yet the object's sequence
    advances, so the next ordinary fact it writes is numbered [n + 2] behind [n] facts. *)
Theorem duplicate_membership_skips_sequence cfg t i by_ parentID pd loc fcmd n st s h facts k e :
  facts_of (h_store h) (logSubjectFor t i) = Some facts → (Z.of_nat (length facts) + 2 < two63)%Z →
  st_seq st = Z.of_nat (length facts) → st_streamSeq st = last_subj_seq (h_store h) (logSubjectFor t i) →
  check_fact_results st (cmd_CommandId fcmd) (hashPayload fcmd) = None →
  isParticipationFact (cmd_Type fcmd) = true → legalTransition (st_status st) (cmd_Type fcmd) = true →
  list_find (λ e, e_dedup e = dedupIDFor t i (cmd_CommandId fcmd)) (h_store h) = Some (k, e) →
  last (subj_msgs (h_store h) (logSubjectFor t i)) = Some e →
  ∃ s1 h1 st1, exec (fact_loop cfg t i by_ parentID pd loc fcmd n st s) h = ((accepted (cmd_CommandId fcmd), s1), h1) ∧
    h_store h1 = h_store h ∧ heap s1 !! loc = Some st1 ∧
    ∀ cmd suffix gate m,
      check_results st1 (cmd_CommandId cmd) (hashPayload cmd) = None → gate_closed gate st1 suffix = false →
      legalTransition (st_status st1) (cmd_Type cmd) = true →
      list_find (λ e, e_dedup e = dedupIDFor t i (cmd_CommandId cmd)) (h_store h1) = None →
      ∃ ev s2 h2, exec (append_loop cfg t i suffix gate loc cmd m st1 s1) h1 = ((accepted (cmd_CommandId cmd), s2), h2) ∧
        facts_of (h_store h2) (logSubjectFor t i) = Some (facts ++ [ev]) ∧ ev_CommandId ev = cmd_CommandId cmd ∧
        ev_Sequence ev = (Z.of_nat (length facts) + 2)%Z.
Proof.
  intros Hf Hsmall Hseq Hss Hchk Hpart Hleg Hdup Hlast.
  destruct (fact_loop_duplicate cfg t i by_ parentID pd loc fcmd n st s h k e) as (ev & s1 & h1 & Hex & Hst & Hheap); try done.
  do 3 eexists. split; [exact Hex|]. split; [done|]. split; [exact Hheap|]. intros cmd suffix gate m Hc Hg Hl Hn.
  destruct (putResult_fields (cmd_CommandId fcmd) (mkStored (hashPayload fcmd) (accepted (cmd_CommandId fcmd))) (maxResults cfg)
    (apply_part ev (advance (e_seq e) (cmd_Type fcmd) st))) as (Hs1 & Hs2 & _).
  destruct (append_loop_commit cfg t i suffix gate loc cmd m (after_duplicate cfg ev fcmd (e_seq e) st) s1 h1 facts)
    as (ev2 & s2 & h2 & Hex2 & Hf2 & Hq & Hid); try done.
  - unfold after_duplicate. rewrite Hs2, Hst. simpl. unfold last_subj_seq. by rewrite Hlast.
  - by rewrite Hst.
  - exists ev2, s2, h2. split_and!; try done. rewrite Hq. unfold after_duplicate. rewrite Hs1. simpl. rewrite Hseq.
    rewrite !i64_id; [lia|..]; unfold in_i64, two63 in *; rewrite ?i64_id; unfold in_i64, two63; lia.
Qed.

(** It happens: with room for one cached result, a rejected command evicts that of an
    assignment whose retry then skips a number. *)
Example skipped_sequence :
  let rs := [msg "desk" "c1" "interaction.started" ""; msg "desk" "c2" "participant.assign" assign_ann;
             msg "desk" "c3" "interaction.started" ""; msg "desk" "c2" "participant.assign" assign_ann;
             msg "ann" "c4" "message.posted" "hi"] in
  let x := run_on small_cache rs (mkHost [] 0 0) in
  answers x = [STATUS_ACCEPTED; STATUS_ACCEPTED; STATUS_REJECTED; STATUS_ACCEPTED; STATUS_ACCEPTED] ∧
  trace (h_store x.2) (logSubjectFor "acme" "i1") =
    [("interaction.started", "desk", 1%Z); ("participant.joined", "ann", 2%Z);
     ("message.posted", "ann", 4%Z)].
Proof. by vm_compute. Qed.

(** The object and the host of that run before the retry. *)
Definition skip_before := run_on small_cache
  [msg "desk" "c1" "interaction.started" ""; msg "desk" "c2" "participant.assign" assign_ann;
   msg "desk" "c3" "interaction.started" ""] (mkHost [] 0 0).
Definition skip_state : interactionState := default (rebuild_state 0 [] 0) (heap skip_before.1.2 !! 0).
Definition skip_fact : Command := mkCommand (subID "c2" ("participant.joined", "ann")) "acme" "ann" "participant.joined" "" "" "".
Definition skip_entry : entry := default (mkEntry "" 0 "" "") (h_store skip_before.2 !! 1).
Definition skip_facts : list Event := default [] (facts_of (h_store skip_before.2) (logSubjectFor "acme" "i1")).

Lemma duplicate_membership_skips_sequence_witness :
  length skip_facts = 2 ∧
  ∃ s1 h1 st1, exec (fact_loop small_cache "acme" "i1" "desk" "c2" (mkPD "ann" "" "" "") 0 skip_fact 32 skip_state skip_before.1.2)
      skip_before.2 = ((accepted (cmd_CommandId skip_fact), s1), h1) ∧ h_store h1 = h_store skip_before.2 ∧ heap s1 !! 0 = Some st1.
Proof.
  split; [vm_compute; reflexivity|].
  destruct (duplicate_membership_skips_sequence small_cache "acme" "i1" "desk" "c2" (mkPD "ann" "" "" "") 0 skip_fact 32
    skip_state skip_before.1.2 skip_before.2 skip_facts 1 skip_entry) as (s1 & h1 & st1 & H1 & H2 & H3 & _);
    [vm_compute; reflexivity..|]. exists s1, h1, st1. exact (conj H1 (conj H2 H3)).
Defined.

(** * A lost acknowledgement *)

(** A store in front of the in-memory one: after an append, the next item of the
    script says whether the acknowledgement is lost and which messages another
    process serves before the caller goes on. *)
Record scripted := mkScripted { sc_log : log; sc_script : list (bool * list request) }.

Definition sc_append (s d i : string) (x : N) (st : scripted) : append_res * scripted :=
  let '(r, l) := mem_append s d i x (sc_log st) in
  match sc_script st with
  | [] => (r, mkScripted l [])
  | (lost, others) :: rest =>
      let l' := h_store (run_on defaultConfig others (mkHost l 1000 100)).2 in
      (if lost then AppErr else r, mkScripted l' rest)
  end.
Definition sc_replay (s : string) (st : scripted) : replay_res * scripted :=
  (fst (mem_replay s (sc_log st)), st).
#[export] Instance scripted_store : LogStore scripted := { Append := sc_append; Replay := sc_replay }.

(** Reconciling a lost acknowledgement refreshes the object's sequence, stream
    sequence and status from the log but not its membership view. An agent whose
    removal lands between the lost append and the reconciliation keeps writing:
    the gate reads the stale view and the append carries the current token. *)
Theorem lost_ack_keeps_stale_membership :
  let rs := [msg "desk" "c1" "interaction.started" ""; msg "desk" "c2" "participant.assign" assign_ann;
             msg "ann" "c3" "message.posted" "one"; msg "ann" "c4" "message.posted" "two"] in
  let script := [(false, []); (false, []); (true, [msg "desk" "c9" "participant.unassign" assign_ann])] in
  let x := exec (serve defaultConfig rs emptyRouter) (mkHost (mkScripted [] script) 0 0) in
  res_Status <$> x.1.1 = [STATUS_ACCEPTED; STATUS_ACCEPTED; STATUS_ACCEPTED; STATUS_ACCEPTED] ∧
  trace (sc_log (h_store x.2)) (logSubjectFor "acme" "i1") =
    [("interaction.started", "desk", 1%Z); ("participant.joined", "ann", 2%Z);
     ("message.posted", "ann", 3%Z); ("participant.left", "ann", 4%Z); ("message.posted", "ann", 5%Z)].
Proof. by vm_compute. Qed.

(** * Cache keys *)

(** the cache key [tenant/interaction] does not separate tenants whose subject
    tokens contain a slash: interaction [b/c] of tenant [a] is refused its first
    fact because interaction [c] of tenant [a/b] is open. *)
Theorem cache_key_mixes_tenants :
  let rs := [msg_to "a/b" "c" "desk" "c1" "desk" "interaction.started" "";
             msg_to "a" "b/c" "desk" "c2" "desk" "interaction.started" ""] in
  let x := run_on defaultConfig rs (mkHost [] 0 0) in
  answers x = [STATUS_ACCEPTED; STATUS_REJECTED] ∧
  trace (h_store x.2) (logSubjectFor "a" "b/c") = [].
Proof. by vm_compute. Qed.

(** * Evicted results *)

(** once its cache entry is evicted, the retry of an accepted command of an
    agent that has since left is rejected as coming from a non-participant: the
    membership gate stands before the broker's deduplication. *)
Theorem evicted_retry_is_gated :
  let rs := [msg "desk" "c1" "interaction.started" ""; msg "desk" "c2" "participant.assign" assign_ann;
             msg "ann" "c3" "message.posted" "hi"; msg "desk" "c4" "participant.unassign" assign_ann;
             msg "ann" "c3" "message.posted" "hi"] in
  let x := run_on small_cache rs (mkHost [] 0 0) in
  answers x = [STATUS_ACCEPTED; STATUS_ACCEPTED; STATUS_ACCEPTED; STATUS_ACCEPTED; STATUS_REJECTED] ∧
  last x.1.1 = Some (rejected "c3" "not_a_participant") ∧
  answers (run_on defaultConfig rs (mkHost [] 0 0)) =
    [STATUS_ACCEPTED; STATUS_ACCEPTED; STATUS_ACCEPTED; STATUS_ACCEPTED; STATUS_ACCEPTED].
Proof. by vm_compute. Qed.

(** * Ties in the least-recently-used scan *)

(** The entry [getState] has just inserted can be the one a prune drops: with
    equal timestamps the scan keeps the first key it meets, so an iteration order
    that starts with the new key removes it. *)
Theorem prune_may_drop_newest :
  let fresh := set_lastUsed 7 (rebuild_state 4 [] 0) in
  let s := insert_state "t/new" fresh (insert_state "t/old" fresh emptyRouter) in
  let newest_first := λ l : list (string * nat), filter (λ kv, kv.1 = "t/new") l ++ filter (λ kv, kv.1 ≠ "t/new") l in
  let s' := prune_lru newest_first (size (inter s)) 1 s in
  inter s' !! "t/new" = None ∧ inter s' !! "t/old" = Some 0.
Proof. by vm_compute. Qed.
