(* ===== verification/Trace.v ===== *)
(** W3C trace contexts (internal/obs/trace.go): the parser at the trust boundary,
    the printer, and the contexts derived from an inbound header. *)

From S2P Require Import Prelude Bytes.

Record TraceContext := mkTrace {
  TraceID : string;
  SpanID : string;
  Sampled : bool;
}.

Definition zeroTraceID : string := "00000000000000000000000000000000".
Definition zeroSpanID : string := "0000000000000000".
Definition maxTraceparentLen : nat := 55.

(** [isHex]: lower-case hexadecimal digits only. *)
Definition isHex (s : string) : bool := str_forallb is_hex_char s.

(** [raw[i:i+n]] and the byte [raw[i]]. *)
Definition sub (i n : nat) (s : string) : string := String.substring i n s.
Definition byte_at (i : nat) (s : string) : option ascii := String.get i s.

Definition ParseTraceparent (raw : string) : option TraceContext :=
  let len := String.length raw in
  if decide (len = 0 ∨ maxTraceparentLen < len) then None
  else if decide (len ≠ 55 ∨ byte_at 2 raw ≠ Some "-"%char ∨ byte_at 35 raw ≠ Some "-"%char
                  ∨ byte_at 52 raw ≠ Some "-"%char) then None
  else
    let version := sub 0 2 raw in
    let traceID := sub 3 32 raw in
    let spanID := sub 36 16 raw in
    let flags := sub 53 2 raw in
    if decide (version ≠ "00" ∨ isHex version = false ∨ isHex traceID = false ∨ isHex spanID = false
               ∨ isHex flags = false) then None
    else if decide (traceID = zeroTraceID ∨ spanID = zeroSpanID) then None
    else Some (mkTrace traceID spanID (bool_decide (flags = "01"))).

Definition Traceparent (tc : TraceContext) : string :=
  "00-" +:+ TraceID tc +:+ "-" +:+ SpanID tc +:+ "-" +:+ (if Sampled tc then "01" else "00").

(** ** Fresh identifiers: [rand.Read]'s bytes and whether it failed are arguments *)

Definition allZero (b : string) : bool := str_forallb (λ c, bool_decide (c = "000"%char)) b.

(** [b[0] = 1]. *)
Definition set_first (b : string) : string :=
  match b with EmptyString => "" | String _ r => String "001"%char r end.

Definition randHex (bytes : string) (failed : bool) : string :=
  let b := if failed then set_first bytes else bytes in
  let b' := if allZero b then set_first b else b in
  hex_encode b'.

(** [FromInbound]; the four arguments are the random reads it may make. *)
Definition FromInbound (raw : string) (traceBytes spanBytes : string) (tfail sfail : bool) : TraceContext :=
  match ParseTraceparent raw with
  | Some parent => mkTrace (TraceID parent) (randHex spanBytes sfail) (Sampled parent)
  | None => mkTrace (randHex traceBytes tfail) (randHex spanBytes sfail) true
  end.

(** The random reads of one derivation of a context. *)
Record reads := mkReads { rd_trace : string; rd_span : string; rd_tfail : bool; rd_sfail : bool }.
Definition reads_ok (r : reads) : Prop := String.length (rd_trace r) = 16 ∧ String.length (rd_span r) = 8.
Definition from_inbound (raw : string) (r : reads) : TraceContext :=
  FromInbound raw (rd_trace r) (rd_span r) (rd_tfail r) (rd_sfail r).

(** ** The trace a Go context carries *)

(** [TraceFromContext] of a context with the trace value [tr]. *)
Definition trace_value (tr : option TraceContext) : TraceContext * bool :=
  match tr with
  | Some tc => (tc, negb (bool_decide (TraceID tc = "")))
  | None => (mkTrace "" "" false, false)
  end.

(** [InjectTraceparent]: the header it sets, if any. *)
Definition InjectTraceparent (tr : option TraceContext) : option string :=
  match trace_value tr with (tc, true) => Some (Traceparent tc) | _ => None end.

(** The context of a new span without an exporter ([StartSpan]). *)
Definition StartSpan (parent : option TraceContext) (traceBytes spanBytes : string) (tfail sfail : bool) :
    TraceContext :=
  match parent with
  | Some tc =>
      if decide (TraceID tc = "") then mkTrace (randHex traceBytes tfail) (randHex spanBytes sfail) true
      else mkTrace (TraceID tc) (randHex spanBytes sfail) (Sampled tc)
  | None => mkTrace (randHex traceBytes tfail) (randHex spanBytes sfail) true
  end.

(** * Well-formed contexts *)

Definition trace_wf (tc : TraceContext) : Prop :=
  String.length (TraceID tc) = 32 ∧ String.length (SpanID tc) = 16 ∧
  isHex (TraceID tc) = true ∧ isHex (SpanID tc) = true ∧
  TraceID tc ≠ zeroTraceID ∧ SpanID tc ≠ zeroSpanID.

(** ** Slices *)

Lemma substring_zero s : String.substring 0 0 s = "".
Proof. by destruct s. Qed.

Lemma substring_prefix b c : String.substring 0 (String.length b) (b +:+ c) = b.
Proof. induction b as [|x b IH]; simpl; [apply substring_zero|]. by rewrite IH. Qed.

Lemma substring_skip a n s : String.substring (String.length a) n (a +:+ s) = String.substring 0 n s.
Proof. induction a as [|x a IH]; [done|]. done. Qed.

Lemma sub_middle a b c i n :
  i = String.length a → n = String.length b → sub i n (a +:+ b +:+ c) = b.
Proof. intros -> ->. unfold sub. by rewrite substring_skip, substring_prefix. Qed.

Lemma byte_middle a x c i : i = String.length a → byte_at i (a +:+ String x c) = Some x.
Proof. intros ->. unfold byte_at. induction a as [|y a IH]; [done|]. done. Qed.

Lemma sub_length i n s : i + n ≤ String.length s → String.length (sub i n s) = n.
Proof.
  unfold sub. revert i n. induction s as [|x s IH]; intros i n Hle; simpl in Hle.
  - assert (i = 0) as -> by lia. by assert (n = 0) as -> by lia.
  - destruct i as [|i]; simpl.
    + destruct n as [|n]; [done|]. simpl. rewrite IH by lia. done.
    + apply IH. lia.
Qed.

(** A string cut at [i] and [i + n]. *)
Lemma sub_app s i n : i + n ≤ String.length s → sub 0 i s +:+ sub i n s = sub 0 (i + n) s.
Proof.
  unfold sub. revert i n. induction s as [|x s IH]; intros i n Hle; simpl in Hle.
  - assert (i = 0) as -> by lia. by assert (n = 0) as -> by lia.
  - destruct i as [|i]; simpl; [done|]. by rewrite IH by lia.
Qed.

Lemma sub_byte s i x : byte_at i s = Some x → sub i 1 s = String x "".
Proof.
  unfold sub, byte_at. revert i. induction s as [|y s IH]; intros i Hg; [done|].
  destruct i as [|i]; simpl in *; [|by apply IH]. injection Hg as ->. by rewrite substring_zero.
Qed.

Lemma sub_all s : sub 0 (String.length s) s = s.
Proof. unfold sub. rewrite <-(str_app_nil_r s) at 2. apply substring_prefix. Qed.

(** ** The parser inverts the printer *)

Lemma Traceparent_shape tc f :
  String.length (TraceID tc) = 32 → String.length (SpanID tc) = 16 → String.length f = 2 →
  let raw := "00-" +:+ TraceID tc +:+ "-" +:+ SpanID tc +:+ "-" +:+ f in
  String.length raw = 55 ∧ byte_at 2 raw = Some "-"%char ∧ byte_at 35 raw = Some "-"%char ∧
  byte_at 52 raw = Some "-"%char ∧ sub 0 2 raw = "00" ∧ sub 3 32 raw = TraceID tc ∧
  sub 36 16 raw = SpanID tc ∧ sub 53 2 raw = f.
Proof.
  destruct tc as [t s b]. intros Ht Hs Hf raw. cbn [TraceID SpanID] in *.
  set (r1 := "00-" +:+ t). set (r2 := (r1 +:+ "-") +:+ s).
  assert (String.length r1 = 35) as H1 by (subst r1; simpl; lia).
  assert (String.length (r1 +:+ "-") = 36) as H1' by (by rewrite str_length_app, H1).
  assert (String.length r2 = 52) as H2 by (subst r2; by rewrite str_length_app, H1', Hs).
  assert (String.length (r2 +:+ "-") = 53) as H2' by (by rewrite str_length_app, H2).
  assert (raw = r1 +:+ String "-" (s +:+ "-" +:+ f)) as E1
    by (subst raw r1; by rewrite str_app_assoc).
  assert (raw = (r1 +:+ "-") +:+ s +:+ ("-" +:+ f)) as E1'
    by (rewrite E1, str_app_assoc; done).
  assert (raw = r2 +:+ String "-" f) as E2 by (rewrite E1'; subst r2; by rewrite !str_app_assoc).
  assert (raw = (r2 +:+ "-") +:+ f +:+ "") as E3
    by (rewrite E2, str_app_nil_r, str_app_assoc; done).
  split_and!; try done.
  - rewrite E2, str_length_app, H2. simpl. by rewrite Hf.
  - rewrite E1. by apply byte_middle.
  - rewrite E2. by apply byte_middle.
  - apply (sub_middle "00-" t ("-" +:+ s +:+ "-" +:+ f)); done.
  - rewrite E1'. by apply sub_middle.
  - rewrite E3. by apply sub_middle.
Qed.

Lemma traceparent_reparse tc :
  trace_wf tc → ParseTraceparent (Traceparent tc) = Some tc.
Proof.
  intros (Ht & Hs & Hht & Hhs & Hzt & Hzs). unfold Traceparent, ParseTraceparent.
  set (f := if Sampled tc then "01" else "00").
  assert (String.length f = 2 ∧ isHex f = true) as [Hf Hhf] by (subst f; by destruct (Sampled tc)).
  destruct (Traceparent_shape tc f Ht Hs Hf) as (-> & -> & -> & -> & -> & -> & -> & ->).
  rewrite decide_False by (unfold maxTraceparentLen; lia). rewrite decide_False by tauto.
  rewrite decide_False by (rewrite Hht, Hhs, Hhf; intuition done). rewrite decide_False by tauto.
  f_equal. destruct tc as [t s []]; done.
Qed.

(** ** Whatever the parser accepts is well formed *)

Lemma ParseTraceparent_inv raw tc :
  ParseTraceparent raw = Some tc →
  trace_wf tc ∧ ∃ flags, String.length flags = 2 ∧ isHex flags = true ∧
    Sampled tc = bool_decide (flags = "01") ∧
    raw = "00-" +:+ TraceID tc +:+ "-" +:+ SpanID tc +:+ "-" +:+ flags.
Proof.
  unfold ParseTraceparent. intros H.
  case_decide as H1; [done|]. case_decide as H2; [done|]. case_decide as H3; [done|].
  case_decide as H4; [done|]. injection H as <-. simpl.
  split_not_or. split.
  - unfold trace_wf. simpl. rewrite !sub_length by lia. done.
  - exists (sub 53 2 raw). rewrite sub_length by lia. split_and!; try done.
    rewrite <-(sub_all raw) at 1. replace (String.length raw) with 55 by done.
    assert (∀ k i n, k = i + n → k ≤ 55 → sub 0 k raw = sub 0 i raw +:+ sub i n raw) as Hcut.
    { intros k i n -> ?. symmetry. apply sub_app. lia. }
    rewrite (Hcut 55 53 2), (Hcut 53 52 1), (Hcut 52 36 16), (Hcut 36 35 1), (Hcut 35 3 32),
      (Hcut 3 2 1) by lia.
    rewrite (sub_byte raw 2 "-"), (sub_byte raw 35 "-"), (sub_byte raw 52 "-") by done.
    match goal with H : sub 0 2 raw = "00" |- _ => rewrite H end. by rewrite !str_app_assoc.
Qed.

(** the parser and the printer of trace headers agree: every well-formed
    context survives the wire, and whatever header is accepted is the printed form
    of a well-formed context (up to the unknown bits of its flags), so no other
    byte of the input can reach a log line or a downstream header. *)
Theorem traceparent_roundtrip tc raw :
  (trace_wf tc → ParseTraceparent (Traceparent tc) = Some tc) ∧
  (ParseTraceparent raw = Some tc →
   trace_wf tc ∧ ∃ flags, String.length flags = 2 ∧ isHex flags = true ∧
     raw = "00-" +:+ TraceID tc +:+ "-" +:+ SpanID tc +:+ "-" +:+ flags).
Proof.
  split; [apply traceparent_reparse|]. intros H.
  destruct (ParseTraceparent_inv raw tc H) as (? & flags & ? & ? & _ & ?). eauto.
Qed.

Definition sample_trace : TraceContext :=
  mkTrace "4bf92f3577b34da6a3ce929d0e0e4736" "00f067aa0ba902b7" true.

Lemma sample_trace_wf : trace_wf sample_trace.
Proof. split_and!; done. Qed.

Lemma traceparent_roundtrip_witness :
  Traceparent sample_trace = "00-4bf92f3577b34da6a3ce929d0e0e4736-00f067aa0ba902b7-01" ∧
  ParseTraceparent (Traceparent sample_trace) = Some sample_trace.
Proof. split; [reflexivity|]. apply (traceparent_roundtrip sample_trace ""). apply sample_trace_wf. Defined.

Lemma randHex_wf bytes failed n :
  String.length bytes = n → 0 < n →
  String.length (randHex bytes failed) = 2 * n ∧ isHex (randHex bytes failed) = true ∧
  (∀ z, String.length z = n → allZero z = true → randHex bytes failed ≠ hex_encode z).
Proof.
  intros Hlen Hn. unfold randHex.
  assert (∀ b, String.length (set_first b) = String.length b) as Hset by (intros []; done).
  set (b := if failed then set_first bytes else bytes).
  assert (String.length b = n) as Hb by (subst b; destruct failed; by rewrite ?Hset).
  set (b' := if allZero b then set_first b else b).
  assert (String.length b' = n ∧ allZero b' = false) as [Hb' Hz].
  { subst b'. destruct (allZero b) eqn:E; [|done]. rewrite Hset. split; [done|].
    destruct b; simpl in *; [lia|done]. }
  split_and!.
  - rewrite hex_encode_length. lia.
  - apply hex_encode_is_hex.
  - intros z Hzl Hzz He. apply hex_encode_inj in He. congruence.
Qed.

(** The trust boundary. Whatever bytes arrive as a header and whatever the
    random source yields (all zeros or a failure included), the context derived is
    well formed, so what is emitted downstream is a valid header; a valid inbound
    header keeps its trace id and sampling with a new span id, and only a valid
    one does. *)
Theorem FromInbound_wf raw traceBytes spanBytes tfail sfail :
  String.length traceBytes = 16 → String.length spanBytes = 8 →
  let tc := FromInbound raw traceBytes spanBytes tfail sfail in
  trace_wf tc ∧ ParseTraceparent (Traceparent tc) = Some tc ∧
  (∀ parent, ParseTraceparent raw = Some parent → TraceID tc = TraceID parent ∧ Sampled tc = Sampled parent) ∧
  (ParseTraceparent raw = None → tc = mkTrace (randHex traceBytes tfail) (randHex spanBytes sfail) true).
Proof.
  intros Ht Hs tc.
  destruct (randHex_wf traceBytes tfail 16 Ht ltac:(lia)) as (Htl & Hth & Htz).
  destruct (randHex_wf spanBytes sfail 8 Hs ltac:(lia)) as (Hsl & Hsh & Hsz).
  assert (trace_wf tc) as Hwf.
  { subst tc. unfold FromInbound. destruct (ParseTraceparent raw) as [parent|] eqn:Hp.
    - apply ParseTraceparent_inv in Hp as [(? & _ & ? & _ & ? & _) _]. split_and!; simpl; try done.
      apply (Hsz (be_bytes 8 0)); reflexivity.
    - split_and!; simpl; try done.
      + apply (Htz (be_bytes 16 0)); reflexivity.
      + apply (Hsz (be_bytes 8 0)); reflexivity. }
  split_and!; [done|by apply traceparent_reparse|..]; subst tc; unfold FromInbound.
  - by intros parent ->.
  - by intros ->.
Qed.

Lemma FromInbound_wf_witness :
  let tc := FromInbound "00-zz" (be_bytes 16 0) (be_bytes 8 7) false false in
  TraceID tc = "01000000000000000000000000000000" ∧ SpanID tc = "0000000000000007" ∧ trace_wf tc.
Proof.
  intros tc. split; [reflexivity|]. split; [reflexivity|].
  apply (FromInbound_wf "00-zz" (be_bytes 16 0) (be_bytes 8 7) false false); reflexivity.
Defined.
