(* ===== verification/FeedProjector.v ===== *)
(** The fan-out projector (internal/projector/projector.go, ports.go): it tails
    the stream, folds participation per interaction and publishes each fact to
    the feeds of the participants it concerns.

    The ports (log source, feed sink, snapshot store) are an environment that
    answers each call; [w_*] lists the answers still to come, an exhausted list
    answering with success. Calls with an effect outside the process are recorded
    as outputs, so what is published before what is explicit; a call whose effect
    took place but whose confirmation was lost is recorded and fails. *)

From S2P Require Import Prelude Bytes Wire Subjects Membership Trace.

(** * Facts and state *)

(** A delivered fact; [None] is the nil event of a corrupt envelope. *)
Record Fact := mkFact {
  f_Event : option Event;
  f_iid : string;
  f_StreamSeq : N;
  f_Delivered : Z;
  f_traceparent : string;
}.

Definition NewFact (e : Event) (iid : string) (streamSeq : N) : Fact := mkFact (Some e) iid streamSeq 0 "".
Definition interactionOf (f : Fact) : string := f_iid f.

(** [state.views], keyed by [tenant/iid]. *)
Abbreviation views := (gmap string ParticipationView).
Definition newState : views := ∅.

(** [state.view]: a missing view is created empty and entered in the map. *)
Definition view_of (s : views) (key : string) : ParticipationView := default NewParticipationView (s !! key).
Definition update_view (key : string) (g : ParticipationView → ParticipationView) (s : views) : views :=
  <[key := g (view_of s key)]> s.

Abbreviation Snapshot := (gmap string (gmap string (list Interval))).

(** [state.snapshot]: for every view, every agent with its intervals. *)
Definition snapshot_view (v : ParticipationView) : gmap string (list Interval) :=
  list_to_map ((λ a, (a, Intervals v a)) <$> Agents v).
Definition snapshot (s : views) : Snapshot := snapshot_view <$> s.

(** [state.restore]; a nil snapshot is [None]. *)
Definition restore_view (agents : gmap string (list Interval)) (v : ParticipationView) : ParticipationView :=
  map_fold (λ a ins v', SetIntervals a ins v') v agents.
Definition restore (snap : option Snapshot) (s : views) : views :=
  match snap with
  | None => s
  | Some sn => map_fold (λ iid agents s', update_view iid (restore_view agents) s') s sn
  end.

(** [coveredBy]: agents with an interval that holds the sequence; a left fact's
    own sequence is still inside. *)
Definition covers (s : Z) (i : Interval) : bool :=
  (JoinSeq i <=? s)%Z && (LeftOpen i || (s <=? LeftSeq i)%Z).
Definition coveredBy (v : ParticipationView) (s : Z) : list string :=
  filter (λ a, existsb (covers s) (Intervals v a)) (Agents v).

(** * Configuration *)

Record Config := mkPConfig {
  MaxDeliver : Z;
  SnapshotEvery : Z;
  PublishRetry : Z;
  RetryBackoff : Z;
  LeaseRenew : Z;
  LeaseTTL : Z;
  HealthAddr : string;
  FanoutConcurrency : Z;
}.

Definition millisecond : Z := 1000000.
Definition second : Z := 1000000000.

Definition withDefaults (c : Config) : Config :=
  let pos z d := if (z <=? 0)%Z then d else z in
  let renew := pos (LeaseRenew c) (2 * second)%Z in
  let ttl := pos (LeaseTTL c) (5 * second)%Z in
  mkPConfig (pos (MaxDeliver c) 5%Z) (pos (SnapshotEvery c) 50%Z) (pos (PublishRetry c) 4%Z)
    (pos (RetryBackoff c) (50 * millisecond)%Z)
    (if (ttl <=? renew)%Z then (ttl `quot` 2)%Z else renew) ttl
    (orDefault (HealthAddr c) ":8222") (pos (FanoutConcurrency c) 32%Z).

(** * The environment *)

(** What went out; a feed message with the [traceparent] header it carries. *)
Inductive output :=
| OPublish (tenant agent iid dedup payload : string) (traceparent : option string)
| ODlq (tenant reason eventID : string) (seq : Z)
| OAck (seq : N)
| ONak (seq : N)
| OSave (seq : N) (snap : Snapshot).

(** What becomes of a call: it took effect and says so, it took effect and its
    confirmation was lost, or it had no effect and failed. *)
Inductive answer := Done | Lost | Refused.
#[export] Instance answer_eq_dec : EqDecision answer.
Proof. solve_decision. Defined.

Definition confirmed (a : answer) : bool := match a with Done => true | _ => false end.
Definition effected (a : answer) : bool := match a with Refused => false | _ => true end.

(** Answers to come: to publishes, dead-letter publishes, acks, naks and snapshot
    writes, and the observations of a cancelled context; the trace value of the
    data loop's context, and the random reads of the contexts derived from it. *)
Record world := mkWorld {
  w_pub : list answer;
  w_dlq : list answer;
  w_ack : list answer;
  w_nak : list answer;
  w_save : list answer;
  w_done : list bool;
  w_trace : option TraceContext;
  w_reads : list reads;
}.
Definition zero_reads : reads := mkReads (be_bytes 16 0) (be_bytes 8 0) false false.
Definition calm : world := mkWorld [] [] [] [] [] [] None [].

Definition pop {A} (d : A) (l : list A) : A * list A :=
  match l with [] => (d, []) | x :: r => (x, r) end.

(** The mutable fields of [Projector]. *)
Record pst := mkPst {
  p_st : views;
  p_sinceSnap : Z;
  p_lastAckSeq : N;
}.

(** * The processing monad: state, environment and outputs *)

Definition PM (A : Type) : Type := pst → world → A * list output * pst * world.

#[export] Instance PM_ret : MRet PM := λ A a p w, (a, [], p, w).
#[export] Instance PM_bind : MBind PM := λ A B g m p w,
  let '(a, o1, p1, w1) := m p w in
  let '(b, o2, p2, w2) := g a p1 w1 in (b, o1 ++ o2, p2, w2).

Definition get_p : PM pst := λ p w, (p, [], p, w).
Definition modify_p (g : pst → pst) : PM unit := λ p w, (tt, [], g p, w).

(** One port call each: whether it is confirmed, and the output when it took
    effect. The publish of a feed message ([jsFeedSink.Publish]) carries the trace
    of its context as a header. *)
Definition sink_Publish (ctx : option TraceContext) (tenant agent iid dedup payload : string) : PM bool := λ p w,
  let '(a, r) := pop Done (w_pub w) in
  (confirmed a, if effected a then [OPublish tenant agent iid dedup payload (InjectTraceparent ctx)] else [], p,
   mkWorld r (w_dlq w) (w_ack w) (w_nak w) (w_save w) (w_done w) (w_trace w) (w_reads w)).
Definition sink_Dlq (tenant reason evID : string) (seq : Z) : PM bool := λ p w,
  let '(a, r) := pop Done (w_dlq w) in
  (confirmed a, if effected a then [ODlq tenant reason evID seq] else [], p,
   mkWorld (w_pub w) r (w_ack w) (w_nak w) (w_save w) (w_done w) (w_trace w) (w_reads w)).
Definition src_Ack (f : Fact) : PM bool := λ p w,
  let '(a, r) := pop Done (w_ack w) in
  (confirmed a, if effected a then [OAck (f_StreamSeq f)] else [], p,
   mkWorld (w_pub w) (w_dlq w) r (w_nak w) (w_save w) (w_done w) (w_trace w) (w_reads w)).
Definition src_Nak (f : Fact) : PM bool := λ p w,
  let '(a, r) := pop Done (w_nak w) in
  (confirmed a, if effected a then [ONak (f_StreamSeq f)] else [], p,
   mkWorld (w_pub w) (w_dlq w) (w_ack w) r (w_save w) (w_done w) (w_trace w) (w_reads w)).
Definition snaps_Save (seq : N) (sn : Snapshot) : PM bool := λ p w,
  let '(a, r) := pop Done (w_save w) in
  (confirmed a, if effected a then [OSave seq sn] else [], p,
   mkWorld (w_pub w) (w_dlq w) (w_ack w) (w_nak w) r (w_done w) (w_trace w) (w_reads w)).
(** [ctx.Err() != nil]. *)
Definition ctx_done : PM bool := λ p w,
  let '(d, r) := pop false (w_done w) in
  (d, [], p, mkWorld (w_pub w) (w_dlq w) (w_ack w) (w_nak w) (w_save w) r (w_trace w) (w_reads w)).
(** The context a fact is processed with: one that continues the trace of its
    message, or the data loop's own. *)
Definition fact_context (f : Fact) : PM (option TraceContext) := λ p w,
  if decide (f_traceparent f ≠ "") then
    let '(rd, r) := pop zero_reads (w_reads w) in
    (Some (from_inbound (f_traceparent f) rd), [], p,
     mkWorld (w_pub w) (w_dlq w) (w_ack w) (w_nak w) (w_save w) (w_done w) (w_trace w) r)
  else (w_trace w, [], p, w).

(** * Processing one fact *)

(** The errors an operation may return; [None] is nil. *)
Inductive perr := EPublish | EMarshal | ECancelled | ENak | EAck.

#[export] Instance perr_eq_dec : EqDecision perr.
Proof. solve_decision. Defined.

Section Projector.
(** [proto.Marshal] of an event and of a feed control. *)
Context (marshal_feed : Event → option string) (marshal_control : FeedControl → option string).
Context (cfg : Config).

(** The attempts of [publishWithRetry]; [err] is the last error so far. *)
Fixpoint publish_attempts (ctx : option TraceContext) (tenant agent iid dedup payload : string) (first : bool) (remaining : nat)
    (err : option perr) : PM (option perr) :=
  match remaining with
  | O => mret err
  | S remaining' =>
      done ← (if first then mret false else ctx_done);
      if done : bool then mret (Some ECancelled)
      else
        ok ← sink_Publish ctx tenant agent iid dedup payload;
        if ok : bool then mret None
        else publish_attempts ctx tenant agent iid dedup payload false remaining' (Some EPublish)
  end.

Definition publishWithRetry (ctx : option TraceContext) (tenant agent iid dedup payload : string) : PM (option perr) :=
  publish_attempts ctx tenant agent iid dedup payload true (Z.to_nat (PublishRetry cfg)) None.

(** The deduplication ids of a feed message and of a revocation. *)
Definition feedDedup (tenant agent iid : string) (seq : Z) : string :=
  tenant +:+ "." +:+ agent +:+ "." +:+ iid +:+ "." +:+ fmt_d seq.
Definition revokedDedup (tenant agent iid : string) (seq : Z) : string :=
  feedDedup tenant agent iid seq +:+ ".revoked".

(** [fanout]: every recipient's publish is started; the group's error is one of
    theirs. A publish that the group's cancellation cuts short is one the
    environment refuses. *)
Fixpoint fanout (ctx : option TraceContext) (e : Event) (iid : string) (recipients : list string) (payload : string) : PM (option perr) :=
  match recipients with
  | [] => mret None
  | agent :: rest =>
      r1 ← publishWithRetry ctx (ev_TenantId e) agent iid
             (feedDedup (ev_TenantId e) agent iid (ev_Sequence e)) payload;
      r2 ← fanout ctx e iid rest payload;
      mret (match r1 with Some _ => r1 | None => r2 end)
  end.

Definition controlRevoked : string := "feed.revoked".

Definition tombstone (ctx : option TraceContext) (tenant agent iid : string) (atSeq : Z) : PM (option perr) :=
  match marshal_control (mkFeedControl SchemaV1 controlRevoked iid atSeq) with
  | None => mret (Some EMarshal)
  | Some payload => publishWithRetry ctx tenant agent iid (revokedDedup tenant agent iid atSeq) payload
  end.

Definition nak (f : Fact) : PM (option perr) :=
  ok ← src_Nak f; mret (if ok : bool then None else Some ENak).

Definition set_lastAck (seq : N) (p : pst) : pst := mkPst (p_st p) (p_sinceSnap p) seq.

Definition dlqOrNak (f : Fact) (reason : string) : PM (option perr) :=
  if (f_Delivered f <? MaxDeliver cfg)%Z then nak f
  else
    let '(tenant, evID, seq) :=
      match f_Event f with
      | Some e => (ev_TenantId e, ev_EventId e, ev_Sequence e)
      | None => ("", "", 0%Z)
      end in
    ok ← sink_Dlq tenant reason evID seq;
    if negb ok then nak f
    else
      acked ← src_Ack f;
      if negb acked then mret (Some EAck)
      else modify_p (set_lastAck (f_StreamSeq f));; mret None.

Definition maybeSnapshot (seq : N) : PM unit :=
  modify_p (λ p, mkPst (p_st p) (p_sinceSnap p + 1) (p_lastAckSeq p));;
  p ← get_p;
  if (p_sinceSnap p <? SnapshotEvery cfg)%Z then mret tt
  else
    ok ← snaps_Save seq (snapshot (p_st p));
    if ok : bool then modify_p (λ p, mkPst (p_st p) 0 (p_lastAckSeq p)) else mret tt.

(** The tail of [process]: the context check, the ack and the snapshot. *)
Definition settle (f : Fact) : PM (option perr) :=
  done ← ctx_done;
  if done : bool then nak f
  else
    acked ← src_Ack f;
    if negb acked then mret (Some EAck)
    else
      modify_p (set_lastAck (f_StreamSeq f));;
      maybeSnapshot (f_StreamSeq f);;
      mret None.

(** A failed publish: a cancelled context naks, anything else retries or goes to
    the dead-letter queue. The error's own text, which the code appends to the
    reason, is dropped here and in [process]. *)
Definition publish_failed (f : Fact) (reason : string) : PM (option perr) :=
  done ← ctx_done;
  if done : bool then nak f else dlqOrNak f reason.

(** [process] with its context derived. *)
Definition process_in (ctx : option TraceContext) (f : Fact) : PM (option perr) :=
  match f_Event f with
  | None => dlqOrNak f "malformed envelope"
  | Some e =>
      if decide (ev_TenantId e = "" ∨ ev_EventType e = "") then dlqOrNak f "malformed envelope"
      else
        let iid := interactionOf f in
        if decide (iid = "") then dlqOrNak f "unresolved interaction id"
        else
          let key := stateKey (ev_TenantId e) iid in
          modify_p (λ p, mkPst (update_view key (λ v, ApplyFact v e) (p_st p))
                           (p_sinceSnap p) (p_lastAckSeq p));;
          p ← get_p;
          let recipients := coveredBy (view_of (p_st p) key) (ev_Sequence e) in
          match marshal_feed e with
          | None => dlqOrNak f "marshal event"
          | Some payload =>
              perr ← fanout ctx e iid recipients payload;
              match perr with
              | Some _ => publish_failed f "feed publish failed"
              | None =>
                  terr ← (if decide (ev_EventType e = "participant.left")
                          then tombstone ctx (ev_TenantId e) (ev_ActorId e) iid (ev_Sequence e)
                          else mret None);
                  match terr with
                  | Some _ => publish_failed f "revoked tombstone failed"
                  | None => settle f
                  end
              end
          end
  end.

Definition process (f : Fact) : PM (option perr) := ctx ← fact_context f; process_in ctx f.

(** The data loop of [Run] over the deliveries it receives. *)
Fixpoint process_all (fs : list Fact) : PM (list (option perr)) :=
  match fs with
  | [] => mret []
  | f :: rest => r ← process f; rs ← process_all rest; mret (r :: rs)
  end.
End Projector.

(** * Takeover *)

(** [Hydrate] over the answers of its ports: the ack floor, the snapshot at or
    below it with its sequence, and the fold of the tail. *)
Definition fold_tail (s : views) (tail : list Fact) : views :=
  foldl (λ s f, match f_Event f with
                | Some e => update_view (stateKey (ev_TenantId e) (interactionOf f)) (λ v, ApplyFact v e) s
                | None => s
                end) s tail.

Definition Hydrate (floor : option N) (load : N → option (option Snapshot * N))
    (foldRange : N → N → option (list Fact)) (p : pst) : option pst :=
  match floor with
  | None => None
  | Some fl =>
      match load fl with
      | None => None
      | Some (snap, snapSeq) =>
          let st := restore snap newState in
          if (snapSeq <? fl)%N then
            match foldRange snapSeq fl with
            | None => None
            | Some tail => Some (mkPst (fold_tail st tail) (p_sinceSnap p) fl)
            end
          else Some (mkPst st (p_sinceSnap p) fl)
      end
  end.
