(* ===== verification/FeedTheorems.v ===== *)
(** What the fan-out projector guarantees: who receives a fact, that a fact is
    acknowledged only after it was delivered, that redeliveries are harmless and
    that a takeover reconstructs the view of the process it replaces. *)

From S2P Require Import Prelude Wire Subjects Membership FeedProjector.

(** * Recipients *)

Lemma elem_of_Agents v a : a ∈ Agents v ↔ is_Some (v !! a).
Proof.
  unfold Agents. rewrite list_elem_of_fmap. split.
  - intros ([x l] & -> & Hin). apply elem_of_map_to_list in Hin. by eexists.
  - intros [l Hl]. exists (a, l). split; [done|]. by apply elem_of_map_to_list.
Qed.

Lemma elem_of_coveredBy v s a :
  a ∈ coveredBy v s ↔ ∃ i, i ∈ cur_intervals v a ∧ covers s i = true.
Proof.
  unfold coveredBy, Intervals. rewrite list_elem_of_filter, elem_of_Agents, Is_true_true, existsb_exists.
  split.
  - intros [(i & Hi%list_elem_of_In & Hc) _]. eauto.
  - intros (i & Hi & Hc). split; [exists i; split; [by apply list_elem_of_In|done]|].
    unfold cur_intervals in Hi. destruct (v !! a); [by eexists|]. by apply not_elem_of_nil in Hi.
Qed.

(** Intervals of one agent, all of whose sequences are at most [s]. *)
Definition ints_le (s : Z) (l : list Interval) : Prop :=
  ∀ i, i ∈ l → (JoinSeq i <= s)%Z ∧ (LeftOpen i = false → (LeftSeq i <= s)%Z).

(** Above every sequence only an open interval covers. *)
Lemma covers_above l s :
  (l = [] ∨ ints_wf l) → ints_le (s - 1) l →
  (∃ i, i ∈ l ∧ covers s i = true) ↔ last_open l = true.
Proof.
  intros [->|(l' & x & -> & Hcl)%ints_wf_inv] Hle.
  { split; [by intros (i & ?%not_elem_of_nil & _)|done]. }
  rewrite last_open_snoc. split.
  - intros (i & Hi & Hc). unfold covers in Hc. apply andb_true_iff in Hc as [_ Hc].
    destruct (Hle i Hi) as [_ Hleft]. destruct (LeftOpen i) eqn:Ho; simpl in Hc.
    + apply elem_of_app in Hi as [Hi| ->%list_elem_of_singleton]; [|done].
      unfold all_closed in Hcl. rewrite Forall_forall in Hcl. by rewrite (Hcl i Hi) in Ho.
    + specialize (Hleft eq_refl). lia.
  - intros Ho. exists x. split; [set_solver|]. destruct (Hle x) as [Hj _]; [set_solver|].
    unfold covers. rewrite Ho. simpl. lia.
Qed.

(** The recipients of a fact numbered above all earlier ones: whoever was a
    member before it or is one after it. *)
Lemma covered_after_apply v e a :
  view_wf v → view_le v (ev_Sequence e - 1) →
  a ∈ coveredBy (ApplyFact v e) (ev_Sequence e) ↔
  IsParticipantNow v a = true ∨ IsParticipantNow (ApplyFact v e) a = true.
Proof.
  intros Hwf Hle. rewrite elem_of_coveredBy, (now_apply v e a) by done. unfold member_step.
  rewrite cur_apply. specialize (Hle a). pose proof (cur_wf v a Hwf) as Hcur.
  unfold IsParticipantNow. revert Hle Hcur. generalize (cur_intervals v a) as l. intros l Hle Hcur.
  pose proof (covers_above l (ev_Sequence e) Hcur Hle) as Habove.
  destruct (moves a e) as [[|]|]; simpl.
  - destruct (last_open l) eqn:Ho; [naive_solver|]. split; [by right|]. intros _.
    exists (mkInterval (ev_Sequence e) 0 true). split; [set_solver|]. unfold covers. simpl. lia.
  - destruct Hcur as [->|(l' & x & -> & Hcl)%ints_wf_inv]; [simpl in *; naive_solver|].
    rewrite close_snoc by done. rewrite last_open_snoc in *. destruct (LeftOpen x) eqn:Ho.
    + split; [by left|]. intros _. exists (mkInterval (JoinSeq x) (ev_Sequence e) false).
      split; [set_solver|]. destruct (Hle x) as [Hj _]; [set_solver|]. unfold covers. simpl. lia.
    + rewrite Habove. naive_solver.
  - rewrite Habove. naive_solver.
Qed.

(** The fan-out of a fact. With the interaction's earlier facts numbered below
    it, the recipients of fact [e] are exactly the agents that are members before
    it or after it: a joining agent receives its own join, a leaving agent its own
    leave, and nobody receives a fact beyond their last leave. *)
Theorem recipients_are_members facts e a :
  Forall (λ f, (ev_Sequence f < ev_Sequence e)%Z) facts →
  a ∈ coveredBy (FoldParticipation (facts ++ [e])) (ev_Sequence e) ↔
  is_member a facts = true ∨ is_member a (facts ++ [e]) = true.
Proof.
  intros Hall. rewrite fold_participation_snoc, covered_after_apply.
  - by rewrite <-fold_participation_snoc, !IsParticipantNow_fold.
  - apply view_wf_fold, view_wf_empty.
  - apply view_le_fold. eapply Forall_impl; [done|]. simpl. lia.
Qed.

Definition sample_event (type actor : string) (seq : Z) : Event :=
  mkEvent SchemaV1 type ("e" +:+ fmt_d seq) seq 0 "acme" actor "chat" "" "" "" "" "" "" "" "" "".

Lemma recipients_are_members_witness :
  let facts := [sample_event "participant.joined" "ann" 2; sample_event "participant.joined" "bob" 3] in
  let e := sample_event "participant.left" "ann" 4 in
  "ann" ∈ coveredBy (FoldParticipation (facts ++ [e])) 4 ∧
  is_member "ann" (facts ++ [e]) = false.
Proof.
  intros facts e. split; [|reflexivity].
  apply (recipients_are_members facts e "ann"); [repeat constructor|by left].
Defined.

(** * Snapshots *)

Lemma snapshot_view_id v : snapshot_view v = v.
Proof.
  unfold snapshot_view, Agents, Intervals. rewrite <-list_fmap_compose.
  apply map_eq. intros a. destruct (v !! a) as [l|] eqn:E.
  - apply elem_of_list_to_map_1'.
    + intros y ([b k] & He & Hin)%list_elem_of_fmap. simpl in He. injection He as <- ->.
      unfold cur_intervals. by rewrite E.
    + apply list_elem_of_fmap. exists (a, l). split; [|by apply elem_of_map_to_list].
      simpl. unfold cur_intervals. by rewrite E.
  - apply not_elem_of_list_to_map_1. rewrite <-list_fmap_compose.
    intros ([b k] & -> & Hin)%list_elem_of_fmap. simpl in *. apply elem_of_map_to_list in Hin. congruence.
Qed.

Lemma restore_view_id v : view_wf v → restore_view v NewParticipationView = v.
Proof.
  unfold restore_view. intros Hwf. revert Hwf.
  refine (map_fold_weak_ind (λ r (m : ParticipationView), view_wf m → r = m) _ _ _ _ v); [done|].
  intros a l m r Ha IH Hwf. apply map_Forall_insert in Hwf as [Hl Hm]; [|done].
  rewrite (IH Hm). unfold SetIntervals. destruct l; [by destruct Hl|done].
Qed.

Definition views_wf (s : views) : Prop := map_Forall (λ _ v, view_wf v) s.

Lemma restore_snapshot s : views_wf s → restore (Some (snapshot s)) newState = s.
Proof.
  unfold restore, snapshot. intros Hwf.
  assert (∀ m : views, views_wf m →
    map_fold (λ iid agents s', update_view iid (restore_view agents) s') newState m = m) as Hfold.
  { intros m. refine (map_fold_weak_ind (λ r (m : views), views_wf m → r = m) _ _ _ _ m); [done|].
    intros k v m' r Hk IH Hw. apply map_Forall_insert in Hw as [Hv Hm]; [|done].
    rewrite (IH Hm). unfold update_view, view_of. rewrite Hk. simpl. by rewrite restore_view_id. }
  assert (snapshot_view <$> s = s) as ->; [|by apply Hfold].
  apply map_eq. intros k. rewrite lookup_fmap. destruct (s !! k) as [v|]; simpl; [|done].
  by rewrite snapshot_view_id.
Qed.

(** * Reasoning about processing *)

Lemma PM_bind_inv {A B} (m : PM A) (g : A → PM B) p w b o p' w' :
  (m ≫= g) p w = (b, o, p', w') →
  ∃ a o1 p1 w1 o2, m p w = (a, o1, p1, w1) ∧ g a p1 w1 = (b, o2, p', w') ∧ o = o1 ++ o2.
Proof.
  unfold mbind, PM_bind. destruct (m p w) as [[[a o1] p1] w1].
  destruct (g a p1 w1) as [[[b2 o2] p2] w2] eqn:E. intros [= <- <- <- <-]. eauto 10.
Qed.

(** [bind_inv H as H1] splits a run of a sequence into the runs of its parts. *)
Tactic Notation "bind_inv" hyp(H) "as" ident(H1) :=
  let a := fresh "a" in let o := fresh "o" in let p := fresh "p" in let w := fresh "w" in
  let o' := fresh "o" in
  apply PM_bind_inv in H as (a & o & p & w & o' & H1 & H & ->).

(** A computation that leaves the views alone. *)
Definition keeps {A} (m : PM A) : Prop :=
  ∀ p w a o p' w', m p w = (a, o, p', w') → p_st p' = p_st p.

Lemma keeps_ret {A} (a : A) : keeps (mret a).
Proof. intros p w ? ? ? ?. unfold mret, PM_ret. by intros [= <- <- <- <-]. Qed.

Lemma keeps_bind {A B} (m : PM A) (g : A → PM B) : keeps m → (∀ a, keeps (g a)) → keeps (m ≫= g).
Proof. intros Hm Hg p w a o p' w' H. bind_inv H as H1. rewrite (Hg _ _ _ _ _ _ _ H). by eapply Hm. Qed.

Lemma keeps_modify g : (∀ p, p_st (g p) = p_st p) → keeps (modify_p g).
Proof. intros Hg p w ? ? ? ?. unfold modify_p. intros [= <- <- <- <-]. apply Hg. Qed.

Lemma keeps_get : keeps get_p.
Proof. intros p w ? ? ? ?. unfold get_p. by intros [= <- <- <- <-]. Qed.

Ltac keeps_port := intros p w ? ? ? ?; unfold sink_Publish, sink_Dlq, src_Ack, src_Nak, snaps_Save, ctx_done;
  destruct (pop _ _); by intros [= <- <- <- <-].
Lemma keeps_Publish c t a i d x : keeps (sink_Publish c t a i d x). Proof. keeps_port. Qed.
Lemma keeps_Dlq t r e s : keeps (sink_Dlq t r e s). Proof. keeps_port. Qed.
Lemma keeps_Ack f : keeps (src_Ack f). Proof. keeps_port. Qed.
Lemma keeps_Nak f : keeps (src_Nak f). Proof. keeps_port. Qed.
Lemma keeps_Save s sn : keeps (snaps_Save s sn). Proof. keeps_port. Qed.
Lemma keeps_done : keeps ctx_done. Proof. keeps_port. Qed.

(** Deriving the context of a fact changes neither state nor outputs. *)
Lemma fact_context_inv f p w c o p' w' : fact_context f p w = (c, o, p', w') → o = [] ∧ p' = p.
Proof. unfold fact_context. case_decide; [destruct (pop _ _)|]; by intros [= <- <- <- <-]. Qed.

Create HintDb keeps discriminated.
#[export] Hint Resolve keeps_ret keeps_get keeps_Publish keeps_Dlq keeps_Ack keeps_Nak keeps_Save
  keeps_done : keeps.

Ltac keeps_tac :=
  repeat first
    [ apply keeps_bind; [|intros ?]
    | apply keeps_modify; intros ?; reflexivity
    | solve [auto with keeps]
    | case_match ].

Section Process.
Context (marshal_feed : Event → option string) (marshal_control : FeedControl → option string).
Context (cfg : Config).
Local Abbreviation process := (process marshal_feed marshal_control cfg).

Lemma keeps_attempts c t a i d x first n err : keeps (publish_attempts c t a i d x first n err).
Proof. revert first err. induction n; intros; simpl; keeps_tac. Qed.
Hint Resolve keeps_attempts : keeps.

Lemma keeps_fanout c e iid rs x : keeps (fanout cfg c e iid rs x).
Proof. induction rs; simpl; unfold publishWithRetry; keeps_tac. Qed.

Lemma keeps_dlqOrNak f r : keeps (dlqOrNak cfg f r).
Proof. unfold dlqOrNak, nak. destruct (_ <? _)%Z; [keeps_tac|]. destruct (f_Event f); keeps_tac. Qed.
Hint Resolve keeps_fanout keeps_dlqOrNak : keeps.

Lemma keeps_settle f : keeps (settle cfg f).
Proof. unfold settle, nak, maybeSnapshot. keeps_tac. Qed.

Lemma keeps_publish_failed f r : keeps (publish_failed cfg f r).
Proof. unfold publish_failed, nak. keeps_tac. Qed.

Lemma keeps_tombstone c t a i s : keeps (tombstone marshal_control cfg c t a i s).
Proof. unfold tombstone, publishWithRetry. keeps_tac. Qed.
Hint Resolve keeps_settle keeps_publish_failed keeps_tombstone : keeps.

(** What [process] does to the views, whatever becomes of the delivery. *)
Definition well_formed (f : Fact) (e : Event) : Prop :=
  f_Event f = Some e ∧ ev_TenantId e ≠ "" ∧ ev_EventType e ≠ "" ∧ interactionOf f ≠ "".

Definition live_apply (s : views) (f : Fact) : views :=
  match f_Event f with
  | Some e =>
      if decide (ev_TenantId e = "" ∨ ev_EventType e = "") then s
      else if decide (interactionOf f = "") then s
      else update_view (stateKey (ev_TenantId e) (interactionOf f)) (λ v, ApplyFact v e) s
  | None => s
  end.

Lemma process_views f p w r o p' w' :
  process f p w = (r, o, p', w') → p_st p' = live_apply (p_st p) f.
Proof.
  unfold FeedProjector.process. intros Hr. bind_inv Hr as Hc. apply fact_context_inv in Hc as [_ ->]. revert Hr.
  unfold process_in, live_apply. destruct (f_Event f) as [e|]; [|apply keeps_dlqOrNak].
  case_decide; [apply keeps_dlqOrNak|]. case_decide; [apply keeps_dlqOrNak|].
  intros Hr. bind_inv Hr as Hm. unfold modify_p in Hm. injection Hm as <- <- <- <-.
  bind_inv Hr as Hm. unfold get_p in Hm. injection Hm as <- <- <- <-.
  set (p1 := mkPst _ _ _) in *. transitivity (p_st p1); [|done]. revert Hr.
  match goal with |- ?m _ _ = _ → _ => enough (keeps m) as Hk by apply Hk end.
  keeps_tac.
Qed.

Lemma process_all_views fs p w rs o p' w' :
  process_all marshal_feed marshal_control cfg fs p w = (rs, o, p', w') →
  p_st p' = foldl live_apply (p_st p) fs.
Proof.
  revert p w rs o p' w'. induction fs as [|f fs IH]; intros p w rs o p' w' H; simpl in *.
  - by apply keeps_ret in H.
  - bind_inv H as H1. apply process_views in H1. bind_inv H as H2. apply IH in H2.
    apply keeps_ret in H. congruence.
Qed.

(** ** Redelivery and takeover *)

(** Deliveries of the same message of the stream. *)
Definition same_fact (f g : Fact) : Prop :=
  f_Event f = f_Event g ∧ f_iid f = f_iid g ∧ f_StreamSeq f = f_StreamSeq g.

(** The serial consumer (one message in flight): every message is delivered one
    or more times before the next one. *)
Inductive serial : list Fact → list Fact → Prop :=
| serial_nil : serial [] []
| serial_cons f ds fs rest :
    ds ≠ [] → Forall (same_fact f) ds → serial fs rest → serial (f :: fs) (ds ++ rest).

Lemma view_of_wf s key : views_wf s → view_wf (view_of s key).
Proof.
  intros Hs. unfold view_of. destruct (s !! key) as [v|] eqn:E; [by apply (Hs key)|apply view_wf_empty].
Qed.

Lemma views_wf_update s key e : views_wf s → views_wf (update_view key (λ v, ApplyFact v e) s).
Proof. intros. apply map_Forall_insert_2; [|done]. by apply view_wf_apply, view_of_wf. Qed.

Lemma views_wf_live s f : views_wf s → views_wf (live_apply s f).
Proof. intros. unfold live_apply. repeat case_match; auto using views_wf_update. Qed.

Lemma views_wf_fold s fs : views_wf s → views_wf (foldl live_apply s fs).
Proof. revert s. induction fs; simpl; auto using views_wf_live. Qed.

Lemma live_apply_idem s f : views_wf s → live_apply (live_apply s f) f = live_apply s f.
Proof.
  intros Hs. unfold live_apply. repeat case_match; try done. unfold update_view, view_of.
  rewrite insert_insert_eq, lookup_insert_eq. simpl. by rewrite ApplyFact_idem by (by apply view_of_wf).
Qed.

Lemma live_apply_same s f g : same_fact f g → live_apply s f = live_apply s g.
Proof. intros (He & Hi & _). unfold live_apply, interactionOf. by rewrite He, Hi. Qed.

Lemma live_redelivered s f ds :
  views_wf s → ds ≠ [] → Forall (same_fact f) ds → foldl live_apply s ds = live_apply s f.
Proof.
  intros Hs Hne Hall. destruct ds as [|d ds]; [done|]. apply Forall_cons in Hall as [Hd Hall].
  simpl. rewrite <-(live_apply_same s f d) by done. clear Hne.
  induction Hall as [|g ds Hg Hall IH]; simpl; [done|].
  rewrite <-(live_apply_same _ f g), live_apply_idem by done. apply IH.
Qed.

Lemma live_serial s fs ds :
  views_wf s → serial fs ds → foldl live_apply s ds = foldl live_apply s fs.
Proof.
  intros Hs Hser. revert s Hs. induction Hser as [|f ds fs rest Hne Hall Hser IH]; intros s Hs; [done|].
  simpl. rewrite foldl_app, (live_redelivered s f ds) by done. by apply IH, views_wf_live.
Qed.

(** Views agree wherever a well-formed fact can look. *)
Definition agree (s s' : views) : Prop :=
  ∀ t i, t ≠ "" → i ≠ "" → no_slash t → no_slash i →
    view_of s (stateKey t i) = view_of s' (stateKey t i).

Lemma view_of_update s key g k :
  view_of (update_view key g s) k = if decide (key = k) then g (view_of s k) else view_of s k.
Proof. unfold update_view, view_of. rewrite lookup_insert. case_decide; [by subst|done]. Qed.

Lemma key_no_empty_iid T t i : i ≠ "" → no_slash i → stateKey T "" = stateKey t i → False.
Proof.
  unfold stateKey. intros Hne Hi He.
  destruct (tok_sep_inj_r "/" T "" t i) as [_ ?]; [done|exact Hi|exact He|congruence].
Qed.

Lemma key_no_empty_tenant x t i : t ≠ "" → no_slash t → stateKey "" x = stateKey t i → False.
Proof.
  unfold stateKey. intros Hne Ht He. destruct t as [|c t]; [done|]. simpl in He.
  injection He as <- _. done.
Qed.

Lemma ApplyFact_untyped v e : ev_EventType e = "" → ApplyFact v e = v.
Proof. intros He. apply ApplyFact_other. by rewrite He. Qed.

Lemma agree_step s s' f : agree s s' → agree (live_apply s f) (fold_tail s' [f]).
Proof.
  intros Ha t i Hne Hi Ht Hi'. specialize (Ha t i Hne Hi Ht Hi'). unfold live_apply. simpl.
  destruct (f_Event f) as [e|]; [|done]. rewrite view_of_update.
  destruct (decide (ev_TenantId e = "" ∨ ev_EventType e = "")) as [[He|He]|];
    [| |destruct (decide (interactionOf f = "")) as [He|]].
  - rewrite decide_False; [done|]. rewrite He. exact (key_no_empty_tenant _ t i Hne Ht).
  - rewrite ApplyFact_untyped by done. by case_decide.
  - rewrite decide_False; [done|]. rewrite He. exact (key_no_empty_iid _ t i Hi Hi').
  - rewrite view_of_update. case_decide; congruence.
Qed.

Lemma fold_tail_cons s f fs : fold_tail s (f :: fs) = fold_tail (fold_tail s [f]) fs.
Proof. done. Qed.

Lemma agree_fold s s' fs : agree s s' → agree (foldl live_apply s fs) (fold_tail s' fs).
Proof.
  revert s s'. induction fs as [|f fs IH]; intros s s' Ha; [done|].
  rewrite fold_tail_cons. simpl. apply IH. by apply agree_step.
Qed.

Lemma fold_tail_filter s fs : fold_tail s (filter (λ f, is_Some (f_Event f)) fs) = fold_tail s fs.
Proof.
  revert s. induction fs as [|f fs IH]; intros s; [done|]. rewrite filter_cons.
  rewrite (fold_tail_cons s f fs). case_decide as Hf.
  - by rewrite (fold_tail_cons s f), IH.
  - rewrite IH. simpl. destruct (f_Event f); [by destruct Hf; eexists|done].
Qed.

(** C28: takeover. A process handles messages [older], then messages [newer], each
    delivered any number of times with any outcome (acknowledged, nacked, sent to
    the dead-letter queue). A standby that hydrates from the snapshot written
    after [older] and folds the decodable part of [newer] ends with the same view
    of every interaction, and with the ack floor as its position. *)
Theorem takeover_equivalent older newer d1 d2 p w r1 o1 p1 w1 r2 o2 p2 w2 floor snapSeq q :
  p_st p = newState → serial older d1 → serial newer d2 →
  process_all marshal_feed marshal_control cfg d1 p w = (r1, o1, p1, w1) →
  process_all marshal_feed marshal_control cfg d2 p1 w1 = (r2, o2, p2, w2) →
  (snapSeq < floor)%N →
  ∃ p', Hydrate (Some floor) (λ _, Some (Some (snapshot (p_st p1)), snapSeq))
          (λ _ _, Some (filter (λ f, is_Some (f_Event f)) newer)) q = Some p' ∧
    agree (p_st p2) (p_st p') ∧ p_lastAckSeq p' = floor.
Proof.
  intros Hp Hs1 Hs2 H1 H2 Hlt. apply process_all_views in H1, H2.
  assert (views_wf newState) as Hwf0 by apply map_Forall_empty.
  rewrite Hp, (live_serial _ older) in H1 by done.
  assert (views_wf (p_st p1)) as Hwf1 by (rewrite H1; by apply views_wf_fold).
  rewrite (live_serial _ newer) in H2 by done.
  unfold Hydrate. rewrite restore_snapshot, (proj2 (N.ltb_lt _ _) Hlt) by done.
  eexists. split; [done|]. split; [|done]. simpl. rewrite fold_tail_filter, H2. by apply agree_fold.
Qed.
End Process.

Lemma takeover_equivalent_witness :
  let mf := λ e : Event, Some (ev_EventId e) in
  let mc := λ c : FeedControl, Some (fc_InteractionId c) in
  let cfg := withDefaults (mkPConfig 0 0 0 0 0 0 "" 0) in
  let j := NewFact (sample_event "participant.joined" "ann" 2) "i1" 2 in
  let l := NewFact (sample_event "participant.left" "ann" 3) "i1" 3 in
  let run1 := process_all mf mc cfg [j; j] (mkPst newState 0 0) calm in
  let run2 := process_all mf mc cfg [l] run1.1.2 run1.2 in
  ∃ p', Hydrate (Some 3%N) (λ _, Some (Some (snapshot (p_st run1.1.2)), 2%N)) (λ _ _, Some [l])
          (mkPst newState 0 0) = Some p' ∧
    agree (p_st run2.1.2) (p_st p') ∧ p_lastAckSeq p' = 3%N.
Proof.
  intros mf mc cfg j l run1 run2.
  apply (takeover_equivalent mf mc cfg [j] [l] [j; j] [l] (mkPst newState 0 0) calm
    run1.1.1.1 run1.1.1.2 run1.1.2 run1.2 run2.1.1.1 run2.1.1.2 run2.1.2 run2.2 3 2).
  - reflexivity.
  - apply (serial_cons j [j; j] [] []); [done|by repeat constructor|constructor].
  - apply (serial_cons l [l] [] []); [done|by repeat constructor|constructor].
  - rewrite <-!surjective_pairing. reflexivity.
  - rewrite <-!surjective_pairing. reflexivity.
  - lia.
Defined.

(** * Acknowledgement *)

(** A message on the feed of agent [a], whatever trace it carries. *)
Definition published (t a i d x : string) (o : list output) : Prop := ∃ h, OPublish t a i d x h ∈ o.

Lemma published_mono t a i d x o o' : (∀ y, y ∈ o → y ∈ o') → published t a i d x o → published t a i d x o'.
Proof. intros Ho [h ?]. exists h. auto. Qed.

Lemma published_l t a i d x o o' : published t a i d x o → published t a i d x (o ++ o').
Proof. apply published_mono. intros. apply elem_of_app. by left. Qed.
Lemma published_r t a i d x o o' : published t a i d x o' → published t a i d x (o ++ o').
Proof. apply published_mono. intros. apply elem_of_app. by right. Qed.

(** A computation that acknowledges nothing. *)
Definition no_ack {A} (m : PM A) : Prop :=
  ∀ p w a o p' w', m p w = (a, o, p', w') → ∀ s, OAck s ∉ o.

Lemma no_ack_ret {A} (a : A) : no_ack (mret a).
Proof. intros p w ? ? ? ? H s. unfold mret, PM_ret in H. injection H as <- <- <- <-. apply not_elem_of_nil. Qed.

Lemma no_ack_bind {A B} (m : PM A) (g : A → PM B) : no_ack m → (∀ a, no_ack (g a)) → no_ack (m ≫= g).
Proof.
  intros Hm Hg p w a o p' w' H s. bind_inv H as H1. rewrite elem_of_app.
  intros [Hin|Hin]; [by eapply Hm in Hin|by eapply Hg in Hin].
Qed.

Lemma no_ack_modify g : no_ack (modify_p g).
Proof. intros p w ? ? ? ? H s. unfold modify_p in H. injection H as <- <- <- <-. apply not_elem_of_nil. Qed.

Ltac no_ack_port := intros p w ? ? ? ? H s; unfold sink_Publish, src_Nak, snaps_Save, ctx_done, get_p in H;
  try destruct (pop _ _) as [[] ?]; injection H as <- <- <- <-; set_solver.
Lemma no_ack_Publish c t a i d x : no_ack (sink_Publish c t a i d x). Proof. no_ack_port. Qed.
Lemma no_ack_Nak f : no_ack (src_Nak f). Proof. no_ack_port. Qed.
Lemma no_ack_Save q sn : no_ack (snaps_Save q sn). Proof. no_ack_port. Qed.
Lemma no_ack_done : no_ack ctx_done. Proof. no_ack_port. Qed.
Lemma no_ack_get : no_ack get_p. Proof. no_ack_port. Qed.

Create HintDb no_ack discriminated.
#[export] Hint Resolve no_ack_ret no_ack_modify no_ack_Publish no_ack_Nak no_ack_Save no_ack_done
  no_ack_get : no_ack.

Ltac no_ack_tac :=
  repeat first [ apply no_ack_bind; [|intros ?] | solve [auto with no_ack] | case_match ].

Section Ack.
Context (marshal_feed : Event → option string) (marshal_control : FeedControl → option string).
Context (cfg : Config).
Hypothesis Hretry : (0 < PublishRetry cfg)%Z.
Local Abbreviation process := (process marshal_feed marshal_control cfg).

Lemma no_ack_attempts c t a i d x first n err : no_ack (publish_attempts c t a i d x first n err).
Proof. revert first err. induction n; intros; simpl; no_ack_tac. Qed.
Hint Resolve no_ack_attempts : no_ack.

Lemma no_ack_fanout c e iid rs x : no_ack (fanout cfg c e iid rs x).
Proof. induction rs; simpl; unfold publishWithRetry; no_ack_tac. Qed.

Lemma no_ack_tombstone c t a i s : no_ack (tombstone marshal_control cfg c t a i s).
Proof. unfold tombstone, publishWithRetry. no_ack_tac. Qed.

Lemma no_ack_nak f : no_ack (nak f).
Proof. unfold nak. no_ack_tac. Qed.

Lemma no_ack_maybeSnapshot s : no_ack (maybeSnapshot cfg s).
Proof. unfold maybeSnapshot. no_ack_tac. Qed.

(** A publish that reports success happened. *)
Lemma attempts_published c t a i d x first n err p w o p' w' :
  publish_attempts c t a i d x first n err p w = (None, o, p', w') →
  (n = 0 ∧ err = None) ∨ published t a i d x o.
Proof.
  revert first err p w o p' w'. induction n as [|n IH]; intros first err p w o p' w' H; simpl in H.
  { left. split; [done|]. unfold mret, PM_ret in H. by injection H as -> <- <- <-. }
  right. bind_inv H as H1. destruct a0; [unfold mret, PM_ret in H; congruence|].
  bind_inv H as H2. unfold sink_Publish in H2. destruct (pop Done (w_pub w0)) as [[] pubs]; simpl in H2;
    injection H2 as <- <- <- <-; [unfold published; set_solver|..]; apply IH in H as [[_ ?]|[h Hin]]; try done; exists h; set_solver.
Qed.

Lemma publish_published c t a i d x p w o p' w' :
  publishWithRetry cfg c t a i d x p w = (None, o, p', w') → published t a i d x o.
Proof. intros H. apply attempts_published in H as [[? _]|?]; [lia|done]. Qed.

Lemma fanout_published c e iid rs x p w o p' w' :
  fanout cfg c e iid rs x p w = (None, o, p', w') →
  ∀ a, a ∈ rs → published (ev_TenantId e) a iid (feedDedup (ev_TenantId e) a iid (ev_Sequence e)) x o.
Proof.
  revert p w o p' w'. induction rs as [|r rs IH]; intros p w o p' w' H a Hin; simpl in H.
  { by apply not_elem_of_nil in Hin. }
  bind_inv H as H1. bind_inv H as H2. unfold mret, PM_ret in H. injection H as Hr <- <- <-.
  destruct a0; [done|]. subst a1. apply elem_of_cons in Hin as [->|Hin].
  - apply publish_published in H1 as [h ?]. exists h. set_solver.
  - destruct (IH _ _ _ _ _ H2 a Hin) as [h ?]. exists h. set_solver.
Qed.

Definition dead_lettered (o : list output) : Prop := ∃ t r e s, ODlq t r e s ∈ o.

(** An acknowledgement on the retry path follows a dead-letter publish. *)
Lemma dlqOrNak_ack f reason p w r o p' w' s :
  dlqOrNak cfg f reason p w = (r, o, p', w') → OAck s ∈ o → dead_lettered o.
Proof.
  unfold dlqOrNak. destruct (_ <? _)%Z.
  { intros H Hin. by apply (no_ack_nak f) in H as []%(λ H', H' s Hin). }
  destruct (match f_Event f with Some e => _ | None => _ end) as [[t ev] sq]. intros H Hin.
  bind_inv H as H1. unfold sink_Dlq in H1. destruct (pop Done (w_dlq w)) as [[] l]; simpl in H1;
    injection H1 as <- <- <- <-; simpl in *; [exists t, reason, ev, sq; by left..|].
  by apply (no_ack_nak f) in H as []%(λ H', H' s Hin).
Qed.

Lemma publish_failed_ack f reason p w r o p' w' s :
  publish_failed cfg f reason p w = (r, o, p', w') → OAck s ∈ o → dead_lettered o.
Proof.
  unfold publish_failed. intros H Hin. bind_inv H as H1.
  apply elem_of_app in Hin as [Hin|Hin]; [by apply no_ack_done in H1 as []%(λ H', H' s Hin)|].
  destruct a.
  - by apply (no_ack_nak f) in H as []%(λ H', H' s Hin).
  - destruct (dlqOrNak_ack _ _ _ _ _ _ _ _ _ H Hin) as (t & r' & e & sq & Hd).
    exists t, r', e, sq. set_solver.
Qed.

Lemma settle_ack f p w r o p' w' s :
  settle cfg f p w = (r, o, p', w') → OAck s ∈ o → ∃ o2, o = OAck (f_StreamSeq f) :: o2.
Proof.
  unfold settle. intros H Hin. bind_inv H as H1. unfold ctx_done in H1.
  destruct (pop false (w_done w)) as [[] l]; injection H1 as <- <- <- <-; simpl in *.
  { by apply (no_ack_nak f) in H as []%(λ H', H' s Hin). }
  bind_inv H as H2. unfold src_Ack in H2. simpl in H2.
  destruct (pop Done (w_ack w)) as [[] l2]; injection H2 as <- <- <- <-; simpl in *; [by eexists..|].
  unfold mret, PM_ret in H. injection H as <- <- <- <-. by apply not_elem_of_nil in Hin.
Qed.

(** What a settled delivery has published before its acknowledgement. *)
Definition delivered (f : Fact) (vs : views) (o1 : list output) : Prop :=
  ∃ e payload, well_formed f e ∧ marshal_feed e = Some payload ∧
    let iid := interactionOf f in
    (∀ a, a ∈ coveredBy (view_of vs (stateKey (ev_TenantId e) iid)) (ev_Sequence e) →
       published (ev_TenantId e) a iid (feedDedup (ev_TenantId e) a iid (ev_Sequence e)) payload o1) ∧
    (ev_EventType e = "participant.left" →
       ∃ control, marshal_control (mkFeedControl SchemaV1 controlRevoked iid (ev_Sequence e)) = Some control ∧
       published (ev_TenantId e) (ev_ActorId e) iid
         (revokedDedup (ev_TenantId e) (ev_ActorId e) iid (ev_Sequence e)) control o1).

(** The fan-out, the tombstone and the settlement of a well-formed fact. *)
Lemma publish_and_settle c f e payload p w r o p' w' s :
  well_formed f e → marshal_feed e = Some payload →
  (perr ← fanout cfg c e (interactionOf f)
            (coveredBy (view_of (p_st p) (stateKey (ev_TenantId e) (interactionOf f))) (ev_Sequence e)) payload;
   match perr with
   | Some _ => publish_failed cfg f "feed publish failed"
   | None =>
       terr ← (if decide (ev_EventType e = "participant.left")
               then tombstone marshal_control cfg c (ev_TenantId e) (ev_ActorId e) (interactionOf f) (ev_Sequence e)
               else mret None);
       match terr with
       | Some _ => publish_failed cfg f "revoked tombstone failed"
       | None => settle cfg f
       end
   end) p w = (r, o, p', w') → OAck s ∈ o →
  dead_lettered o ∨
  ∃ o1 o2, o = o1 ++ OAck (f_StreamSeq f) :: o2 ∧ delivered f (p_st p') o1.
Proof.
  intros Hwf Hpay H Hin.
  assert (p_st p' = p_st p) as Hst.
  { revert H. match goal with |- ?m _ _ = _ → _ => enough (keeps m) as Hk by apply Hk end.
    apply keeps_bind; [apply keeps_fanout|]. intros [?|]; [apply keeps_publish_failed|].
    apply keeps_bind; [case_decide; [apply keeps_tombstone|apply keeps_ret]|].
    intros [?|]; [apply keeps_publish_failed|apply keeps_settle]. }
  bind_inv H as Hf. apply elem_of_app in Hin as [Hin|Hin].
  { by apply (no_ack_fanout c e (interactionOf f)) in Hf as []%(λ H', H' s Hin). }
  destruct a as [?|].
  { left. destruct (publish_failed_ack _ _ _ _ _ _ _ _ _ H Hin) as (t & r' & ev & sq & Hd).
    exists t, r', ev, sq. set_solver. }
  bind_inv H as Ht. apply elem_of_app in Hin as [Hin|Hin].
  { case_decide; [by apply no_ack_tombstone in Ht as []%(λ H', H' s Hin)|
      by apply no_ack_ret in Ht as []%(λ H', H' s Hin)]. }
  destruct a as [?|].
  { left. destruct (publish_failed_ack _ _ _ _ _ _ _ _ _ H Hin) as (t & r' & ev & sq & Hd).
    exists t, r', ev, sq. set_solver. }
  right. destruct (settle_ack _ _ _ _ _ _ _ _ H Hin) as [o3 ->].
  eexists (_ ++ _), o3. split; [by rewrite <-app_assoc|]. exists e, payload. rewrite Hst.
  split; [done|]. split; [done|]. split.
  - intros a Ha. apply published_l. by eapply fanout_published.
  - intros Hleft. rewrite decide_True in Ht by done. unfold tombstone in Ht.
    destruct (marshal_control _) as [ctl|]; [|unfold mret, PM_ret in Ht; congruence].
    exists ctl. split; [done|]. apply published_r. by eapply publish_published.
Qed.

(** No fact is acknowledged unprojected. Whatever the ports answer, if
    processing a delivery acknowledges it then either it was first written to the
    dead-letter queue, or it was published to the feed of every recipient of the
    folded view (and, for a leave, its revocation to the leaver) before the
    acknowledgement. *)
Theorem ack_after_delivery f p w r o p' w' s :
  process f p w = (r, o, p', w') → OAck s ∈ o →
  dead_lettered o ∨
  ∃ o1 o2, o = o1 ++ OAck (f_StreamSeq f) :: o2 ∧ delivered f (p_st p') o1.
Proof.
  unfold FeedProjector.process. intros H Hin. bind_inv H as Hc. apply fact_context_inv in Hc as [-> ->]. simpl in Hin |- *.
  unfold process_in in H. destruct (f_Event f) as [e|] eqn:He; [|left; by eapply dlqOrNak_ack].
  case_decide as Hb; [left; by eapply dlqOrNak_ack|].
  assert (ev_TenantId e ≠ "" ∧ ev_EventType e ≠ "") as [Ht Hty] by naive_solver.
  case_decide as Hi; [left; by eapply dlqOrNak_ack|].
  bind_inv H as Hm. unfold modify_p in Hm. injection Hm as <- <- <- <-.
  bind_inv H as Hm. unfold get_p in Hm. injection Hm as <- <- <- <-. simpl in Hin.
  destruct (marshal_feed e) as [payload|] eqn:Hp; [|left; by eapply dlqOrNak_ack].
  by eapply (publish_and_settle _ f e payload).
Qed.
End Ack.

Lemma ack_after_delivery_witness :
  let mf := λ e : Event, Some (ev_EventId e) in
  let mc := λ c : FeedControl, Some (fc_InteractionId c) in
  let cfg := withDefaults (mkPConfig 0 0 0 0 0 0 "" 0) in
  let f := NewFact (sample_event "participant.joined" "ann" 2) "i1" 9 in
  let run := process mf mc cfg f (mkPst newState 0 0) (mkWorld [Refused; Lost; Done] [] [] [] [] [] None []) in
  dead_lettered run.1.1.2 ∨
  ∃ o1 o2, run.1.1.2 = o1 ++ OAck 9 :: o2 ∧ delivered mf mc f (p_st run.1.2) o1.
Proof.
  intros mf mc cfg f run.
  apply (ack_after_delivery mf mc cfg eq_refl f (mkPst newState 0 0)
    (mkWorld [Refused; Lost; Done] [] [] [] [] [] None []) run.1.1.1 run.1.1.2 run.1.2 run.2 9).
  - rewrite <-!surjective_pairing. reflexivity.
  - vm_compute. right. right. by left.
Defined.

(** * Deduplication ids of feed messages *)

(** the broker's deduplication of feed messages never merges two different
    deliveries: the id determines tenant, agent, interaction and sequence even for
    agents whose names contain dots, and a revocation's id is never a message's. *)
Theorem feed_dedup_distinct t a i s t' a' i' s' :
  tok t → tok i → tok t' → tok i' →
  (feedDedup t a i s = feedDedup t' a' i' s' → t = t' ∧ a = a' ∧ i = i' ∧ s = s') ∧
  (revokedDedup t a i s = revokedDedup t' a' i' s' → t = t' ∧ a = a' ∧ i = i' ∧ s = s') ∧
  feedDedup t a i s ≠ revokedDedup t' a' i' s'.
Proof.
  intros Ht Hi Ht' Hi'.
  assert (∀ t a i s, feedDedup t a i s = ((t +:+ String "." a) +:+ String "." i) +:+ String "." (fmt_d s)) as Hd.
  { intros. unfold feedDedup. simpl. by rewrite !str_app_assoc. }
  assert (feedDedup t a i s = feedDedup t' a' i' s' → t = t' ∧ a = a' ∧ i = i' ∧ s = s') as Hinj.
  { rewrite !Hd. intros [He Hs]%tok_sep_inj_r; [|apply fmt_d_no_dot..].
    apply tok_sep_inj_r in He as [He ->]; [|done..].
    apply (tok_sep_inj ".") in He as [-> ->]; [|done..]. by apply fmt_d_inj in Hs as ->. }
  split_and!; [done| |].
  - unfold revokedDedup. intros He. apply str_app_inj_r in He. auto.
  - rewrite Hd. unfold revokedDedup. simpl.
    intros [_ He]%(tok_sep_inj_r "." _ _ _ "revoked"); [|apply fmt_d_no_dot|done].
    assert (has_char "r" (fmt_d s) = false) as Hr.
    { apply fmt_d_no_char; [intros n; unfold pretty_N_char; by repeat case_match|done]. }
    by rewrite He in Hr.
Qed.

Lemma feed_dedup_distinct_witness :
  feedDedup "acme" "a.b" "i1" 7 = "acme.a.b.i1.7" ∧
  feedDedup "acme" "a" "i1" 7 ≠ revokedDedup "acme" "a" "i1" 7.
Proof.
  split; [reflexivity|].
  apply (feed_dedup_distinct "acme" "a" "i1" 7 "acme" "a" "i1" 7); reflexivity.
Defined.
