(* ===== verification/FeedOutputs.v ===== *)
(** Everything the processing of one delivery may put out: to whom a message is
    published and with which contents, what a dead letter names, which snapshot is
    written. *)

From S2P Require Import Prelude Wire Subjects Membership Trace FeedProjector FeedTheorems.

(** A computation that leaves the views alone and whose outputs satisfy [P]. *)
Definition emits (P : views → output → Prop) {A} (m : PM A) : Prop :=
  ∀ p w a o p' w', m p w = (a, o, p', w') → p_st p' = p_st p ∧ ∀ x, x ∈ o → P (p_st p) x.

Section Emits.
Context (P : views → output → Prop).

Lemma emits_ret {A} (a : A) : emits P (mret a).
Proof. intros p w ? ? ? ? H. unfold mret, PM_ret in H. injection H as <- <- <- <-. split; [done|]. by intros ? ?%elem_of_nil. Qed.

Lemma emits_bind {A B} (m : PM A) (g : A → PM B) : emits P m → (∀ a, emits P (g a)) → emits P (m ≫= g).
Proof.
  intros Hm Hg p w b o p' w' H. apply PM_bind_inv in H as (a & o1 & p1 & w1 & o2 & H1 & H2 & ->).
  apply Hm in H1 as [Hs1 H1]. apply Hg in H2 as [Hs2 H2]. split; [congruence|].
  intros x [Hx|Hx]%elem_of_app; [by apply H1|]. rewrite <-Hs1. by apply H2.
Qed.

Lemma emits_modify g : (∀ p, p_st (g p) = p_st p) → emits P (modify_p g).
Proof. intros Hg p w ? ? ? ? H. unfold modify_p in H. injection H as <- <- <- <-. split; [done|]. by intros ? ?%elem_of_nil. Qed.

Lemma emits_get : emits P get_p.
Proof. intros p w ? ? ? ? H. unfold get_p in H. injection H as <- <- <- <-. split; [done|]. by intros ? ?%elem_of_nil. Qed.

(** [get_p] followed by a use of the state it read. *)
Lemma emits_get_bind {B} (g : pst → PM B) :
  (∀ p, emits (λ vs x, vs = p_st p → P vs x) (g p)) → emits P (get_p ≫= g).
Proof.
  intros Hg p w b o p' w' H. apply PM_bind_inv in H as (a & o1 & p1 & w1 & o2 & H1 & H2 & ->).
  unfold get_p in H1. injection H1 as <- <- <- <-. apply Hg in H2 as [? H2]. split; [done|].
  intros x Hx. by apply H2.
Qed.
End Emits.

Ltac emits_port :=
  let H := fresh "H" in let x := fresh "x" in let Hx := fresh "Hx" in
  intros ? ? ? ? ? ? H; unfold sink_Publish, sink_Dlq, src_Ack, src_Nak, snaps_Save, ctx_done in H;
  destruct (pop _ _) as [[] ?]; injection H as <- <- <- <-; (split; [done|]);
  intros x Hx; repeat (apply elem_of_cons in Hx as [->|Hx]); try (by apply elem_of_nil in Hx); simpl; auto.

Lemma emits_mono {A} (P P' : views → output → Prop) (m : PM A) :
  (∀ vs x, P vs x → P' vs x) → emits P m → emits P' m.
Proof. intros HP Hm p w a o p' w' H. apply Hm in H as [? H]. split; [done|]. auto. Qed.

Create HintDb emits discriminated.
#[export] Hint Resolve emits_ret emits_get : emits.
Ltac emits_tac :=
  repeat first
    [ solve [auto with emits]
    | apply emits_bind; [|intros ?]
    | apply emits_modify; intros ?; reflexivity
    | case_match ].

Section Outputs.
Context (marshal_feed : Event → option string) (marshal_control : FeedControl → option string).
Context (cfg : Config).

(** What the delivery [f] may put out, [vs] being the views with it folded in and
    [hdr] the header of the context it is processed with. *)
Definition emitted (hdr : option string) (f : Fact) (vs : views) (x : output) : Prop :=
  match x with
  | OPublish t a i d payload h =>
      h = hdr ∧ ∃ e, well_formed f e ∧ t = ev_TenantId e ∧ i = interactionOf f ∧
        ((a ∈ coveredBy (view_of vs (stateKey t i)) (ev_Sequence e) ∧ d = feedDedup t a i (ev_Sequence e) ∧
          marshal_feed e = Some payload) ∨
         (ev_EventType e = "participant.left" ∧ a = ev_ActorId e ∧ d = revokedDedup t a i (ev_Sequence e) ∧
          marshal_control (mkFeedControl SchemaV1 controlRevoked i (ev_Sequence e)) = Some payload))
  | ODlq t _ evID seq =>
      (t, evID, seq) = match f_Event f with
                       | Some e => (ev_TenantId e, ev_EventId e, ev_Sequence e)
                       | None => ("", "", 0%Z)
                       end
  | OSave q sn => q = f_StreamSeq f ∧ sn = snapshot vs
  | OAck q | ONak q => q = f_StreamSeq f
  end.

Local Abbreviation emit hdr f m := (emits (emitted hdr f) m).

Lemma emits_done P : emits P ctx_done. Proof. emits_port. Qed.
Lemma emits_nak hdr f : emit hdr f (nak f).
Proof. unfold nak. apply emits_bind; [emits_port|]. intros ?. apply emits_ret. Qed.
Lemma emits_Ack hdr f : emit hdr f (src_Ack f). Proof. emits_port. Qed.
Hint Resolve emits_done emits_nak emits_Ack : emits.

Lemma emits_dlqOrNak hdr f reason : emit hdr f (dlqOrNak cfg f reason).
Proof.
  unfold dlqOrNak. destruct (_ <? _)%Z; [auto with emits|].
  destruct (match f_Event f with Some _ => _ | None => _ end) as [[t evID] seq] eqn:E.
  apply emits_bind; [emits_port; simpl; by rewrite E|]. intros []; simpl; [|auto with emits].
  emits_tac.
Qed.
Hint Resolve emits_dlqOrNak : emits.

Lemma emits_publish_failed hdr f reason : emit hdr f (publish_failed cfg f reason).
Proof. unfold publish_failed. emits_tac. Qed.

Lemma emits_maybeSnapshot hdr f : emit hdr f (maybeSnapshot cfg (f_StreamSeq f)).
Proof.
  unfold maybeSnapshot. apply emits_bind; [apply emits_modify; by intros []|]. intros _. apply emits_get_bind. intros p.
  case_match; [apply emits_ret|]. apply emits_bind; [emits_port; by intros ->|]. intros []; [|apply emits_ret].
  apply emits_modify. by intros [].
Qed.

Lemma emits_settle hdr f : emit hdr f (settle cfg f).
Proof.
  unfold settle. apply emits_bind; [auto with emits|]. intros []; [auto with emits|].
  apply emits_bind; [auto with emits|]. intros []; simpl; [|auto with emits].
  apply emits_bind; [apply emits_modify; by intros []|]. intros _.
  apply emits_bind; [apply emits_maybeSnapshot|]. intros _. auto with emits.
Qed.

(** Publishing one message, with retries. *)
Lemma emits_publish P c t a i d payload :
  (∀ vs, P vs (OPublish t a i d payload (InjectTraceparent c))) → emits P (publishWithRetry cfg c t a i d payload).
Proof.
  intros HP. unfold publishWithRetry. generalize true (@None perr). induction (Z.to_nat _) as [|n IH]; intros b err; simpl.
  - apply emits_ret.
  - apply emits_bind; [destruct b; [apply emits_ret|apply emits_done]|]. intros []; [apply emits_ret|].
    apply emits_bind; [emits_port|]. intros []; [apply emits_ret|apply IH].
Qed.

Lemma emits_fanout P c e iid rs payload :
  (∀ vs a, a ∈ rs → P vs (OPublish (ev_TenantId e) a iid (feedDedup (ev_TenantId e) a iid (ev_Sequence e)) payload
                           (InjectTraceparent c))) →
  emits P (fanout cfg c e iid rs payload).
Proof.
  induction rs as [|a rs IH]; intros HP; simpl; [apply emits_ret|].
  apply emits_bind; [apply emits_publish; intros; apply HP; by left|]. intros r1.
  apply emits_bind; [apply IH; intros; apply HP; by right|]. intros r2. apply emits_ret.
Qed.

(** Everything a delivery puts out. *)
Lemma process_in_emits c f p w r o p' w' :
  process_in marshal_feed marshal_control cfg c f p w = (r, o, p', w') →
  ∀ x, x ∈ o → emitted (InjectTraceparent c) f (p_st p') x.
Proof.
  intros H. set (hdr := InjectTraceparent c).
  assert (∀ m, emit hdr f m → m p w = (r, o, p', w') → ∀ x, x ∈ o → emitted hdr f (p_st p') x) as Huse.
  { intros m Hm Hr. apply Hm in Hr as [-> ?]. done. }
  revert H. unfold process_in. destruct (f_Event f) as [e|] eqn:He; [|apply Huse; auto with emits].
  case_decide as Hb; [apply Huse; auto with emits|]. case_decide as Hi; [apply Huse; auto with emits|].
  assert (well_formed f e) as Hwf by (split_and!; [done|naive_solver..|done]).
  intros H. apply PM_bind_inv in H as (u & o1 & p1 & w1 & o2 & Hm & H & ->).
  unfold modify_p in Hm. injection Hm as <- <- <- <-.
  apply PM_bind_inv in H as (a & o3 & p2 & w2 & o4 & Hm & H & ->).
  unfold get_p in Hm. injection Hm as <- <- <- <-. simpl in *.
  set (p1 := mkPst _ _ _) in *.
  match type of H with ?m p1 _ = _ => enough (emits (λ vs x, vs = p_st p1 → emitted hdr f vs x) m) as Hem end.
  { apply Hem in H as [Hst H]. intros x Hx. rewrite Hst. by apply H. }
  clear H. destruct (marshal_feed e) as [payload|] eqn:Hp.
  2: { eapply emits_mono; [|apply (emits_dlqOrNak hdr)]. auto. }
  apply emits_bind.
  { apply emits_fanout. intros vs a Ha ->. split; [done|]. exists e. split_and!; [done..|]. left. split_and!; done. }
  intros [?|]; [eapply emits_mono; [|apply (emits_publish_failed hdr)]; auto|].
  apply emits_bind.
  { case_decide as Hl; [|apply emits_ret]. unfold tombstone. destruct (marshal_control _) as [ctl|] eqn:Hc; [|apply emits_ret].
    apply emits_publish. intros vs ->. split; [done|]. exists e. split_and!; [done..|]. right. split_and!; done. }
  intros [?|]; (eapply emits_mono; [|first [apply (emits_publish_failed hdr)|apply (emits_settle hdr)]]); auto.
Qed.

Lemma process_emits f p w r o p' w' :
  process marshal_feed marshal_control cfg f p w = (r, o, p', w') →
  ∀ x, x ∈ o → emitted (InjectTraceparent (fact_context f p w).1.1.1) f (p_st p') x.
Proof.
  unfold process. intros H. apply PM_bind_inv in H as (c & o1 & p1 & w1 & o2 & Hc & H & ->). rewrite Hc.
  apply fact_context_inv in Hc as [-> ->]. exact (process_in_emits _ _ _ _ _ _ _ _ H).
Qed.
End Outputs.
