(* ===== verification/Fence.v ===== *)
(** The projector's lease discipline (internal/projector/projector.go): the fence
    between the renew loop and the data loop, the renew budget, and the defaults
    of the configuration. *)

From S2P Require Import Prelude Wire FeedProjector.

(** * The fence *)

(** [fence]: contexts are numbered; [fe_cur] is the one [cancel] belongs to, with
    whether it has been cancelled. [fe_wakeup] counts the replaced channels: a
    waiter holds the number it read and wakes when it is outdated. [fe_done] is
    the parent context's state. *)
Record fence := mkFence {
  fe_paused : bool;
  fe_lost : option string;
  fe_cur : option (nat * bool);
  fe_next : nat;
  fe_wakeup : nat;
  fe_done : bool;
}.

Definition newFence : fence := mkFence false None None 0 0 false.

Definition cancel_cur (c : option (nat * bool)) : option (nat * bool) := (λ p, (p.1, true)) <$> c.

(** One pass of the loop of [begin]: a new context, the end, or waiting for the
    channel that was current. *)
Inductive begin_res := BCtx (ctx : nat) | BExit | BWait (chan : nat).

Definition begin (f : fence) : begin_res * fence :=
  if decide (fe_lost f ≠ None) then (BExit, f)
  else if fe_done f then (BExit, f)
  else if fe_paused f then (BWait (fe_wakeup f), f)
  else (BCtx (fe_next f),
        mkFence (fe_paused f) (fe_lost f) (Some (fe_next f, false)) (S (fe_next f)) (fe_wakeup f) (fe_done f)).

Definition pause (f : fence) : fence :=
  if decide (fe_paused f = true ∨ fe_lost f ≠ None) then f
  else mkFence true (fe_lost f) (cancel_cur (fe_cur f)) (fe_next f) (fe_wakeup f) (fe_done f).

Definition resume (f : fence) : fence :=
  if decide (fe_paused f = false ∨ fe_lost f ≠ None) then f
  else mkFence false (fe_lost f) (fe_cur f) (fe_next f) (S (fe_wakeup f)) (fe_done f).

Definition fail (err : string) (f : fence) : fence :=
  if decide (fe_lost f ≠ None) then f
  else mkFence (fe_paused f) (Some err) (cancel_cur (fe_cur f)) (fe_next f) (S (fe_wakeup f)) (fe_done f).

(** The parent context ends: its child contexts are cancelled with it. *)
Definition parent_done (f : fence) : fence :=
  mkFence (fe_paused f) (fe_lost f) (cancel_cur (fe_cur f)) (fe_next f) (fe_wakeup f) true.

Inductive fence_err := ELost (err : string) | EParent | EPaused.

(** [exitErr] and [health]; [None] is nil. *)
Definition exitErr (f : fence) : option fence_err :=
  match fe_lost f with
  | Some e => Some (ELost e)
  | None => if fe_done f then Some EParent else None
  end.
Definition health (f : fence) : option fence_err :=
  match fe_lost f with
  | Some e => Some (ELost e)
  | None => if fe_done f then Some EParent else if fe_paused f then Some EPaused else None
  end.

(** [Ready]: a process without a fence has no lease. *)
Definition Ready (f : option fence) : bool :=
  match f with None => false | Some f => bool_decide (health f = None) end.

(** The context a data-loop iteration may still use. *)
Definition live (f : fence) (ctx : nat) : Prop := fe_cur f = Some (ctx, false).

(** ** Both loops on one fence *)

Inductive fence_event := EvBegin | EvPause | EvResume | EvFail (err : string) | EvParent.

Definition fence_step (f : fence) (ev : fence_event) : fence :=
  match ev with
  | EvBegin => (begin f).2
  | EvPause => pause f
  | EvResume => resume f
  | EvFail e => fail e f
  | EvParent => parent_done f
  end.

Inductive fence_reach : fence → Prop :=
| fr_new : fence_reach newFence
| fr_step f ev : fence_reach f → fence_reach (fence_step f ev).

Definition fence_inv (f : fence) : Prop :=
  (∀ ctx, live f ctx → fe_paused f = false ∧ fe_lost f = None ∧ fe_done f = false) ∧
  (∀ ctx b, fe_cur f = Some (ctx, b) → ctx < fe_next f).

Lemma fence_inv_reach f : fence_reach f → fence_inv f.
Proof.
  induction 1 as [|f ev Hf [Hl Hn]]; [split; by intros *|]. unfold live in Hl.
  destruct f as [pa lo cu ne wk dn]. simpl in *.
  assert (∀ ctx, cancel_cur cu ≠ Some (ctx, false)) as Hc by (destruct cu as [[]|]; by intros ? [=]).
  assert (∀ ctx b, cancel_cur cu = Some (ctx, b) → ctx < ne) as Hk.
  { destruct cu as [[n b']|]; intros ctx b [=]. subst. by eapply Hn. }
  destruct ev, lo, pa, dn; unfold fence_step, begin, pause, resume, fail, parent_done; simpl;
    split; unfold live; simpl; intros; simplify_eq/=; try done;
    try lia; try (by destruct (Hc ctx)); try (by eapply Hk); try (by eapply Hn); try (by apply Hl in H);
    split_and!; naive_solver.
Qed.

Lemma fence_ready f ctx : fence_reach f → live f ctx → Ready (Some f) = true.
Proof.
  intros Hr Hl. destruct (fence_inv_reach f Hr) as [Hi _]. destruct (Hi ctx Hl) as (Hp & Hlost & Hd).
  unfold Ready, health. by rewrite Hlost, Hd, Hp.
Qed.

(** C32: stop-the-world fencing. In every state the data loop, the renew loop and
    a shutdown can bring the fence to, a usable data context exists only while the
    lease is held: never while the renewal is stalled, after the lease is lost or
    after shutdown; there is at most one, and it is the latest handed out. *)
Theorem fence_excludes_stale_work f ctx :
  fence_reach f → live f ctx →
  fe_paused f = false ∧ fe_lost f = None ∧ fe_done f = false ∧ Ready (Some f) = true ∧
  ∀ ctx', live f ctx' → ctx' = ctx.
Proof.
  intros Hr Hl. destruct (fence_inv_reach f Hr) as [Hi _]. destruct (Hi ctx Hl) as (Hp & Hlost & Hd).
  split_and!; try done.
  - by eapply fence_ready.
  - intros ctx' Hl'. unfold live in *. congruence.
Qed.

Lemma fence_excludes_stale_work_witness :
  let f := fence_step (fence_step newFence EvPause) EvResume in
  let f' := fence_step f EvBegin in
  live f' 0 ∧ fe_paused f' = false ∧ Ready (Some f') = true.
Proof.
  intros f f'.
  destruct (fence_excludes_stale_work f' 0) as (H1 & _ & _ & H4 & _).
  - apply (fr_step f EvBegin), (fr_step _ EvResume), (fr_step _ EvPause), fr_new.
  - reflexivity.
  - split; [reflexivity|]. split; [exact H1|exact H4].
Defined.

(** pausing, losing the lease or shutting down cancels the context in flight,
    and the next [begin] does not hand out another until the cause is gone: it
    waits while paused, ends after a loss or a shutdown, whatever was tried before. *)
Theorem fence_stops_the_world f ctx err :
  fence_reach f → live f ctx →
  (¬ live (pause f) ctx ∧ (begin (pause f)).1 = BWait (fe_wakeup f)) ∧
  (¬ live (fail err f) ctx ∧ (begin (fail err f)).1 = BExit ∧ exitErr (fail err f) = Some (ELost err)) ∧
  (¬ live (parent_done f) ctx ∧ (begin (parent_done f)).1 = BExit).
Proof.
  intros Hr Hl. destruct (fence_inv_reach f Hr) as [Hi _]. destruct (Hi ctx Hl) as (Hp & Hlost & Hd).
  unfold live in Hl. unfold live, pause, fail, parent_done, begin, exitErr.
  destruct f as [pa lo cu ne wk dn]. simpl in *. subst. simpl. done.
Qed.

Lemma fence_stops_the_world_witness :
  let f := fence_step newFence EvBegin in
  (begin (pause f)).1 = BWait 0 ∧ (begin (fail "gone" f)).1 = BExit.
Proof.
  intros f. destruct (fence_stops_the_world f 0 "gone") as ((_ & H1) & (_ & H2 & _) & _).
  - apply (fr_step newFence EvBegin), fr_new.
  - reflexivity.
  - split; [exact H1|exact H2].
Defined.

(** No wake-up is missed: whatever ends a wait replaces the channel the waiter
    holds, and only that does. *)
Lemma wait_ends f chan :
  (begin f).1 = BWait chan →
  chan < fe_wakeup (resume f) ∧ (∀ err, chan < fe_wakeup (fail err f)) ∧
  (∀ ctx, (begin (resume f)).1 = BCtx ctx → ctx = fe_next f) ∧ is_Some (fe_cur (begin (resume f)).2).
Proof.
  unfold begin, resume, fail. destruct f as [pa lo cu ne wk dn]. simpl.
  destruct lo; simpl; [done|]. destruct dn; [done|]. destruct pa; simpl; [|done].
  intros [= ->]. split_and!; [lia|intros; lia| |by eexists]. by intros ? [= ->].
Qed.

(** * The renew budget *)

Definition leaseRenewAttempts : Z := 3.
Definition leaseRenewRetryBackoff : Z := (300 * millisecond)%Z.

(** Durations are int64 nanoseconds; Go's division truncates. *)
Definition renewBudget (ttl renewInterval : Z) : Z * Z * Z :=
  let slack := i64 (ttl - renewInterval) in
  if (slack <=? 0)%Z then (millisecond, 1, 0)%Z
  else
    let attempts := leaseRenewAttempts in
    let budget := (i64 (slack * 9) `quot` 10)%Z in
    let backoff :=
      if (budget <=? i64 ((attempts - 1) * leaseRenewRetryBackoff))%Z
      then ((budget `quot` attempts) `quot` 2)%Z else leaseRenewRetryBackoff in
    let perAttempt := (i64 (budget - i64 ((attempts - 1) * backoff)) `quot` attempts)%Z in
    if (perAttempt <=? 0)%Z then (budget, 1, 0)%Z else (perAttempt, attempts, backoff).

(** a renewal round ends before the lease can expire. With a positive slack
    (and no overflow of [9 * slack]) the attempts and the backoffs between them fit
    in nine tenths of the slack, so a renewal that starts one interval after the
    last success has succeeded or failed, and the data loop is fenced, strictly
    before the time-to-live has passed. *)
Theorem renew_round_fits ttl interval per attempts backoff :
  (0 < interval)%Z → (interval < ttl)%Z → (9 * ttl < two63)%Z →
  renewBudget ttl interval = (per, attempts, backoff) →
  (0 <= per ∧ 1 <= attempts <= 3 ∧ 0 <= backoff ∧
   attempts * per + (attempts - 1) * backoff <= (ttl - interval) * 9 / 10 ∧
   interval + (attempts * per + (attempts - 1) * backoff) < ttl)%Z.
Proof.
  unfold renewBudget, leaseRenewAttempts, leaseRenewRetryBackoff, millisecond. intros H0 H1 H2.
  assert (∀ z, (0 <= z < two63)%Z → i64 z = z) as Hi by (intros; apply i64_id; unfold in_i64, two63 in *; lia).
  rewrite (Hi (ttl - interval)%Z) by lia. set (slack := (ttl - interval)%Z) in *.
  assert (0 < slack)%Z by lia. destruct (Z.leb_spec slack 0); [lia|].
  rewrite (Hi (slack * 9)%Z), (Z.quot_div_nonneg (slack * 9) 10) by lia.
  set (budget := (slack * 9 / 10)%Z).
  assert (0 <= budget < slack)%Z as Hb.
  { subst budget. split; [apply Z.div_pos; lia|]. apply Z.div_lt_upper_bound; lia. }
  rewrite (Hi ((3 - 1) * (300 * 1000000))%Z) by (unfold two63; lia).
  assert (slack <= ttl)%Z by lia. unfold two63 in *.
  destruct (Z.leb_spec budget ((3 - 1) * (300 * 1000000))%Z) as [Hle|Hgt].
  - rewrite (Z.quot_div_nonneg budget 3), (Z.quot_div_nonneg (budget / 3) 2)
      by (try apply Z.div_pos; lia).
    pose proof (Z.div_mod budget 3 ltac:(lia)). pose proof (Z.mod_pos_bound budget 3 ltac:(lia)).
    set (t := (budget / 3)%Z) in *. pose proof (Z.div_mod t 2 ltac:(lia)). pose proof (Z.mod_pos_bound t 2 ltac:(lia)).
    set (h := (t / 2)%Z) in *.
    rewrite (Hi ((3 - 1) * h)%Z), (Hi (budget - (3 - 1) * h)%Z), Z.quot_div_nonneg by lia.
    pose proof (Z.div_mod (budget - (3 - 1) * h) 3 ltac:(lia)). pose proof (Z.mod_pos_bound (budget - (3 - 1) * h) 3 ltac:(lia)).
    set (per' := ((budget - (3 - 1) * h) / 3)%Z) in *.
    destruct (Z.leb_spec per' 0); intros [= <- <- <-]; lia.
  - rewrite (Hi ((3 - 1) * (300 * 1000000))%Z), (Hi (budget - (3 - 1) * (300 * 1000000))%Z) by lia.
    rewrite Z.quot_div_nonneg by lia.
    pose proof (Z.div_mod (budget - (3 - 1) * (300 * 1000000)) 3 ltac:(lia)).
    pose proof (Z.mod_pos_bound (budget - (3 - 1) * (300 * 1000000)) 3 ltac:(lia)).
    set (per' := ((budget - (3 - 1) * (300 * 1000000)) / 3)%Z) in *.
    destruct (Z.leb_spec per' 0); intros [= <- <- <-]; lia.
Qed.

Lemma renew_round_fits_witness :
  renewBudget (5 * second) (2 * second) = (700000000, 3, 300000000)%Z ∧
  (2 * second + (3 * 700000000 + 2 * 300000000) < 5 * second)%Z.
Proof.
  split; [reflexivity|].
  apply (renew_round_fits (5 * second) (2 * second) 700000000 3 300000000); reflexivity.
Defined.

(** * The renew loop *)

(** How a round of renewals ends: [nil], the last attempt's error, or the
    context's. *)
Inductive renew_res := RenewOK | RenewErr (err : string) | RenewCancelled.
#[export] Instance renew_res_eq_dec : EqDecision renew_res.
Proof. solve_decision. Defined.

(** The attempts of [renewWithRetry]. An answer is whether the context ended
    during the backoff before the attempt, and what [Renew] returned. *)
Fixpoint renew_attempts (attempts : nat) (first : bool) (err : renew_res)
    (answers : list (bool * option string)) (f : fence) : renew_res * fence :=
  match attempts, answers with
  | S n, (ended, renewed) :: rest =>
      if negb first && ended then (RenewCancelled, f)
      else match renewed with
           | None => (RenewOK, resume f)
           | Some e => renew_attempts n false (RenewErr e) rest (pause f)
           end
  | _, _ => (err, f)
  end.

Definition renewWithRetry (cfg : Config) (answers : list (bool * option string)) (f : fence) : renew_res * fence :=
  let '(_, attempts, _) := renewBudget (LeaseTTL cfg) (LeaseRenew cfg) in
  renew_attempts (Z.to_nat attempts) true RenewOK answers f.

(** One tick of [renewLoop]: whether the loop returns, and the fence. [ended] is
    [ctx.Err() != nil] after a failed round. *)
Definition renew_tick (cfg : Config) (answers : list (bool * option string)) (ended : bool) (f : fence) :
    bool * fence :=
  match renewWithRetry cfg answers f with
  | (RenewOK, f') => (false, f')
  | (RenewCancelled, f') => if ended then (true, f') else (true, fail "context" f')
  | (RenewErr e, f') => if ended then (true, f') else (true, fail e f')
  end.

Lemma renew_attempts_reach n first err answers f r f' :
  renew_attempts n first err answers f = (r, f') → fence_reach f → fence_reach f'.
Proof.
  revert first err answers f. induction n as [|n IH]; intros first err answers f; simpl; [by intros [= _ <-]|].
  destruct answers as [|[ended [e|]] rest]; [by intros [= _ <-]| |].
  - destruct (negb first && ended); [by intros [= _ <-]|]. intros H Hr. eapply IH; [done|].
    by apply (fr_step f EvPause).
  - destruct (negb first && ended); [by intros [= _ <-]|]. intros [= _ <-] Hr. by apply (fr_step f EvResume).
Qed.

Lemma resume_active f : fe_lost f = None → fe_paused (resume f) = false ∧ fe_lost (resume f) = None.
Proof. unfold resume. intros Hl. destruct f as [[] lo cu ne wk dn]; simpl in *; subst; done. Qed.

Lemma pause_keeps f : fe_lost (pause f) = fe_lost f ∧ fe_done (pause f) = fe_done f.
Proof. unfold pause. by case_decide. Qed.

Lemma pause_paused f : fe_lost f = None → fe_paused (pause f) = true ∧ fe_lost (pause f) = None.
Proof. unfold pause. intros Hl. destruct f as [[] lo cu ne wk dn]; simpl in *; subst; done. Qed.

(** A round that succeeds leaves the fence open, one that fails leaves it paused. *)
Lemma renew_attempts_verdict n first err answers f r f' :
  renew_attempts n first err answers f = (r, f') → fe_lost f = None → n ≤ length answers →
  (if first then n ≠ 0 else fe_paused f = true ∧ err ≠ RenewOK) →
  fe_lost f' = None ∧ fe_paused f' = (if decide (r = RenewOK) then false else true).
Proof.
  revert first err answers f. induction n as [|n IH]; intros first err answers f H Hl Hlen Hinv.
  { injection H as <- <-. destruct first; [done|]. destruct Hinv as [-> Herr]. by rewrite decide_False. }
  destruct answers as [|[ended renewed] rest]; simpl in H, Hlen; [lia|].
  destruct (negb first && ended) eqn:He.
  { injection H as <- <-. destruct first; [done|]. by destruct Hinv as [-> _]. }
  destruct renewed as [e|].
  - destruct (pause_paused f Hl) as [Hp Hl']. eapply IH; [exact H|done|lia|by split].
  - injection H as <- <-. destruct (resume_active f Hl). by rewrite decide_True.
Qed.

(** The renew loop never leaves the data loop running on a lease it could not
    renew. From any reachable fence that has not lost the lease, a tick that keeps
    the loop going leaves the fence open; a tick whose attempts all fail cancels
    every data context and, unless the process is shutting down, makes the data
    loop end with the lease error. *)
Theorem renew_tick_verdict cfg answers ended f stop f' :
  fence_reach f → fe_lost f = None → 3 ≤ length answers →
  renew_tick cfg answers ended f = (stop, f') →
  fence_reach f' ∧
  (stop = false → fe_paused f' = false ∧ fe_lost f' = None) ∧
  (stop = true → (∀ ctx, ¬ live f' ctx) ∧
     (ended = false → (begin f').1 = BExit ∧ ∃ err, exitErr f' = Some (ELost err))).
Proof.
  intros Hr Hl Hlen H. unfold renew_tick, renewWithRetry in H.
  destruct (renewBudget (LeaseTTL cfg) (LeaseRenew cfg)) as [[per attempts] backoff] eqn:Hb.
  assert (attempts = 1 ∨ attempts = 3)%Z as Ha.
  { unfold renewBudget in Hb. repeat case_match; simplify_eq; auto. }
  destruct (renew_attempts _ true RenewOK answers f) as [r g] eqn:E.
  pose proof (renew_attempts_reach _ _ _ _ _ _ _ E Hr) as Hg.
  apply renew_attempts_verdict in E as [Hgl Hgp]; [|done|lia|lia].
  assert (r ≠ RenewOK → (∀ ctx, ¬ live g ctx)) as Hdead.
  { intros Hne ctx Hlive. rewrite decide_False in Hgp by done.
    destruct (fence_inv_reach g Hg) as [Hi _]. destruct (Hi ctx Hlive) as [Hp _]. congruence. }
  assert (∀ e, fence_reach (fail e g)) as Hfail by (intros e; by apply (fr_step g (EvFail e))).
  assert (∀ e, (∀ ctx, ¬ live (fail e g) ctx) ∧ (begin (fail e g)).1 = BExit ∧
             ∃ err, exitErr (fail e g) = Some (ELost err)) as Hlost.
  { intros e. unfold fail, live, begin, exitErr. rewrite decide_False by (rewrite Hgl; by intros []). simpl.
    split_and!; [by destruct (fe_cur g) as [[]|]|done|by eexists]. }
  destruct r; simpl in Hgp; [|destruct ended..]; injection H as <- <-; split_and!; try done; intros _;
    try (split; [by auto|done]); destruct (Hlost err) || destruct (Hlost "context"); done.
Qed.

Lemma renew_tick_verdict_witness :
  let f := fence_step newFence EvBegin in
  let cfg := withDefaults (mkPConfig 0 0 0 0 0 0 "" 0) in
  let f' := (renew_tick cfg [(false, Some "gone"); (false, Some "gone"); (false, Some "gone")] false f).2 in
  live f 0 ∧ (begin f').1 = BExit.
Proof.
  intros f cfg f'. split; [reflexivity|].
  apply (renew_tick_verdict cfg [(false, Some "gone"); (false, Some "gone"); (false, Some "gone")] false f true f');
    [apply (fr_step newFence EvBegin), fr_new|reflexivity|simpl; lia|vm_compute; reflexivity|reflexivity|reflexivity].
Defined.

(** * Defaults *)

(** [withDefaults] yields a usable configuration whatever it is given, on the
    one condition that a lease of at least two nanoseconds is asked for: every
    tunable is positive and the renew interval is strictly inside the lease. *)
Theorem withDefaults_usable c :
  LeaseTTL c ≠ 1%Z →
  let d := withDefaults c in
  (0 < MaxDeliver d ∧ 0 < SnapshotEvery d ∧ 0 < PublishRetry d ∧ 0 < RetryBackoff d ∧
   0 < LeaseRenew d < LeaseTTL d ∧ 0 < FanoutConcurrency d)%Z ∧ HealthAddr d ≠ "".
Proof.
  intros Hne. unfold withDefaults, orDefault, second, millisecond. simpl.
  split; [|by case_decide].
  repeat match goal with |- context [(?a <=? ?b)%Z] => destruct (Z.leb_spec a b) end;
    rewrite ?Z.quot_div_nonneg by lia; split_and!; try lia;
    try (apply Z.div_str_pos; lia); try (apply Z.div_lt; lia).
Qed.

Lemma withDefaults_usable_witness :
  let d := withDefaults (mkPConfig 0 0 0 0 (9 * second) (4 * second) "" 0) in
  LeaseRenew d = (2 * second)%Z ∧ (0 < LeaseRenew d < LeaseTTL d)%Z.
Proof.
  intros d. split; [reflexivity|].
  apply (withDefaults_usable (mkPConfig 0 0 0 0 (9 * second) (4 * second) "" 0)). done.
Defined.

(** A lease of one nanosecond is accepted and gives a renew interval of zero,
    for which [time.NewTicker] panics. *)
Theorem withDefaults_zero_renew :
  LeaseRenew (withDefaults (mkPConfig 0 0 0 0 0 1 "" 0)) = 0%Z.
Proof. reflexivity. Qed.
