(* ===== verification/FeedRun.v ===== *)
(** [Projector.Run] (internal/projector/projector.go): the lease, the takeover,
    and the data loop under the fence while the renew loop and the process's
    context act on it. What those do between and during the turns of the data loop
    is any sequence of fence events. *)

From S2P Require Import Prelude Wire Subjects Membership FeedProjector FeedTheorems Fence.

(** * The run *)

(** One turn of the data loop: what happens to the fence before its [begin] looks
    at it, what [Deliver] returns ([None] is an error), what happens to the fence
    from then to the end of the turn, and what the ports answer to [process]. *)
Record turn := mkTurn {
  tn_before : list fence_event;
  tn_deliver : option Fact;
  tn_during : list fence_event;
  tn_world : world;
}.

(** Why [Run] returned. *)
Inductive run_exit := XAcquire | XHydrate | XFence (err : option fence_err) | XDeliver | XProcess (err : perr).

(** A fact that was processed: the fence as [begin] left it, the context it gave,
    the fact, what went out and the state after. *)
Record work := mkWork {
  wk_fence : fence; wk_ctx : nat; wk_fact : Fact; wk_out : list output; wk_state : pst }.

Definition fence_steps : fence → list fence_event → fence := foldl fence_step.

(** [dctx.Err() != nil]. *)
Definition cancelled (f : fence) (ctx : nat) : bool := negb (bool_decide (fe_cur f = Some (ctx, false))).

Section Run.
Context (marshal_feed : Event → option string) (marshal_control : FeedControl → option string).

(** The [select] of [begin] on the channel [chan] it read: it returns when the
    channel was closed, which replaces it, or when the parent context has ended. *)
Definition woken (f : fence) (chan : nat) : bool := negb (fe_wakeup f =? chan) || fe_done f.

(** A turn; [wait] is the channel a paused [begin] is blocked on, before and after
    the turn. A [begin] that is not woken stays blocked, whatever else happens to
    the fence. *)
Definition run_turn (cfg : Config) (t : turn) (wait : option nat) (f : fence) (p : pst) :
    option run_exit * list work * option nat * fence * pst :=
  let f0 := fence_steps f (tn_before t) in
  if match wait with Some chan => negb (woken f0 chan) | None => false end
  then (None, [], wait, fence_steps f0 (tn_during t), p)
  else
  match begin f0 with
  | (BExit, f1) => (Some (XFence (exitErr f1)), [], None, f1, p)
  | (BWait chan, f1) => (None, [], Some chan, fence_steps f1 (tn_during t), p)
  | (BCtx ctx, f1) =>
      let f2 := fence_steps f1 (tn_during t) in
      match tn_deliver t with
      | None => (if cancelled f2 ctx then None else Some XDeliver, [], None, f2, p)
      | Some fact =>
          let '(err, out, p', _) := process marshal_feed marshal_control cfg fact p (tn_world t) in
          (match err with
           | None => None
           | Some e => if cancelled f2 ctx then None else Some (XProcess e)
           end, [mkWork f1 ctx fact out p'], None, f2, p')
      end
  end.

Fixpoint data_loop (cfg : Config) (turns : list turn) (wait : option nat) (f : fence) (p : pst) :
    option run_exit * list work * option nat * fence * pst :=
  match turns with
  | [] => (None, [], wait, f, p)
  | t :: rest =>
      match run_turn cfg t wait f p with
      | (Some x, ws, c, f', p') => (Some x, ws, c, f', p')
      | (None, ws, c, f', p') => let '(x, ws', c2, f2, p2) := data_loop cfg rest c f' p' in (x, ws ++ ws', c2, f2, p2)
      end
  end.

(** The result of a run: [None] while it goes on. The lease is released when a
    run that acquired it returns. *)
Record run_result := mkRunResult { rr_exit : option run_exit; rr_work : list work; rr_fence : option fence; rr_released : bool }.

Definition Run (config : Config) (acquired : bool) (floor : option N) (load : N → option (option Snapshot * N))
    (foldRange : N → N → option (list Fact)) (turns : list turn) : run_result :=
  let cfg := withDefaults config in
  let p := mkPst newState 0 0 in
  if negb acquired then mkRunResult (Some XAcquire) [] None false
  else match Hydrate floor load foldRange p with
       | None => mkRunResult (Some XHydrate) [] None true
       | Some p1 =>
           let '(x, ws, _, f, _) := data_loop cfg turns None newFence p1 in
           mkRunResult x ws (Some f) (bool_decide (is_Some x))
       end.
End Run.

(** * The fence during a run *)

Lemma fence_steps_reach f evs : fence_reach f → fence_reach (fence_steps f evs).
Proof. revert f. induction evs as [|ev evs IH]; simpl; [done|]. intros f Hf. by apply IH, fr_step. Qed.

(** The lease is lost or the process is ending. *)
Definition over (f : fence) : Prop := fe_lost f ≠ None ∨ fe_done f = true.
Definition ends (ev : fence_event) : bool := match ev with EvFail _ | EvParent => true | _ => false end.

Lemma fence_step_over f ev : over f ∨ ends ev = true → over (fence_step f ev).
Proof.
  unfold over. destruct f as [pa lo cu ne wk dn].
  destruct ev; unfold fence_step, begin, pause, resume, fail, parent_done; simpl; repeat case_decide; simpl;
    destruct lo, dn, pa; naive_solver.
Qed.

Lemma fence_steps_over f evs : over f ∨ existsb ends evs = true → over (fence_steps f evs).
Proof.
  revert f. induction evs as [|ev evs IH]; intros f; simpl; [naive_solver|].
  rewrite orb_true_iff. intros H. apply IH. destruct (existsb ends evs); [by right|left]. apply fence_step_over. naive_solver.
Qed.

Lemma begin_over f : over f → begin f = (BExit, f).
Proof.
  intros Ho. unfold begin. case_decide as Hl; [done|]. destruct Ho as [Ho| ->]; done.
Qed.

Lemma begin_exit f f' : begin f = (BExit, f') → over f ∧ f' = f.
Proof.
  unfold begin, over. case_decide; [by intros [= <-]; auto|]. destruct (fe_done f); [by intros [= <-]; auto|].
  by destruct (fe_paused f).
Qed.

Lemma begin_ctx f ctx f' : begin f = (BCtx ctx, f') → f' = fence_step f EvBegin ∧ live f' ctx.
Proof.
  intros H. simpl. rewrite H. split; [done|]. revert H. unfold begin, live.
  case_decide; [done|]. destruct (fe_done f); [done|]. destruct (fe_paused f); [done|]. by intros [= <- <-].
Qed.

Lemma exitErr_over f : over f → is_Some (exitErr f).
Proof. unfold over, exitErr. destruct (fe_lost f); [by eauto|]. intros [?| ->]; [done|by eauto]. Qed.

Section Loop.
Context (marshal_feed : Event → option string) (marshal_control : FeedControl → option string) (cfg : Config).
#[local] Abbreviation run_turn := (run_turn marshal_feed marshal_control cfg).
#[local] Abbreviation data_loop := (data_loop marshal_feed marshal_control cfg).

(** What holds of the fact of a pass and of its end. *)
Definition work_ok (w : work) : Prop :=
  fence_reach (wk_fence w) ∧ live (wk_fence w) (wk_ctx w) ∧
  ∃ p wd r wd', process marshal_feed marshal_control cfg (wk_fact w) p wd = (r, wk_out w, wk_state w, wd').

Definition exit_ok (x : run_exit) (f : fence) : Prop :=
  match x with
  | XFence err => over f ∧ err = exitErr f
  | XDeliver | XProcess _ => ∃ ctx, live f ctx
  | XAcquire | XHydrate => False
  end.

Lemma cancelled_live f ctx : cancelled f ctx = false → live f ctx.
Proof. unfold cancelled, live. rewrite negb_false_iff. apply bool_decide_eq_true. Qed.

(** A blocked [begin] is never left behind by the loss of the lease: when the
    fence has lost it, the channel was replaced. *)
Definition wait_ok (f : fence) (wait : option nat) : Prop :=
  ∀ chan, wait = Some chan → chan ≤ fe_wakeup f ∧ (fe_wakeup f = chan → fe_lost f = None).

Lemma wait_ok_step f ev wait : wait_ok f wait → wait_ok (fence_step f ev) wait.
Proof.
  intros Hw chan Hc. destruct (Hw chan Hc) as [Hle Hlost]. clear Hw Hc. destruct f as [pa lo cu ne wk dn].
  destruct ev; unfold fence_step, begin, pause, resume, fail, parent_done in *; simpl in *; repeat case_decide; simpl;
    destruct lo, dn, pa; simpl; split; intros; first [lia|done|naive_solver|(exfalso; lia)].
Qed.

Lemma wait_ok_steps f evs wait : wait_ok f wait → wait_ok (fence_steps f evs) wait.
Proof. revert f. induction evs as [|ev evs IH]; simpl; [done|]. intros f Hf. by apply IH, wait_ok_step. Qed.

Lemma wait_ok_none f : wait_ok f None.
Proof. by intros chan. Qed.

(** So the end of the lease or of the process wakes it. *)
Lemma over_woken f chan : wait_ok f (Some chan) → over f → woken f chan = true.
Proof.
  intros Hw Ho. destruct (Hw chan eq_refl) as [_ Hlost]. unfold woken. destruct (Nat.eqb_spec (fe_wakeup f) chan) as [He|]; [|done].
  destruct Ho as [Ho| ->]; [by destruct Ho; apply Hlost|done].
Qed.

Lemma begin_wait f chan f' : begin f = (BWait chan, f') → f' = f ∧ wait_ok f (Some chan).
Proof.
  unfold begin, wait_ok. case_decide as Hl; [done|]. destruct (fe_done f), (fe_paused f); try done.
  intros [= <- <-]. split; [done|]. intros ? [= <-]. split; [done|]. intros _. by destruct (fe_lost f).
Qed.

Lemma run_turn_ok t c f p x ws c' f' p' :
  run_turn t c f p = (x, ws, c', f', p') → fence_reach f → wait_ok f c →
  fence_reach f' ∧ wait_ok f' c' ∧ Forall work_ok ws ∧ (∀ e, x = Some e → exit_ok e f') ∧
  (existsb ends (tn_before t ++ tn_during t) = true → is_Some x ∨ over f').
Proof.
  unfold FeedRun.run_turn. intros H Hf Hw. pose proof (fence_steps_reach f (tn_before t) Hf) as H0.
  pose proof (wait_ok_steps f (tn_before t) c Hw) as Hw0.
  rewrite existsb_app. set (f0 := fence_steps f (tn_before t)) in *.
  assert (existsb ends (tn_before t) = true → over f0) as Hb by (intros; apply fence_steps_over; auto).
  assert (∀ f1, (over f0 → over f1) → existsb ends (tn_before t) || existsb ends (tn_during t) = true →
            over (fence_steps f1 (tn_during t))) as Hover.
  { intros f1 H1 [?|?]%orb_true_iff; apply fence_steps_over; auto. }
  destruct (match c with Some chan => _ | None => _ end).
  { injection H as <- <- <- <- <-. split_and!; [by apply fence_steps_reach|by apply wait_ok_steps|done|done|].
    exact (λ E, or_intror (Hover _ id E)). }
  destruct (begin f0) as [[ctx| |chan] f1] eqn:Eb.
  - destruct (begin_ctx _ _ _ Eb) as [-> Hl]. set (f2 := fence_steps _ (tn_during t)) in *.
    assert (fence_reach (fence_step f0 EvBegin)) as H1 by (by apply fr_step).
    assert (fence_reach f2) as H2 by (by apply fence_steps_reach).
    assert (over f0 → over (fence_step f0 EvBegin)) as Hstep by (intros ?; apply fence_step_over; auto).
    assert (cancelled f2 ctx = false → ∃ ctx, live f2 ctx) as Hlive by (intros ?%cancelled_live; eauto).
    destruct (tn_deliver t) as [fact|].
    + destruct (process _ _ cfg fact p (tn_world t)) as [[[err out] p1] wd] eqn:Ep. injection H as <- <- <- <- <-.
      split_and!; [done|apply wait_ok_none| | |exact (λ E, or_intror (Hover _ Hstep E))].
      * apply Forall_singleton. split_and!; [done..|]. simpl. eauto 10.
      * destruct err as [e0|]; [|done]. destruct (cancelled f2 ctx); [done|]. intros e [= <-]. by apply Hlive.
    + injection H as <- <- <- <- <-. split_and!; [done|apply wait_ok_none|done| |exact (λ E, or_intror (Hover _ Hstep E))].
      destruct (cancelled f2 ctx); [done|]. intros e [= <-]. by apply Hlive.
  - injection H as <- <- <- <- <-. destruct (begin_exit _ _ Eb) as [Ho ->].
    split_and!; [done|apply wait_ok_none|done| |by eauto]. by intros e [= <-].
  - injection H as <- <- <- <- <-. destruct (begin_wait _ _ _ Eb) as [-> Hw1].
    split_and!; [by apply fence_steps_reach|by apply wait_ok_steps|done|done|].
    exact (λ E, or_intror (Hover _ id E)).
Qed.

Lemma data_loop_ok turns c f p x ws c' f' p' :
  data_loop turns c f p = (x, ws, c', f', p') → fence_reach f → wait_ok f c →
  fence_reach f' ∧ wait_ok f' c' ∧ Forall work_ok ws ∧ (∀ e, x = Some e → exit_ok e f').
Proof.
  revert c f p x ws c' f' p'. induction turns as [|t turns IH]; intros c f p x ws c' f' p'; simpl; [by intros [= <- <- <- <- <-]|].
  destruct (run_turn t c f p) as [[[[x1 ws1] c1] f1] p1] eqn:E. intros H Hf Hw.
  destruct (run_turn_ok _ _ _ _ _ _ _ _ _ E Hf Hw) as (H1 & Hw1 & Hws & Hx & _).
  destruct x1 as [x1|]; [by injection H as <- <- <- <- <-|].
  destruct (data_loop turns c1 f1 p1) as [[[[x2 ws2] c2] f2] p2] eqn:E2. injection H as <- <- <- <- <-.
  destruct (IH _ _ _ _ _ _ _ _ E2 H1 Hw1) as (? & ? & ? & ?). split_and!; [done|done|by apply Forall_app|done].
Qed.

Lemma data_loop_over turns c f p :
  over f → wait_ok f c → turns ≠ [] → ∃ x c' f', data_loop turns c f p = (Some x, [], c', f', p).
Proof.
  intros Ho Hw. destruct turns as [|t turns]; [done|]. intros _. simpl. unfold FeedRun.run_turn.
  pose proof (fence_steps_over f (tn_before t) (or_introl Ho)) as Ho'.
  pose proof (wait_ok_steps f (tn_before t) c Hw) as Hw'.
  destruct c as [chan|]; [rewrite (over_woken _ chan Hw' Ho')|]; simpl; rewrite begin_over by done; eauto.
Qed.

Lemma data_loop_app turns1 turns2 c f p :
  data_loop (turns1 ++ turns2) c f p =
  match data_loop turns1 c f p with
  | (Some x, ws, c', f', p') => (Some x, ws, c', f', p')
  | (None, ws, c', f', p') => let '(x, ws', c2, f2, p2) := data_loop turns2 c' f' p' in (x, ws ++ ws', c2, f2, p2)
  end.
Proof.
  revert c f p. induction turns1 as [|t turns1 IH]; intros c f p; simpl; [by destruct (data_loop turns2 c f p) as [[[[]]]]|].
  destruct (run_turn t c f p) as [[[[[x|] ws] c1] f1] p1]; [done|]. rewrite IH.
  destruct (data_loop turns1 c1 f1 p1) as [[[[[x|] ws1] c2] f2] p2]; [done|].
  destruct (data_loop turns2 c2 f2 p2) as [[[[x ws2] c3] f3] p3]. by rewrite app_assoc.
Qed.
End Loop.

(** * Theorems *)

Section Theorems.
Context (marshal_feed : Event → option string) (marshal_control : FeedControl → option string).
Context (config : Config) (acquired : bool) (floor : option N) (load : N → option (option Snapshot * N))
        (foldRange : N → N → option (list Fact)).
#[local] Abbreviation run := (Run marshal_feed marshal_control config acquired floor load foldRange).

(** C6: Nothing is acknowledged unprojected, over a whole run: whatever the renew
    loop and the process do to the fence and whatever the ports answer, every fact
    was taken up with a live context of a leader that is ready, and when its
    message was acknowledged it had been published to the feed of every recipient
    (and for a leave its revocation to the leaver), or written to the dead-letter
    queue. A run that returned with a port's error still held its lease; one that
    the fence ended had lost it or was shut down, and says so. *)
Theorem run_acks_after_delivery turns :
  let r := run turns in
  (∀ w, w ∈ rr_work r → live (wk_fence w) (wk_ctx w) ∧ Ready (Some (wk_fence w)) = true ∧
     ∀ s, OAck s ∈ wk_out w → dead_lettered (wk_out w) ∨
       ∃ o1 o2, wk_out w = o1 ++ OAck (f_StreamSeq (wk_fact w)) :: o2 ∧
         delivered marshal_feed marshal_control (wk_fact w) (p_st (wk_state w)) o1) ∧
  (∀ f x, rr_fence r = Some f → rr_exit r = Some x → exit_ok x f) ∧
  (rr_released r = true ↔ acquired = true ∧ is_Some (rr_exit r)).
Proof.
  intros r. subst r. unfold Run. destruct acquired; simpl.
  2: { split_and!; [by intros w ?%elem_of_nil|done|]. split; [done|]. by intros [? _]. }
  destruct (Hydrate floor load foldRange _) as [p1|]; simpl.
  2: { split_and!; [by intros w ?%elem_of_nil|done|]. split; [|done]. intros _. by eauto. }
  destruct (data_loop _ _ _ turns None newFence p1) as [[[[x ws] c] f] p2] eqn:E. simpl.
  destruct (data_loop_ok _ _ _ _ _ _ _ _ _ _ _ _ E fr_new (wait_ok_none _)) as (_ & _ & Hws & Hx).
  split_and!; [|by intros ? ? [= <-] ?; apply Hx|].
  - intros w Hw. rewrite Forall_forall in Hws. destruct (Hws w Hw) as (Hr & Hl & p & wd & res & wd' & Hp).
    split_and!; [done|by apply (fence_ready _ (wk_ctx w))|].
    intros s Hs. eapply ack_after_delivery; [|exact Hp|exact Hs].
    unfold withDefaults. simpl. destruct (Z.leb_spec (PublishRetry config) 0); lia.
  - rewrite bool_decide_eq_true. naive_solver.
Qed.

(** C26: A run ends when its lease is lost or its process shuts down: whatever
    happened before and whatever is still to come, the data loop takes up no
    further fact, returns at its next [begin] at the latest, also when that [begin]
    is blocked because the renewal had paused it, and the lease is released. *)
Theorem run_ends_on_loss turns t rest p1 :
  acquired = true → Hydrate floor load foldRange (mkPst newState 0 0) = Some p1 →
  existsb ends (tn_before t ++ tn_during t) = true → rest ≠ [] →
  let r := run (turns ++ t :: rest) in
  is_Some (rr_exit r) ∧ rr_released r = true ∧ rr_work r = rr_work (run (turns ++ [t])).
Proof.
  intros Hacq Hhyd Hend Hrest r. subst r. unfold Run. rewrite Hacq, Hhyd. simpl. rewrite !data_loop_app. simpl.
  destruct (data_loop _ _ _ turns None newFence p1) as [[[[[x|] ws] c] f] p2] eqn:E; simpl.
  { split_and!; [by eauto|by rewrite ?bool_decide_eq_true_2|done]. }
  destruct (data_loop_ok _ _ _ _ _ _ _ _ _ _ _ _ E fr_new (wait_ok_none _)) as (Hf & Hw & _ & _).
  destruct (run_turn _ _ _ t c f p2) as [[[[x1 ws1] c1] f1] p3] eqn:Et.
  destruct (run_turn_ok _ _ _ _ _ _ _ _ _ _ _ _ Et Hf Hw) as (_ & Hw1 & _ & _ & Hover).
  destruct x1 as [x1|]; simpl.
  { split_and!; [by eauto|by rewrite ?bool_decide_eq_true_2|done]. }
  destruct (Hover Hend) as [[? ?]|Ho]; [done|].
  destruct (data_loop_over marshal_feed marshal_control (withDefaults config) rest c1 f1 p3 Ho Hw1 Hrest) as (x & c' & f' & ->). simpl.
  split_and!; [by eauto|by rewrite ?bool_decide_eq_true_2|done].
Qed.
End Theorems.

(** A fact is projected, the next [begin] blocks on the pause, and the lease is lost
    while it is blocked. *)
Definition joined : Fact := NewFact (sample_event "participant.joined" "ann" 1) "i1" 1.
Definition first_turn : turn := mkTurn [] (Some joined) [] calm.
Definition paused_turn : turn := mkTurn [EvPause; EvResume; EvPause] None [] calm.
Definition loss_turn : turn := mkTurn [] None [EvFail "gone"] calm.

Lemma run_ends_on_loss_witness :
  let r := Run (λ e, Some (ev_EventId e)) (λ c, Some (fc_InteractionId c)) (mkPConfig 0 0 0 0 0 0 "" 0) true (Some 0%N)
             (λ _, Some (None, 0%N)) (λ _ _, Some []) ([first_turn; paused_turn] ++ loss_turn :: [first_turn; first_turn]) in
  rr_exit r = Some (XFence (Some (ELost "gone"))) ∧ rr_released r = true ∧ length (rr_work r) = 1.
Proof.
  intros r. split; [vm_compute; reflexivity|].
  destruct (run_ends_on_loss (λ e, Some (ev_EventId e)) (λ c, Some (fc_InteractionId c)) (mkPConfig 0 0 0 0 0 0 "" 0) true
              (Some 0%N) (λ _, Some (None, 0%N)) (λ _ _, Some []) [first_turn; paused_turn] loss_turn [first_turn; first_turn]
              (mkPst newState 0 0)) as (_ & Hrel & Hw); [reflexivity|vm_compute; reflexivity|reflexivity|done|].
  split; [exact Hrel|]. unfold r. rewrite Hw. vm_compute. reflexivity.
Defined.
