(* ===== verification/ProjectorNats.v ===== *)
(** The projector's NATS adapters (internal/projector/nats.go): the durable log
    source, the leader lease and the snapshot store over key-value buckets. What
    the server answers is an argument; the code's own decisions are modelled. *)

From S2P Require Import Prelude Wire Subjects Membership LogStore MemStore FeedProjector FeedTheorems.

(** * Log source *)

(** A delivered message: subject, payload and, when the reply subject parses,
    its stream sequence and delivery count; its [traceparent] header, if any. *)
Record nats_msg := mkMsg {
  nm_subject : string;
  nm_data : string;
  nm_meta : option (N * Z);
  nm_traceparent : option string;
}.

Definition traceparentOf (m : nats_msg) : string := default "" (nm_traceparent m).

(** The answers of one [Fetch]. *)
Inductive fetch_res := FTimeout | FErr | FMsgs (ms : list nats_msg).

Inductive deliver_res := DFact (f : Fact) | DCancelled | DFetchErr | DNoMeta.

Section Source.
Context {EC : EventCodec}.

Definition fact_of_msg (m : nats_msg) (seq : N) (n : Z) : Fact :=
  mkFact (unmarshal_event (nm_data m)) (iidFromLogSubject (nm_subject m)) seq n (traceparentOf m).

(** [Deliver]: each element of [polls] is one turn of the loop, the state of the
    context and the answer of the fetch; [None] means still polling. *)
Fixpoint Deliver (polls : list (bool * fetch_res)) : option deliver_res :=
  match polls with
  | [] => None
  | (true, _) :: _ => Some DCancelled
  | (false, FTimeout) :: rest => Deliver rest
  | (false, FMsgs []) :: rest => Deliver rest
  | (false, FErr) :: _ => Some DFetchErr
  | (false, FMsgs (m :: _)) :: _ =>
      match nm_meta m with
      | None => Some DNoMeta
      | Some (seq, n) => Some (DFact (fact_of_msg m seq n))
      end
  end.

(** The inner loop of [FoldRange]: facts collected and whether [hi] was passed. *)
Fixpoint fold_msgs (hi : N) (ms : list nats_msg) : option (list Fact * bool) :=
  match ms with
  | [] => Some ([], false)
  | m :: rest =>
      match nm_meta m with
      | None => None
      | Some (seq, _) =>
          if (hi <? seq)%N then Some ([], true)
          else
            match fold_msgs hi rest with
            | None => None
            | Some (fs, d) =>
                Some (match unmarshal_event (nm_data m) with
                      | None => fs
                      | Some e => mkFact (Some e) (iidFromLogSubject (nm_subject m)) seq 0 "" :: fs
                      end, d)
            end
      end
  end.

(** [FoldRange] over the answers of successive fetches of 128. A timeout ends the
    loop like an empty batch does. *)
Fixpoint fold_batches (hi : N) (answers : list fetch_res) : option (list Fact) :=
  match answers with
  | [] => Some []
  | FTimeout :: _ => Some []
  | FMsgs [] :: _ => Some []
  | FErr :: _ => None
  | FMsgs ms :: rest =>
      match fold_msgs hi ms with
      | None => None
      | Some (fs, true) => Some fs
      | Some (fs, false) => fs' ← fold_batches hi rest; Some (fs ++ fs')
      end
  end.

Definition FoldRange (lo hi : N) (answers : list fetch_res) : option (list Fact) :=
  if (hi <=? lo)%N then Some [] else fold_batches hi answers.

(** The messages of the stream in order, with the sequence of each. *)
Definition numbered (ms : list (string * string * N)) : list nats_msg :=
  (λ x, mkMsg x.1.1 x.1.2 (Some (x.2, 1%Z)) None) <$> ms.
Definition decodable (ms : list (string * string * N)) : list Fact :=
  omap (λ x, e ← unmarshal_event x.1.2; Some (mkFact (Some e) (iidFromLogSubject x.1.1) x.2 0 "")) ms.

Lemma decodable_app ms ms' : decodable (ms ++ ms') = decodable ms ++ decodable ms'.
Proof. apply omap_app. Qed.

Lemma fold_msgs_spec hi ms :
  Sorted (λ a b, (a.2 < b.2)%N) ms →
  fold_msgs hi (numbered ms) =
    Some (decodable (filter (λ x, (x.2 <= hi)%N) ms), bool_decide (Exists (λ x, (hi < x.2)%N) ms)).
Proof.
  intros Hs. apply Sorted_StronglySorted in Hs; [|intros ???; lia].
  induction Hs as [|x ms Hs IH Hall]; [reflexivity|]. cbn [numbered fmap list_fmap fold_msgs nm_meta].
  destruct (N.ltb_spec hi x.2) as [Hlt|Hge].
  - rewrite filter_cons_False by lia. rewrite bool_decide_eq_true_2 by (by left).
    assert (filter (λ x, (x.2 <= hi)%N) ms = []) as ->; [|done].
    apply filter_none. eapply Forall_impl; [done|]. simpl. intros. lia.
  - unfold numbered in IH. rewrite IH. rewrite filter_cons_True by lia.
    f_equal. f_equal.
    + unfold decodable. simpl. by destruct (unmarshal_event _).
    + apply bool_decide_ext. rewrite Exists_cons. split; [by right|]. intros [?|?]; [lia|done].
Qed.

(** Batches that deliver [ms] completely, then a timeout. *)
Definition delivers (ms : list (string * string * N)) (batches : list (list (string * string * N))) : Prop :=
  concat batches = ms ∧ Forall (λ b, b ≠ []) batches.

(** Hydration reads exactly the tail. When the ephemeral reader is handed
    every message after [lo] in stream order, in any batches, [FoldRange] returns
    the decodable facts of the range up to [hi], in order, none beyond it. *)
Theorem FoldRange_exact lo hi ms batches :
  (lo < hi)%N → Sorted (λ a b, (a.2 < b.2)%N) ms → delivers ms batches →
  FoldRange lo hi (((λ b, FMsgs (numbered b)) <$> batches) ++ [FTimeout]) =
    Some (decodable (filter (λ x, (x.2 <= hi)%N) ms)).
Proof.
  intros Hlt Hs [<- Hne]. unfold FoldRange. destruct (N.leb_spec hi lo); [lia|].
  apply Sorted_StronglySorted in Hs; [|intros ???; lia].
  induction Hne as [|b batches Hb Hne IH]; [done|]. cbn [concat] in Hs |- *.
  rewrite fmap_cons, <-app_comm_cons. cbn [fold_batches].
  apply StronglySorted_app in Hs as (Hcross & Hsb & Hsr).
  destruct (numbered b) as [|m ms'] eqn:Hn; [by destruct b|]. rewrite <-Hn.
  rewrite fold_msgs_spec by (by apply StronglySorted_Sorted).
  rewrite filter_app, decodable_app.
  case_bool_decide as Hex.
  - f_equal. rewrite <-(app_nil_r (decodable _)) at 1. f_equal. symmetry.
    assert (filter (λ x, (x.2 <= hi)%N) (concat batches) = []) as ->; [|done].
    apply filter_none, Forall_forall. intros y Hy Hle.
    apply Exists_exists in Hex as (x & Hx & Hhi). specialize (Hcross x y Hx Hy). simpl in Hcross. lia.
  - by rewrite (IH Hsr).
Qed.
End Source.

Definition tail_msg (type actor : string) (seq : Z) : string * string * N :=
  (logSubjectFor "acme" "i1", marshal_event (sample_event type actor seq), Z.to_N seq).
Definition tail_msgs : list (string * string * N) :=
  [tail_msg "participant.joined" "ann" 1; tail_msg "participant.joined" "bob" 2;
   tail_msg "participant.left" "ann" 3].

Lemma FoldRange_exact_witness :
  FoldRange 0 2 (((λ b, FMsgs (numbered b)) <$> [take 1 tail_msgs; drop 1 tail_msgs]) ++ [FTimeout]) =
    Some (decodable (filter (λ x, (x.2 <= 2)%N) tail_msgs)) ∧
  length (decodable (filter (λ x, (x.2 <= 2)%N) tail_msgs)) = 2.
Proof.
  split; [|vm_compute; reflexivity].
  apply (FoldRange_exact 0 2 tail_msgs [take 1 tail_msgs; drop 1 tail_msgs]).
  - lia.
  - repeat constructor.
  - split; [reflexivity|]. repeat (apply Forall_cons; split); [done|done|apply Forall_nil_2].
Defined.

(** A fetch that times out ends [FoldRange] without an error, although the
    range is not read: a takeover after a slow fetch hydrates a view that misses
    the leave below its ack floor, and so keeps serving the agent that left. *)
Theorem FoldRange_truncates :
  let answers := [FMsgs (numbered (take 2 tail_msgs)); FTimeout; FMsgs (numbered (drop 2 tail_msgs))] in
  FoldRange 0 3 answers = Some (decodable (take 2 tail_msgs)) ∧
  (p ← Hydrate (Some 3%N) (λ _, Some (None, 0%N)) (λ lo hi, FoldRange lo hi answers) (mkPst newState 0 0);
   Some (IsParticipantNow (view_of (p_st p) "acme/i1") "ann", p_lastAckSeq p)) = Some (true, 3%N).
Proof. by vm_compute. Qed.

(** * Leader lease *)

(** The bucket entry (value and revision) and the revision counter. *)
Record kv := mkKv { kv_entry : option (string * N); kv_rev : N }.

Definition kv_Create (holder : string) (k : kv) : option N * kv :=
  match kv_entry k with
  | Some _ => (None, k)
  | None => let r := (kv_rev k + 1)%N in (Some r, mkKv (Some (holder, r)) r)
  end.
Definition kv_Get (k : kv) : option (string * N) := kv_entry k.
Definition kv_Update (holder : string) (rev : N) (k : kv) : option N * kv :=
  match kv_entry k with
  | Some (_, r0) =>
      if decide (r0 = rev) then let r := (kv_rev k + 1)%N in (Some r, mkKv (Some (holder, r)) r)
      else (None, k)
  | None => (None, k)
  end.
Definition kv_Delete (k : kv) : kv := mkKv None (kv_rev k + 1).
(** The bucket's time-to-live. *)
Definition kv_expire (k : kv) : kv := mkKv None (kv_rev k).

(** [kvLease] of one process, and one turn of [Acquire]'s loop: create the entry,
    or adopt the one that carries the own name; [false] retries after a second. *)
Record kvLease := mkLease { le_holder : string; le_rev : N }.

Definition Acquire_try (l : kvLease) (k : kv) : bool * kvLease * kv :=
  match kv_Create (le_holder l) k with
  | (Some r, k') => (true, mkLease (le_holder l) r, k')
  | (None, k') =>
      match kv_Get k' with
      | Some (v, r) => if decide (v = le_holder l) then (true, mkLease (le_holder l) r, k') else (false, l, k')
      | None => (false, l, k')
      end
  end.

Definition Renew (l : kvLease) (k : kv) : bool * kvLease * kv :=
  match kv_Update (le_holder l) (le_rev l) k with
  | (Some r, k') => (true, mkLease (le_holder l) r, k')
  | (None, k') => (false, l, k')
  end.

(** [Release] reads and deletes in two requests; [Release_check] is the first. *)
Definition Release_check (l : kvLease) (k : kv) : bool :=
  match kv_Get k with Some (v, _) => bool_decide (v = le_holder l) | None => false end.

(** ** Processes competing for the lease *)

(** One lease record per process name; [pending] are the processes between the
    two requests of [Release]. *)
Record election := mkElection { el_kv : kv; el_leases : gmap string N; el_pending : gset string }.

Inductive elect_step : election → election → Prop :=
| es_acquire h k ls ps l' k' :
    Acquire_try (mkLease h (default 0%N (ls !! h))) k = (true, l', k') →
    elect_step (mkElection k ls ps) (mkElection k' (<[h := le_rev l']> ls) ps)
| es_renew h k ls ps r l' k' :
    ls !! h = Some r → Renew (mkLease h r) k = (true, l', k') →
    elect_step (mkElection k ls ps) (mkElection k' (<[h := le_rev l']> ls) ps)
| es_expire k ls ps : elect_step (mkElection k ls ps) (mkElection (kv_expire k) ls ps)
| es_release_check h k ls ps :
    Release_check (mkLease h (default 0%N (ls !! h))) k = true →
    elect_step (mkElection k ls ps) (mkElection k ls ({[h]} ∪ ps))
| es_release_delete h k ls ps :
    h ∈ ps → elect_step (mkElection k ls ps) (mkElection (kv_Delete k) ls (ps ∖ {[h]})).

Definition election0 : election := mkElection (mkKv None 0) ∅ ∅.

(** A process whose next renewal would succeed. *)
Definition can_renew (e : election) (h : string) : Prop :=
  ∃ r, el_leases e !! h = Some r ∧ (Renew (mkLease h r) (el_kv e)).1.1 = true.

(** Revisions grow, and the entry's revision is recorded only by the process it
    names. *)
Definition election_inv (e : election) : Prop :=
  (∀ h r, el_leases e !! h = Some r → (0 < r <= kv_rev (el_kv e))%N) ∧
  (∀ v r, kv_entry (el_kv e) = Some (v, r) → (0 < r <= kv_rev (el_kv e))%N) ∧
  (∀ h r v, el_leases e !! h = Some r → kv_entry (el_kv e) = Some (v, r) → h = v).

Lemma Acquire_try_inv h r0 k l' k' :
  Acquire_try (mkLease h r0) k = (true, l', k') →
  (kv_entry k = None ∧ le_rev l' = (kv_rev k + 1)%N ∧ k' = mkKv (Some (h, le_rev l')) (kv_rev k + 1)) ∨
  (k' = k ∧ kv_entry k = Some (h, le_rev l')).
Proof.
  unfold Acquire_try, kv_Create, kv_Get. destruct k as [[[v r]|] n]; simpl.
  - case_decide; [|done]. intros [= <- <-]. right. by subst.
  - intros [= <- <-]. left. done.
Qed.

Lemma Renew_inv h r k l' k' :
  Renew (mkLease h r) k = (true, l', k') →
  ∃ v, kv_entry k = Some (v, r) ∧ le_rev l' = (kv_rev k + 1)%N ∧
    k' = mkKv (Some (h, le_rev l')) (kv_rev k + 1).
Proof.
  unfold Renew, kv_Update. destruct k as [[[v r0]|] n]; simpl; [|done].
  case_decide; [|done]. intros [= <- <-]. subst. by exists v.
Qed.

Lemma election_inv_step e e' : election_inv e → elect_step e e' → election_inv e'.
Proof.
  intros (Hl & He & Hh) Hs. destruct Hs as [h k ls ps l' k' H|h k ls ps r l' k' Hr H|k ls ps|h k ls ps H|h k ls ps H];
    simpl in *.
  - apply Acquire_try_inv in H as [(Hnone & Hrev & ->)|[-> Hentry]]; simpl in *.
    + unfold election_inv. simpl. split_and!.
      * intros h' r. rewrite lookup_insert_Some. intros [[_ <-]|[_ Hr']]; [lia|]. apply Hl in Hr'. lia.
      * intros v r [= <- <-]. lia.
      * intros h' r v. rewrite lookup_insert_Some. intros [[<- <-]|[_ Hr']] Hv; [congruence|].
        injection Hv as <- Hr. apply Hl in Hr'. lia.
    + unfold election_inv. simpl. split_and!; [|done|].
      * intros h' r. rewrite lookup_insert_Some. intros [[_ <-]|[_ Hr']]; [by eapply He|by apply (Hl h')].
      * intros h' r v. rewrite lookup_insert_Some. intros [[<- <-]|[_ Hr']] Hv; [congruence|by eapply Hh].
  - apply Renew_inv in H as (v & Hentry & Hrev & ->). unfold election_inv. simpl. split_and!.
    + intros h' r'. rewrite lookup_insert_Some. intros [[_ <-]|[_ Hr']]; [lia|]. apply Hl in Hr'. lia.
    + intros v' r' [= <- <-]. lia.
    + intros h' r' v'. rewrite lookup_insert_Some. intros [[<- <-]|[_ Hr']] Hv; [congruence|].
      injection Hv as <- Hr''. apply Hl in Hr'. lia.
  - unfold election_inv. simpl. split_and!; [|done|done]. intros h r Hr. by apply (Hl h).
  - done.
  - unfold election_inv. simpl. split_and!; [|done|done]. intros h' r Hr. apply Hl in Hr. lia.
Qed.

Lemma election_inv_reach e : rtc elect_step election0 e → election_inv e.
Proof.
  intros Hr. assert (election_inv election0) as H0.
  { unfold election_inv, election0. simpl. split_and!; [|done|done]. intros h r. by rewrite lookup_empty. }
  revert H0. induction Hr; eauto using election_inv_step.
Qed.

(** C33: at most one process can renew. Whatever sequence of acquisitions,
    renewals, expiries and (interrupted) releases the processes go through, the
    revision check of [Renew] lets through at most one of them, the one the bucket
    entry names. *)
Theorem lease_renewal_exclusive e h h' :
  rtc elect_step election0 e → can_renew e h → can_renew e h' →
  h = h' ∧ ∃ r, kv_entry (el_kv e) = Some (h, r).
Proof.
  intros Hr (r & Hl & Hok) (r' & Hl' & Hok'). destruct (election_inv_reach e Hr) as (_ & _ & Hh).
  destruct (Renew (mkLease h r) (el_kv e)) as [[[] l1] k1] eqn:H1; [|done].
  destruct (Renew (mkLease h' r') (el_kv e)) as [[[] l2] k2] eqn:H2; [|done].
  apply Renew_inv in H1 as (v & He & _). apply Renew_inv in H2 as (v' & He' & _).
  assert (h = v) by eauto. assert (h' = v') by eauto. split; [congruence|]. exists r. congruence.
Qed.

Definition elected_a : election := mkElection (mkKv (Some ("a", 1%N)) 1) {["a" := 1%N]} ∅.

Lemma elected_a_reach : rtc elect_step election0 elected_a.
Proof. apply rtc_once. by apply (es_acquire "a" (mkKv None 0) ∅ ∅ (mkLease "a" 1) (mkKv (Some ("a", 1%N)) 1)). Qed.

Lemma lease_renewal_exclusive_witness :
  can_renew elected_a "a" ∧ "a" = "a" ∧ ∃ r, kv_entry (el_kv elected_a) = Some ("a", r).
Proof.
  assert (can_renew elected_a "a") as Ha by (exists 1%N; split; reflexivity).
  split; [exact Ha|].
  apply (lease_renewal_exclusive elected_a "a" "a"); [apply elected_a_reach|exact Ha|exact Ha].
Defined.

(** [Release] can delete another process's lease. Its read and its delete are
    two requests: process [a] reads its own entry, the entry expires, [b] acquires,
    and [a]'s delete removes [b]'s entry, so that [c] acquires while [b] still
    holds an unexpired lease record. *)
Theorem release_deletes_foreign_lease :
  ∃ e, rtc elect_step election0 e ∧ el_leases e !! "b" = Some 2%N ∧ el_leases e !! "c" = Some 4%N ∧
    kv_entry (el_kv e) = Some ("c", 4%N).
Proof.
  eexists. split.
  - eapply rtc_l; [by apply (es_acquire "a" (mkKv None 0) ∅ ∅ (mkLease "a" 1) (mkKv (Some ("a", 1%N)) 1))|].
    eapply rtc_l; [by apply (es_release_check "a")|].
    eapply rtc_l; [apply es_expire|].
    eapply rtc_l; [by apply (es_acquire "b" _ _ _ (mkLease "b" 2) (mkKv (Some ("b", 2%N)) 2))|].
    eapply rtc_l; [apply (es_release_delete "a"); set_solver|].
    eapply rtc_l; [by apply (es_acquire "c" _ _ _ (mkLease "c" 4) (mkKv (Some ("c", 4%N)) 4))|].
    apply rtc_refl.
  - simpl. split_and!; reflexivity.
Qed.

(** * Snapshot store *)

(** An entry of the key's history: a put with its decoded envelope ([None] when
    the JSON does not parse), or a delete marker. *)
Inductive snap_entry := SPut (env : option (N * Snapshot)) | SDel.

(** The backwards loop of [Load]; [rev_hist] is the history newest first. *)
Fixpoint load_scan (maxSeq : N) (rev_hist : list snap_entry) : option Snapshot * N :=
  match rev_hist with
  | [] => (None, 0%N)
  | SDel :: rest => load_scan maxSeq rest
  | SPut None :: rest => load_scan maxSeq rest
  | SPut (Some (seq, view)) :: rest =>
      if (seq <=? maxSeq)%N then (Some view, seq) else load_scan maxSeq rest
  end.

(** [Load]: [hist] is oldest first, as the server returns it. *)
Definition Load (hist : list snap_entry) (maxSeq : N) : option Snapshot * N :=
  load_scan maxSeq (rev hist).

(** [Save] with the bucket's history depth of 8. *)
Definition Save (seq : N) (snap : Snapshot) (hist : list snap_entry) : list snap_entry :=
  let h := hist ++ [SPut (Some (seq, snap))] in drop (length h - 8) h.

Lemma load_scan_spec maxSeq rh :
  let r := load_scan maxSeq rh in
  (r.1 = None ∧ r.2 = 0%N ∧ ∀ seq v, SPut (Some (seq, v)) ∈ rh → (maxSeq < seq)%N) ∨
  ∃ newer v older, rh = newer ++ SPut (Some (r.2, v)) :: older ∧ r.1 = Some v ∧ (r.2 <= maxSeq)%N ∧
    ∀ seq v', SPut (Some (seq, v')) ∈ newer → (maxSeq < seq)%N.
Proof.
  induction rh as [|x rh IH]; simpl.
  { left. split_and!; try done. by intros ?? ?%not_elem_of_nil. }
  destruct x as [[[seq v]|]|].
  - destruct (N.leb_spec seq maxSeq).
    + right. exists [], v, rh. split_and!; try done. by intros ?? ?%not_elem_of_nil.
    + destruct IH as [(H1 & H2 & H3)|(newer & v' & older & H1 & H2 & H3 & H4)].
      * left. split_and!; try done. intros seq' v' [[= -> ->]|Hin]%elem_of_cons; [done|by eapply H3].
      * right. exists (SPut (Some (seq, v)) :: newer), v', older. rewrite H1 at 1. split_and!; try done.
        intros seq' v'' [[= -> ->]|Hin]%elem_of_cons; [done|by eapply H4].
  - destruct IH as [(H1 & H2 & H3)|(newer & v' & older & H1 & H2 & H3 & H4)].
    + left. split_and!; try done. intros seq' v' [[=]|Hin]%elem_of_cons. by eapply H3.
    + right. exists (SPut None :: newer), v', older. rewrite H1 at 1. split_and!; try done.
      intros seq' v'' [[=]|Hin]%elem_of_cons. by eapply H4.
  - destruct IH as [(H1 & H2 & H3)|(newer & v' & older & H1 & H2 & H3 & H4)].
    + left. split_and!; try done. intros seq' v' [[=]|Hin]%elem_of_cons. by eapply H3.
    + right. exists (SDel :: newer), v', older. rewrite H1 at 1. split_and!; try done.
      intros seq' v'' [[=]|Hin]%elem_of_cons. by eapply H4.
Qed.

(** [Load] after [Save] gives the saved snapshot back at any ack floor at or
    above it, and never a snapshot beyond the floor it is asked for. *)
Theorem snapshot_store_roundtrip hist seq snap maxSeq :
  ((seq <= maxSeq)%N → Load (Save seq snap hist) maxSeq = (Some snap, seq)) ∧
  ∀ v s, Load hist maxSeq = (Some v, s) → (s <= maxSeq)%N ∧ SPut (Some (s, v)) ∈ hist.
Proof.
  split.
  - intros Hle. unfold Load, Save. set (h := hist ++ [_]).
    assert (∃ h', drop (length h - 8) h = h' ++ [SPut (Some (seq, snap))]) as [h' ->].
    { exists (drop (length h - 8) hist). subst h. rewrite drop_app_le; [done|].
      rewrite length_app. simpl. lia. }
    rewrite rev_app_distr. simpl. by rewrite (proj2 (N.leb_le _ _) Hle).
  - intros v s HL. unfold Load in HL. pose proof (load_scan_spec maxSeq (rev hist)) as Hs.
    rewrite HL in Hs. simpl in Hs.
    destruct Hs as [(? & _)|(newer & v' & older & Hr & Hv & Hle & _)]; [done|]. simplify_eq.
    split; [done|]. apply list_elem_of_In, in_rev, list_elem_of_In. rewrite Hr. set_solver.
Qed.

Lemma snapshot_store_roundtrip_witness :
  let snap : Snapshot := {["acme/i1" := {["ann" := [mkInterval 2 0 true]]}]} in
  Load (Save 7 snap [SPut (Some (5%N, ∅)); SDel]) 9 = (Some snap, 7%N).
Proof.
  intros snap. apply (snapshot_store_roundtrip [SPut (Some (5%N, ∅)); SDel] 7 snap 9). lia.
Defined.
