(* ===== verification/JetStreamStore.v ===== *)
(** The JetStream adapter of the log port (internal/signaling/store.go): [Append]
    and [Replay] over a server whose stream other routers extend at any time, and
    the provisioning of the stream. [Replay] is shown to keep the contract the
    router relies on and to return. *)

From S2P Require Import Prelude Wire Subjects Trace LogStore Lifecycle StreamInvariant MemStore.

(** * Append *)

(** A message as it is handed to [PublishMsg]: subject, payload, [traceparent]
    header, message id and the last sequence expected on the subject. *)
Record pub_msg := mkPubMsg {
  pm_subject : string;
  pm_data : string;
  pm_traceparent : option string;
  pm_MsgId : string;
  pm_ExpectLast : N;
}.

(** The answer of [PublishMsg]. *)
Inductive publish_ans :=
| PubAck (duplicate : bool) (seq : N)
| PubAPIError (code : Z)
| PubOther.

Definition JSErrCodeStreamWrongLastSequence : Z := 10071.

(** [Append] with a context of trace [ctx]: its answer, and the message it
    published. *)
Definition js_Append (publish : pub_msg → publish_ans) (ctx : option TraceContext)
    (subject data dedupID : string) (expectedLastSubjSeq : N) : append_res * pub_msg :=
  let msg := mkPubMsg subject data (InjectTraceparent ctx) dedupID expectedLastSubjSeq in
  (match publish msg with
   | PubAck d s => AppOK d s
   | PubAPIError code => if (code =? JSErrCodeStreamWrongLastSequence)%Z then AppOCC else AppErr
   | PubOther => AppErr
   end, msg).

(** * Replay *)

Definition replayFetchBatch : nat := 256.

Section Replay.
Context {EC : EventCodec}.
(** The stream as the [k]-th request finds it, the requests that fail, how many of
    the messages there are the [k]-th request fetches, the messages (by sequence)
    that arrive without metadata, and the subject. *)
Context (logs : nat → log) (fault : nat → bool) (got : nat → nat) (nometa : N → bool) (subject : string).

(** The reader's progress: facts decoded, the last stream sequence read, messages
    consumed by the ephemeral consumer, and whether that consumer exists. *)
Record replay_st := mkReplay {
  rp_out : list Event;
  rp_last : N;
  rp_cursor : nat;
  rp_sub : bool;
}.

(** What the [k]-th request fetches: at most a batch of what is there. *)
Definition fetched (k : nat) (st : replay_st) : list entry :=
  take (got k `min` replayFetchBatch) (drop (rp_cursor st) (subj_msgs (logs k) subject)).

(** The inner loop over one batch; [None] is a message without metadata or a
    corrupt fact. *)
Definition read_batch (ms : list entry) (st : replay_st) : option replay_st :=
  foldl (λ ost e,
    st ← ost; (if nometa (e_seq e) then None else Some tt);; ev ← unmarshal_event (e_data e);
    Some (mkReplay (rp_out st ++ [ev]) (e_seq e) (S (rp_cursor st)) (rp_sub st)))
    (Some st) ms.

(** [for lastSubjSeq < last.Sequence]: the outer [None] is out of fuel, the inner
    one an error; the number is that of the next request. *)
Fixpoint drain (fuel k : nat) (target : N) (st : replay_st) : option (option replay_st * nat) :=
  if (rp_last st <? target)%N then
    match fuel with
    | O => None
    | S fuel' =>
        if fault k then Some (None, S k)
        else
          match fetched k st with
          | [] => Some (None, S k)
          | ms => match read_batch ms st with
                  | None => Some (None, S k)
                  | Some st' => drain fuel' (S k) target st'
                  end
          end
    end
  else Some (Some st, k).

(** One turn of the outer loop after [GetLastMsg] found [target]. *)
Definition subscribe (k : nat) (st : replay_st) : option replay_st * nat :=
  if rp_sub st then (Some st, k)
  else if fault k then (None, S k)
  else (Some (mkReplay (rp_out st) (rp_last st) (rp_cursor st) true), S k).

Fixpoint replay_loop (fuel inner k : nat) (st : replay_st) : option (replay_res * nat) :=
  match fuel with
  | O => None
  | S fuel' =>
      if fault k then Some (RepErr, k)
      else
        match last (subj_msgs (logs k) subject) with
        | None => Some (RepOK (rp_out st) (rp_last st), k)
        | Some m =>
            if (e_seq m <=? rp_last st)%N then Some (RepOK (rp_out st) (rp_last st), k)
            else
              match subscribe (S k) st with
              | (None, k1) => Some (RepErr, k)
              | (Some st1, k1) =>
                  match drain inner k1 (e_seq m) st1 with
                  | None => None
                  | Some (None, _) => Some (RepErr, k)
                  | Some (Some st2, k2) => replay_loop fuel' inner k2 st2
                  end
              end
        end
  end.

Definition js_Replay (fuel inner k : nat) : option (replay_res * nat) :=
  replay_loop fuel inner k (mkReplay [] 0 0 false).

(** ** The stream only grows *)

Context (q : bool).
Hypothesis logs_ok : ∀ k, log_ok q (logs k).
Hypothesis logs_grow : ∀ k, logs k `prefix_of` logs (S k).

Local Abbreviation msgs k := (subj_msgs (logs k) subject).

Lemma logs_grow_le k k' : k ≤ k' → logs k `prefix_of` logs k'.
Proof. induction 1 as [|k' Hk IH]; [done|]. by etrans. Qed.

Lemma msgs_prefix k k' : k ≤ k' → msgs k `prefix_of` msgs k'.
Proof. intros Hk. destruct (logs_grow_le k k' Hk) as [l ->]. rewrite subj_msgs_app. by apply prefix_app_r. Qed.

(** The reader holds exactly the first [rp_cursor] messages of the subject. *)
Definition reading (k : nat) (st : replay_st) : Prop :=
  rp_cursor st ≤ length (msgs k) ∧
  mapM (unmarshal_event ∘ e_data) (take (rp_cursor st) (msgs k)) = Some (rp_out st) ∧
  rp_last st = seq_at (msgs k) (rp_cursor st).

Lemma reading_later k k' st : k ≤ k' → reading k st → reading k' st.
Proof.
  intros Hk (Hc & Ho & Hl). destruct (msgs_prefix k k' Hk) as [l Hm]. unfold reading.
  rewrite Hm, length_app, take_app_le, seq_at_app by done. split_and!; [lia|done|done].
Qed.

Lemma read_batch_spec k ms st :
  reading k st → ms `prefix_of` drop (rp_cursor st) (msgs k) →
  match read_batch ms st with
  | Some st' => reading k st' ∧ rp_cursor st' = rp_cursor st + length ms ∧ rp_sub st' = rp_sub st
  | None => True
  end.
Proof.
  intros Hr. induction ms as [|e ms IH] using rev_ind; intros Hp.
  { simpl. split_and!; [done|lia|done]. }
  unfold read_batch. rewrite foldl_snoc. fold (read_batch ms st).
  assert (ms `prefix_of` drop (rp_cursor st) (msgs k)) as Hp' by (etrans; [|done]; by apply prefix_app_r).
  specialize (IH Hp'). destruct (read_batch ms st) as [st1|]; simpl; [|done].
  destruct (nometa (e_seq e)); simpl; [done|]. destruct (unmarshal_event (e_data e)) as [ev|] eqn:Hev; simpl; [|done].
  destruct IH as ((Hc & Ho & Hl) & Hcur & Hsub).
  assert (msgs k !! rp_cursor st1 = Some e) as He.
  { rewrite Hcur, <-lookup_drop. apply (prefix_lookup_Some (ms ++ [e])); [|done].
    by rewrite list_lookup_middle. }
  split_and!; simpl; [|rewrite length_app; simpl; lia|done].
  split_and!; simpl.
  - apply lookup_lt_Some in He. lia.
  - rewrite (take_S_r _ _ e) by done. rewrite mapM_app_option, Ho. simpl. by rewrite Hev.
  - by rewrite He.
Qed.

(** Every fetch makes progress, so [drain] needs at most one per message left. *)
Lemma drain_spec fuel k target st n :
  reading k st → target = seq_at (msgs k) n → n ≤ length (msgs k) → n - rp_cursor st ≤ fuel →
  ∃ r k', drain fuel k target st = Some (r, k') ∧ k ≤ k' ∧
    ∀ st', r = Some st' → reading k' st' ∧ n ≤ rp_cursor st' ∧ rp_cursor st ≤ rp_cursor st'.
Proof.
  revert k st. induction fuel as [|fuel IH]; intros k st Hr Ht Hn Hfuel; simpl.
  all: destruct (N.ltb_spec (rp_last st) target) as [Hlt|Hge].
  2, 4: exists (Some st), k; split_and!; [done..|]; intros st' [= <-]; split_and!; [done| |done];
    destruct (decide (rp_cursor st < n)) as [Hcn|]; [|lia];
    destruct Hr as (Hc & _ & Hl); pose proof (seq_at_lt q (logs k) subject (rp_cursor st) n (logs_ok k) Hcn Hn);
    rewrite Hl, Ht in Hge; lia.
  - destruct Hr as (Hc & _ & Hl). assert (n ≤ rp_cursor st) as Hle by lia.
    rewrite Hl, Ht in Hlt. pose proof (seq_at_le q (logs k) subject n (rp_cursor st) (logs_ok k) Hle Hc). lia.
  - destruct (fault k); [by exists None, (S k); split_and!; [done|lia|]|].
    destruct (fetched k st) as [|e ms] eqn:Hb; [by exists None, (S k); split_and!; [done|lia|]|].
    rewrite <-Hb. assert (fetched k st `prefix_of` drop (rp_cursor st) (msgs k)) as Hp by apply prefix_take.
    pose proof (read_batch_spec k _ st Hr Hp) as Hread.
    destruct (read_batch _ st) as [st1|]; [|by exists None, (S k); split_and!; [done|lia|]].
    destruct Hread as (Hr1 & Hcur & _). rewrite Hb in Hcur. simpl in Hcur.
    destruct (msgs_prefix k (S k)) as [l Hm]; [lia|].
    destruct (IH (S k) st1) as (r & k' & -> & Hk & Hres).
    + eapply reading_later; [|done]. lia.
    + by rewrite Hm, seq_at_app.
    + rewrite Hm, length_app. lia.
    + lia.
    + exists r, k'. split_and!; [done|lia|]. intros st' ->. destruct (Hres st' eq_refl) as (? & ? & ?).
      split_and!; [done..|lia].
Qed.

Lemma subscribe_spec k st r k' :
  subscribe k st = (r, k') → k ≤ k' ∧
    ∀ st', r = Some st' → rp_out st' = rp_out st ∧ rp_last st' = rp_last st ∧ rp_cursor st' = rp_cursor st.
Proof.
  unfold subscribe. repeat case_match; intros [= <- <-]; (split; [lia|]); intros st' [= <-]; done.
Qed.

(** With at most [bound] messages ever on the subject, the loop returns, and what
    it returns is the subject as its last request found it. *)
Lemma replay_loop_spec bound fuel inner k st :
  (∀ k, length (msgs k) ≤ bound) → bound ≤ inner → reading k st → bound - rp_cursor st < fuel →
  ∃ r k', replay_loop fuel inner k st = Some (r, k') ∧ k ≤ k' ∧ replay_step (logs k') subject r.
Proof.
  intros Hbound Hinner. revert k st. induction fuel as [|fuel IH]; intros k st Hr Hfuel; simpl; [lia|].
  destruct (fault k); [exists RepErr, k; split_and!; [done..|constructor]|].
  pose proof Hr as (Hc & Ho & Hl).
  assert (rp_cursor st = length (msgs k) → replay_step (logs k) subject (RepOK (rp_out st) (rp_last st))) as Hok.
  { intros Hcur. rewrite Hl, Hcur, <-last_subj_seq_at. constructor.
    unfold facts_of. rewrite <-Ho, Hcur. by rewrite firstn_all. }
  destruct (last (msgs k)) as [m|] eqn:Hlast.
  - destruct (N.leb_spec (e_seq m) (rp_last st)) as [Hle|Hgt].
    + exists (RepOK (rp_out st) (rp_last st)), k. split_and!; [done..|]. apply Hok.
      destruct (decide (rp_cursor st < length (msgs k))) as [Hlt|]; [|lia].
      pose proof (seq_at_lt q (logs k) subject _ _ (logs_ok k) Hlt (le_n _)) as Hs.
      rewrite <-last_subj_seq_at in Hs. unfold last_subj_seq in Hs. rewrite Hlast in Hs. simpl in Hs. lia.
    + destruct (subscribe (S k) st) as [[st1|] k1] eqn:Hsub;
        [|exists RepErr, k; split_and!; [done..|constructor]].
      apply subscribe_spec in Hsub as [Hk1 Hst1]. destruct (Hst1 st1 eq_refl) as (Ho1 & Hl1 & Hc1).
      assert (reading k1 st1) as Hr1.
      { apply (reading_later k); [lia|]. unfold reading. by rewrite Ho1, Hl1, Hc1. }
      destruct (msgs_prefix k k1) as [l Hm]; [lia|].
      destruct (drain_spec inner k1 (e_seq m) st1 (length (msgs k))) as (r & k2 & -> & Hk2 & Hres); try done.
      * rewrite Hm, seq_at_app by done. rewrite <-last_subj_seq_at. unfold last_subj_seq. by rewrite Hlast.
      * rewrite Hm, length_app. lia.
      * specialize (Hbound k). lia.
      * destruct r as [st2|]; [|exists RepErr, k; split_and!; [done..|constructor]].
        destruct (Hres st2 eq_refl) as (Hr2 & Hn & Hcc).
        assert (rp_cursor st < length (msgs k)) as Hprog.
        { destruct (decide (rp_cursor st < length (msgs k))) as [|Hge]; [done|].
          assert (rp_cursor st = length (msgs k)) as He by lia.
          rewrite Hl, He, <-last_subj_seq_at in Hgt. unfold last_subj_seq in Hgt.
          rewrite Hlast in Hgt. simpl in Hgt. lia. }
        specialize (Hbound k).
        destruct (IH k2 st2 Hr2) as (r & k' & -> & Hk' & Hstep); [lia|].
        exists r, k'. split_and!; [done|lia|done].
  - exists (RepOK (rp_out st) (rp_last st)), k. split_and!; [done..|]. apply Hok.
    apply last_None in Hlast. rewrite Hlast in *. simpl in *. lia.
Qed.

(** C34: [jetstreamStore.Replay] keeps the contract of the log port and returns.
    Against a stream that other writers extend between any two of its requests,
    with requests failing at will, fetches that return any part of a batch and
    messages that arrive without metadata, it ends after at most one round per message of
    the subject, and it either errors or returns every fact of the subject with
    the subject's last stream sequence, as of its last [GetLastMsg]. *)
Theorem js_Replay_contract bound k0 :
  (∀ k, length (msgs k) ≤ bound) →
  ∃ r k', js_Replay (S bound) bound k0 = Some (r, k') ∧ k0 ≤ k' ∧ replay_step (logs k') subject r.
Proof.
  intros Hb. apply (replay_loop_spec bound); [done|done| |simpl; lia].
  split_and!; simpl; [lia|done|done].
Qed.
End Replay.

(** One fact on the subject, and a server that fails its second request. *)
Definition one_event : Event :=
  mkEvent SchemaV1 "interaction.started" "e1" 1 0 "acme" "desk" "chat" "" "c1" "" "c1" "" "" "" "" "".
Definition one_log : log :=
  [mkEntry (logSubjectFor "acme" "i1") 1 (dedupIDFor "acme" "i1" "c1") (marshal_event one_event)].

Lemma one_log_ok : log_ok true one_log.
Proof.
  apply (lo_snoc true []); [constructor|]. exists "acme", "i1", "c1", one_event, [].
  split_and!; try reflexivity; try done. split_and!; [done| |done]. by intros e ?%not_elem_of_nil.
Qed.

Lemma js_Replay_contract_witness :
  (∃ r k', js_Replay (λ _, one_log) (λ _, false) (λ _, 3) (λ _, false) (logSubjectFor "acme" "i1") 2 1 0 = Some (r, k') ∧
     0 ≤ k' ∧ replay_step one_log (logSubjectFor "acme" "i1") r) ∧
  js_Replay (λ _, one_log) (λ _, false) (λ _, 3) (λ _, false) (logSubjectFor "acme" "i1") 2 1 0 = Some (RepOK [one_event] 1, 3).
Proof.
  split; [|vm_compute; reflexivity].
  apply (js_Replay_contract (λ _, one_log) (λ _, false) (λ _, 3) (λ _, false) (logSubjectFor "acme" "i1") true
    (λ _, one_log_ok) (λ _, reflexivity one_log) 1 0).
  intros _. vm_compute. lia.
Defined.

(** * Provisioning the stream *)

Record StreamConfig := mkStreamConfig {
  sc_Name : string;
  sc_Subjects : list string;
  sc_DiscardOld : bool;
  sc_MaxAge : Z;
  sc_MaxBytes : Z;
  sc_Duplicates : Z;
  sc_MaxMsgsPerSubject : Z;
}.

Definition LogStreamName : string := "INTERACTION_LOGS".
Definition hour : Z := 3600000000000.

Definition logStreamConfig : StreamConfig :=
  mkStreamConfig LogStreamName ["tenant.*.interaction.*.log"] true (365 * 24 * hour) (-1) hour (-1).

(** An error is [Some]; the update's error wins when both fail. *)
Definition ensureStream (add update : StreamConfig → option string) (cfg : StreamConfig) : option string :=
  match add cfg with
  | None => None
  | Some _ => update cfg
  end.

Definition EnsureLogStream (add update : StreamConfig → option string) : option string :=
  ensureStream add update logStreamConfig.

(** [DeleteStream]'s answer: deleted, not found, or another error. *)
Inductive delete_ans := Deleted | StreamNotFound | DeleteFailed (err : string).

Definition ResetLogStream (del : delete_ans) (add : StreamConfig → option string) : option string :=
  match del with
  | DeleteFailed err => Some err
  | Deleted | StreamNotFound => add logStreamConfig
  end.
