(* ===== verification/Observability.v ===== *)
(** Contexts and their observability values (internal/obs: obs.go, trace.go,
    otel.go; the identity of internal/signaling/identity.go): the trace, the logger,
    the request id and the identity a context carries, spans with and without an
    exporter, and how a trace crosses the processes. A Go context is a record of
    the values bound in it; binding one shadows the earlier. The OpenTelemetry SDK
    is an interface. *)

From Stdlib Require Import Qcanon.
From S2P Require Import Prelude Bytes Wire Identity Subjects Membership Trace LogStore Router RouterTraffic MemStore.
From S2P Require Import FeedProjector FeedTheorems FeedOutputs ProjectorNats JetStreamStore.

(** * OpenTelemetry *)

Class Otel := {
  TraceID_t : Type;
  SpanID_t : Type;
  SpanContext : Type;
  TraceIDFromHex : string → option TraceID_t;
  SpanIDFromHex : string → option SpanID_t;
  NewSpanContext : TraceID_t → SpanID_t → bool → SpanContext;
  zeroSpanContext : SpanContext;
  sc_IsValid : SpanContext → bool;
  sc_TraceID : SpanContext → string;
  sc_SpanID : SpanContext → string;
  sc_IsSampled : SpanContext → bool;
  (** [tracer.Start] under the span a context holds, if any; the argument numbers
      the calls. *)
  tracer_Start : option SpanContext → nat → SpanContext;
}.

(** What the SDK documents: identifiers print as the hexadecimal they were read
    from, a context of accepted identifiers is valid and a zero one is not, and a
    span started under a valid parent is valid and belongs to the parent's trace. *)
Class OtelOK `{Otel} := {
  otel_context_ids t s tid sid b :
    TraceIDFromHex t = Some tid → SpanIDFromHex s = Some sid →
    sc_IsValid (NewSpanContext tid sid b) = true ∧ sc_TraceID (NewSpanContext tid sid b) = t;
  otel_accepts tc : trace_wf tc → is_Some (TraceIDFromHex (TraceID tc)) ∧ is_Some (SpanIDFromHex (SpanID tc));
  otel_zero : sc_IsValid zeroSpanContext = false;
  otel_start parent n :
    trace_wf (mkTrace (sc_TraceID (tracer_Start parent n)) (sc_SpanID (tracer_Start parent n)) false) ∧
    sc_IsValid (tracer_Start parent n) = true ∧
    ∀ sc, parent = Some sc → sc_IsValid sc = true → sc_TraceID (tracer_Start parent n) = sc_TraceID sc;
}.

(** * Contexts *)

(** A logger is the attributes bound to it. *)
Abbreviation logger := (list (string * string)).

Section Contexts.
Context {OT : Otel}.

Record Ctx := mkCtx {
  cx_trace : option TraceContext;
  cx_logger : option logger;
  cx_request : option string;
  cx_identity : option Identity;
  cx_span : option SpanContext;
}.
Definition Background : Ctx := mkCtx None None None None None.

Definition WithTrace (ctx : Ctx) (tc : TraceContext) : Ctx :=
  mkCtx (Some tc) (cx_logger ctx) (cx_request ctx) (cx_identity ctx) (cx_span ctx).
Definition TraceFromContext (ctx : Ctx) : TraceContext * bool := trace_value (cx_trace ctx).

Definition WithLogger (ctx : Ctx) (l : logger) : Ctx :=
  mkCtx (cx_trace ctx) (Some l) (cx_request ctx) (cx_identity ctx) (cx_span ctx).
(** [Logger]; [def] is [slog.Default]. *)
Definition Logger (def : logger) (ctx : Ctx) : logger := default def (cx_logger ctx).

Definition WithRequestID (ctx : Ctx) (id : string) : Ctx :=
  mkCtx (cx_trace ctx) (cx_logger ctx) (Some id) (cx_identity ctx) (cx_span ctx).
Definition RequestID (ctx : Ctx) : string := default "" (cx_request ctx).

Definition WithIdentity (ctx : Ctx) (id : Identity) : Ctx :=
  mkCtx (cx_trace ctx) (cx_logger ctx) (cx_request ctx) (Some id) (cx_span ctx).
Definition IdentityFrom (ctx : Ctx) : Identity := default noIdentity (cx_identity ctx).

Definition ContextFromTraceparent (ctx : Ctx) (raw : string) (r : reads) : Ctx := WithTrace ctx (from_inbound raw r).

Definition WithCorrelation (ctx : Ctx) (base : logger) : Ctx :=
  let l := match TraceFromContext ctx with
           | (tc, true) => base ++ [("trace_id", TraceID tc); ("span_id", SpanID tc)]
           | _ => base
           end in
  let l := if decide (RequestID ctx ≠ "") then l ++ [("request_id", RequestID ctx)] else l in
  WithLogger ctx l.

(** * Spans *)

Definition otelSpanContext (tc : TraceContext) : SpanContext :=
  match TraceIDFromHex (TraceID tc) with
  | None => zeroSpanContext
  | Some tid =>
      match SpanIDFromHex (SpanID tc) with
      | None => zeroSpanContext
      | Some sid => NewSpanContext tid sid (Sampled tc)
      end
  end.

(** The span a context holds; a context without one yields an invalid span. *)
Definition SpanContextFrom (ctx : Ctx) : SpanContext := default zeroSpanContext (cx_span ctx).
Definition with_span (ctx : Ctx) (sc : SpanContext) : Ctx :=
  mkCtx (cx_trace ctx) (cx_logger ctx) (cx_request ctx) (cx_identity ctx) (Some sc).

Definition startOTelSpan (ctx : Ctx) (n : nat) : Ctx :=
  let ctx := if negb (sc_IsValid (SpanContextFrom ctx)) then
               match TraceFromContext ctx with
               | (parent, true) => let sc := otelSpanContext parent in
                                   if sc_IsValid sc then with_span ctx sc else ctx
               | _ => ctx
               end
             else ctx in
  let span := tracer_Start (cx_span ctx) n in
  WithTrace (with_span ctx span) (mkTrace (sc_TraceID span) (sc_SpanID span) (sc_IsSampled span)).

(** [StartSpan]; [tracer] says whether an exporter was set up. *)
Definition start_span (tracer : bool) (ctx : Ctx) (n : nat) (r : reads) : Ctx :=
  if tracer then startOTelSpan ctx n
  else
    let '(parent, ok) := TraceFromContext ctx in
    let traceID := if negb ok || bool_decide (TraceID parent = "") then randHex (rd_trace r) (rd_tfail r) else TraceID parent in
    WithTrace ctx (mkTrace traceID (randHex (rd_span r) (rd_sfail r)) (Sampled parent || negb ok)).

(** * The processes *)

(** The context a router's callback handles a message with (cmd/router/main.go). *)
Definition router_context (dev : bool) (trusted : gset string) (subject header : string) (def : logger) (r : reads) : Ctx :=
  let ctx := WithCorrelation (ContextFromTraceparent Background header r) def in
  if dev then
    let id := devTrustedIdentity subject trusted in
    if decide (id_Role id ≠ "") then WithIdentity ctx id else ctx
  else WithIdentity ctx (identityFromSubject subject trusted).

(** The context of an auth decision ([Subscribe] of the responder). *)
Definition auth_context (tracer : bool) (header : string) (log : logger) (n : nat) (r1 r2 : reads) : Ctx :=
  start_span tracer (WithCorrelation (ContextFromTraceparent Background header r1) log) n r2.

(** The context a participation command is handled with. *)
Definition command_context (parent : Ctx) (header eventID tenant : string) (log : logger) (r : reads) : Ctx :=
  WithCorrelation (WithRequestID (ContextFromTraceparent parent header r) eventID) (log ++ [("tenant_id", tenant)]).
End Contexts.

(** * Theorems *)

Section Theorems.
Context {OT : Otel}.

Lemma from_inbound_wf raw r :
  reads_ok r → trace_wf (from_inbound raw r) ∧
  ∀ parent, ParseTraceparent raw = Some parent →
    TraceID (from_inbound raw r) = TraceID parent ∧ Sampled (from_inbound raw r) = Sampled parent.
Proof.
  intros [Ht Hs]. destruct (FromInbound_wf raw (rd_trace r) (rd_span r) (rd_tfail r) (rd_sfail r) Ht Hs) as (? & _ & ? & _). done.
Qed.

Lemma trace_wf_id tc : trace_wf tc → TraceID tc ≠ "".
Proof. intros (Hl & _) He. by rewrite He in Hl. Qed.

Lemma TraceFromContext_set ctx tc : cx_trace ctx = Some tc → trace_wf tc → TraceFromContext ctx = (tc, true).
Proof. unfold TraceFromContext, trace_value. intros -> Hwf. by rewrite bool_decide_eq_false_2 by (by apply trace_wf_id). Qed.

(** What a context with a trace sends downstream reads back as that trace. *)
Lemma injected_reads_back tc :
  trace_wf tc →
  InjectTraceparent (Some tc) = Some (Traceparent tc) ∧ ParseTraceparent (Traceparent tc) = Some tc ∧ Traceparent tc ≠ "".
Proof.
  intros Hwf. unfold InjectTraceparent, trace_value. rewrite bool_decide_eq_false_2 by (by apply trace_wf_id).
  split_and!; [done|by apply traceparent_reparse|done].
Qed.

(** The identity of a router's context is the one its handler is verified with. *)
Lemma router_context_identity dev trusted subject header def r :
  IdentityFrom (router_context dev trusted subject header def r) = subscription_identity dev trusted subject.
Proof. unfold router_context, subscription_identity. destruct dev; [|done]. by repeat case_decide. Qed.

Lemma router_context_trace dev trusted subject header def r :
  cx_trace (router_context dev trusted subject header def r) = Some (from_inbound header r).
Proof. unfold router_context. destruct dev; [|done]. by case_decide. Qed.

(** A message [Append] published, as the stream hands it out: with the subject, the
    payload and the header it was stored with. *)
Definition as_stored (m : pub_msg) (seq : N) (n : Z) : nats_msg :=
  mkMsg (pm_subject m) (pm_data m) (Some (seq, n)) (pm_traceparent m).

(** The feed messages of a fact whose message carries a trace. *)
Lemma feed_headers marshal_feed marshal_control cfg f tc p w t a i d payload h :
  Forall reads_ok (w_reads w) → ParseTraceparent (f_traceparent f) = Some tc → f_traceparent f ≠ "" →
  OPublish t a i d payload h ∈ (process marshal_feed marshal_control cfg f p w).1.1.2 →
  ∃ h2 tc2, h = Some h2 ∧ ParseTraceparent h2 = Some tc2 ∧ TraceID tc2 = TraceID tc ∧ Sampled tc2 = Sampled tc.
Proof.
  intros Hreads Hp Hne Hin. destruct (process _ _ cfg f p w) as [[[r o] p'] w'] eqn:E. simpl in Hin.
  apply (process_emits _ _ _ _ _ _ _ _ _ _ E) in Hin as [-> _]. unfold fact_context. rewrite decide_True by done.
  assert (∃ rd rest, pop zero_reads (w_reads w) = (rd, rest) ∧ reads_ok rd) as (rd & rest & -> & Hrd).
  { destruct Hreads as [|rd rest ? ?]; [by exists zero_reads, []|by exists rd, rest]. }
  simpl. destruct (from_inbound_wf (f_traceparent f) rd Hrd) as [Hwf Hkeep]. destruct (Hkeep tc Hp) as [Hid Hs].
  destruct (injected_reads_back _ Hwf) as (Hi & Hp2 & _). by eexists _, _.
Qed.

(** C25: One trace from the sender to the reader. Whatever a command's header holds
    and whatever the random sources yield, failures included, the message the
    router appends for it carries a [traceparent] header that is valid, the one the
    command's log lines name, and continues the sender's trace exactly when its
    header was a valid one; and every feed message the projector publishes for that
    message, on any delivery of it and whatever the ports answer, carries a valid
    header of the same trace id and sampling decision. *)
Theorem trace_crosses_plane {EC : EventCodec} dev trusted subject header def r1 publish log_subject data dedup expected :
  reads_ok r1 →
  let routed := router_context dev trusted subject header def r1 in
  let appended := (js_Append publish (cx_trace routed) log_subject data dedup expected).2 in
  ∃ h1 tc1, pm_traceparent appended = Some h1 ∧ ParseTraceparent h1 = Some tc1 ∧
    Logger def routed = def ++ [("trace_id", TraceID tc1); ("span_id", SpanID tc1)] ∧
    (∀ sender, ParseTraceparent header = Some sender → TraceID tc1 = TraceID sender ∧ Sampled tc1 = Sampled sender) ∧
    (ParseTraceparent header = None → TraceID tc1 = randHex (rd_trace r1) (rd_tfail r1) ∧ Sampled tc1 = true) ∧
    ∀ seq n rest polls f marshal_feed marshal_control cfg p w t a i d payload h,
      Deliver ((false, FMsgs (as_stored appended seq n :: rest)) :: polls) = Some (DFact f) →
      Forall reads_ok (w_reads w) →
      OPublish t a i d payload h ∈ (process marshal_feed marshal_control cfg f p w).1.1.2 →
      ∃ h2 tc2, h = Some h2 ∧ ParseTraceparent h2 = Some tc2 ∧ TraceID tc2 = TraceID tc1 ∧ Sampled tc2 = Sampled tc1.
Proof.
  intros Hr1 routed appended. destruct (from_inbound_wf header r1 Hr1) as [Hwf1 Hsender]. set (tc1 := from_inbound header r1) in *.
  assert (cx_trace routed = Some tc1) as Hc by apply router_context_trace.
  destruct (injected_reads_back tc1 Hwf1) as (Hi1 & Hp1 & Hne).
  assert (pm_traceparent appended = Some (Traceparent tc1)) as Ha by (unfold appended; simpl; by rewrite Hc).
  exists (Traceparent tc1), tc1. split_and!; try done.
  - unfold routed, router_context, WithCorrelation. rewrite (TraceFromContext_set _ tc1) by done.
    destruct dev; [case_decide|]; done.
  - unfold tc1, from_inbound, FromInbound. by intros ->.
  - intros seq n rest polls f mf mc cfg p w t a i d payload h Hd Hreads.
    assert (f_traceparent f = Traceparent tc1) as Hf.
    { injection Hd as <-. change (default "" (pm_traceparent appended) = Traceparent tc1). by rewrite Ha. }
    apply feed_headers; [done|by rewrite Hf..].
Qed.

(** A span belongs to the trace of its context, whether or not it is exported, and
    what it sends on is a valid header. *)
Theorem span_keeps_trace {OK : OtelOK} tracer ctx tc n r :
  reads_ok r → cx_trace ctx = Some tc → trace_wf tc → cx_span ctx = None →
  ∃ tc', cx_trace (start_span tracer ctx n r) = Some tc' ∧ TraceID tc' = TraceID tc ∧ trace_wf tc'.
Proof.
  intros [Ht Hs] Hc Hwf Hsp. unfold start_span. destruct tracer.
  - unfold startOTelSpan, SpanContextFrom. rewrite Hsp. simpl. rewrite otel_zero. simpl.
    rewrite (TraceFromContext_set ctx tc Hc Hwf). destruct (otel_accepts tc Hwf) as [[tid Htid] [sid Hsid]].
    unfold otelSpanContext. rewrite Htid, Hsid. destruct (otel_context_ids _ _ _ _ (Sampled tc) Htid Hsid) as [Hv Hid].
    rewrite Hv. simpl. destruct (otel_start (Some (NewSpanContext tid sid (Sampled tc))) n) as (Hw & _ & Hpar).
    eexists. split; [done|]. split; [|exact Hw]. simpl. rewrite <-Hid. by apply Hpar.
  - rewrite (TraceFromContext_set ctx tc Hc Hwf). simpl. rewrite bool_decide_eq_false_2 by (by apply trace_wf_id).
    eexists. split; [done|]. split; [done|]. simpl.
    destruct (randHex_wf (rd_span r) (rd_sfail r) 8 Hs ltac:(lia)) as (Hsl & Hsh & Hsz).
    destruct Hwf as (? & _ & ? & _ & ? & _). split_and!; simpl; try done. apply (Hsz (be_bytes 8 0)); reflexivity.
Qed.

(** The log lines of an auth decision carry the span the request arrived with, not
    the span opened for the decision: the logger is bound before the span is. *)
Theorem auth_logs_parent_span tracer header log n r1 r2 :
  reads_ok r1 →
  Logger log (auth_context tracer header log n r1 r2) =
    log ++ [("trace_id", TraceID (from_inbound header r1)); ("span_id", SpanID (from_inbound header r1))].
Proof.
  intros Hr. destruct (from_inbound_wf header r1 Hr) as [Hwf _]. unfold auth_context, start_span, WithCorrelation.
  pose proof (λ ctx H, TraceFromContext_set ctx _ H Hwf) as Ht. rewrite Ht by done. destruct tracer.
  - unfold startOTelSpan. rewrite Ht by done. by destruct (sc_IsValid (SpanContextFrom _)), (sc_IsValid (otelSpanContext _)).
  - by rewrite Ht.
Qed.
End Theorems.

(** * The exporter's settings *)

(** [env]: the deployment's name, from OBS_ENV. *)
Definition obs_env (v : string) : string := if decide (v ≠ "") then v else "dev".

(** [samplerRatio], from OTEL_TRACES_SAMPLER_ARG; [parse] is [strconv.ParseFloat],
    on the finite values. *)
Definition samplerRatio (parse : string → option Qc) (v : string) : Qc :=
  if decide (v ≠ "") then
    match parse v with
    | Some f => if decide (0 ≤ f ∧ f ≤ 1)%Qc then f else 1%Qc
    | None => 1%Qc
    end
  else 1%Qc.

(** [InitTracer]: an error, or whether spans are exported from now on. *)
Definition InitTracer (endpoint : string) (exporter : option string) : string + bool :=
  if decide (endpoint = "") then inr false
  else match exporter with Some err => inl err | None => inr true end.

(** The binaries go on without an exporter when it cannot be set up. *)
Definition main_tracer (endpoint : string) (exporter : option string) : bool :=
  match InitTracer endpoint exporter with inl _ => false | inr t => t end.

Lemma samplerRatio_range parse v : (0 ≤ samplerRatio parse v ∧ samplerRatio parse v ≤ 1)%Qc.
Proof. unfold samplerRatio. repeat case_match; done. Qed.

(** * A concrete run *)

(** Identifiers as their hexadecimal, every span with the same span id. *)
Definition id_ok (n : nat) (zero s : string) : bool :=
  bool_decide (String.length s = n) && isHex s && negb (bool_decide (s = zero)).
Definition hex_valid (sc : TraceContext) : bool := id_ok 32 zeroTraceID (TraceID sc) && id_ok 16 zeroSpanID (SpanID sc).

#[local] Instance hex_otel : Otel := {
  TraceID_t := string; SpanID_t := string; SpanContext := TraceContext;
  TraceIDFromHex s := if id_ok 32 zeroTraceID s then Some s else None;
  SpanIDFromHex s := if id_ok 16 zeroSpanID s then Some s else None;
  NewSpanContext t s b := mkTrace t s b;
  zeroSpanContext := mkTrace "" "" false;
  sc_IsValid := hex_valid;
  sc_TraceID := TraceID; sc_SpanID := SpanID; sc_IsSampled := Sampled;
  tracer_Start parent _ :=
    match parent with
    | Some sc => if hex_valid sc then mkTrace (TraceID sc) (SpanID sample_trace) (Sampled sc) else sample_trace
    | None => sample_trace
    end;
}.

Lemma hex_valid_wf sc : hex_valid sc = true ↔ trace_wf sc.
Proof.
  unfold hex_valid, id_ok, trace_wf. rewrite !andb_true_iff, !bool_decide_eq_true, !negb_true_iff, !bool_decide_eq_false. tauto.
Qed.

#[local] Instance hex_otel_ok : OtelOK.
Proof.
  split; simpl.
  - intros t s tid sid b. destruct (id_ok 32 _ t) eqn:Et; [|done]. destruct (id_ok 16 _ s) eqn:Es; [|done].
    intros [= <-] [= <-]. unfold hex_valid. simpl. by rewrite Et, Es.
  - intros tc [Ht Hs]%hex_valid_wf%andb_true_iff. by rewrite Ht, Hs.
  - done.
  - intros [sc|] n.
    + destruct (hex_valid sc) eqn:E; simpl.
      * apply hex_valid_wf in E as (? & _ & ? & _ & ? & _). pose proof sample_trace_wf as (_ & ? & _ & ? & _ & ?).
        split_and!; try done; [by apply hex_valid_wf; split_and!|]. by intros ? [= ->].
      * split_and!; try done. intros ? [= ->]. congruence.
    + split_and!; try done.
Qed.

(** With the exporter set up, the span of an auth decision belongs to the trace of
    the request. *)
Lemma span_keeps_trace_witness :
  ∃ tc', cx_trace (start_span true (WithTrace Background sample_trace) 0 (mkReads (be_bytes 16 1) (be_bytes 8 2) false false)) = Some tc' ∧
    TraceID tc' = TraceID sample_trace ∧ trace_wf tc'.
Proof. apply (span_keeps_trace (OK := hex_otel_ok)); [split; reflexivity|reflexivity|apply sample_trace_wf|reflexivity]. Defined.

Definition run_reads : reads := mkReads (be_bytes 16 1) (be_bytes 8 2) false false.

Definition traced_append : append_res * pub_msg :=
  js_Append (λ _, PubAck false 1) (cx_trace (router_context false ∅ "tenant.acme.interaction.i1.cmd.ann" (Traceparent sample_trace) [] run_reads))
    (logSubjectFor "acme" "i1") (marshal_event (sample_event "participant.joined" "ann" 1)) "acme.i1.c1" 0.
Definition traced_fact : Fact := fact_of_msg (as_stored traced_append.2 1 1) 1 1.
Definition traced_world : world := mkWorld [Lost] [] [] [] [] [] None [run_reads].
Definition traced_out : list output :=
  (process (λ e, Some (ev_EventId e)) (λ c, Some (fc_InteractionId c)) (withDefaults (mkPConfig 0 0 0 0 0 0 "" 0))
    traced_fact (mkPst newState 0 0) traced_world).1.1.2.

(** The join of ann, published twice since the first confirmation is lost, both
    times in the trace of the command. *)
Lemma trace_crosses_plane_witness :
  ∃ t a i d payload h h2 tc2, traced_out !! 1 = Some (OPublish t a i d payload h) ∧
    h = Some h2 ∧ ParseTraceparent h2 = Some tc2 ∧ TraceID tc2 = TraceID sample_trace.
Proof.
  assert (∃ t a i d payload h, traced_out !! 1 = Some (OPublish t a i d payload h)) as (t & a & i & d & payload & h & Hout).
  { vm_compute. eauto 10. }
  exists t, a, i, d, payload, h.
  destruct (trace_crosses_plane false ∅ "tenant.acme.interaction.i1.cmd.ann" (Traceparent sample_trace) [] run_reads
              (λ _, PubAck false 1) (logSubjectFor "acme" "i1") (marshal_event (sample_event "participant.joined" "ann" 1)) "acme.i1.c1" 0)
    as (h1 & tc1 & _ & _ & _ & Hs & _ & Hfeed); [split; reflexivity|].
  destruct (Hs sample_trace) as [Hid1 _]; [vm_compute; reflexivity|].
  destruct (Hfeed 1%N 1%Z [] [] traced_fact (λ e, Some (ev_EventId e)) (λ c, Some (fc_InteractionId c))
              (withDefaults (mkPConfig 0 0 0 0 0 0 "" 0)) (mkPst newState 0 0) traced_world t a i d payload h)
    as (h2 & tc2 & Hh & Hp2 & Hid & _).
  - reflexivity.
  - apply Forall_cons. split; [split; reflexivity|constructor].
  - eapply list_elem_of_lookup_2. exact Hout.
  - exists h2, tc2. split; [exact Hout|]. split; [exact Hh|]. split; [exact Hp2|]. exact (eq_trans Hid Hid1).
Defined.
