(* ===== verification/DesiredParticipation.v ===== *)
(** The desired-participation projector (internal/participation/projector.go): it
    folds versioned participation commands of an authority into a set of
    participants per interaction, reconciling gaps by replay and by snapshot.
    Versions are uint64 with wrap-around written out. *)

From S2P Require Import Prelude Wire Subjects Trace.

(** * Data *)

Inductive DesiredState := STATE_UNSPECIFIED | ASSIGNED | UNASSIGNED.
#[export] Instance DesiredState_eq_dec : EqDecision DesiredState.
Proof. solve_decision. Defined.

(** A protobuf timestamp: seconds and nanoseconds. *)
Record Timestamp := mkTimestamp { ts_seconds : Z; ts_nanos : Z }.

(** [CheckValid]: years 1 to 9999. *)
Definition ts_valid (t : Timestamp) : bool :=
  ((-62135596800 <=? ts_seconds t) && (ts_seconds t <=? 253402300799)
   && (0 <=? ts_nanos t) && (ts_nanos t <=? 999999999))%Z.

Record ParticipationCommand := mkPC {
  pc_EventId : string;
  pc_AggregateVersion : N;
  pc_TenantId : string;
  pc_InteractionId : string;
  pc_ParticipantId : string;
  pc_DesiredState : DesiredState;
  pc_OccurredAt : option Timestamp;
  pc_Traceparent : string;
}.

Record Key := mkKey { k_TenantID : string; k_InteractionID : string }.
Record EventIdentity := mkEI { ei_EventID : string; ei_Hash : string; ei_Body : string }.
Record PRecord := mkPRecord { r_Command : ParticipationCommand; r_Identity : EventIdentity }.

Record Fold := mkFold {
  f_TenantID : string;
  f_InteractionID : string;
  f_Version : N;
  f_Identity : EventIdentity;
  f_Participants : gset string;
  f_SnapshotProvenance : string;
}.

Record Intent := mkIntent {
  in_Token : string;
  in_Key : Key;
  in_ObservedVersion : N;
  in_RequestedFrom : N;
  in_RequestedTo : N;
  in_Held : EventIdentity;
}.

Record FoldSnapshot := mkFoldSnapshot {
  sn_Fold : Fold;
  sn_HistoryFloor : N;
  sn_Provenance : string;
}.

Record TransportGrant := mkGrant { g_ServiceID : string; g_Capability : string; g_Role : string }.
Record Principal := mkPrincipal { p_TenantID : string; p_Grant : TransportGrant }.

Record ReplayResponse := mkReplayResp {
  rr_Commands : list ParticipationCommand;
  rr_HeadVersion : N;
  rr_HeadEventId : string;
  rr_HeadHash : string;
  rr_HistoryFloor : N;
  rr_Provenance : string;
}.

Record SnapshotResponse := mkSnapResp {
  sr_TenantId : string;
  sr_InteractionId : string;
  sr_AggregateVersion : N;
  sr_HeadEventId : string;
  sr_HeadHash : string;
  sr_ParticipantIds : list string;
  sr_HistoryFloor : N;
  sr_Provenance : string;
}.

#[export] Instance Key_eq_dec : EqDecision Key.
Proof. solve_decision. Defined.
#[export] Instance EI_eq_dec : EqDecision EventIdentity.
Proof. solve_decision. Defined.

(** The package's error values, and what its ports may return. [errors.Join] is
    the list of the joined errors, [errors.Is] membership. *)
Inductive part_err :=
| ErrInvalid | ErrPermissionDenied | ErrDivergentHistory | ErrUnknownHistory | ErrReconcileExhausted
| ErrStore | ErrAuthority.
#[export] Instance part_err_eq_dec : EqDecision part_err.
Proof. solve_decision. Defined.
Abbreviation errs := (list part_err).

Inductive PResult := Applied | Duplicate | CompareAndSetLost | Poisoned | AuditedSnapshot.
#[export] Instance PResult_eq_dec : EqDecision PResult.
Proof. solve_decision. Defined.

Definition CapabilityWrite : string := "Corex-participation-write".

Definition ValidTransportGrant (g : TransportGrant) (capability : string) : bool :=
  negb (bool_decide (g_ServiceID g = "")) && bool_decide (g_Role g = "")
  && bool_decide (g_Capability g = capability).

Definition sameIdentity (l r : EventIdentity) : bool :=
  bool_decide (ei_EventID l = ei_EventID r) && bool_decide (ei_Hash l = ei_Hash r).

(** uint64 arithmetic. *)
Definition two64N : N := 18446744073709551616.
Definition add64 (a b : N) : N := ((a + b) mod two64N)%N.
Definition sub64 (a b : N) : N := ((a + two64N - b) mod two64N)%N.

(** * Canonical form, folding and validation *)

Section Pure.
(** Deterministic [proto.Marshal] of a command and SHA-256. *)
Context (marshal_pc : ParticipationCommand → option string) (sha : string → string).

Definition Canonical (c : ParticipationCommand) : option PRecord :=
  if negb (uuidv7Pattern (pc_EventId c)) || negb (uuidv7Pattern (pc_TenantId c))
     || negb (uuidv7Pattern (pc_InteractionId c)) || negb (uuidv7Pattern (pc_ParticipantId c))
     || (pc_AggregateVersion c =? 0)%N
     || (negb (bool_decide (pc_DesiredState c = ASSIGNED)) && negb (bool_decide (pc_DesiredState c = UNASSIGNED)))
     || match pc_OccurredAt c with None => true | Some t => negb (ts_valid t) end
  then None
  else match ParseTraceparent (pc_Traceparent c) with
       | None => None
       | Some _ =>
           match marshal_pc c with
           | None => None
           | Some body => Some (mkPRecord c (mkEI (pc_EventId c) (sha body) body))
           end
       end.

(** One iteration of [foldRecords]; [None] is [ErrDivergentHistory]. *)
Definition fold_record (next : Fold) (r : PRecord) : option Fold :=
  let c := r_Command r in
  if decide (pc_AggregateVersion c ≠ add64 (f_Version next) 1) then None
  else if decide (f_TenantID next ≠ "" ∧
                  (f_TenantID next ≠ pc_TenantId c ∨ f_InteractionID next ≠ pc_InteractionId c)) then None
  else Some (mkFold (pc_TenantId c) (pc_InteractionId c) (pc_AggregateVersion c) (r_Identity r)
               (if decide (pc_DesiredState c = ASSIGNED)
                then {[pc_ParticipantId c]} ∪ f_Participants next
                else f_Participants next ∖ {[pc_ParticipantId c]}) "").

Definition foldRecords (current : Fold) (records : list PRecord) : option Fold :=
  foldl (λ acc r, next ← acc; fold_record next r) (Some current) records.

(** The loop of [validateReplay] over the commands, from index [i]. *)
Fixpoint replay_records (intent : Intent) (i : N) (cs : list ParticipationCommand) : option (list PRecord) :=
  match cs with
  | [] => Some []
  | c :: rest =>
      match Canonical c with
      | None => None
      | Some r =>
          if decide (pc_TenantId c = k_TenantID (in_Key intent) ∧
                     pc_InteractionId c = k_InteractionID (in_Key intent) ∧
                     pc_AggregateVersion c = add64 (in_RequestedFrom intent) i)
          then rs ← replay_records intent (i + 1) rest; Some (r :: rs)
          else None
      end
  end.

Definition holds_record (held : PRecord) (records : list PRecord) : bool :=
  existsb (λ r, bool_decide (pc_AggregateVersion (r_Command r) = pc_AggregateVersion (r_Command held))
                && sameIdentity (r_Identity r) (r_Identity held)) records.

(** [validateReplay]; a nil response is [None]. *)
Definition validateReplay (replay : option ReplayResponse) (intent : Intent) (held : PRecord) :
    part_err + list PRecord :=
  match replay with
  | None => inl ErrUnknownHistory
  | Some rp =>
      if (rr_HistoryFloor rp =? 0)%N || bool_decide (rr_Provenance rp = "")
         || (rr_HeadVersion rp <? in_RequestedTo intent)%N
         || negb (Z.of_nat (length (rr_Commands rp))
                    =? i64 (Z.of_N (add64 (sub64 (in_RequestedTo intent) (in_RequestedFrom intent)) 1)))%Z
      then inl ErrUnknownHistory
      else
        match replay_records intent 0 (rr_Commands rp) with
        | None => inl ErrDivergentHistory
        | Some records =>
            match last records with
            | None => inl ErrDivergentHistory
            | Some l =>
                if (rr_HeadVersion rp =? pc_AggregateVersion (r_Command l))%N
                   && (negb (bool_decide (rr_HeadEventId rp = ei_EventID (r_Identity l)))
                       || negb (bool_decide (rr_HeadHash rp = ei_Hash (r_Identity l))))
                then inl ErrDivergentHistory
                else if holds_record held records then inr records else inl ErrDivergentHistory
            end
        end
  end.

(** [validateSnapshot]; a nil response is [None]. *)
Definition validateSnapshot (wire : option SnapshotResponse) (intent : Intent) (held : PRecord) :
    part_err + FoldSnapshot :=
  match wire with
  | None => inl ErrUnknownHistory
  | Some w =>
      if negb (bool_decide (sr_TenantId w = k_TenantID (in_Key intent)))
         || negb (bool_decide (sr_InteractionId w = k_InteractionID (in_Key intent)))
         || (sr_AggregateVersion w <? in_ObservedVersion intent)%N
         || (sr_AggregateVersion w <? pc_AggregateVersion (r_Command held))%N
         || negb (uuidv7Pattern (sr_HeadEventId w)) || negb (String.length (sr_HeadHash w) =? 32)
         || (sr_HistoryFloor w =? 0)%N || (sr_AggregateVersion w <? sr_HistoryFloor w)%N
         || bool_decide (sr_Provenance w = "")
      then inl ErrUnknownHistory
      else if negb (forallb uuidv7Pattern (sr_ParticipantIds w)) then inl ErrInvalid
      else inr (mkFoldSnapshot
                  (mkFold (sr_TenantId w) (sr_InteractionId w) (sr_AggregateVersion w)
                     (mkEI (sr_HeadEventId w) (sr_HeadHash w) "") (list_to_set (sr_ParticipantIds w))
                     (sr_Provenance w))
                  (sr_HistoryFloor w) (sr_Provenance w))
  end.
End Pure.

(** * The store port *)

(** The operations of [participation.Store] on a store state. *)
Class PStore (S : Type) := {
  ps_Load : Key → N → S → (errs + (Fold * option EventIdentity)) * S;
  ps_Install : N → list PRecord → Fold → S → (errs + bool) * S;
  ps_BeginReconcile : Intent → PRecord → S → (errs + (Intent * bool)) * S;
  ps_InstallReconcile : Intent → list PRecord → Fold → S → (errs + bool) * S;
  ps_InstallHistorical : Intent → PRecord → S → (errs + bool) * S;
  ps_InstallSnapshot : Intent → FoldSnapshot → PRecord → S → (errs + bool) * S;
  ps_FailReconcile : Intent → PRecord → S → (errs + bool) * S;
  ps_RecordPoison : PRecord → string → S → (errs + unit) * S;
}.

(** The requests of a reconciliation. *)
Record ReplayParticipationRequest := mkReplayReq {
  rq_TenantId : string;
  rq_InteractionId : string;
  rq_FromVersion : N;
  rq_ToVersion : N;
  rq_RequestId : string;
}.

Record SnapshotParticipationRequest := mkSnapReq {
  sq_TenantId : string;
  sq_InteractionId : string;
  sq_MinimumVersion : N;
  sq_RequestId : string;
}.

Definition replay_request (intent : Intent) : ReplayParticipationRequest :=
  mkReplayReq (k_TenantID (in_Key intent)) (k_InteractionID (in_Key intent)) (in_RequestedFrom intent)
    (in_RequestedTo intent) (in_Token intent).

Definition snapshot_request (intent : Intent) : SnapshotParticipationRequest :=
  mkSnapReq (k_TenantID (in_Key intent)) (k_InteractionID (in_Key intent)) (in_ObservedVersion intent)
    (in_Token intent).

(** [AuthorityPort]: what the authority answers to the requests of one command. *)
Record Authority := mkAuthority {
  au_Replay : ReplayParticipationRequest → errs + option ReplayResponse;
  au_Snapshot : SnapshotParticipationRequest → errs + option SnapshotResponse;
}.

(** A handler's outcome: a zero result is [None], a nil error is []. *)
Abbreviation outcome := (option PResult * errs)%type.

Section Projector.
Context (marshal_pc : ParticipationCommand → option string) (sha : string → string).
Context {S : Type} {PS : PStore S}.

(** [(bool, error)] of an install: an error, a lost compare-and-set, or [ok]. *)
Definition install_outcome (r : errs + bool) (ok : PResult) : outcome :=
  match r with
  | inl e => (None, e)
  | inr false => (Some CompareAndSetLost, [])
  | inr true => (Some ok, [])
  end.

Definition failReconcile (intent : Intent) (held : PRecord) (cause : errs) (s : S) : outcome * S :=
  let '(r, s') := ps_FailReconcile intent held s in
  (match r with
   | inl e => (None, cause ++ e)
   | inr true => (Some Poisoned, ErrReconcileExhausted :: cause)
   | inr false => (None, cause)
   end, s').

Definition reconcile_snapshot (au : Authority) (intent : Intent) (held : PRecord) (s : S) : outcome * S :=
  match au_Snapshot au (snapshot_request intent) with
  | inl e => failReconcile intent held e s
  | inr wire =>
      match validateSnapshot wire intent held with
      | inl e => ((Some Poisoned, [e]), s)
      | inr snap =>
          let '(r, s') := ps_InstallSnapshot intent snap held s in
          (install_outcome r AuditedSnapshot, s')
      end
  end.

Definition reconcile (token : string) (au : Authority) (fold : Fold) (held : PRecord) (historical : bool) (s : S) :
    outcome * S :=
  let c := r_Command held in
  let from := if historical then pc_AggregateVersion c else add64 (f_Version fold) 1 in
  let to := pc_AggregateVersion c in
  let intent0 := mkIntent token (mkKey (pc_TenantId c) (pc_InteractionId c)) (f_Version fold) from to
                   (r_Identity held) in
  if negb (uuidv7Pattern token) then ((Some Poisoned, [ErrInvalid]), s)
  else
    let '(begun, s1) := ps_BeginReconcile intent0 held s in
    match begun with
    | inl e => ((None, e), s1)
    | inr (_, false) => ((Some CompareAndSetLost, []), s1)
    | inr (intent, true) =>
        match au_Replay au (replay_request intent) with
        | inl e => if decide (ErrUnknownHistory ∈ e) then reconcile_snapshot au intent held s1
                   else failReconcile intent held e s1
        | inr replay =>
            match validateReplay marshal_pc sha replay intent held with
            | inl e => ((Some Poisoned, [e]), s1)
            | inr records =>
                if historical then
                  match records with
                  | [] => ((Some Poisoned, [ErrDivergentHistory]), s1)
                  | r :: _ => let '(res, s2) := ps_InstallHistorical intent r s1 in
                              (install_outcome res Duplicate, s2)
                  end
                else
                  match foldRecords fold records with
                  | None => ((Some Poisoned, [ErrDivergentHistory]), s1)
                  | Some final => let '(res, s2) := ps_InstallReconcile intent records final s1 in
                                  (install_outcome res Applied, s2)
                  end
            end
        end
    end.

Definition Apply (token : string) (au : Authority) (principal : Principal) (c : ParticipationCommand) (s : S) :
    outcome * S :=
  match Canonical marshal_pc sha c with
  | None => ((Some Poisoned, [ErrPermissionDenied]), s)
  | Some record =>
      if negb (bool_decide (p_TenantID principal = pc_TenantId c))
         || negb (ValidTransportGrant (p_Grant principal) CapabilityWrite)
      then ((Some Poisoned, [ErrPermissionDenied]), s)
      else
        let key := mkKey (pc_TenantId c) (pc_InteractionId c) in
        let '(loaded, s1) := ps_Load key (pc_AggregateVersion c) s in
        match loaded with
        | inl e => ((None, e), s1)
        | inr (fold, retained) =>
            if (pc_AggregateVersion c <=? f_Version fold)%N then
              match retained with
              | None => reconcile token au fold record true s1
              | Some id =>
                  if sameIdentity id (r_Identity record) then ((Some Duplicate, []), s1)
                  else
                    let '(res, s2) := ps_RecordPoison record "DIVERGENT_HISTORY" s1 in
                    (match res with
                     | inl e => (Some Poisoned, e)
                     | inr _ => (Some Poisoned, [ErrDivergentHistory])
                     end, s2)
              end
            else if (add64 (f_Version fold) 1 <? pc_AggregateVersion c)%N then
              reconcile token au fold record false s1
            else
              match foldRecords fold [record] with
              | None => ((Some Poisoned, [ErrDivergentHistory]), s1)
              | Some final =>
                  let '(res, s2) := ps_Install (f_Version fold) [record] final s1 in
                  (install_outcome res Applied, s2)
              end
        end
  end.
End Projector.
