(* ===== verification/DesiredTheorems.v ===== *)
(** The contract between the desired-participation projector and its store, and
    what [Apply] guarantees against any store that keeps it. *)

From S2P Require Import Prelude Wire Subjects Trace DesiredParticipation.

(** * Folding *)

(** Membership a sequence of commands asks for: the last word about each
    participant. *)
Definition wants (p : string) (records : list PRecord) : option bool :=
  foldl (λ acc r,
    if decide (pc_ParticipantId (r_Command r) = p)
    then Some (bool_decide (pc_DesiredState (r_Command r) = ASSIGNED)) else acc) None records.

Definition record_version (r : PRecord) : N := pc_AggregateVersion (r_Command r).
Definition record_key (r : PRecord) : Key := mkKey (pc_TenantId (r_Command r)) (pc_InteractionId (r_Command r)).

Lemma foldRecords_snoc f rs r : foldRecords f (rs ++ [r]) = foldRecords f rs ≫= λ n, fold_record n r.
Proof. unfold foldRecords. by rewrite foldl_snoc. Qed.

Lemma fold_record_Some next r f :
  fold_record next r = Some f →
  f_Version f = record_version r ∧ record_version r = add64 (f_Version next) 1 ∧
  f_Identity f = r_Identity r ∧ mkKey (f_TenantID f) (f_InteractionID f) = record_key r ∧
  f_SnapshotProvenance f = "" ∧
  ∀ p, p ∈ f_Participants f ↔
    if decide (pc_ParticipantId (r_Command r) = p) then pc_DesiredState (r_Command r) = ASSIGNED
    else p ∈ f_Participants next.
Proof.
  unfold fold_record. intros H. case_decide as H1; [done|]. case_decide; [done|]. injection H as <-. simpl.
  split_and!; try done. intros p. repeat case_decide; set_solver.
Qed.

Lemma wants_snoc p rs r :
  wants p (rs ++ [r]) =
    if decide (pc_ParticipantId (r_Command r) = p)
    then Some (bool_decide (pc_DesiredState (r_Command r) = ASSIGNED)) else wants p rs.
Proof. unfold wants. by rewrite foldl_snoc. Qed.

(** Folding a run of commands is exact: it succeeds only on consecutive
    versions of one interaction, advances the version by the number of commands,
    ends with the identity of the last, and leaves exactly the participants the
    last word of the run asks for, everybody else as before. *)
Theorem foldRecords_exact f rs f' :
  foldRecords f rs = Some f' → (f_Version f + N.of_nat (length rs) < two64N)%N →
  f_Version f' = (f_Version f + N.of_nat (length rs))%N ∧
  (∀ n r, rs !! n = Some r → record_version r = (f_Version f + N.of_nat n + 1)%N) ∧
  (∀ p, p ∈ f_Participants f' ↔
     match wants p rs with Some b => b = true | None => p ∈ f_Participants f end) ∧
  (∀ r, last rs = Some r → f_Identity f' = r_Identity r ∧
     mkKey (f_TenantID f') (f_InteractionID f') = record_key r).
Proof.
  revert f'. induction rs as [|r rs IH] using rev_ind; intros f' H Hlt.
  { injection H as <-. simpl. split_and!; try done. lia. }
  rewrite foldRecords_snoc in H. destruct (foldRecords f rs) as [next|] eqn:Hn; [|done]. simpl in H.
  rewrite length_app in Hlt. simpl in Hlt.
  destruct (IH next eq_refl) as (Hv & Hrs & Hp & _); [lia|].
  apply fold_record_Some in H as (Hv' & Hr & Hid & Hk & _ & Hp').
  assert (record_version r = (f_Version f + N.of_nat (length rs) + 1)%N) as Hrv.
  { rewrite Hr, Hv. unfold add64. apply N.mod_small. lia. }
  split_and!.
  - rewrite Hv', Hrv, length_app. simpl. lia.
  - intros n r' [Hl|[Hn' Hl]]%lookup_app_Some; [by apply Hrs|].
    apply list_lookup_singleton_Some in Hl as [? <-]. rewrite Hrv. lia.
  - intros p. rewrite Hp', wants_snoc. case_decide; [|apply Hp]. by rewrite bool_decide_eq_true.
  - intros r' Hlast. rewrite last_snoc in Hlast. injection Hlast as <-. done.
Qed.

(** * Validation of a replay *)

Section Replay.
Context (marshal_pc : ParticipationCommand → option string) (sha : string → string).

Lemma replay_records_spec intent i cs rs :
  replay_records marshal_pc sha intent i cs = Some rs →
  length rs = length cs ∧
  ∀ n r, rs !! n = Some r → record_key r = in_Key intent ∧
    record_version r = add64 (in_RequestedFrom intent) (i + N.of_nat n).
Proof.
  revert i rs. induction cs as [|c cs IH]; intros i rs H; simpl in H.
  { injection H as <-. split; [done|]. intros n r. by rewrite lookup_nil. }
  destruct (Canonical marshal_pc sha c) as [r|] eqn:Hc; [|done]. case_decide as Hd; [|done].
  destruct (replay_records _ _ _ _ cs) as [rs'|] eqn:Hrs; [|done]. injection H as <-.
  assert (r_Command r = c) as Hr.
  { unfold Canonical in Hc. repeat case_match; by simplify_eq. }
  destruct (IH _ _ Hrs) as [Hlen Hl]. split; [simpl; by rewrite Hlen|].
  intros [|n] r' Hn; simpl in Hn.
  - injection Hn as <-. unfold record_key, record_version. rewrite Hr, N.add_0_r.
    destruct Hd as (-> & -> & ->). by destruct (in_Key intent).
  - destruct (Hl n r' Hn) as [-> ->]. split; [done|]. f_equal. lia.
Qed.

Lemma validateReplay_records replay intent held rs :
  validateReplay marshal_pc sha replay intent held = inr rs →
  rs ≠ [] ∧ holds_record held rs = true ∧
  ∀ n r, rs !! n = Some r → record_key r = in_Key intent ∧
    record_version r = add64 (in_RequestedFrom intent) (N.of_nat n).
Proof.
  unfold validateReplay. destruct replay as [rp|]; [|done]. case_match; [done|].
  destruct (replay_records _ _ _ _ _) as [rs'|] eqn:Hrs; [|done].
  destruct (last rs') as [l|] eqn:Hl; [|done]. case_match; [done|].
  destruct (holds_record held rs') eqn:Hh; [|done]. intros [= <-].
  split_and!; [by intros ->|done|]. by apply replay_records_spec in Hrs as [_ ?].
Qed.

Lemma folds_consecutive (key : Key) f rs :
  (f_Version f + N.of_nat (length rs) < two64N)%N →
  (f_TenantID f = "" ∨ mkKey (f_TenantID f) (f_InteractionID f) = key) →
  (∀ n r, rs !! n = Some r → record_key r = key ∧ record_version r = add64 (f_Version f) (1 + N.of_nat n)) →
  ∃ f', foldRecords f rs = Some f' ∧ f_Version f' = (f_Version f + N.of_nat (length rs))%N ∧
    (f_TenantID f' = "" ∨ mkKey (f_TenantID f') (f_InteractionID f') = key).
Proof.
  intros Hlt Hk. induction rs as [|r rs IH] using rev_ind; intros Hl.
  { exists f. split_and!; [done|simpl; lia|done]. }
  rewrite length_app in Hlt. simpl in Hlt.
  destruct IH as (g & Hg & Hgv & Hgk); [lia|by intros n x Hx; apply Hl, lookup_app_l_Some|].
  destruct (Hl (length rs) r) as [Hrk Hrv]; [by rewrite list_lookup_middle|].
  rewrite foldRecords_snoc, Hg. simpl. unfold fold_record. unfold record_version in Hrv.
  rewrite decide_False, decide_False.
  - eexists. split; [done|]. simpl. split.
    + rewrite Hrv, length_app. simpl. unfold add64. rewrite N.mod_small by lia. lia.
    + right. exact Hrk.
  - intros [Hne Hor]. destruct Hgk as [?|Hgk]; [done|]. unfold record_key in Hrk. rewrite <-Hrk in Hgk.
    injection Hgk as ??. tauto.
  - rewrite Hrv, Hgv. unfold add64. intros Hne. apply Hne. f_equal. lia.
Qed.

(** a validated replay always folds. When the answer to a gap passes
    [validateReplay], folding it onto the state that asked cannot diverge, ends at
    the version of the last replayed command, and the command that revealed the
    gap is among the folded ones. *)
Theorem validated_replay_folds replay intent held rs f :
  validateReplay marshal_pc sha replay intent held = inr rs →
  in_RequestedFrom intent = add64 (f_Version f) 1 →
  (f_Version f + N.of_nat (length rs) < two64N)%N →
  (f_TenantID f = "" ∨ mkKey (f_TenantID f) (f_InteractionID f) = in_Key intent) →
  ∃ f', foldRecords f rs = Some f' ∧ f_Version f' = (f_Version f + N.of_nat (length rs))%N ∧
    holds_record held rs = true.
Proof.
  intros Hv Hfrom Hlt Hkey. apply validateReplay_records in Hv as (Hne & Hh & Hl).
  destruct (folds_consecutive (in_Key intent) f rs Hlt Hkey) as (f' & ? & ? & _); [|by exists f'].
  intros n r Hn. destruct (Hl n r Hn) as [? Hrv]. split; [done|]. rewrite Hrv, Hfrom.
  apply lookup_lt_Some in Hn. unfold add64. rewrite (N.mod_small (f_Version f + 1)) by lia. f_equal. lia.
Qed.
End Replay.

(** * The store's contract *)

(** The head row keeps the identity of the last command without its body. *)
Definition strip (f : Fold) : Fold :=
  mkFold (f_TenantID f) (f_InteractionID f) (f_Version f)
    (mkEI (ei_EventID (f_Identity f)) (ei_Hash (f_Identity f)) "") (f_Participants f)
    (f_SnapshotProvenance f).

(** The version ledger after some records. *)
Definition with_records (rs : list PRecord) (l : N → option EventIdentity) : N → option EventIdentity :=
  foldl (λ l r v, if decide (v = record_version r) then Some (r_Identity r) else l v) l rs.

Section Contract.
Context {S : Type} {PS : PStore S}.

(** A store keeps, per interaction, a fold and a ledger of version identities.
    An install either leaves both alone or does all of what its name says to one
    interaction; when it reports an error, either may be the case, because the
    acknowledgement of a commit can be lost. The ledger is append-only. *)
Class PStoreOK := {
  store_wf : S → Prop;
  fold_of : S → Key → Fold;
  ledger_of : S → Key → N → option EventIdentity;
  same_view (s s' : S) : Prop := ∀ k, fold_of s' k = fold_of s k ∧ ∀ v, ledger_of s' k v = ledger_of s k v;
  same_elsewhere (k : Key) (s s' : S) : Prop :=
    ∀ k', k' ≠ k → fold_of s' k' = fold_of s k' ∧ ∀ v, ledger_of s' k' v = ledger_of s k' v;
  fold_of_bound s k : store_wf s → (f_Version (fold_of s k) < two64N)%N;
  (** [rs] entered in the ledger of [k], at versions that were free *)
  entered (k : Key) (rs : list PRecord) (s s' : S) : Prop :=
    (∀ r, r ∈ rs → ledger_of s k (record_version r) = None) ∧
    (∀ v, ledger_of s' k v = with_records rs (ledger_of s k) v) ∧ same_elsewhere k s s';
  Load_ok k v s r s' :
    ps_Load k v s = (r, s') → store_wf s → store_wf s' ∧ same_view s s' ∧
    ∀ f id, r = inr (f, id) → strip f = fold_of s k ∧ f_TenantID f = k_TenantID k ∧
      f_InteractionID f = k_InteractionID k ∧
      ∀ i, id = Some i → ∃ j, ledger_of s k v = Some j ∧ sameIdentity j i = true;
  Install_ok expected rs final k f s r s' :
    ps_Install expected rs final s = (r, s') → store_wf s →
    k = mkKey (f_TenantID final) (f_InteractionID final) →
    strip f = fold_of s k → Forall (λ x, record_key x = k) rs → foldRecords f rs = Some final → rs ≠ [] →
    store_wf s' ∧
    ((r ≠ inr true ∧ same_view s s') ∨
     (r ≠ inr false ∧ f_Version (fold_of s k) = expected ∧ fold_of s' k = strip final ∧ entered k rs s s'));
  BeginReconcile_ok intent held s r s' :
    ps_BeginReconcile intent held s = (r, s') → store_wf s → store_wf s' ∧ same_view s s' ∧
    ∀ i, r = inr (i, true) → in_Key i = in_Key intent ∧
      in_ObservedVersion i = in_ObservedVersion intent;
  InstallReconcile_ok intent rs final f s r s' :
    ps_InstallReconcile intent rs final s = (r, s') → store_wf s →
    in_Key intent = mkKey (f_TenantID final) (f_InteractionID final) →
    strip f = fold_of s (in_Key intent) → Forall (λ x, record_key x = in_Key intent) rs →
    foldRecords f rs = Some final → rs ≠ [] →
    store_wf s' ∧
    ((r ≠ inr true ∧ same_view s s') ∨
     (r ≠ inr false ∧ f_Version (fold_of s (in_Key intent)) = in_ObservedVersion intent ∧
      fold_of s' (in_Key intent) = strip final ∧ entered (in_Key intent) rs s s'));
  InstallHistorical_ok intent rec s r s' :
    ps_InstallHistorical intent rec s = (r, s') → store_wf s → record_key rec = in_Key intent →
    store_wf s' ∧
    ((r ≠ inr true ∧ same_view s s') ∨
     (r ≠ inr false ∧ (∀ k, fold_of s' k = fold_of s k) ∧ entered (in_Key intent) [rec] s s'));
  InstallSnapshot_ok intent snap held s r s' :
    ps_InstallSnapshot intent snap held s = (r, s') → store_wf s →
    in_Key intent = mkKey (f_TenantID (sn_Fold snap)) (f_InteractionID (sn_Fold snap)) →
    f_SnapshotProvenance (sn_Fold snap) = sn_Provenance snap → (0 < f_Version (sn_Fold snap))%N →
    store_wf s' ∧
    ((r ≠ inr true ∧ same_view s s') ∨
     (r ≠ inr false ∧ f_Version (fold_of s (in_Key intent)) = in_ObservedVersion intent ∧
      fold_of s' (in_Key intent) = strip (sn_Fold snap) ∧
      ledger_of s (in_Key intent) (f_Version (sn_Fold snap)) = None ∧
      (∀ v, ledger_of s' (in_Key intent) v =
         if decide (v = f_Version (sn_Fold snap)) then Some (f_Identity (strip (sn_Fold snap)))
         else ledger_of s (in_Key intent) v) ∧
      same_elsewhere (in_Key intent) s s'));
  FailReconcile_ok intent held s r s' :
    ps_FailReconcile intent held s = (r, s') → store_wf s → store_wf s' ∧ same_view s s';
  RecordPoison_ok rec reason s r s' :
    ps_RecordPoison rec reason s = (r, s') → store_wf s → store_wf s' ∧ same_view s s';
}.
End Contract.
Arguments PStoreOK S {PS}.

(** * Apply against any store that keeps the contract *)

Section Apply.
Context (marshal_pc : ParticipationCommand → option string) (sha : string → string).
Context {S : Type} {PS : PStore S} {PSOK : PStoreOK S}.

Lemma same_view_refl s : same_view s s.
Proof. by intros k. Qed.

Lemma same_view_trans s1 s2 s3 : same_view s1 s2 → same_view s2 s3 → same_view s1 s3.
Proof.
  intros H1 H2 k. destruct (H1 k) as [Hf1 Hl1], (H2 k) as [Hf2 Hl2]. split; [congruence|].
  intros v. by rewrite Hl2, Hl1.
Qed.

Lemma same_elsewhere_pre k s1 s2 s3 : same_view s1 s2 → same_elsewhere k s2 s3 → same_elsewhere k s1 s3.
Proof.
  intros H1 H2 k' Hne. destruct (H1 k') as [Hf1 Hl1], (H2 k' Hne) as [Hf2 Hl2]. split; [congruence|].
  intros v. by rewrite Hl2, Hl1.
Qed.

Lemma with_records_ext rs l l' :
  (∀ v, l v = l' v) → ∀ v, with_records rs l v = with_records rs l' v.
Proof.
  unfold with_records. revert l l'. induction rs as [|r rs IH]; intros l l' He v; simpl; [apply He|].
  apply IH. intros v'. by case_decide.
Qed.

Lemma entered_pre k rs s1 s2 s3 : same_view s1 s2 → entered k rs s2 s3 → entered k rs s1 s3.
Proof.
  intros Hv (H1 & H2 & H3). destruct (Hv k) as [_ Hl]. split_and!.
  - intros r Hr. rewrite <-Hl. by apply H1.
  - intros v. rewrite H2. by apply with_records_ext.
  - by eapply same_elsewhere_pre.
Qed.

Lemma Canonical_command c r : Canonical marshal_pc sha c = Some r → r_Command r = c.
Proof. unfold Canonical. repeat case_match; intros; by simplify_eq. Qed.

Lemma Canonical_identity c r : Canonical marshal_pc sha c = Some r → ei_EventID (r_Identity r) = pc_EventId c.
Proof. unfold Canonical. repeat case_match; intros; by simplify_eq. Qed.

Lemma Canonical_version c r : Canonical marshal_pc sha c = Some r → (0 < pc_AggregateVersion c)%N.
Proof.
  unfold Canonical. case_match eqn:Hb; [done|]. intros _. repeat (apply orb_false_iff in Hb as [Hb ?]).
  apply N.eqb_neq in Hb || match goal with H : (_ =? 0)%N = false |- _ => apply N.eqb_neq in H end. lia.
Qed.

(** Key of a fold of records of one interaction. *)
Lemma foldRecords_key f rs final k :
  foldRecords f rs = Some final → rs ≠ [] → Forall (λ r, record_key r = k) rs →
  k = mkKey (f_TenantID final) (f_InteractionID final).
Proof.
  destruct rs as [|r rs _] using rev_ind; [done|]. intros H _ Hall.
  rewrite foldRecords_snoc in H. destruct (foldRecords f rs); [|done]. simpl in H.
  apply fold_record_Some in H as (_ & _ & _ & -> & _).
  apply Forall_app in Hall as [_ Hr]. rewrite Forall_singleton in Hr. done.
Qed.

Lemma validateSnapshot_spec wire intent held snap :
  validateSnapshot wire intent held = inr snap →
  in_Key intent = mkKey (f_TenantID (sn_Fold snap)) (f_InteractionID (sn_Fold snap)) ∧
  f_SnapshotProvenance (sn_Fold snap) = sn_Provenance snap ∧ (0 < f_Version (sn_Fold snap))%N ∧
  (in_ObservedVersion intent <= f_Version (sn_Fold snap))%N ∧
  (record_version held <= f_Version (sn_Fold snap))%N.
Proof.
  unfold validateSnapshot. destruct wire as [w|]; [|done].
  destruct (_ || bool_decide (sr_Provenance w = "")) eqn:Hb; [done|]. case_match; [done|].
  intros [= <-]. simpl. repeat (apply orb_false_iff in Hb as [Hb ?]).
  repeat match goal with
  | H : negb (bool_decide _) = false |- _ => apply negb_false_iff, bool_decide_eq_true in H
  | H : (_ <? _)%N = false |- _ => apply N.ltb_ge in H
  | H : (_ =? 0)%N = false |- _ => apply N.eqb_neq in H
  end.
  split_and!; try done; [|lia].
  destruct (in_Key intent). simpl in *. congruence.
Qed.

(** What an install may do to the interaction of a command. *)
Definition key_of (c : ParticipationCommand) : Key := mkKey (pc_TenantId c) (pc_InteractionId c).

(** The stored fold is the old one folded with a run of records that holds the
    command, each entered in the ledger. *)
Definition applied (c : ParticipationCommand) (s s' : S) : Prop :=
  ∃ f rs final, strip f = fold_of s (key_of c) ∧ foldRecords f rs = Some final ∧
    fold_of s' (key_of c) = strip final ∧ entered (key_of c) rs s s' ∧
    Forall (λ r, 0 < record_version r)%N rs ∧
    ∃ r, r ∈ rs ∧ record_version r = pc_AggregateVersion c ∧ ei_EventID (r_Identity r) = pc_EventId c.

(** No fold moves; at most one record behind the head is added to the ledger. *)
Definition recorded (c : ParticipationCommand) (s s' : S) : Prop :=
  (∀ k, fold_of s' k = fold_of s k) ∧ (pc_AggregateVersion c <= f_Version (fold_of s (key_of c)))%N ∧
  (same_view s s' ∨ ∃ rec, entered (key_of c) [rec] s s').

(** The fold is replaced by one at least as recent as the head and the command,
    whose head is entered in the ledger. *)
Definition replaced (c : ParticipationCommand) (s s' : S) : Prop :=
  let f' := fold_of s' (key_of c) in
  (pc_AggregateVersion c <= f_Version f')%N ∧ (f_Version (fold_of s (key_of c)) <= f_Version f')%N ∧
  ledger_of s (key_of c) (f_Version f') = None ∧
  (∀ v, ledger_of s' (key_of c) v =
     if decide (v = f_Version f') then Some (f_Identity f') else ledger_of s (key_of c) v) ∧
  same_elsewhere (key_of c) s s'.

Definition sound_outcome (c : ParticipationCommand) (s s' : S) (o : option PResult) : Prop :=
  match o with
  | Some Applied => applied c s s'
  | Some Duplicate => recorded c s s'
  | Some AuditedSnapshot => replaced c s s'
  | Some CompareAndSetLost | Some Poisoned => same_view s s'
  | None => same_view s s' ∨ applied c s s' ∨ recorded c s s' ∨ replaced c s s'
  end.

Lemma applied_pre c s0 s s' : same_view s0 s → applied c s s' → applied c s0 s'.
Proof.
  intros Hv (f & rs & final & H1 & H2 & H3 & H4 & H5 & H6). exists f, rs, final.
  split_and!; try done; [by rewrite H1; apply Hv|by eapply entered_pre].
Qed.

Lemma recorded_pre c s0 s s' : same_view s0 s → recorded c s s' → recorded c s0 s'.
Proof.
  intros Hv (H1 & H2 & H3). split_and!.
  - intros k. rewrite H1. apply Hv.
  - by rewrite <-(proj1 (Hv (key_of c))).
  - destruct H3 as [H3|[rec H3]]; [left; by eapply same_view_trans|right; exists rec; by eapply entered_pre].
Qed.

Lemma replaced_pre c s0 s s' : same_view s0 s → replaced c s s' → replaced c s0 s'.
Proof.
  intros Hv (H1 & H2 & H3 & H4 & H5). destruct (Hv (key_of c)) as [Hf Hl]. split_and!; try done.
  - by rewrite <-Hf.
  - by rewrite <-Hl.
  - intros v. rewrite H4. case_decide; [done|]. apply Hl.
  - by eapply same_elsewhere_pre.
Qed.

Lemma sound_outcome_pre c s0 s s' o :
  same_view s0 s → sound_outcome c s s' o → sound_outcome c s0 s' o.
Proof.
  intros Hv. destruct o as [[]|]; simpl;
    eauto using applied_pre, recorded_pre, replaced_pre, same_view_trans.
  intros [|[|[|]]]; eauto using applied_pre, recorded_pre, replaced_pre, same_view_trans.
Qed.

(** The outcome of an install, from what it did. *)
Lemma install_sound c s s' r ok :
  (r ≠ inr true ∧ same_view s s') ∨ (r ≠ inr false ∧ sound_outcome c s s' (Some ok)) →
  ok ∈ [Applied; Duplicate; AuditedSnapshot] → sound_outcome c s s' (install_outcome r ok).1.
Proof.
  intros [[Hr Hs]|[Hr Hs]] Hok; destruct r as [e|[]]; simpl in *; try done; [by left|].
  rewrite !elem_of_cons in Hok. destruct Hok as [->|[->|[->|Hok]]]; [auto..|by apply elem_of_nil in Hok].
Qed.

Lemma failReconcile_sound c intent held cause s out s' :
  failReconcile intent held cause s = (out, s') → store_wf s → store_wf s' ∧ sound_outcome c s s' out.1.
Proof.
  unfold failReconcile. destruct (ps_FailReconcile intent held s) as [r s1] eqn:E. intros [= <- <-] Hwf.
  apply FailReconcile_ok in E as [? Hs]; [|done]. split; [done|]. destruct r as [|[]]; simpl; auto.
Qed.

Lemma snapshot_sound c au intent held s out s' :
  reconcile_snapshot au intent held s = (out, s') → store_wf s → r_Command held = c →
  in_Key intent = key_of c → store_wf s' ∧ sound_outcome c s s' out.1.
Proof.
  unfold reconcile_snapshot. intros H Hwf Hc Hk.
  destruct (au_Snapshot au _) as [e|wire]; [by eapply failReconcile_sound|].
  destruct (validateSnapshot wire intent held) as [e|snap] eqn:Hv.
  { injection H as <- <-. split; [done|]. apply same_view_refl. }
  destruct (ps_InstallSnapshot intent snap held s) as [r s1] eqn:E. injection H as <- <-.
  apply validateSnapshot_spec in Hv as (Hkey & Hprov & Hpos & Hobs & Hheld).
  apply InstallSnapshot_ok in E as [Hwf' E]; try done. split; [done|]. apply install_sound; [|by do 2 right; left].
  destruct E as [?|(? & Hver & Hfold & Hnone & Hl & Helse)]; [by left|right].
  split; [done|]. unfold record_version in Hheld. rewrite Hc in Hheld. rewrite Hk in *. unfold sound_outcome, replaced.
  rewrite Hfold, Hver. simpl. done.
Qed.

Lemma holds_record_elem held rs :
  holds_record held rs = true →
  ∃ r, r ∈ rs ∧ record_version r = record_version held ∧ sameIdentity (r_Identity r) (r_Identity held) = true.
Proof.
  unfold holds_record. intros (r & Hr & Hb)%existsb_exists.
  apply andb_true_iff in Hb as [Hv%bool_decide_eq_true Hs]. exists r.
  split_and!; [by apply list_elem_of_In|done|done].
Qed.

Lemma records_key replay intent held rs :
  validateReplay marshal_pc sha replay intent held = inr rs → Forall (λ r, record_key r = in_Key intent) rs.
Proof.
  intros (_ & _ & Hl)%validateReplay_records. apply Forall_lookup_2. intros n r Hn. by destruct (Hl n r Hn).
Qed.

Lemma replay_positive intent i cs rs :
  replay_records marshal_pc sha intent i cs = Some rs → Forall (λ r, 0 < record_version r)%N rs.
Proof.
  revert i rs. induction cs as [|c cs IH]; intros i rs H; simpl in H; [injection H as <-; constructor|].
  destruct (Canonical marshal_pc sha c) as [r|] eqn:Hc; [|done]. case_decide; [|done].
  destruct (replay_records _ _ _ _ cs) as [rs'|] eqn:Hrs; [|done]. injection H as <-.
  constructor; [|by eapply IH]. unfold record_version. rewrite (Canonical_command _ _ Hc).
  by eapply Canonical_version.
Qed.

Lemma records_positive replay intent held rs :
  validateReplay marshal_pc sha replay intent held = inr rs → Forall (λ r, 0 < record_version r)%N rs.
Proof.
  unfold validateReplay. destruct replay as [rp|]; [|done]. case_match; [done|].
  destruct (replay_records _ _ _ _ _) as [rs'|] eqn:Hrs; [|done]. apply replay_positive in Hrs.
  destruct (last rs'); [|done]. case_match; [done|]. case_match; [|done]. by intros [= <-].
Qed.

Lemma holds_applied c held rs :
  Canonical marshal_pc sha c = Some held → holds_record held rs = true →
  ∃ r, r ∈ rs ∧ record_version r = pc_AggregateVersion c ∧ ei_EventID (r_Identity r) = pc_EventId c.
Proof.
  intros Hcan (r & Hr & Hrv & Hid)%holds_record_elem. exists r.
  unfold record_version in Hrv at 2. rewrite (Canonical_command _ _ Hcan) in Hrv. split_and!; try done.
  apply andb_true_iff in Hid as [->%bool_decide_eq_true _]. by apply Canonical_identity.
Qed.

Lemma reconcile_sound token au f held historical s out s' c :
  reconcile marshal_pc sha token au f held historical s = (out, s') → store_wf s →
  Canonical marshal_pc sha c = Some held → strip f = fold_of s (key_of c) →
  (historical = true → (pc_AggregateVersion c <= f_Version f)%N) →
  store_wf s' ∧ sound_outcome c s s' out.1.
Proof.
  unfold reconcile. intros H Hwf Hcan Hf Hhist. pose proof (Canonical_command _ _ Hcan) as Hc. rewrite Hc in H.
  fold (key_of c) in H. pose proof (same_view_refl s).
  destruct (negb (uuidv7Pattern token)); [by injection H as <- <-|].
  destruct (ps_BeginReconcile _ held s) as [begun s1] eqn:Hb.
  apply BeginReconcile_ok in Hb as (Hwf1 & Hv1 & Hint); [|done].
  destruct begun as [e|[intent []]]; [injection H as <- <-; split; [done|by left]| |by injection H as <- <-].
  destruct (Hint intent eq_refl) as [Hkey _]. simpl in Hkey. pose proof (same_view_refl s1).
  assert (strip f = fold_of s1 (key_of c)) as Hf1 by (rewrite Hf; symmetry; apply Hv1).
  cut (store_wf s' ∧ sound_outcome c s1 s' out.1).
  { intros [? ?]. split; [done|]. by apply (sound_outcome_pre c s s1). }
  destruct (au_Replay au _) as [e|replay].
  { case_decide; [by eapply snapshot_sound|by eapply failReconcile_sound]. }
  destruct (validateReplay _ _ replay intent held) as [e|rs] eqn:Hrep; [by injection H as <- <-|].
  pose proof (records_positive _ _ _ _ Hrep).
  pose proof (records_key _ _ _ _ Hrep) as Hkeys. rewrite Hkey in Hkeys.
  apply validateReplay_records in Hrep as (Hne & Hheld & _). destruct historical.
  - destruct rs as [|r rs]; [done|]. destruct (ps_InstallHistorical intent r s1) as [res s2] eqn:E.
    injection H as <- <-. apply Forall_cons in Hkeys as [Hrk _].
    apply InstallHistorical_ok in E as [? E]; [|done|by rewrite Hkey]. rewrite Hkey in E. split; [done|].
    apply install_sound; [|by do 1 right; left]. destruct E as [?|(? & Hfold & Hent)]; [by left|right].
    split; [done|]. split_and!; [done| |by eauto]. rewrite <-Hf1. by apply Hhist.
  - destruct (foldRecords f rs) as [final|] eqn:Hfr; [|by injection H as <- <-].
    destruct (ps_InstallReconcile intent rs final s1) as [res s2] eqn:E. injection H as <- <-.
    eapply InstallReconcile_ok in E as [? E]; try done; rewrite ?Hkey in *; try done; [|by eapply foldRecords_key].
    split; [done|]. apply install_sound; [|by left].
    destruct E as [?|(? & Hver & Hfold & Hent)]; [by left|right].
    split; [done|]. exists f, rs, final. split_and!; try done. by eapply holds_applied.
Qed.

Lemma Apply_outcome token au principal c s out s' :
  Apply marshal_pc sha token au principal c s = (out, s') → store_wf s →
  store_wf s' ∧ sound_outcome c s s' out.1.
Proof.
  unfold Apply. intros H Hwf. pose proof (same_view_refl s).
  destruct (Canonical marshal_pc sha c) as [record|] eqn:Hcan; [|by injection H as <- <-].
  case_match; [by injection H as <- <-|].
  destruct (ps_Load _ _ s) as [loaded s1] eqn:Hload.
  apply Load_ok in Hload as (Hwf1 & Hv1 & Hl); [|done]. fold (key_of c) in *.
  destruct loaded as [e|[f retained]]; [injection H as <- <-; split; [done|by left]|].
  destruct (Hl f retained eq_refl) as [Hf _].
  assert (strip f = fold_of s1 (key_of c)) as Hf1 by (rewrite Hf; symmetry; apply Hv1).
  pose proof (same_view_refl s1).
  cut (store_wf s' ∧ sound_outcome c s1 s' out.1).
  { intros [? ?]. split; [done|]. by apply (sound_outcome_pre c s s1). }
  destruct (N.leb_spec (pc_AggregateVersion c) (f_Version f)) as [Hle|Hgt].
  - destruct retained as [id|]; [|by eapply reconcile_sound].
    destruct (sameIdentity id _).
    + injection H as <- <-. split; [done|]. split_and!; [done|by rewrite <-Hf1|by left].
    + destruct (ps_RecordPoison _ _ s1) as [res s2] eqn:E. apply RecordPoison_ok in E as [??]; [|done].
      injection H as <- <-. by destruct res.
  - case_match; [by eapply reconcile_sound|].
    destruct (foldRecords f [record]) as [final|] eqn:Hfr; [|by injection H as <- <-].
    destruct (ps_Install _ _ _ s1) as [res s2] eqn:E. injection H as <- <-.
    assert (Forall (λ x, record_key x = key_of c) [record]) as Hkeys.
    { apply Forall_singleton. unfold record_key. by rewrite (Canonical_command _ _ Hcan). }
    pose proof (foldRecords_key _ _ _ _ Hfr ltac:(done) Hkeys) as Hkey.
    eapply Install_ok in E as [? E]; try done. split; [done|]. apply install_sound; [|by left].
    destruct E as [?|(? & Hver & Hfold & Hent)]; [by left|right]. split; [done|].
    exists f, [record], final. split_and!; try done.
    { apply Forall_singleton. unfold record_version. rewrite (Canonical_command _ _ Hcan).
      by eapply Canonical_version. }
    exists record.
    split_and!; [by left|unfold record_version; by rewrite (Canonical_command _ _ Hcan)|by apply Canonical_identity].
Qed.

(** C11: [Apply] moves an interaction only along its history. Against any store
    that keeps its contract and whatever the authority answers: an applied command
    means the stored fold is the old one folded with a run of consecutive commands
    that contains it, each entered in the ledger at a version that was free; a
    duplicate moves no fold and is not ahead of the head; an audited snapshot
    never moves the head backwards and covers the command; a lost compare-and-set
    and a poisoned command change nothing; an error leaves one of these, never a
    part of one; and no other interaction is ever touched. *)
Theorem Apply_sound token au principal c s out s' :
  Apply marshal_pc sha token au principal c s = (out, s') → store_wf s →
  store_wf s' ∧ sound_outcome c s s' out.1.
Proof. apply Apply_outcome. Qed.

(** ** Runs of the projector *)

(** The head of every interaction is in its ledger. *)
Definition head_recorded (s : S) : Prop :=
  ∀ k, (0 < f_Version (fold_of s k))%N →
    ∃ i, ledger_of s k (f_Version (fold_of s k)) = Some i ∧ sameIdentity i (f_Identity (fold_of s k)) = true.

(** No interaction moves backwards and no ledger entry is lost or rewritten. *)
Definition advances (s s' : S) : Prop :=
  ∀ k, (f_Version (fold_of s k) <= f_Version (fold_of s' k))%N ∧
    ∀ v i, ledger_of s k v = Some i → ledger_of s' k v = Some i.

#[export] Instance advances_preorder : PreOrder advances.
Proof.
  split.
  - intros s k. split; [lia|done].
  - intros s1 s2 s3 H1 H2 k. destruct (H1 k) as [? Hl1], (H2 k) as [? Hl2]. split; [lia|]. auto.
Qed.

Lemma same_view_good s s' : same_view s s' → head_recorded s → head_recorded s' ∧ advances s s'.
Proof.
  intros Hv Hh. split.
  - intros k. destruct (Hv k) as [-> Hl]. rewrite Hl. apply Hh.
  - intros k. destruct (Hv k) as [-> Hl]. split; [lia|]. intros v i. by rewrite Hl.
Qed.

Lemma with_records_kept rs l v i :
  (∀ r, r ∈ rs → l (record_version r) = None) → l v = Some i → with_records rs l v = Some i.
Proof.
  induction rs as [|r rs IH] using rev_ind; intros Hn Hl; [done|]. unfold with_records. rewrite foldl_snoc.
  case_decide as Hv; [|apply IH; [|done]; intros; apply Hn, elem_of_app; by left].
  subst v. rewrite Hn in Hl; [done|]. apply elem_of_app. right. by left.
Qed.

Lemma foldRecords_mono f rs final :
  (f_Version f < two64N)%N → Forall (λ r, 0 < record_version r)%N rs → foldRecords f rs = Some final →
  (f_Version f <= f_Version final < two64N)%N.
Proof.
  intros Hlt. revert final. induction rs as [|r rs IH] using rev_ind; intros final Hpos H.
  { by injection H as <-. }
  apply Forall_app in Hpos as [Hpos Hr]. rewrite Forall_singleton in Hr.
  rewrite foldRecords_snoc in H. destruct (foldRecords f rs) as [g|]; [|done]. simpl in H.
  destruct (IH g Hpos eq_refl) as [??]. apply fold_record_Some in H as (-> & Hv & _).
  assert (0 < two64N)%N by done. rewrite Hv. rewrite Hv in Hr. revert Hr. unfold add64.
  destruct (decide (f_Version g + 1 = two64N)%N) as [->|?]; [by rewrite N.Div0.mod_same; lia|].
  rewrite N.mod_small by lia. lia.
Qed.

Lemma applied_good c s s' : store_wf s → head_recorded s → applied c s s' → head_recorded s' ∧ advances s s'.
Proof.
  intros Hwf Hh (f & rs & final & H1 & H2 & H3 & (Hfree & Hl & Helse) & Hpos & r & Hr & _).
  split; intros k; destruct (decide (k = key_of c)) as [->|Hne].
  - intros _. rewrite Hl, H3. destruct rs as [|r' rs _] using rev_ind; [by apply elem_of_nil in Hr|].
    rewrite foldRecords_snoc in H2. destruct (foldRecords f rs); [|done]. simpl in H2.
    apply fold_record_Some in H2 as (Hv & _ & Hid & _). exists (r_Identity r').
    unfold with_records. rewrite foldl_snoc. simpl. rewrite decide_True by done. split; [done|].
    unfold sameIdentity. simpl. by rewrite Hid, !bool_decide_eq_true_2.
  - destruct (Helse k Hne) as [-> Hlk]. rewrite Hlk. apply Hh.
  - rewrite H3, <-H1. simpl. split; [|intros v i Hi; rewrite Hl; by apply with_records_kept].
    pose proof (fold_of_bound s (key_of c) Hwf) as Hb. rewrite <-H1 in Hb. simpl in Hb.
    by destruct (foldRecords_mono f rs final).
  - destruct (Helse k Hne) as [-> Hlk]. split; [lia|]. intros v i. by rewrite Hlk.
Qed.

Lemma recorded_good c s s' : head_recorded s → recorded c s s' → head_recorded s' ∧ advances s s'.
Proof.
  intros Hh (Hf & _ & [Hs|[rec (Hfree & Hl & Helse)]]); [by apply same_view_good|].
  assert (∀ k v i, ledger_of s k v = Some i → ledger_of s' k v = Some i) as Hkeep.
  { intros k v i Hi. destruct (decide (k = key_of c)) as [->|Hne].
    - rewrite Hl. by apply with_records_kept.
    - destruct (Helse k Hne) as [_ ->]. done. }
  split; intros k; rewrite Hf.
  - intros (i & Hi & ?)%Hh. exists i. auto.
  - split; [lia|]. apply Hkeep.
Qed.

Lemma replaced_good c s s' : head_recorded s → replaced c s s' → head_recorded s' ∧ advances s s'.
Proof.
  intros Hh (_ & Hle & Hnone & Hl & Helse).
  split; intros k; destruct (decide (k = key_of c)) as [->|Hne].
  - intros _. exists (f_Identity (fold_of s' (key_of c))). rewrite Hl, decide_True by done. split; [done|].
    unfold sameIdentity. by rewrite !bool_decide_eq_true_2.
  - destruct (Helse k Hne) as [-> Hlk]. rewrite Hlk. apply Hh.
  - split; [done|]. intros v i Hi. rewrite Hl. case_decide; [|done]. subst v. by rewrite Hnone in Hi.
  - destruct (Helse k Hne) as [-> Hlk]. split; [lia|]. intros v i. by rewrite Hlk.
Qed.

Lemma sound_outcome_good c s s' o :
  store_wf s → head_recorded s → sound_outcome c s s' o → head_recorded s' ∧ advances s s'.
Proof.
  intros Hwf Hh. destruct o as [[]|]; simpl;
    eauto using applied_good, recorded_good, replaced_good, same_view_good.
  intros [|[|[|]]]; eauto using applied_good, recorded_good, replaced_good, same_view_good.
Qed.

(** One command as it reaches the projector, with the token drawn for it and what
    the authority would answer. *)
Record delivery := mkDelivery {
  dl_token : string; dl_authority : Authority; dl_principal : Principal; dl_command : ParticipationCommand }.

Definition run_projector (ds : list delivery) (s : S) : S :=
  foldl (λ s d, (Apply marshal_pc sha (dl_token d) (dl_authority d) (dl_principal d) (dl_command d) s).2) s ds.

(** Over any sequence of commands and whatever the authority answers and the
    store refuses, no interaction moves back, the ledger is append-only and every
    head is its ledger's entry. *)
Lemma run_projector_good ds s :
  store_wf s → head_recorded s →
  store_wf (run_projector ds s) ∧ head_recorded (run_projector ds s) ∧ advances s (run_projector ds s).
Proof.
  intros Hwf Hh. induction ds as [|d ds IH] using rev_ind; [done|]. unfold run_projector. rewrite foldl_snoc.
  fold (run_projector ds s). destruct IH as (Hwf' & Hh' & Ha).
  destruct (Apply _ _ _ _ _ _ (run_projector ds s)) as [out s'] eqn:E.
  apply Apply_outcome in E as [? Ho]; [|done]. simpl.
  destruct (sound_outcome_good _ _ _ _ Hwf' Hh' Ho) as [? ?]. split_and!; [done|done|by etrans].
Qed.

(** ** What a settled command has reached *)

Lemma foldRecords_covers f rs final r :
  (f_Version f < two64N)%N → Forall (λ r, 0 < record_version r)%N rs → foldRecords f rs = Some final →
  r ∈ rs → (record_version r <= f_Version final)%N.
Proof.
  intros Hlt. revert final. induction rs as [|r' rs IH] using rev_ind; intros final Hpos H Hr.
  { by apply elem_of_nil in Hr. }
  pose proof Hpos as [Hpos1 _]%Forall_app.
  rewrite foldRecords_snoc in H. destruct (foldRecords f rs) as [g|] eqn:Hg; [|done]. simpl in H.
  destruct (foldRecords_mono f (rs ++ [r']) final) as [??]; [done|done|by rewrite foldRecords_snoc, Hg|].
  destruct (foldRecords_mono f rs g) as [??]; [done..|].
  destruct (foldRecords_mono g [r'] final) as [Hgf _]; [done|by apply Forall_app in Hpos as [_ ?]|done|].
  apply fold_record_Some in H as (Hv & _). apply elem_of_app in Hr as [Hr|Hr].
  - specialize (IH g Hpos1 eq_refl Hr). lia.
  - apply list_elem_of_singleton in Hr as ->. by rewrite Hv.
Qed.

(** A command with an installing or a duplicate outcome is behind the head. *)
Lemma sound_outcome_covers c s s' o :
  store_wf s → o ∈ [Applied; Duplicate; AuditedSnapshot] → sound_outcome c s s' (Some o) →
  (pc_AggregateVersion c <= f_Version (fold_of s' (key_of c)))%N.
Proof.
  intros Hwf Ho Hs. rewrite !elem_of_cons in Ho.
  destruct Ho as [->|[->|[->|Ho]]]; [| | |by apply elem_of_nil in Ho]; simpl in Hs.
  - destruct Hs as (f & rs & final & H1 & H2 & H3 & _ & Hpos & r & Hr & <- & _). rewrite H3. simpl.
    eapply foldRecords_covers; [|done..]. pose proof (fold_of_bound s (key_of c) Hwf) as Hb.
    by rewrite <-H1 in Hb.
  - destruct Hs as (Hf & Hle & _). by rewrite Hf.
  - by destruct Hs as (Hle & _).
Qed.

End Apply.
