(* ===== verification/ParticipationConsumer.v ===== *)
(** The JetStream consumer of participation commands
    (internal/participationnats/consumer.go): its message handler around [Apply]. *)

From S2P Require Import Prelude Wire Subjects Trace DesiredParticipation DesiredTheorems.

(** A delivered message; an absent header reads as the empty string. *)
Record PMsg := mkPMsg {
  m_Subject : string;
  m_MsgId : string;
  m_Traceparent : string;
  m_Data : string;
}.

(** What the handler does with the message. *)
Inductive disposition := Ack | Nak | Term.
#[export] Instance disposition_eq_dec : EqDecision disposition.
Proof. solve_decision. Defined.

Section Consumer.
Context (marshal_pc : ParticipationCommand → option string) (sha : string → string).
(** [proto.Unmarshal] of a command: the message, and whether it had fields the
    schema does not know; [None] is a decoding error. *)
Context (unmarshal_pc : string → option (ParticipationCommand * bool)).
Context {S : Type} {PS : PStore S}.

Definition subjectMatchesPayload (subject : string) (c : ParticipationCommand) : bool :=
  let tokens := split_on "." subject in
  (length tokens =? 6) && bool_decide (tokens !! 4 = Some (pc_TenantId c))
  && bool_decide (tokens !! 5 = Some (pc_InteractionId c)).

(** The guard of [handle]: the command of a message that may be applied. *)
Definition admitted (m : PMsg) : option ParticipationCommand :=
  match unmarshal_pc (m_Data m) with
  | Some (c, false) =>
      match Canonical marshal_pc sha c, ParticipationCommandAddress (pc_TenantId c) (pc_InteractionId c) with
      | Some record, Some want =>
          if bool_decide (m_Subject m = want) && bool_decide (m_MsgId m = pc_EventId c)
             && bool_decide (m_Traceparent m = pc_Traceparent c)
             && bool_decide (ei_Body (r_Identity record) = m_Data m)
             && subjectMatchesPayload (m_Subject m) c
          then Some c else None
      | _, _ => None
      end
  | _ => None
  end.

(** The settlement after [Apply]. *)
Definition settle_message (out : outcome) : disposition :=
  let '(result, err) := out in
  if decide (err = [] ∨ result = Some CompareAndSetLost) then Ack
  else if decide (ErrInvalid ∈ err ∨ ErrPermissionDenied ∈ err ∨ ErrDivergentHistory ∈ err
                  ∨ ErrReconcileExhausted ∈ err) then Term
  else Nak.

Definition handle (grant : TransportGrant) (token : string) (au : Authority) (m : PMsg) (s : S) :
    disposition * S :=
  match admitted m with
  | None => (Term, s)
  | Some c =>
      let '(out, s') := Apply marshal_pc sha token au (mkPrincipal (pc_TenantId c) grant) c s in
      (settle_message out, s')
  end.

(** ** Theorems *)

(** A handler's result without an error is one of the four final ones. *)
Lemma install_no_error r ok : (install_outcome r ok).2 = [] →
  (install_outcome r ok).1 = Some ok ∨ (install_outcome r ok).1 = Some CompareAndSetLost ∨ r = inl [].
Proof. destruct r as [e|[]]; simpl; intros H; subst; auto. Qed.

Context {PSOK : PStoreOK S}.

(** A store error is an error: the list of its causes is not empty. *)
Definition store_errors_set : Prop :=
  (∀ k v s, (ps_Load (S := S) k v s).1 ≠ inl []) ∧
  (∀ e rs f s, (ps_Install (S := S) e rs f s).1 ≠ inl []) ∧
  (∀ i h s, (ps_BeginReconcile (S := S) i h s).1 ≠ inl []) ∧
  (∀ i rs f s, (ps_InstallReconcile (S := S) i rs f s).1 ≠ inl []) ∧
  (∀ i r s, (ps_InstallHistorical (S := S) i r s).1 ≠ inl []) ∧
  (∀ i n h s, (ps_InstallSnapshot (S := S) i n h s).1 ≠ inl []) ∧
  (∀ i h s, (ps_FailReconcile (S := S) i h s).1 ≠ inl []) ∧
  (∀ r w s, (ps_RecordPoison (S := S) r w s).1 ≠ inl []).
Definition authority_errors_set (au : Authority) : Prop :=
  (∀ q, au_Replay au q ≠ inl []) ∧ (∀ q, au_Snapshot au q ≠ inl []).

Definition final (o : outcome) : Prop :=
  o.2 = [] → o.1 ∈ [Some Applied; Some Duplicate; Some AuditedSnapshot; Some CompareAndSetLost].

Lemma install_final r ok :
  r ≠ inl [] → Some ok ∈ [Some Applied; Some Duplicate; Some AuditedSnapshot] → final (install_outcome r ok).
Proof.
  intros Hr Hok He. destruct (install_no_error r ok He) as [->|[->|?]]; [|set_solver|done]. set_solver.
Qed.

Lemma failReconcile_final intent held cause s :
  cause ≠ [] → final (failReconcile intent held cause s).1.
Proof.
  intros Hc. unfold failReconcile. destruct (ps_FailReconcile intent held s) as [[e|[]] s']; simpl;
    intros H; simpl in H; [|done|done]. by apply app_eq_nil in H as [? _].
Qed.

Lemma snapshot_final au intent held s :
  store_errors_set → authority_errors_set au → final (reconcile_snapshot au intent held s).1.
Proof.
  intros (_ & _ & _ & _ & _ & Hi & _) [_ Hau]. unfold reconcile_snapshot. specialize (Hau (snapshot_request intent)).
  destruct (au_Snapshot au _) as [e|wire]; [apply failReconcile_final; congruence|].
  destruct (validateSnapshot wire intent held) as [e|snap]; [done|].
  specialize (Hi intent snap held s). destruct (ps_InstallSnapshot intent snap held s) as [r s'].
  apply install_final; [done|set_solver].
Qed.

Lemma reconcile_final token au f held historical s :
  store_errors_set → authority_errors_set au → final (reconcile marshal_pc sha token au f held historical s).1.
Proof.
  intros Hs Hau. pose proof Hs as (_ & _ & Hb & Hr & Hh & _). unfold reconcile.
  destruct (negb (uuidv7Pattern token)); [done|].
  match goal with |- context [ps_BeginReconcile ?i held s] => specialize (Hb i held s) end.
  destruct (ps_BeginReconcile _ held s) as [[e|[intent []]] s1]; simpl in Hb;
    [intros He; simpl in He; congruence| |intros _; simpl; set_solver].
  pose proof Hau as [Hrep _]. specialize (Hrep (replay_request intent)). destruct (au_Replay au _) as [e|replay].
  { case_decide; [by apply snapshot_final|apply failReconcile_final; congruence]. }
  destruct (validateReplay _ _ replay intent held) as [e|rs]; [done|]. destruct historical.
  - destruct rs as [|r rs]; [done|]. specialize (Hh intent r s1).
    destruct (ps_InstallHistorical intent r s1). apply install_final; [done|set_solver].
  - destruct (foldRecords f rs) as [fin|]; [|done]. specialize (Hr intent rs fin s1).
    destruct (ps_InstallReconcile intent rs fin s1). apply install_final; [done|set_solver].
Qed.

Lemma Apply_final token au principal c s :
  store_errors_set → authority_errors_set au → final (Apply marshal_pc sha token au principal c s).1.
Proof.
  intros Hs Hau. pose proof Hs as (Hl & Hi & _ & _ & _ & _ & _ & Hp). unfold Apply.
  destruct (Canonical marshal_pc sha c) as [record|]; [|done]. case_match; [done|].
  match goal with |- context [ps_Load ?k ?v s] => specialize (Hl k v s); destruct (ps_Load k v s) as [[e|[f retained]] s1] end;
    simpl in Hl; [intros He; simpl in He; congruence|].
  case_match.
  - destruct retained as [id|]; [|by apply reconcile_final]. case_match; [intros _; simpl; set_solver|].
    specialize (Hp record "DIVERGENT_HISTORY" s1). destruct (ps_RecordPoison _ _ s1) as [[e|u] s2]; simpl in Hp;
      intros He; simpl in He; [congruence|done].
  - case_match; [by apply reconcile_final|]. destruct (foldRecords f [record]) as [fin|]; [|done].
    specialize (Hi (f_Version f) [record] fin s1). destruct (ps_Install _ _ _ s1). apply install_final; [done|set_solver].
Qed.

Lemma admitted_sound m c :
  admitted m = Some c →
  unmarshal_pc (m_Data m) = Some (c, false) ∧ m_MsgId m = pc_EventId c ∧
  m_Subject m = "corex.participation.commands.v1." +:+ pc_TenantId c +:+ "." +:+ pc_InteractionId c ∧
  ∃ r, Canonical marshal_pc sha c = Some r ∧ ei_Body (r_Identity r) = m_Data m.
Proof.
  unfold admitted. destruct (unmarshal_pc (m_Data m)) as [[c' []]|] eqn:Hu; [done| |done].
  destruct (Canonical marshal_pc sha c') as [r|] eqn:Hc; [|done].
  destruct (ParticipationCommandAddress _ _) as [want|] eqn:Hw; [|done].
  case_match eqn:Hb; [|done]. intros [= ->]. repeat (apply andb_true_iff in Hb as [Hb ?]).
  repeat match goal with H : bool_decide _ = true |- _ => apply bool_decide_eq_true in H end.
  split_and!; [done|done| |by exists r]. rewrite Hb.
  unfold ParticipationCommandAddress, participationAddress in Hw. case_match; [|done]. by injection Hw as <-.
Qed.

(** A message is acknowledged only when it is settled: either the command it
    carries is at or behind the head of its interaction in the store, or another
    writer won the compare-and-set and this handler changed nothing. What is
    acknowledged was published on the subject of its own tenant and interaction,
    under its event id. *)
Theorem acknowledged_command_is_covered grant token au m s s' :
  handle grant token au m s = (Ack, s') → store_wf s → store_errors_set → authority_errors_set au →
  ∃ c, unmarshal_pc (m_Data m) = Some (c, false) ∧ m_MsgId m = pc_EventId c ∧
    m_Subject m = "corex.participation.commands.v1." +:+ pc_TenantId c +:+ "." +:+ pc_InteractionId c ∧
    ((pc_AggregateVersion c <= f_Version (fold_of s' (key_of c)))%N ∨
     (Apply marshal_pc sha token au (mkPrincipal (pc_TenantId c) grant) c s).1.1 = Some CompareAndSetLost ∧
     same_view s s').
Proof.
  unfold handle. destruct (admitted m) as [c|] eqn:Ha; [|done]. intros H Hwf Hs Hau.
  apply admitted_sound in Ha as (Hu & Hid & Hsub & _). exists c. do 3 (split; [done|]).
  pose proof (Apply_final token au (mkPrincipal (pc_TenantId c) grant) c s Hs Hau) as Hfin.
  destruct (Apply _ _ _ _ _ c s) as [[o e] s1] eqn:E. destruct (Apply_outcome _ _ _ _ _ _ _ _ _ E Hwf) as [_ Ho].
  injection H as H <-. unfold settle_message in H. case_decide as Hd; [|by case_decide]. simpl in Ho.
  destruct Hd as [-> | ->]; [|by right]. specialize (Hfin eq_refl). simpl in Hfin. rewrite !elem_of_cons in Hfin.
  destruct Hfin as [->|[->|[->|[->|Hf]]]]; [..|by apply elem_of_nil in Hf]; [left..|by right];
    (refine (sound_outcome_covers c s s1 _ Hwf _ Ho); set_solver).
Qed.
End Consumer.
