(* ===== verification/PgTx.v ===== *)
(** Database transactions, as both PostgreSQL stores use them
    (internal/participationpg/store.go and internal/deliverypg/store.go).

    A statement runs in the session of a tenant and takes one tick of a counter.
    Any statement may fail by itself (a lost connection, a cancelled context), and
    a commit may fail before or after it took effect: [faults] decides, by the
    number of statements issued so far. A failed transaction leaves the tables as
    they were. Transactions run one at a time: the stores lock the rows or the
    advisory key they decide on before they read them. *)

From S2P Require Import Prelude.

(** What a statement or a commit may do. *)
Inductive fault := NoFault | Before | After.

(** The tables and the number of statements issued. *)
Record DbState (DB : Type) := mkDbState { st_db : DB; st_clock : nat }.
Arguments mkDbState {DB}.
Arguments st_db {DB}.
Arguments st_clock {DB}.

(** The error of a statement the database did not execute. *)
Class TxErr (E : Type) := tx_broken : E.

Section Tx.
Context {DB E : Type} `{!TxErr E} (faults : nat → fault).

(** Tables and counter in; a value or an error, tables and counter out. *)
Definition Tx (A : Type) : Type := string → DB → nat → (E + A) * DB * nat.

Definition tx_ret {A} (a : A) : Tx A := λ _ d n, (inr a, d, n).
Definition tx_fail {A} (e : E) : Tx A := λ _ d n, (inl e, d, n).
Definition tx_bind {A B} (m : Tx A) (k : A → Tx B) : Tx B :=
  λ t d n, match m t d n with (inl e, d', n') => (inl e, d', n') | (inr a, d', n') => k a t d' n' end.

(** One statement; [f] also gets the tick, which dates its clock and its
    generated values. *)
Definition stmt_at {A} (f : nat → string → DB → (E + A) * DB) : Tx A :=
  λ t d n, match faults n with
           | NoFault => (f n t d, S n)
           | _ => (inl tx_broken, d, S n)
           end.

Definition stmt {A} (f : string → DB → (E + A) * DB) : Tx A := stmt_at (λ _, f).

(** A statement that only reads the rows of the session's tenant. *)
Definition query {A} (f : DB → A) : Tx A := stmt (λ _ d, (inr (f d), d)).

(** A statement that writes a row of tenant [tenant] when [ok] holds; the
    constraint checks are in [ok]. *)
Definition write (tenant : string) (ok : DB → bool) (f : DB → DB) : Tx unit :=
  stmt (λ t d, if bool_decide (t = tenant) && ok d then (inr (), f d) else (inl tx_broken, d)).

(** Begin, set the tenant, run, commit; roll back on an error. *)
Definition run_tx {A} (tenant : string) (operation : Tx A) (s : DbState DB) : (E + A) * DbState DB :=
  let d := st_db s in
  match tx_bind (query (λ _, tt)) (λ _, tx_bind (query (λ _, tt)) (λ _, operation)) tenant d (st_clock s) with
  | (inl e, _, n) => (inl e, mkDbState d n)
  | (inr a, d', n) =>
      match faults n with
      | NoFault => (inr a, mkDbState d' (S n))
      | Before => (inl tx_broken, mkDbState d (S n))
      | After => (inl tx_broken, mkDbState d' (S n))
      end
  end.
End Tx.
Arguments Tx : clear implicits.

(** Arguments of a bigint column. *)
Definition bigint (v : N) : bool := (v <? 9223372036854775808)%N.

Declare Scope tx_scope.
Delimit Scope tx_scope with tx.
Notation "x <- m ;; k" := (tx_bind m (λ x, k)) (at level 100, m at next level, right associativity) : tx_scope.
Notation "m ;;; k" := (tx_bind m (λ _, k)) (at level 100, right associativity) : tx_scope.

(** * A program logic *)

(** [Q] holds of the value and the tables when the transaction succeeds; an error
    rolls back, so nothing is asked of it. *)
Definition tx_ok {DB E A} (t : string) (m : Tx DB E A) (d : DB) (Q : A → DB → Prop) : Prop :=
  ∀ n, match m t d n with (inr a, d', _) => Q a d' | _ => True end.

Section Logic.
Context {DB E : Type} `{!TxErr E} (faults : nat → fault) (t : string).

Lemma tx_ok_ret {A} (a : A) (d : DB) (Q : A → DB → Prop) : Q a d → tx_ok t (E:=E) (tx_ret a) d Q.
Proof. by intros ? n. Qed.

Lemma tx_ok_fail {A} (e : E) (d : DB) (Q : A → DB → Prop) : tx_ok t (tx_fail e) d Q.
Proof. by intros n. Qed.

Lemma tx_ok_bind {A B} (m : Tx DB E A) (k : A → Tx DB E B) d Q :
  tx_ok t m d (λ a d', tx_ok t (k a) d' Q) → tx_ok t (tx_bind m k) d Q.
Proof.
  intros H n. unfold tx_bind. specialize (H n). destruct (m t d n) as [[[e|a] d'] n']; [done|apply H].
Qed.

Lemma tx_ok_assoc {A B C} (m : Tx DB E A) (k : A → Tx DB E B) (k' : B → Tx DB E C) d Q :
  tx_ok t (tx_bind (tx_bind m k) k') d Q → tx_ok t (tx_bind m (λ a, tx_bind (k a) k')) d Q.
Proof.
  intros H n. specialize (H n). unfold tx_bind in *. destruct (m t d n) as [[[e|a] d'] n']; [done|].
  by destruct (k a t d' n') as [[[e|b] d''] n''].
Qed.

Lemma tx_ok_stmt_at {A} (f : nat → string → DB → (E + A) * DB) d Q :
  (∀ n, match f n t d with (inr a, d') => Q a d' | _ => True end) → tx_ok t (stmt_at faults f) d Q.
Proof. intros H n. unfold stmt_at. specialize (H n). destruct (faults n); [|done..]. by destruct (f n t d) as [[e|a] d']. Qed.

Lemma tx_ok_stmt {A} (f : string → DB → (E + A) * DB) d Q :
  match f t d with (inr a, d') => Q a d' | _ => True end → tx_ok t (stmt faults f) d Q.
Proof. intros H. by apply tx_ok_stmt_at. Qed.

Lemma tx_ok_query {A} (f : DB → A) d (Q : A → DB → Prop) : Q (f d) d → tx_ok t (E:=E) (query faults f) d Q.
Proof. intros H. by apply tx_ok_stmt. Qed.

Lemma tx_ok_write tenant ok f (d : DB) (Q : unit → DB → Prop) :
  (t = tenant → ok d = true → Q tt (f d)) → tx_ok t (E:=E) (write faults tenant ok f) d Q.
Proof.
  intros H. apply tx_ok_stmt. destruct (bool_decide (t = tenant)) eqn:Ht; [|done]. simpl.
  destruct (ok d) eqn:Hok; [|done]. apply bool_decide_eq_true in Ht. by apply H.
Qed.

Lemma tx_ok_mono {A} (m : Tx DB E A) d (Q Q' : A → DB → Prop) :
  tx_ok t m d Q → (∀ a d', Q a d' → Q' a d') → tx_ok t m d Q'.
Proof. intros H HQ n. specialize (H n). destruct (m t d n) as [[[e|a] d'] n']; auto. Qed.

(** What a transaction leaves behind. *)
Lemma run_tx_ok {A} (m : Tx DB E A) s r s' Q :
  run_tx faults t m s = (r, s') → tx_ok t m (st_db s) Q →
  (∃ e, r = inl e ∧ st_db s' = st_db s) ∨
  ∃ a, Q a (st_db s') ∧ (r = inr a ∨ ∃ e, r = inl e).
Proof.
  intros H HQ. unfold run_tx in H.
  match type of H with context [match ?m t (st_db s) _ with _ => _ end] =>
    assert (tx_ok t m (st_db s) Q) as Hm by (do 2 apply tx_ok_bind, tx_ok_query; exact HQ);
    specialize (Hm (st_clock s));
    destruct (m t (st_db s) (st_clock s)) as [[[e|a] d'] n']
  end.
  - injection H as <- <-. left. by exists e.
  - destruct (faults n'); injection H as <- <-; simpl; eauto 6.
Qed.

(** A transaction of one statement, which is its third: after BEGIN and the
    setting of the tenant. *)
Lemma run_stmt_cases {A} (f : nat → string → DB → (E + A) * DB) s r s' :
  run_tx faults t (stmt_at faults f) s = (r, s') →
  (st_db s' = st_db s ∧ r = inl tx_broken) ∨
  match f (S (S (st_clock s))) t (st_db s) with
  | (inl e, _) => r = inl e ∧ st_db s' = st_db s
  | (inr a, d') => st_db s' = d' ∧ (r = inr a ∨ r = inl tx_broken)
  end.
Proof.
  unfold run_tx, tx_bind, query, stmt, stmt_at. intros Hr.
  destruct (faults (st_clock s)); [|by injection Hr as <- <-; left..].
  destruct (faults (S (st_clock s))); [|by injection Hr as <- <-; left..].
  destruct (faults (S (S (st_clock s)))); [|by injection Hr as <- <-; left..].
  destruct (f _ t (st_db s)) as [[e|a] d']; [by injection Hr as <- <-; right|].
  destruct (faults _); injection Hr as <- <-; auto.
Qed.

(** The same on a database that answers. *)
Lemma run_stmt_healthy {A} (f : nat → string → DB → (E + A) * DB) s :
  (∀ n, st_clock s ≤ n → faults n = NoFault) →
  run_tx faults t (stmt_at faults f) s =
    match f (S (S (st_clock s))) t (st_db s) with
    | (inl e, _) => (inl e, mkDbState (st_db s) (S (S (S (st_clock s)))))
    | (inr a, d') => (inr a, mkDbState d' (S (S (S (S (st_clock s))))))
    end.
Proof.
  intros Hh. unfold run_tx, tx_bind, query, stmt, stmt_at. rewrite !Hh by lia.
  by destruct (f _ t (st_db s)) as [[e|a] d'].
Qed.

(** The counter never runs back. *)
Definition tx_ticks {A} (m : Tx DB E A) : Prop := ∀ d n, n ≤ (m t d n).2.

Lemma tx_ticks_bind {A B} (m : Tx DB E A) (k : A → Tx DB E B) :
  tx_ticks m → (∀ a, tx_ticks (k a)) → tx_ticks (tx_bind m k).
Proof.
  intros Hm Hk d n. unfold tx_bind. specialize (Hm d n). destruct (m t d n) as [[[e|a] d'] n']; [done|].
  simpl in Hm. etrans; [exact Hm|apply Hk].
Qed.

Lemma tx_ticks_stmt_at {A} (f : nat → string → DB → (E + A) * DB) : tx_ticks (stmt_at faults f).
Proof. intros d n. unfold stmt_at. destruct (faults n); simpl; lia. Qed.

Lemma tx_ticks_query {A} (f : DB → A) : tx_ticks (query faults f).
Proof. apply tx_ticks_stmt_at. Qed.

Lemma tx_ticks_write tenant ok f : tx_ticks (write faults tenant ok f).
Proof. apply tx_ticks_stmt_at. Qed.

Lemma tx_ticks_ret {A} (a : A) : tx_ticks (tx_ret a).
Proof. intros d n. simpl. lia. Qed.

Lemma tx_ticks_fail {A} (e : E) : tx_ticks (A := A) (tx_fail e).
Proof. intros d n. simpl. lia. Qed.

Lemma run_tx_ticks {A} (m : Tx DB E A) s : tx_ticks m → st_clock s < st_clock (run_tx faults t m s).2.
Proof.
  intros Hm. unfold run_tx. unfold tx_bind at 1. unfold query, stmt. unfold stmt_at at 1.
  destruct (faults (st_clock s)); [|simpl; lia..].
  assert (tx_ticks (tx_bind (stmt_at faults (λ _ _ d, (inr tt, d))) (λ _, m))) as Hb.
  { apply tx_ticks_bind; [apply tx_ticks_stmt_at|done]. }
  specialize (Hb (st_db s) (S (st_clock s))).
  destruct (tx_bind _ _ t (st_db s) (S (st_clock s))) as [[[e|a] d'] n']; simpl in Hb |- *; [lia|].
  destruct (faults n'); simpl; lia.
Qed.
End Logic.

(** * The same logic on a database that answers: the transaction succeeds *)

Section Must.
Context {DB E : Type} `{!TxErr E} (faults : nat → fault) (t : string).

Definition answers_from (n : nat) : Prop := ∀ k, n ≤ k → faults k = NoFault.

Definition tx_must {A} (m : Tx DB E A) (d : DB) (Q : A → DB → Prop) : Prop :=
  ∀ n, answers_from n → match m t d n with (inr a, d', n') => n ≤ n' ∧ Q a d' | _ => False end.

Lemma tx_must_ret {A} (a : A) (d : DB) (Q : A → DB → Prop) : Q a d → tx_must (tx_ret a) d Q.
Proof. intros HQ n _. simpl. auto. Qed.

Lemma tx_must_bind {A B} (m : Tx DB E A) (k : A → Tx DB E B) d Q :
  tx_must m d (λ a d', tx_must (k a) d' Q) → tx_must (tx_bind m k) d Q.
Proof.
  intros Hm n Hn. unfold tx_bind. specialize (Hm n Hn). destruct (m t d n) as [[[e|a] d'] n']; [done|].
  destruct Hm as [Hle Hk]. assert (answers_from n') as Hn' by (intros k0 Hk0; apply Hn; lia).
  specialize (Hk n' Hn'). destruct (k a t d' n') as [[[e|b] d''] n'']; [done|]. destruct Hk. split; [lia|done].
Qed.

Lemma tx_must_stmt_at {A} (f : nat → string → DB → (E + A) * DB) d Q :
  (∀ n, match f n t d with (inr a, d') => Q a d' | _ => False end) → tx_must (stmt_at faults f) d Q.
Proof.
  intros Hf n Hn. unfold stmt_at. rewrite Hn by lia. specialize (Hf n). destruct (f n t d) as [[e|a] d']; [done|].
  split; [lia|done].
Qed.

Lemma tx_must_query {A} (f : DB → A) d (Q : A → DB → Prop) : Q (f d) d → tx_must (query faults f) d Q.
Proof. intros HQ. by apply tx_must_stmt_at. Qed.

Lemma tx_must_write ok f d (Q : unit → DB → Prop) : ok d = true → Q tt (f d) → tx_must (write faults t ok f) d Q.
Proof. intros Hok HQ. apply tx_must_stmt_at. intros n. by rewrite bool_decide_eq_true_2, Hok. Qed.

Lemma tx_must_mono {A} (m : Tx DB E A) d (Q Q' : A → DB → Prop) :
  tx_must m d Q → (∀ a d', Q a d' → Q' a d') → tx_must m d Q'.
Proof. intros Hm HQ n Hn. specialize (Hm n Hn). destruct (m t d n) as [[[e|a] d'] n']; [done|]. naive_solver. Qed.

Lemma run_tx_must {A} (m : Tx DB E A) s Q :
  answers_from (st_clock s) → tx_must m (st_db s) Q →
  ∃ a s', run_tx faults t m s = (inr a, s') ∧ Q a (st_db s') ∧ answers_from (st_clock s').
Proof.
  intros Hs Hm. unfold run_tx.
  assert (tx_must (tx_bind (query faults (λ _ : DB, ())) (λ _, tx_bind (query faults (λ _ : DB, ())) (λ _, m))) (st_db s) Q) as Hb
    by (do 2 apply tx_must_bind, tx_must_query; exact Hm).
  specialize (Hb (st_clock s) Hs). destruct (tx_bind _ _ t (st_db s) (st_clock s)) as [[[e|a] d'] n']; [done|].
  destruct Hb as [Hle HQ]. rewrite Hs by lia. do 2 eexists. split; [done|]. split; [done|]. simpl. intros k Hk. apply Hs. lia.
Qed.
End Must.

Create HintDb tx.
#[export] Hint Resolve tx_ok_ret tx_ok_fail tx_ticks_bind tx_ticks_stmt_at tx_ticks_query
  tx_ticks_write tx_ticks_ret tx_ticks_fail : tx.

(** Symbolic execution of a transaction. *)
Ltac tx_step :=
  first [ apply tx_ok_bind | apply tx_ok_ret | apply tx_ok_fail | apply tx_ok_query
        | apply tx_ok_write; intros ?? ].
