(* ===== verification/ParticipationPg.v ===== *)
(** The PostgreSQL store of the desired-participation projector
    (internal/participationpg/store.go) over the tables of
    db/migrations/000001_baseline.up.sql.

    A table is a finite map from its primary key to a row; a statement checks the
    key, UNIQUE and range constraints the schema declares and the tenant of the
    session (row-level security). Statements and commits may fail ([PgTx]).

    Columns of type uuid and the 32-byte hashes only ever receive text that
    [Canonical], [validateSnapshot] and [reconcile] have checked, so the casts and
    the CHECKs on them are not modelled; timestamps are not modelled. *)

From S2P Require Import Prelude Wire Subjects Trace PgTx DesiredParticipation DesiredTheorems.

(** * Tables *)

#[export] Instance Key_countable : Countable Key.
Proof.
  refine (inj_countable' (λ k, (k_TenantID k, k_InteractionID k)) (λ p, mkKey p.1 p.2) _). by intros [].
Defined.

(** participation_fold_heads *)
Record HeadRow := mkHeadRow {
  hd_version : N;
  hd_event : option string;
  hd_hash : option string;
  hd_source_event : option string;
  hd_source_hash : option string;
  hd_provenance : option string;
}.

(** participation_folded_participants *)
Record FoldedRow := mkFoldedRow { fp_version : N; fp_event : string; fp_hash : string }.

(** participation_version_ledger *)
Record VersionRow := mkVersionRow {
  vl_event : string; vl_hash : string; vl_body : option string; vl_source : string }.

(** participation_event_ledger *)
Record EventRow := mkEventRow { el_interaction : string; el_version : N; el_hash : string }.

(** participation_pending_inputs *)
Record PendingRow := mkPendingRow {
  pi_interaction : string; pi_version : N; pi_hash : string; pi_body : string;
  pi_attempts : Z; pi_status : string }.

(** participation_reconcile_intents *)
Record IntentRow := mkIntentRow {
  ri_interaction : string; ri_observed : N; ri_from : N; ri_to : N;
  ri_held_event : string; ri_held_hash : string; ri_status : string }.

(** participation_dlq and participation_alert_outbox: the columns both have, and
    the version and the body or JSON payload. *)
Record AuditRow := mkAuditRow {
  au_token : option string; au_interaction : string; au_event : string; au_reason : string;
  au_version : N; au_payload : string }.

Record Pg := mkPg {
  pg_heads : gmap Key HeadRow;
  pg_folded : gmap (Key * string) FoldedRow;
  pg_versions : gmap (Key * N) VersionRow;
  pg_events : gmap (string * string) EventRow;
  pg_pending : gmap (string * string) PendingRow;
  pg_intents : gmap (string * string) IntentRow;
  pg_dlq : gmap (string * string) AuditRow;
  pg_alerts : gmap (string * string) AuditRow;
}.

Definition pg_empty : Pg := mkPg ∅ ∅ ∅ ∅ ∅ ∅ ∅ ∅.

Definition set_heads (m : gmap Key HeadRow) (d : Pg) : Pg :=
  mkPg m (pg_folded d) (pg_versions d) (pg_events d) (pg_pending d) (pg_intents d) (pg_dlq d) (pg_alerts d).
Definition set_folded (m : gmap (Key * string) FoldedRow) (d : Pg) : Pg :=
  mkPg (pg_heads d) m (pg_versions d) (pg_events d) (pg_pending d) (pg_intents d) (pg_dlq d) (pg_alerts d).
Definition set_versions (m : gmap (Key * N) VersionRow) (d : Pg) : Pg :=
  mkPg (pg_heads d) (pg_folded d) m (pg_events d) (pg_pending d) (pg_intents d) (pg_dlq d) (pg_alerts d).
Definition set_events (m : gmap (string * string) EventRow) (d : Pg) : Pg :=
  mkPg (pg_heads d) (pg_folded d) (pg_versions d) m (pg_pending d) (pg_intents d) (pg_dlq d) (pg_alerts d).
Definition set_pending (m : gmap (string * string) PendingRow) (d : Pg) : Pg :=
  mkPg (pg_heads d) (pg_folded d) (pg_versions d) (pg_events d) m (pg_intents d) (pg_dlq d) (pg_alerts d).
Definition set_intents (m : gmap (string * string) IntentRow) (d : Pg) : Pg :=
  mkPg (pg_heads d) (pg_folded d) (pg_versions d) (pg_events d) (pg_pending d) m (pg_dlq d) (pg_alerts d).
Definition set_dlq (m : gmap (string * string) AuditRow) (d : Pg) : Pg :=
  mkPg (pg_heads d) (pg_folded d) (pg_versions d) (pg_events d) (pg_pending d) (pg_intents d) m (pg_alerts d).
Definition set_alerts (m : gmap (string * string) AuditRow) (d : Pg) : Pg :=
  mkPg (pg_heads d) (pg_folded d) (pg_versions d) (pg_events d) (pg_pending d) (pg_intents d) (pg_dlq d) m.

(** * Transactions *)

#[export] Instance errs_tx : TxErr errs := [ErrStore].

Abbreviation PgState := (DbState Pg).
Abbreviation mkPgState := (@mkDbState Pg).
Abbreviation Tx := (PgTx.Tx Pg errs).

Section Store.
#[local] Open Scope tx_scope.
(** [faults] says what happens to the n-th statement, [new_id] which id is drawn
    for it, [payload] is the JSON of an alert. *)
Context (faults : nat → fault) (new_id : nat → string) (payload : string → N → string → string).

#[local] Abbreviation stmt := (PgTx.stmt faults).
#[local] Abbreviation query := (PgTx.query faults).
#[local] Abbreviation write := (PgTx.write faults).

(** [withTenantTx]: begin, set the tenant, run, commit; roll back on an error. *)
Definition withTenantTx {A} (tenant : string) (operation : Tx A) (s : PgState) : (errs + A) * PgState :=
  run_tx faults tenant operation s.

(** * Statements *)

Definition participants (d : Pg) (k : Key) : gset string :=
  set_map snd (filter (λ kp : Key * string, kp.1 = k) (dom (pg_folded d))).

(** [loadFold]: the head row, then the participants. *)
Definition loadFold (key : Key) : Tx Fold :=
  row <- query (λ d, pg_heads d !! key) ;;
  match row with
  | None => tx_ret (mkFold (k_TenantID key) (k_InteractionID key) 0 (mkEI "" "" "") ∅ "")
  | Some h =>
      let prov := default "" (hd_provenance h) in
      if (0 <? hd_version h)%N then
        match hd_event h, hd_hash h with
        | Some e, Some hash =>
            ps <- query (λ d, participants d key) ;;
            tx_ret (mkFold (k_TenantID key) (k_InteractionID key) (hd_version h) (mkEI e hash "") ps prov)
        | _, _ => tx_fail [ErrInvalid]
        end
      else
        ps <- query (λ d, participants d key) ;;
        tx_ret (mkFold (k_TenantID key) (k_InteractionID key) (hd_version h) (mkEI "" "" "") ps prov)
  end.

(** [lockHead]: insert the row unless it exists, then lock and read it. *)
Definition lockHead (key : Key) : Tx N :=
  write (k_TenantID key) (λ _, true)
    (λ d, match pg_heads d !! key with
          | Some _ => d
          | None => set_heads (<[key := mkHeadRow 0 None None None None None]> (pg_heads d)) d
          end) ;;;
  row <- query (λ d, pg_heads d !! key) ;;
  match row with Some h => tx_ret (hd_version h) | None => tx_fail [ErrStore] end.

Definition pending : string := "pending".

Definition lockIntentAndHead (intent : Intent) : Tx bool :=
  current <- lockHead (in_Key intent) ;;
  if negb (current =? in_ObservedVersion intent)%N then tx_ret false
  else query (λ d, match pg_intents d !! (k_TenantID (in_Key intent), in_Token intent) with
                   | Some r => bool_decide (ri_interaction r = k_InteractionID (in_Key intent))
                               && (ri_observed r =? in_ObservedVersion intent)%N
                               && bool_decide (ri_status r = pending)
                   | None => false
                   end).

(** UNIQUE (tenant_id, interaction_id, aggregate_version) of the event ledger and
    of the pending inputs. *)
Definition event_version_used (d : Pg) (t i : string) (v : N) : bool :=
  bool_decide (map_Exists (λ k r, k.1 = t ∧ el_interaction r = i ∧ el_version r = v) (pg_events d)).
Definition pending_version_used (d : Pg) (t i : string) (v : N) : bool :=
  bool_decide (map_Exists (λ k r, k.1 = t ∧ pi_interaction r = i ∧ pi_version r = v) (pg_pending d)).

Definition insert_version (k : Key) (v : N) (row : VersionRow) : Tx unit :=
  write (k_TenantID k)
    (λ d, bigint v && (0 <? v)%N && bool_decide (pg_versions d !! (k, v) = None))
    (λ d, set_versions (<[(k, v) := row]> (pg_versions d)) d).

Definition insert_event (k : Key) (v : N) (event hash : string) : Tx unit :=
  write (k_TenantID k)
    (λ d, bigint v && (0 <? v)%N && bool_decide (pg_events d !! (k_TenantID k, event) = None)
          && negb (event_version_used d (k_TenantID k) (k_InteractionID k) v))
    (λ d, set_events (<[(k_TenantID k, event) := mkEventRow (k_InteractionID k) v hash]> (pg_events d)) d).

Definition insertLedgers (record : PRecord) (source : string) : Tx unit :=
  let body := if decide (source = "snapshot") then None else Some (ei_Body (r_Identity record)) in
  let id := r_Identity record in
  insert_version (record_key record) (record_version record)
    (mkVersionRow (ei_EventID id) (ei_Hash id) body source) ;;;
  insert_event (record_key record) (record_version record) (ei_EventID id) (ei_Hash id).

(** One iteration of [installRecords]. *)
Definition install_record (record : PRecord) : Tx unit :=
  let k := record_key record in
  let c := r_Command record in
  insertLedgers record "command" ;;;
  if decide (pc_DesiredState c = ASSIGNED) then
    write (k_TenantID k) (λ _, bigint (record_version record) && (0 <? record_version record)%N)
      (λ d, set_folded (<[(k, pc_ParticipantId c) :=
               mkFoldedRow (record_version record) (pc_EventId c) (ei_Hash (r_Identity record))]> (pg_folded d)) d)
  else
    write (k_TenantID k) (λ _, true) (λ d, set_folded (delete (k, pc_ParticipantId c) (pg_folded d)) d).

Fixpoint install_records (records : list PRecord) : Tx unit :=
  match records with
  | [] => tx_ret tt
  | r :: rs => install_record r ;;; install_records rs
  end.

Definition key_of_fold (f : Fold) : Key := mkKey (f_TenantID f) (f_InteractionID f).

Definition installRecords (records : list PRecord) (final : Fold) : Tx unit :=
  install_records records ;;;
  write (f_TenantID final)
    (λ _, bigint (f_Version final) && (0 <? f_Version final)%N)
    (λ d, set_heads (alter (λ _, mkHeadRow (f_Version final) (Some (ei_EventID (f_Identity final)))
                                   (Some (ei_Hash (f_Identity final))) None None None)
                       (key_of_fold final) (pg_heads d)) d).

Definition completeReconcile (intent : Intent) (intentStatus pendingStatus : string) : Tx unit :=
  let t := k_TenantID (in_Key intent) in
  write t (λ _, true)
    (λ d, set_intents (alter (λ r, if decide (ri_status r = pending)
        then mkIntentRow (ri_interaction r) (ri_observed r) (ri_from r) (ri_to r) (ri_held_event r)
               (ri_held_hash r) intentStatus else r) (t, in_Token intent) (pg_intents d)) d) ;;;
  write t (λ _, true)
    (λ d, set_pending (alter (λ r, if decide (pi_status r = pending)
        then mkPendingRow (pi_interaction r) (pi_version r) (pi_hash r) (pi_body r) (pi_attempts r) pendingStatus
        else r) (t, ei_EventID (in_Held intent)) (pg_pending d)) d).

Definition known_reason (reason : string) : bool :=
  bool_decide (reason ∈ ["DIVERGENT_HISTORY"; "UNKNOWN_STALE_HISTORY"; "RECONCILE_EXHAUSTED"]).

Definition audited_already (m : gmap (string * string) AuditRow) (t i e reason : string) : bool :=
  bool_decide (map_Exists (λ k r, k.1 = t ∧ au_interaction r = i ∧ au_event r = e ∧ au_reason r = reason) m).

(** An audit insert: ON CONFLICT on the natural key does nothing; a clash of the
    generated primary key is an error. *)
Definition insert_audit_row (get : Pg → gmap (string * string) AuditRow)
    (set : gmap (string * string) AuditRow → Pg → Pg) (k : Key) (row : AuditRow) : Tx unit :=
  λ t d n,
    let id := (k_TenantID k, new_id n) in
    let dup := audited_already (get d) (k_TenantID k) (au_interaction row) (au_event row) (au_reason row) in
    write (k_TenantID k)
      (λ _, known_reason (au_reason row) && bigint (au_version row) && (dup || bool_decide (get d !! id = None)))
      (λ d', if dup then d' else set (<[id := row]> (get d')) d') t d n.

Definition insertAudit (intent : Intent) (record : PRecord) (reason : string) : Tx unit :=
  let k := in_Key intent in
  let event := ei_EventID (r_Identity record) in
  let v := record_version record in
  let token := if decide (in_Token intent = "") then None else Some (in_Token intent) in
  insert_audit_row pg_dlq set_dlq k
    (mkAuditRow token (k_InteractionID k) event reason v (ei_Body (r_Identity record))) ;;;
  insert_audit_row pg_alerts set_alerts k
    (mkAuditRow token (k_InteractionID k) event reason v (payload event v reason)).

(** * The store's operations *)

Definition Load (key : Key) (version : N) : PgState → (errs + (Fold * option EventIdentity)) * PgState :=
  withTenantTx (k_TenantID key)
    (fold <- loadFold key ;;
     if (version =? 0)%N then tx_ret (fold, None)
     else if negb (bigint version) then tx_fail [ErrStore]
     else
       row <- query (λ d, pg_versions d !! (key, version)) ;;
       tx_ret (fold, match row with
                     | None => None
                     | Some r => if String.length (vl_hash r) =? 32
                                 then Some (mkEI (vl_event r) (vl_hash r) (default "" (vl_body r))) else None
                     end)).

Definition Install (expected : N) (records : list PRecord) (final : Fold) : PgState → (errs + bool) * PgState :=
  withTenantTx (f_TenantID final)
    (current <- lockHead (key_of_fold final) ;;
     if negb (current =? expected)%N then tx_ret false
     else installRecords records final ;;; tx_ret true).

(** The pending intent of an interaction; a partial unique index allows one. *)
Definition pending_intent (d : Pg) (k : Key) : option ((string * string) * IntentRow) :=
  head (filter (λ p : (string * string) * IntentRow,
                  p.1.1 = k_TenantID k ∧ ri_interaction p.2 = k_InteractionID k ∧ ri_status p.2 = pending)
          (map_to_list (pg_intents d))).

(** INSERT ... ON CONFLICT DO NOTHING; whether a row was inserted. *)
Definition insert_pending (k : Key) (held : PRecord) : Tx bool :=
  let id := r_Identity held in
  let v := record_version held in
  stmt (λ t d,
    if negb (bool_decide (t = k_TenantID k) && bigint v && (0 <? v)%N) then (inl [ErrStore], d)
    else if bool_decide (is_Some (pg_pending d !! (t, ei_EventID id)))
            || pending_version_used d t (k_InteractionID k) v then (inr false, d)
    else (inr true, set_pending (<[(t, ei_EventID id) :=
                      mkPendingRow (k_InteractionID k) v (ei_Hash id) (ei_Body id) 0 pending]> (pg_pending d)) d)).

Definition insert_intent (intent : Intent) (held : PRecord) : Tx bool :=
  let k := in_Key intent in
  stmt (λ t d,
    if negb (bool_decide (t = k_TenantID k) && bigint (in_ObservedVersion intent) && bigint (in_RequestedFrom intent)
             && bigint (in_RequestedTo intent) && (0 <? in_RequestedFrom intent)%N
             && (in_RequestedFrom intent <=? in_RequestedTo intent)%N) then (inl [ErrStore], d)
    else if bool_decide (is_Some (pg_intents d !! (t, in_Token intent)))
            || bool_decide (is_Some (pending_intent d k)) then (inr false, d)
    else (inr true, set_intents (<[(t, in_Token intent) :=
                      mkIntentRow (k_InteractionID k) (in_ObservedVersion intent) (in_RequestedFrom intent)
                        (in_RequestedTo intent) (ei_EventID (r_Identity held)) (ei_Hash (r_Identity held))
                        pending]> (pg_intents d)) d)).

Definition BeginReconcile (intent : Intent) (held : PRecord) : PgState → (errs + (Intent * bool)) * PgState :=
  let k := in_Key intent in
  withTenantTx (k_TenantID k)
    (current <- lockHead k ;;
     if negb (current =? in_ObservedVersion intent)%N then tx_ret (intent, false)
     else
       row <- query (λ d, pending_intent d k) ;;
       match row with
       | Some (id, r) =>
           if negb (ri_observed r =? in_ObservedVersion intent)%N
              || negb (bool_decide (ri_held_event r = ei_EventID (r_Identity held)))
              || negb (bool_decide (ri_held_hash r = ei_Hash (r_Identity held)))
           then tx_fail [ErrDivergentHistory]
           else tx_ret (mkIntent id.2 k (ri_observed r) (ri_from r) (ri_to r) (in_Held intent), true)
       | None =>
           inserted <- insert_pending k held ;;
           if negb inserted then tx_ret (intent, false)
           else
             started <- insert_intent intent held ;;
             tx_ret (intent, started)
       end).

Definition InstallReconcile (intent : Intent) (records : list PRecord) (final : Fold) :
    PgState → (errs + bool) * PgState :=
  withTenantTx (k_TenantID (in_Key intent))
    (ok <- lockIntentAndHead intent ;;
     if negb ok then tx_ret false
     else
       installRecords records final ;;;
       completeReconcile intent "installed" "installed" ;;;
       tx_ret true).

Definition InstallHistorical (intent : Intent) (record : PRecord) : PgState → (errs + bool) * PgState :=
  withTenantTx (k_TenantID (in_Key intent))
    (ok <- lockIntentAndHead intent ;;
     if negb ok then tx_ret false
     else
       insertLedgers record "command" ;;;
       completeReconcile intent "installed" "installed" ;;;
       tx_ret true).

(** The inserts of a snapshot's participants, in the order of the map's iteration. *)
Fixpoint insert_participants (k : Key) (row : FoldedRow) (ps : list string) : Tx unit :=
  match ps with
  | [] => tx_ret tt
  | p :: ps' =>
      write (k_TenantID k)
        (λ d, bigint (fp_version row) && (0 <? fp_version row)%N && bool_decide (pg_folded d !! (k, p) = None))
        (λ d, set_folded (<[(k, p) := row]> (pg_folded d)) d) ;;;
      insert_participants k row ps'
  end.

Definition InstallSnapshot (intent : Intent) (snapshot : FoldSnapshot) (held : PRecord) :
    PgState → (errs + bool) * PgState :=
  let k := in_Key intent in
  let f := sn_Fold snapshot in
  let event := ei_EventID (f_Identity f) in
  let hash := ei_Hash (f_Identity f) in
  withTenantTx (k_TenantID k)
    (ok <- lockIntentAndHead intent ;;
     if negb ok then tx_ret false
     else
       write (k_TenantID k) (λ _, true)
         (λ d, set_folded (filter (λ kv : (Key * string) * FoldedRow, kv.1.1 ≠ k) (pg_folded d)) d) ;;;
       insert_participants k (mkFoldedRow (f_Version f) event hash) (elements (f_Participants f)) ;;;
       insert_version k (f_Version f) (mkVersionRow event hash None "snapshot") ;;;
       insert_event k (f_Version f) event hash ;;;
       write (k_TenantID k) (λ _, bigint (f_Version f) && (0 <? f_Version f)%N)
         (λ d, set_heads (alter (λ h, if (hd_version h =? in_ObservedVersion intent)%N
                 then mkHeadRow (f_Version f) (Some event) (Some hash) (Some event) (Some hash)
                        (Some (sn_Provenance snapshot))
                 else h) k (pg_heads d)) d) ;;;
       insertAudit intent held "UNKNOWN_STALE_HISTORY" ;;;
       completeReconcile intent "audited" "dlq" ;;;
       tx_ret true).

Definition RecordPoison (record : PRecord) (reason : string) : PgState → (errs + unit) * PgState :=
  let intent := mkIntent "" (record_key record) 0 0 0 (mkEI "" "" "") in
  withTenantTx (k_TenantID (in_Key intent)) (insertAudit intent record reason).

(** Changes to the pending input that is held. *)
Definition update_pending (k : Key) (event : string) (attempts : Z) (status : string) : Tx unit :=
  write (k_TenantID k) (λ _, true)
    (λ d, set_pending (alter (λ r, if decide (pi_status r = pending)
        then mkPendingRow (pi_interaction r) (pi_version r) (pi_hash r) (pi_body r) attempts status
        else r) (k_TenantID k, event) (pg_pending d)) d).

Definition FailReconcile (intent : Intent) (held : PRecord) : PgState → (errs + bool) * PgState :=
  let k := in_Key intent in
  let event := ei_EventID (r_Identity held) in
  withTenantTx (k_TenantID k)
    (ok <- lockIntentAndHead intent ;;
     if negb ok then tx_ret false
     else
       row <- query (λ d, pg_pending d !! (k_TenantID k, event)) ;;
       match row with
       | None => tx_fail [ErrStore]
       | Some r =>
           if negb (bool_decide (pi_status r = pending)) then tx_fail [ErrStore]
           else
             let attempts := (pi_attempts r + 1)%Z in
             if (attempts <? 3)%Z then update_pending k event attempts pending ;;; tx_ret false
             else
               insertAudit intent held "RECONCILE_EXHAUSTED" ;;;
               update_pending k event attempts "dlq" ;;;
               write (k_TenantID k) (λ _, true)
                 (λ d, set_intents (alter (λ r, if decide (ri_status r = pending)
                     then mkIntentRow (ri_interaction r) (ri_observed r) (ri_from r) (ri_to r)
                            (ri_held_event r) (ri_held_hash r) "audited" else r)
                     (k_TenantID k, in_Token intent) (pg_intents d)) d) ;;;
               tx_ret true
       end).

#[export] Instance pg_store : PStore PgState := {
  ps_Load := Load;
  ps_Install := Install;
  ps_BeginReconcile := BeginReconcile;
  ps_InstallReconcile := InstallReconcile;
  ps_InstallHistorical := InstallHistorical;
  ps_InstallSnapshot := InstallSnapshot;
  ps_FailReconcile := FailReconcile;
  ps_RecordPoison := RecordPoison;
}.
End Store.
