(* ===== verification/ParticipationPgOK.v ===== *)
(** The PostgreSQL store keeps the contract of [DesiredTheorems]: its view is the
    head row with the folded participants and the version ledger; a transaction
    does all of an operation or nothing, and a lost commit acknowledgement is an
    error after all of it. *)

From S2P Require Import Prelude Wire Subjects Trace PgTx DesiredParticipation DesiredTheorems ParticipationPg ParticipationConsumer.

Lemma withTenantTx_ok {A} faults t (m : Tx A) s r s' Q :
  withTenantTx faults t m s = (r, s') → tx_ok t m (st_db s) Q →
  (∃ e, r = inl e ∧ st_db s' = st_db s) ∨
  ∃ a, Q a (st_db s') ∧ (r = inr a ∨ ∃ e, r = inl e).
Proof. apply run_tx_ok. Qed.

(** * The view of a database *)

Definition no_head : HeadRow := mkHeadRow 0 None None None None None.
Definition head_of (d : Pg) (k : Key) : HeadRow := default no_head (pg_heads d !! k).

Definition db_fold (d : Pg) (k : Key) : Fold :=
  let h := head_of d k in
  mkFold (k_TenantID k) (k_InteractionID k) (hd_version h)
    (if (0 <? hd_version h)%N then mkEI (default "" (hd_event h)) (default "" (hd_hash h)) "" else mkEI "" "" "")
    (participants d k) (default "" (hd_provenance h)).

Definition row_identity (r : VersionRow) : EventIdentity :=
  mkEI (vl_event r) (vl_hash r) (default "" (vl_body r)).

Definition db_ledger (d : Pg) (k : Key) (v : N) : option EventIdentity := row_identity <$> pg_versions d !! (k, v).

(** Participants belong to an interaction with a head; a head past version 0 has
    its event; versions are bigints. *)
Definition pg_wf (d : Pg) : Prop :=
  (∀ k p, is_Some (pg_folded d !! (k, p)) → is_Some (pg_heads d !! k)) ∧
  (∀ k h, pg_heads d !! k = Some h → bigint (hd_version h) = true ∧
     ((0 < hd_version h)%N → is_Some (hd_event h) ∧ is_Some (hd_hash h))).

Lemma elem_of_participants d k p : p ∈ participants d k ↔ is_Some (pg_folded d !! (k, p)).
Proof.
  unfold participants. rewrite elem_of_map. split.
  - intros ([k' p'] & -> & Hp). apply elem_of_filter in Hp as [<- Hp]. by apply elem_of_dom in Hp.
  - intros Hp. exists (k, p). split; [done|]. apply elem_of_filter. split; [done|]. by apply elem_of_dom.
Qed.

(** Statements that touch neither the view nor its invariant. *)
Definition quiet (d d' : Pg) : Prop :=
  (∀ k, head_of d' k = head_of d k) ∧
  (∀ k, is_Some (pg_heads d !! k) → is_Some (pg_heads d' !! k)) ∧
  pg_folded d' = pg_folded d ∧ pg_versions d' = pg_versions d.

#[export] Instance quiet_preorder : PreOrder quiet.
Proof.
  split; [done|]. intros d1 d2 d3 (H1 & H2 & H3 & H4) (H5 & H6 & H7 & H8).
  split_and!; [intros k; by rewrite H5|auto|congruence|congruence].
Qed.

Lemma quiet_pending m d : quiet d (set_pending m d).
Proof. by split_and!. Qed.
Lemma quiet_intents m d : quiet d (set_intents m d).
Proof. by split_and!. Qed.
Lemma quiet_events m d : quiet d (set_events m d).
Proof. by split_and!. Qed.
Lemma quiet_dlq m d : quiet d (set_dlq m d).
Proof. by split_and!. Qed.
Lemma quiet_alerts m d : quiet d (set_alerts m d).
Proof. by split_and!. Qed.
#[export] Hint Resolve quiet_pending quiet_intents quiet_events quiet_dlq quiet_alerts : tx.
#[export] Hint Extern 1 (quiet ?d ?d) => reflexivity : tx.

Lemma quiet_wf d d' : quiet d d' → pg_wf d → pg_wf d'.
Proof.
  intros (Hh & Hs & Hf & _) [H1 H2]. split.
  - intros k p. rewrite Hf. eauto.
  - intros k h Hk. specialize (Hh k). unfold head_of in Hh. rewrite Hk in Hh. simpl in Hh. subst h.
    destruct (pg_heads d !! k) as [h|] eqn:E; simpl; [by apply (H2 k)|]. done.
Qed.

Lemma quiet_fold d d' k : quiet d d' → db_fold d' k = db_fold d k.
Proof. intros (Hh & _ & Hf & _). unfold db_fold, participants. by rewrite Hh, Hf. Qed.

Lemma quiet_ledger d d' k v : quiet d d' → db_ledger d' k v = db_ledger d k v.
Proof. intros (_ & _ & _ & Hv). unfold db_ledger. by rewrite Hv. Qed.

Section Ops.
Context (faults : nat → fault) (new_id : nat → string) (payload : string → N → string → string).
Context (t : string).

Lemma lockHead_ok k d :
  tx_ok t (lockHead faults k) d
    (λ v d', v = hd_version (head_of d k) ∧ quiet d d' ∧ is_Some (pg_heads d' !! k)).
Proof.
  unfold lockHead. do 2 tx_step. destruct (pg_heads d !! k) as [h|] eqn:E.
  - do 2 tx_step. rewrite E. tx_step. split_and!; [unfold head_of; by rewrite E|done|]. by rewrite E.
  - do 2 tx_step. simpl. rewrite lookup_insert_eq. tx_step. split_and!.
    + unfold head_of. by rewrite E.
    + split_and!; [| |done..].
      * intros k'. unfold head_of. simpl. destruct (decide (k' = k)) as [->|?].
        -- by rewrite lookup_insert_eq, E.
        -- by rewrite lookup_insert_ne.
      * intros k' Hk'. simpl. apply lookup_insert_is_Some'. by right.
    + simpl. by rewrite lookup_insert_eq.
Qed.

Lemma lockIntentAndHead_ok intent d :
  tx_ok t (lockIntentAndHead faults intent) d
    (λ ok d', quiet d d' ∧ is_Some (pg_heads d' !! in_Key intent) ∧
       (ok = true → hd_version (head_of d (in_Key intent)) = in_ObservedVersion intent)).
Proof.
  unfold lockIntentAndHead. tx_step. eapply tx_ok_mono; [apply lockHead_ok|]. intros v d1 (-> & Hq & Hs). simpl.
  case_match eqn:Hv; tx_step; [done|]. split_and!; [done|done|]. intros _.
  by apply negb_false_iff, N.eqb_eq in Hv.
Qed.

(** A quiet transaction after a quiet one. *)
Lemma tx_quiet_then {A B} (m : Tx A) (k : A → Tx B) d Q :
  tx_ok t m d (λ _ d', quiet d d') → (∀ a d', quiet d d' → tx_ok t (k a) d' Q) → tx_ok t (tx_bind m k) d Q.
Proof. intros H Hk. apply tx_ok_bind. by eapply tx_ok_mono. Qed.

Lemma completeReconcile_ok intent a b d :
  tx_ok t (completeReconcile faults intent a b) d (λ _ d', quiet d d').
Proof. unfold completeReconcile. do 3 tx_step. etrans; [apply quiet_intents|apply quiet_pending]. Qed.

Lemma insert_audit_row_ok get set k row d :
  (∀ m d, quiet d (set m d)) →
  tx_ok t (insert_audit_row faults new_id get set k row) d (λ _ d', quiet d d').
Proof.
  intros Hq n. unfold insert_audit_row. refine (tx_ok_write faults t _ _ _ d (λ _ d', quiet d d') _ n).
  intros _ _. case_match; auto with tx.
Qed.

Lemma insertAudit_ok intent rec reason d :
  tx_ok t (insertAudit faults new_id payload intent rec reason) d (λ _ d', quiet d d').
Proof.
  unfold insertAudit. apply tx_quiet_then; [apply insert_audit_row_ok; auto with tx|]. intros ? d1 Hq.
  eapply tx_ok_mono; [apply insert_audit_row_ok; auto with tx|]. intros ? d2 ?. by etrans.
Qed.

Lemma update_pending_ok k e a st d : tx_ok t (update_pending faults k e a st) d (λ _ d', quiet d d').
Proof. unfold update_pending. tx_step. auto with tx. Qed.

(** ** The ledgers and the installs *)

Lemma insertLedgers_ok rec d :
  tx_ok t (insertLedgers faults rec "command") d
    (λ _ d', pg_heads d' = pg_heads d ∧ pg_folded d' = pg_folded d ∧
       pg_versions d !! (record_key rec, record_version rec) = None ∧
       pg_versions d' = <[(record_key rec, record_version rec) :=
         mkVersionRow (ei_EventID (r_Identity rec)) (ei_Hash (r_Identity rec))
           (Some (ei_Body (r_Identity rec))) "command"]> (pg_versions d)).
Proof.
  unfold insertLedgers, insert_version, insert_event. tx_step.
  apply tx_ok_write; intros _ Hok. tx_step. simpl.
  apply andb_true_iff in Hok as [_ Hok%bool_decide_eq_true]. done.
Qed.

(** What installing records does to the ledger and to the rows. *)
Definition ledger_entered (k : Key) (rs : list PRecord) (d d' : Pg) : Prop :=
  (∀ r, r ∈ rs → db_ledger d k (record_version r) = None) ∧
  (∀ v, db_ledger d' k v = with_records rs (db_ledger d k) v) ∧
  (∀ k' v, k' ≠ k → pg_versions d' !! (k', v) = pg_versions d !! (k', v)).

Lemma ledger_entered_one k rec d d' :
  record_key rec = k → pg_versions d !! (k, record_version rec) = None →
  pg_versions d' = <[(k, record_version rec) :=
     mkVersionRow (ei_EventID (r_Identity rec)) (ei_Hash (r_Identity rec))
       (Some (ei_Body (r_Identity rec))) "command"]> (pg_versions d) →
  ledger_entered k [rec] d d'.
Proof.
  intros Hk Hn Hd. unfold ledger_entered, db_ledger, with_records. rewrite Hd. simpl. split_and!.
  - intros r ->%list_elem_of_singleton. by rewrite Hn.
  - intros v. destruct (decide (v = record_version rec)) as [->|?].
    + rewrite lookup_insert_eq. simpl. unfold row_identity. simpl. by destruct (r_Identity rec).
    + rewrite lookup_insert_ne by congruence. done.
  - intros k' v ?. rewrite lookup_insert_ne by congruence. done.
Qed.

Lemma ledger_entered_nil k d d' : pg_versions d' = pg_versions d → ledger_entered k [] d d'.
Proof.
  intros H. unfold ledger_entered, db_ledger. rewrite H. split_and!; [by intros r ?%elem_of_nil|done|done].
Qed.

Lemma ledger_entered_cons k r rs d d1 d' :
  ledger_entered k [r] d d1 → ledger_entered k rs d1 d' → ledger_entered k (r :: rs) d d'.
Proof.
  intros (H1 & H2 & H3) (H4 & H5 & H6). split_and!.
  - intros r' [->|Hr]%elem_of_cons; [apply H1; by left|]. specialize (H4 _ Hr). rewrite H2 in H4.
    unfold with_records in H4. simpl in H4. by case_decide.
  - intros v. rewrite H5. change (r :: rs) with ([r] ++ rs). unfold with_records at 2. rewrite foldl_app.
    apply with_records_ext. apply H2.
  - intros k' v Hne. rewrite H6 by done. by apply H3.
Qed.

Lemma foldRecords_cons f r rs : foldRecords f (r :: rs) = fold_record f r ≫= λ f', foldRecords f' rs.
Proof.
  unfold foldRecords. simpl. destruct (fold_record f r) as [f'|]; simpl; [done|].
  induction rs as [|r' rs IH]; simpl; [done|]. apply IH.
Qed.

(** Rows of other interactions are as they were. *)
Definition folded_elsewhere (k : Key) (d d' : Pg) : Prop :=
  ∀ k' p, k' ≠ k → pg_folded d' !! (k', p) = pg_folded d !! (k', p).

Lemma install_record_ok k rec f f' d :
  record_key rec = k → fold_record f rec = Some f' → participants d k = f_Participants f →
  tx_ok t (install_record faults rec) d
    (λ _ d', pg_heads d' = pg_heads d ∧ ledger_entered k [rec] d d' ∧ folded_elsewhere k d d' ∧
       participants d' k = f_Participants f').
Proof.
  intros Hk Hf Hp. apply fold_record_Some in Hf as (_ & _ & _ & _ & _ & Hps).
  unfold install_record. rewrite Hk. tx_step.
  eapply tx_ok_mono; [apply insertLedgers_ok|]. rewrite Hk. intros _ d1 (Hh & Hfd & Hn & Hv).
  pose proof (ledger_entered_one k rec d d1 Hk Hn Hv) as Hl.
  case_decide as Has; tx_step; simpl; (split_and!; [done|exact Hl| |]).
  - intros k' p Hne. simpl. rewrite lookup_insert_ne by congruence. by rewrite Hfd.
  - apply set_eq. intros p. rewrite elem_of_participants, Hps. simpl. rewrite Hfd.
    case_decide as Hd.
    + subst p. rewrite lookup_insert_eq. by split.
    + rewrite lookup_insert_ne by congruence. by rewrite <-Hp, elem_of_participants.
  - intros k' p Hne. simpl. rewrite lookup_delete_ne by congruence. by rewrite Hfd.
  - apply set_eq. intros p. rewrite elem_of_participants, Hps. simpl. rewrite Hfd.
    case_decide as Hd.
    + subst p. rewrite lookup_delete_eq. split; [by intros [? ?]|intros ?; done].
    + rewrite lookup_delete_ne by congruence. by rewrite <-Hp, elem_of_participants.
Qed.

Lemma install_records_ok k rs f final d :
  Forall (λ r, record_key r = k) rs → foldRecords f rs = Some final → participants d k = f_Participants f →
  tx_ok t (install_records faults rs) d
    (λ _ d', pg_heads d' = pg_heads d ∧ ledger_entered k rs d d' ∧ folded_elsewhere k d d' ∧
       participants d' k = f_Participants final).
Proof.
  revert f d. induction rs as [|r rs IH]; intros f d Hall Hf Hp; simpl.
  { injection Hf as <-. tx_step. split_and!; [done|by apply ledger_entered_nil|done|done]. }
  apply Forall_cons in Hall as [Hr Hall]. rewrite foldRecords_cons in Hf.
  destruct (fold_record f r) as [f1|] eqn:Hf1; [|done]. simpl in Hf. tx_step.
  eapply tx_ok_mono; [by eapply install_record_ok|]. intros _ d1 (Hh1 & Hl1 & He1 & Hp1).
  eapply tx_ok_mono; [by apply (IH f1)|]. intros _ d2 (Hh2 & Hl2 & He2 & Hp2). split_and!.
  - congruence.
  - by eapply ledger_entered_cons.
  - intros k' p Hne. rewrite He2 by done. by apply He1.
  - done.
Qed.

(** The effect of an install of records on interaction [k]. *)
Definition records_installed (k : Key) (rs : list PRecord) (final : Fold) (d d' : Pg) : Prop :=
  ledger_entered k rs d d' ∧ (∀ k', k' ≠ k → db_fold d' k' = db_fold d k') ∧ db_fold d' k = strip final ∧
  pg_wf d'.

Lemma wf_after k d d' h :
  pg_wf d → is_Some (pg_heads d !! k) → folded_elsewhere k d d' → pg_heads d' = <[k := h]> (pg_heads d) →
  bigint (hd_version h) = true → is_Some (hd_event h) ∧ is_Some (hd_hash h) → pg_wf d'.
Proof.
  intros [H1 H2] Hk He Hh Hb Hs. split.
  - intros k' p Hp. rewrite Hh, lookup_insert_is_Some'. destruct (decide (k' = k)) as [->|Hne]; [by left|].
    right. rewrite He in Hp by done. by apply (H1 _ p).
  - intros k' h' Hk'. rewrite Hh in Hk'. apply lookup_insert_Some in Hk' as [[<- <-]|[? Hk']]; [done|].
    by apply (H2 k').
Qed.

Lemma folds_elsewhere k d d' h :
  folded_elsewhere k d d' → pg_heads d' = <[k := h]> (pg_heads d) →
  ∀ k', k' ≠ k → db_fold d' k' = db_fold d k'.
Proof.
  intros He Hh k' Hne. unfold db_fold, head_of. rewrite Hh, lookup_insert_ne by done. f_equal.
  apply set_eq. intros p. rewrite !elem_of_participants. by rewrite He.
Qed.

Lemma alter_insert k (m : gmap Key HeadRow) (g : HeadRow → HeadRow) x :
  m !! k = Some x → alter g k m = <[k := g x]> m.
Proof. intros Hx. apply map_eq. intros i. destruct (decide (i = k)) as [->|?].
  - by rewrite lookup_alter_eq, lookup_insert_eq, Hx.
  - by rewrite lookup_alter_ne, lookup_insert_ne.
Qed.

Lemma installRecords_ok k rs f final d :
  pg_wf d → is_Some (pg_heads d !! k) → k = key_of_fold final → rs ≠ [] →
  Forall (λ r, record_key r = k) rs → foldRecords f rs = Some final → participants d k = f_Participants f →
  tx_ok t (installRecords faults rs final) d (λ _ d', records_installed k rs final d d').
Proof.
  intros Hwf [x Hx] Hk Hne Hall Hf Hp. unfold installRecords. tx_step.
  eapply tx_ok_mono; [by eapply install_records_ok|]. intros _ d1 (Hh1 & Hl1 & He1 & Hp1).
  apply tx_ok_write. intros _ Hok. apply andb_true_iff in Hok as [Hb Hpos].
  rewrite <-Hk. rewrite (alter_insert _ _ _ x) by by rewrite Hh1.
  set (h := mkHeadRow _ _ _ _ _ _). set (d2 := set_heads _ _).
  assert (pg_heads d2 = <[k := h]> (pg_heads d)) as Hh2 by (simpl; by rewrite Hh1).
  assert (f_SnapshotProvenance final = "") as Hprov.
  { destruct rs as [|r rs _] using rev_ind; [done|]. rewrite foldRecords_snoc in Hf.
    destruct (foldRecords f rs); [|done]. simpl in Hf. by apply fold_record_Some in Hf as (_ & _ & _ & _ & ? & _). }
  split_and!.
  - exact Hl1.
  - by apply (folds_elsewhere k d d2 h).
  - unfold db_fold, head_of. rewrite Hh2, lookup_insert_eq. simpl. rewrite Hpos.
    change (participants d2 k) with (participants d1 k). rewrite Hp1, Hk. unfold strip. by rewrite Hprov.
  - by apply (wf_after k d d2 h).
Qed.

Lemma insert_participants_ok k row ps d :
  tx_ok t (insert_participants faults k row ps) d
    (λ _ d', pg_heads d' = pg_heads d ∧ pg_versions d' = pg_versions d ∧ folded_elsewhere k d d' ∧
       participants d' k = participants d k ∪ list_to_set ps).
Proof.
  revert d. induction ps as [|p ps IH]; intros d; simpl.
  { tx_step. split_and!; [done|done|done|set_solver]. }
  tx_step. apply tx_ok_write. intros _ _. eapply tx_ok_mono; [apply IH|].
  intros _ d' (Hh & Hv & He & Hp). split_and!; [done|done| |].
  - intros k' p' Hne. rewrite He by done. simpl. by rewrite lookup_insert_ne by congruence.
  - rewrite Hp. apply set_eq. intros p'.
    rewrite !elem_of_union, !elem_of_participants, elem_of_singleton, elem_of_list_to_set. simpl.
    destruct (decide (p' = p)) as [->|?].
    + rewrite lookup_insert_eq. split; intros _; [right; by left|by left].
    + rewrite lookup_insert_ne by congruence. tauto.
Qed.

(** The effect of installing a snapshot on interaction [k]. *)
Definition snapshot_installed (k : Key) (f : Fold) (d d' : Pg) : Prop :=
  db_ledger d k (f_Version f) = None ∧
  (∀ v, db_ledger d' k v = if decide (v = f_Version f) then Some (f_Identity (strip f)) else db_ledger d k v) ∧
  (∀ k' v, k' ≠ k → pg_versions d' !! (k', v) = pg_versions d !! (k', v)) ∧
  (∀ k', k' ≠ k → db_fold d' k' = db_fold d k') ∧ db_fold d' k = strip f ∧ pg_wf d'.

(** The writes of [InstallSnapshot] up to the head, and what follows them. *)
Definition snapshot_writes {B} (intent : Intent) (snapshot : FoldSnapshot) (rest : Tx B) : Tx B :=
  let k := in_Key intent in
  let f := sn_Fold snapshot in
  let event := ei_EventID (f_Identity f) in
  let hash := ei_Hash (f_Identity f) in
  tx_bind (write faults (k_TenantID k) (λ _, true)
     (λ d, set_folded (filter (λ kv : (Key * string) * FoldedRow, kv.1.1 ≠ k) (pg_folded d)) d)) (λ _,
  tx_bind (insert_participants faults k (mkFoldedRow (f_Version f) event hash) (elements (f_Participants f))) (λ _,
  tx_bind (insert_version faults k (f_Version f) (mkVersionRow event hash None "snapshot")) (λ _,
  tx_bind (insert_event faults k (f_Version f) event hash) (λ _,
  tx_bind (write faults (k_TenantID k) (λ _, bigint (f_Version f) && (0 <? f_Version f)%N)
     (λ d, set_heads (alter (λ h, if (hd_version h =? in_ObservedVersion intent)%N
         then mkHeadRow (f_Version f) (Some event) (Some hash) (Some event) (Some hash)
                (Some (sn_Provenance snapshot))
         else h) k (pg_heads d)) d)) (λ _, rest))))).

Lemma snapshot_writes_ok {B} intent snapshot (rest : Tx B) x d Q :
  pg_wf d → pg_heads d !! in_Key intent = Some x → hd_version x = in_ObservedVersion intent →
  in_Key intent = key_of_fold (sn_Fold snapshot) →
  f_SnapshotProvenance (sn_Fold snapshot) = sn_Provenance snapshot →
  (∀ d', snapshot_installed (in_Key intent) (sn_Fold snapshot) d d' → tx_ok t rest d' Q) →
  tx_ok t (snapshot_writes intent snapshot rest) d Q.
Proof.
  set (k := in_Key intent). intros Hwf Hx Hobs Hk Hprov Hrest. unfold snapshot_writes. fold k.
  tx_step. apply tx_ok_write; intros _ _. set (d0 := set_folded _ _). tx_step.
  eapply tx_ok_mono; [apply insert_participants_ok|]. intros _ d1 (Hh1 & Hv1 & He1 & Hp1).
  tx_step. apply tx_ok_write; intros _ Hok. tx_step. apply tx_ok_write; intros _ _. tx_step. apply tx_ok_write; intros _ Hok'.
  apply Hrest. clear Hrest.
  apply andb_true_iff in Hok as [_ Hnone%bool_decide_eq_true]. apply andb_true_iff in Hok' as [Hb Hpos].
  rewrite (alter_insert _ _ _ x) by (simpl; by rewrite Hh1). rewrite Hobs, N.eqb_refl.
  set (h := mkHeadRow _ _ _ _ _ _). set (d2 := set_heads _ _).
  assert (pg_heads d2 = <[k := h]> (pg_heads d)) as Hh2 by (simpl; by rewrite Hh1).
  assert (folded_elsewhere k d d2) as He.
  { intros k' p Hne. change (pg_folded d2) with (pg_folded d1). rewrite He1 by done. simpl.
    destruct (pg_folded d !! (k', p)) as [y|] eqn:E.
    - by apply map_lookup_filter_Some.
    - apply map_lookup_filter_None. by left. }
  rewrite Hv1 in Hnone. change (pg_versions d0) with (pg_versions d) in *. split_and!.
  - unfold db_ledger. by rewrite Hnone.
  - intros v. unfold db_ledger. simpl. rewrite Hv1. case_decide as Hd.
    + subst v. by rewrite lookup_insert_eq.
    + rewrite lookup_insert_ne by congruence. done.
  - intros k' v Hne. simpl. rewrite Hv1. rewrite lookup_insert_ne by congruence. done.
  - by apply (folds_elsewhere k d d2 h).
  - unfold db_fold, head_of. rewrite Hh2, lookup_insert_eq. simpl. rewrite Hpos.
    change (participants d2 k) with (participants d1 k). rewrite Hp1, list_to_set_elements_L.
    assert (participants d0 k = ∅) as ->.
    { apply set_eq. intros p. rewrite elem_of_participants. split; [|by intros ?%elem_of_empty].
      intros [y Hy]. apply map_lookup_filter_Some in Hy as [_ Hy]. done. }
    rewrite union_empty_l_L, Hk. unfold strip. simpl. by rewrite Hprov.
  - by apply (wf_after k d d2 h).
Qed.

Lemma loadFold_ok k d :
  pg_wf d → tx_ok t (loadFold faults k) d (λ f d', d' = d ∧ f = db_fold d k).
Proof.
  intros [H1 H2]. unfold loadFold. do 2 tx_step. unfold db_fold, head_of.
  destruct (pg_heads d !! k) as [h|] eqn:E; simpl.
  - destruct (0 <? hd_version h)%N eqn:Hpos.
    + destruct (H2 k h E) as [_ [[e He] [x Hx]]]; [by apply N.ltb_lt|]. rewrite He, Hx.
      do 3 tx_step. done.
    + do 3 tx_step. done.
  - tx_step. split; [done|]. f_equal. symmetry. apply set_eq. intros p. rewrite elem_of_participants.
    split; [|by intros ?%elem_of_empty]. intros [? ?]%H1. congruence.
Qed.
End Ops.

(** * The contract *)

Section Contract.
Context (faults : nat → fault) (new_id : nat → string) (payload : string → N → string → string).

(** Nothing of the view changed between two databases. *)
Definition db_same (d d' : Pg) : Prop :=
  pg_wf d' ∧ ∀ k, db_fold d' k = db_fold d k ∧ ∀ v, db_ledger d' k v = db_ledger d k v.

Lemma quiet_same d d' : pg_wf d → quiet d d' → db_same d d'.
Proof.
  intros Hwf Hq. split; [by eapply quiet_wf|]. intros k. split; [by apply quiet_fold|].
  intros v. by apply quiet_ledger.
Qed.

Lemma db_same_refl d : pg_wf d → db_same d d.
Proof. done. Qed.

(** A transaction that answers [false] or nothing has changed nothing; one that
    answers [true] has had effect [E]. *)
Lemma install_tx_ok t m s r s' (E : Pg → Prop) :
  withTenantTx faults t m s = (r, s') → pg_wf (st_db s) →
  tx_ok t m (st_db s) (λ ok d', if ok : bool then pg_wf d' ∧ E d' else db_same (st_db s) d') →
  pg_wf (st_db s') ∧
  ((r ≠ inr true ∧ db_same (st_db s) (st_db s')) ∨ (r ≠ inr false ∧ E (st_db s'))).
Proof.
  intros H Hwf Hm. eapply withTenantTx_ok in H as [(e & -> & ->)|(a & HQ & Hr)]; [| |exact Hm].
  - split; [done|]. left. split; [done|]. by apply db_same_refl.
  - destruct a; destruct HQ as [Hwf' HQ]; (split; [done|]).
    + right. split; [by destruct Hr as [->|[? ->]]|done].
    + left. split; [by destruct Hr as [->|[? ->]]|done].
Qed.

(** A transaction whose effects are all quiet. *)
Lemma quiet_tx_ok {A} t (m : Tx A) s r s' :
  withTenantTx faults t m s = (r, s') → pg_wf (st_db s) →
  tx_ok t m (st_db s) (λ _ d', quiet (st_db s) d') → pg_wf (st_db s') ∧ db_same (st_db s) (st_db s').
Proof.
  intros H Hwf Hm. cut (quiet (st_db s) (st_db s')).
  { intros Hq. split; [by eapply quiet_wf|by apply quiet_same]. }
  eapply withTenantTx_ok in H as [(e & -> & ->)|(a & HQ & Hr)]; [| |exact Hm]; [reflexivity|done].
Qed.

Lemma records_installed_pre k rs final d d1 d' :
  quiet d d1 → records_installed k rs final d1 d' → records_installed k rs final d d'.
Proof.
  intros Hq ((H1 & H2 & H3) & H4 & H5 & H6). pose proof (λ v, quiet_ledger d d1 k v Hq) as Hl.
  destruct Hq as (Hh & Hs & Hf & Hv). split_and!; [split_and!| | |].
  - intros r Hr. rewrite <-Hl. by apply H1.
  - intros v. rewrite H2. by apply with_records_ext.
  - intros k' v Hne. by rewrite H3, Hv.
  - intros k' Hne. rewrite H4 by done. by apply quiet_fold.
  - done.
  - done.
Qed.

Lemma records_installed_post k rs final d d1 d' :
  quiet d1 d' → records_installed k rs final d d1 → records_installed k rs final d d'.
Proof.
  intros Hq ((H1 & H2 & H3) & H4 & H5 & H6).
  split_and!; [split_and!| | |].
  - done.
  - intros v. rewrite (quiet_ledger _ _ k v Hq). apply H2.
  - intros k' v Hne. destruct Hq as (_ & _ & _ & ->). by apply H3.
  - intros k' Hne. rewrite (quiet_fold _ _ k' Hq). by apply H4.
  - by rewrite (quiet_fold _ _ k Hq).
  - by eapply quiet_wf.
Qed.

(** What [records_installed] says of the view. *)
Lemma records_installed_view k rs final d d' :
  records_installed k rs final d d' →
  db_fold d' k = strip final ∧ (∀ r, r ∈ rs → db_ledger d k (record_version r) = None) ∧
  (∀ v, db_ledger d' k v = with_records rs (db_ledger d k) v) ∧
  (∀ k', k' ≠ k → db_fold d' k' = db_fold d k' ∧ ∀ v, db_ledger d' k' v = db_ledger d k' v).
Proof.
  intros ((H1 & H2 & H3) & H4 & H5 & _). split_and!; [done..|]. intros k' Hne. split; [by apply H4|].
  intros v. unfold db_ledger. by rewrite H3.
Qed.

(** ** The operations *)

Lemma pg_Load_ok k v s r s' :
  Load faults k v s = (r, s') → pg_wf (st_db s) →
  st_db s' = st_db s ∧
  ∀ f id, r = inr (f, id) → f = db_fold (st_db s) k ∧
    ∀ i, id = Some i → ∃ j, db_ledger (st_db s) k v = Some j ∧ sameIdentity j i = true.
Proof.
  intros H Hwf. unfold Load in H.
  eapply (withTenantTx_ok _ _ _ _ _ _ (λ x d', d' = st_db s ∧ x.1 = db_fold (st_db s) k ∧
    ∀ i, x.2 = Some i → ∃ j, db_ledger (st_db s) k v = Some j ∧ sameIdentity j i = true)) in H.
  - destruct H as [(e & -> & ->)|([f id] & (-> & Hf & Hi) & Hr)]; [done|]. split; [done|].
    intros f' id' E. destruct Hr as [->|[? ->]]; [|done]. by injection E as <- <-.
  - tx_step. eapply tx_ok_mono; [by apply loadFold_ok|]. intros f d' [-> ->].
    destruct (v =? 0)%N; [by tx_step|]. destruct (negb (bigint v)); [tx_step|].
    do 3 tx_step. split_and!; [done|done|]. intros i. simpl. unfold db_ledger.
    destruct (pg_versions (st_db s) !! (k, v)) as [row|]; [|done]. case_match; [|done]. intros [= <-].
    eexists. split; [done|]. unfold sameIdentity. by rewrite !bool_decide_eq_true_2.
Qed.

Lemma pg_Install_ok expected rs final k f s r s' :
  Install faults expected rs final s = (r, s') → pg_wf (st_db s) → k = key_of_fold final →
  strip f = db_fold (st_db s) k → Forall (λ x, record_key x = k) rs → foldRecords f rs = Some final → rs ≠ [] →
  pg_wf (st_db s') ∧
  ((r ≠ inr true ∧ db_same (st_db s) (st_db s')) ∨
   (r ≠ inr false ∧ f_Version (db_fold (st_db s) k) = expected ∧
    records_installed k rs final (st_db s) (st_db s'))).
Proof.
  intros H Hwf Hk Hf Hall Hfold Hne. unfold Install in H. 
  apply (install_tx_ok _ _ _ _ _ (λ d', f_Version (db_fold (st_db s) k) = expected ∧
    records_installed k rs final (st_db s) d')) in H; [exact H|done|].
  rewrite <-Hk. tx_step. eapply tx_ok_mono; [apply lockHead_ok|]. intros v d1 (-> & Hq & Hs).
  case_match eqn:Hv; [tx_step; by apply quiet_same|]. apply negb_false_iff, N.eqb_eq in Hv.
  tx_step. eapply tx_ok_mono.
  { eapply (installRecords_ok _ _ k rs f); try done; [by eapply quiet_wf|].
    change (f_Participants f) with (f_Participants (strip f)). rewrite Hf. destruct Hq as (_ & _ & Hfd & _).
    unfold db_fold, participants. simpl. by rewrite Hfd. }
  intros ? d2 Hi. tx_step. split; [by destruct Hi as (_ & _ & _ & ?)|]. split; [done|].
  by eapply records_installed_pre.
Qed.

Lemma insert_pending_ok t k held d : tx_ok t (insert_pending faults k held) d (λ _ d', quiet d d').
Proof. apply tx_ok_stmt. destruct (negb _); [done|]. destruct (_ || _); auto with tx. Qed.

Lemma insert_intent_ok t intent held d : tx_ok t (insert_intent faults intent held) d (λ _ d', quiet d d').
Proof. apply tx_ok_stmt. destruct (negb _); [done|]. destruct (_ || _); auto with tx. Qed.

Lemma pg_BeginReconcile_ok intent held s r s' :
  BeginReconcile faults intent held s = (r, s') → pg_wf (st_db s) →
  pg_wf (st_db s') ∧ db_same (st_db s) (st_db s') ∧
  ∀ i, r = inr (i, true) → in_Key i = in_Key intent ∧ in_ObservedVersion i = in_ObservedVersion intent.
Proof.
  intros H Hwf. unfold BeginReconcile in H.
  eapply (withTenantTx_ok _ _ _ _ _ _ (λ x d', quiet (st_db s) d' ∧
    (in_Key x.1 = in_Key intent ∧ in_ObservedVersion x.1 = in_ObservedVersion intent))) in H.
  - destruct H as [(e & -> & ->)|(a & (Hq & Ha) & Hr)]; [done|].
    split_and!; [by eapply quiet_wf|by apply quiet_same|]. intros i ->. by destruct Hr as [[= <-]|[? ?]].
  - tx_step. eapply tx_ok_mono; [apply lockHead_ok|]. intros v d1 (-> & Hq & _).
    case_match; [by tx_step|]. do 2 tx_step. destruct (pending_intent d1 _) as [[id row]|].
    + case_match eqn:Hd; [tx_step|]. apply orb_false_iff in Hd as [Hd _]. apply orb_false_iff in Hd as [Hd _].
      apply negb_false_iff, N.eqb_eq in Hd. tx_step. done.
    + apply tx_quiet_then; [apply insert_pending_ok|]. intros [] d2 Hq2; simpl; [|tx_step; split; [by etrans|done]].
      apply tx_quiet_then; [apply insert_intent_ok|]. intros b d3 Hq3. tx_step. split; [|done].
      etrans; [exact Hq|]. by etrans.
Qed.

Lemma pg_InstallReconcile_ok intent rs final f s r s' :
  InstallReconcile faults intent rs final s = (r, s') → pg_wf (st_db s) →
  in_Key intent = key_of_fold final → strip f = db_fold (st_db s) (in_Key intent) →
  Forall (λ x, record_key x = in_Key intent) rs → foldRecords f rs = Some final → rs ≠ [] →
  pg_wf (st_db s') ∧
  ((r ≠ inr true ∧ db_same (st_db s) (st_db s')) ∨
   (r ≠ inr false ∧ f_Version (db_fold (st_db s) (in_Key intent)) = in_ObservedVersion intent ∧
    records_installed (in_Key intent) rs final (st_db s) (st_db s'))).
Proof.
  intros H Hwf Hk Hf Hall Hfold Hne. unfold InstallReconcile in H. 
  apply (install_tx_ok _ _ _ _ _ (λ d', f_Version (db_fold (st_db s) (in_Key intent)) = in_ObservedVersion intent ∧
    records_installed (in_Key intent) rs final (st_db s) d')) in H; [exact H|done|].
  tx_step. eapply tx_ok_mono; [apply lockIntentAndHead_ok|]. intros [] d1 (Hq & Hs & Hok); simpl;
    [|tx_step; by apply quiet_same].
  tx_step. eapply tx_ok_mono.
  { eapply (installRecords_ok _ _ (in_Key intent) rs f); try done; [by eapply quiet_wf|].
    change (f_Participants f) with (f_Participants (strip f)). rewrite Hf. destruct Hq as (_ & _ & Hfd & _).
    unfold db_fold, participants. simpl. by rewrite Hfd. }
  intros ? d2 Hi. apply tx_quiet_then; [apply completeReconcile_ok|]. intros ? d3 Hq3. tx_step.
  pose proof (records_installed_post _ _ _ _ _ _ Hq3 Hi) as Hi'.
  split; [by destruct Hi' as (_ & _ & _ & ?)|]. split; [by apply Hok|]. by eapply records_installed_pre.
Qed.

Lemma pg_InstallHistorical_ok intent rec s r s' :
  InstallHistorical faults intent rec s = (r, s') → pg_wf (st_db s) → record_key rec = in_Key intent →
  pg_wf (st_db s') ∧
  ((r ≠ inr true ∧ db_same (st_db s) (st_db s')) ∨
   (r ≠ inr false ∧ (∀ k, db_fold (st_db s') k = db_fold (st_db s) k) ∧
    ledger_entered (in_Key intent) [rec] (st_db s) (st_db s'))).
Proof.
  intros H Hwf Hk. unfold InstallHistorical in H. 
  apply (install_tx_ok _ _ _ _ _ (λ d', (∀ k, db_fold d' k = db_fold (st_db s) k) ∧
    ledger_entered (in_Key intent) [rec] (st_db s) d')) in H; [exact H|done|].
  tx_step. eapply tx_ok_mono; [apply lockIntentAndHead_ok|]. intros [] d1 (Hq & Hs & Hok); simpl;
    [|tx_step; by apply quiet_same].
  tx_step. eapply tx_ok_mono; [apply insertLedgers_ok|]. rewrite Hk. intros _ d2 (Hh & Hfd & Hn & Hv).
  apply tx_quiet_then; [apply completeReconcile_ok|]. intros ? d3 Hq3. tx_step.
  destruct Hq as (Hh1 & Hs1 & Hf1 & Hv1), Hq3 as (Hh3 & Hs3 & Hf3 & Hv3).
  assert (quiet (st_db s) (set_versions (pg_versions (st_db s)) d3)) as Hq'.
  { split_and!; simpl; [| |congruence|done].
    - intros k. specialize (Hh3 k). unfold head_of in *. simpl. rewrite Hh3, Hh. apply Hh1.
    - intros k Hk'. apply Hs3. rewrite Hh. by apply Hs1. }
  pose proof (quiet_wf _ _ Hq' Hwf) as Hwf'. split_and!.
  - destruct Hwf' as [H1 H2]. by split.
  - intros k. rewrite <-(quiet_fold _ _ k Hq'). done.
  - apply ledger_entered_one; [done|by rewrite <-Hv1|]. by rewrite Hv3, Hv, Hv1.
Qed.

Lemma snapshot_installed_pre k f d d1 d' :
  quiet d d1 → snapshot_installed k f d1 d' → snapshot_installed k f d d'.
Proof.
  intros Hq (H1 & H2 & H3 & H4 & H5 & H6). pose proof (λ v, quiet_ledger d d1 k v Hq) as Hl. split_and!; [..|done|done].
  - by rewrite <-Hl.
  - intros v. rewrite H2. by case_decide.
  - intros k' v Hne. rewrite H3 by done. by destruct Hq as (_ & _ & _ & ->).
  - intros k' Hne. rewrite H4 by done. by apply quiet_fold.
Qed.

Lemma snapshot_installed_post k f d d1 d' :
  quiet d1 d' → snapshot_installed k f d d1 → snapshot_installed k f d d'.
Proof.
  intros Hq (H1 & H2 & H3 & H4 & H5 & H6). split_and!; [done|..].
  - intros v. rewrite (quiet_ledger _ _ k v Hq). apply H2.
  - intros k' v Hne. destruct Hq as (_ & _ & _ & ->). by apply H3.
  - intros k' Hne. rewrite (quiet_fold _ _ k' Hq). by apply H4.
  - by rewrite (quiet_fold _ _ k Hq).
  - by eapply quiet_wf.
Qed.

Lemma pg_InstallSnapshot_ok intent snap held s r s' :
  InstallSnapshot faults new_id payload intent snap held s = (r, s') → pg_wf (st_db s) →
  in_Key intent = key_of_fold (sn_Fold snap) → f_SnapshotProvenance (sn_Fold snap) = sn_Provenance snap →
  pg_wf (st_db s') ∧
  ((r ≠ inr true ∧ db_same (st_db s) (st_db s')) ∨
   (r ≠ inr false ∧ f_Version (db_fold (st_db s) (in_Key intent)) = in_ObservedVersion intent ∧
    snapshot_installed (in_Key intent) (sn_Fold snap) (st_db s) (st_db s'))).
Proof.
  intros H Hwf Hk Hprov. unfold InstallSnapshot in H. 
  apply (install_tx_ok _ _ _ _ _ (λ d', f_Version (db_fold (st_db s) (in_Key intent)) = in_ObservedVersion intent ∧
    snapshot_installed (in_Key intent) (sn_Fold snap) (st_db s) d')) in H; [exact H|done|].
  tx_step. eapply tx_ok_mono; [apply lockIntentAndHead_ok|]. intros [] d1 (Hq & [x Hx] & Hok); simpl;
    [|tx_step; by apply quiet_same].
  refine (snapshot_writes_ok faults payload _ intent snap _ x d1 _ _ _ _ _ _ _); [by eapply quiet_wf|done| |done|done|].
  { rewrite <-Hok by done. destruct Hq as (Hh & _). rewrite <-Hh. unfold head_of. by rewrite Hx. }
  intros d2 Hi. apply tx_quiet_then; [apply insertAudit_ok|]. intros ? d3 Hq3.
  apply tx_quiet_then; [apply completeReconcile_ok|]. intros ? d4 Hq4. tx_step.
  assert (snapshot_installed (in_Key intent) (sn_Fold snap) (st_db s) d4) as Hi'.
  { eapply snapshot_installed_pre; [done|]. eapply snapshot_installed_post; [|done]. by etrans. }
  split; [by destruct Hi' as (_ & _ & _ & _ & _ & ?)|]. split; [by apply Hok|done].
Qed.

Lemma pg_FailReconcile_ok intent held s r s' :
  FailReconcile faults new_id payload intent held s = (r, s') → pg_wf (st_db s) →
  pg_wf (st_db s') ∧ db_same (st_db s) (st_db s').
Proof.
  intros H Hwf. unfold FailReconcile in H. eapply quiet_tx_ok in H; [exact H|done|].
  tx_step. eapply tx_ok_mono; [apply lockIntentAndHead_ok|]. intros [] d1 (Hq & Hs & Hok); simpl; [|by tx_step].
  do 2 tx_step. case_match; [|tx_step]. case_match; [tx_step|]. case_match.
  - apply tx_quiet_then; [apply update_pending_ok|]. intros ? d2 ?. tx_step. by etrans.
  - apply tx_quiet_then; [apply insertAudit_ok|]. intros ? d2 Hq2.
    apply tx_quiet_then; [apply update_pending_ok|]. intros ? d3 Hq3.
    do 2 tx_step. tx_step. etrans; [exact Hq|]. etrans; [exact Hq2|]. etrans; [exact Hq3|]. auto with tx.
Qed.

Lemma pg_RecordPoison_ok rec reason s r s' :
  RecordPoison faults new_id payload rec reason s = (r, s') → pg_wf (st_db s) →
  pg_wf (st_db s') ∧ db_same (st_db s) (st_db s').
Proof.
  intros H Hwf. unfold RecordPoison in H. eapply quiet_tx_ok in H; [exact H|done|]. apply insertAudit_ok.
Qed.

(** ** The instance *)

#[export, program] Instance pg_store_ok : PStoreOK (PS := pg_store faults new_id payload) PgState := {
  store_wf s := pg_wf (st_db s);
  fold_of s k := db_fold (st_db s) k;
  ledger_of s k v := db_ledger (st_db s) k v;
}.
Next Obligation.
  intros s k [_ Hh]. simpl. unfold head_of. destruct (pg_heads (st_db s) !! k) as [h|] eqn:E; [|done].
  destruct (Hh k h E) as [Hb _]. apply N.ltb_lt in Hb. unfold two64N. simpl. lia.
Qed.
Next Obligation.
  intros k v s r s' H Hwf. apply pg_Load_ok in H as [Hd Hr]; [|done]. rewrite Hd. split_and!; [done|done|].
  intros f id [-> Hi]%Hr. split_and!; try done. unfold strip, db_fold. simpl. f_equal. by case_match.
Qed.
Next Obligation.
  intros expected rs final k f s r s' H Hwf Hk Hf Hall Hfold Hne.
  eapply pg_Install_ok in H as [? [[? [_ ?]]|(? & ? & Hi)]]; try done; (split; [done|]); [by left|right].
  apply records_installed_view in Hi as (? & ? & ? & ?). done.
Qed.
Next Obligation.
  intros intent held s r s' H Hwf. apply pg_BeginReconcile_ok in H as (? & [_ ?] & ?); done.
Qed.
Next Obligation.
  intros intent rs final f s r s' H Hwf Hk Hf Hall Hfold Hne.
  eapply pg_InstallReconcile_ok in H as [? [[? [_ ?]]|(? & ? & Hi)]]; try done; (split; [done|]); [by left|right].
  apply records_installed_view in Hi as (? & ? & ? & ?). done.
Qed.
Next Obligation.
  intros intent rec s r s' H Hwf Hk.
  apply pg_InstallHistorical_ok in H as [? [[? [_ ?]]|(? & Hf & (H1 & H2 & H3))]]; try done; (split; [done|]);
    [by left|right].
  do 2 (split; [done|]). do 2 (split; [done|]). intros k' Hne. split; [done|]. intros v. unfold db_ledger.
  by rewrite H3.
Qed.
Next Obligation.
  intros intent snap held s r s' H Hwf Hk Hprov Hpos.
  apply pg_InstallSnapshot_ok in H as [? [[? [_ ?]]|(? & ? & (H1 & H2 & H3 & H4 & H5 & _))]]; try done;
    (split; [done|]); [by left|right].
  split_and!; try done. intros k' Hne. split; [by apply H4|]. intros v. unfold db_ledger. by rewrite H3.
Qed.
Next Obligation.
  intros intent held s r s' H Hwf. apply pg_FailReconcile_ok in H as (? & [_ ?]); done.
Qed.
Next Obligation.
  intros rec reason s r s' H Hwf. apply pg_RecordPoison_ok in H as (? & [_ ?]); done.
Qed.
End Contract.

(** * Errors of the store are errors *)

Definition tx_errs {A} (m : Tx A) : Prop := ∀ t d n, (m t d n).1.1 ≠ inl [].

Section Errors.
Context (faults : nat → fault) (new_id : nat → string) (payload : string → N → string → string).

Lemma tx_errs_ret {A} (a : A) : tx_errs (tx_ret a).
Proof. done. Qed.

Lemma tx_errs_fail {A} e es : tx_errs (A := A) (tx_fail (e :: es)).
Proof. done. Qed.

Lemma tx_errs_bind {A B} (m : Tx A) (k : A → Tx B) : tx_errs m → (∀ a, tx_errs (k a)) → tx_errs (tx_bind m k).
Proof.
  intros Hm Hk t d n. unfold tx_bind. specialize (Hm t d n). destruct (m t d n) as [[[e|a] d'] n']; simpl in *.
  - congruence.
  - apply Hk.
Qed.

Lemma tx_errs_stmt {A} (f : string → Pg → (errs + A) * Pg) :
  (∀ t d, (f t d).1 ≠ inl []) → tx_errs (stmt faults f).
Proof. intros Hf t d n. unfold stmt, stmt_at. destruct (faults n); [|done..]. specialize (Hf t d). by destruct (f t d). Qed.

Lemma tx_errs_query {A} (f : Pg → A) : tx_errs (query faults f).
Proof. by apply tx_errs_stmt. Qed.

Lemma tx_errs_write te ok f : tx_errs (write faults te ok f).
Proof. apply tx_errs_stmt. intros t d. by destruct (_ && _). Qed.

Lemma tx_errs_audit get set k row : tx_errs (insert_audit_row faults new_id get set k row).
Proof. intros t d n. unfold insert_audit_row. apply tx_errs_write. Qed.

Lemma tx_errs_pending k h : tx_errs (insert_pending faults k h).
Proof. apply tx_errs_stmt. intros t d. destruct (negb _); [done|]. by destruct (_ || _). Qed.

Lemma tx_errs_intent i h : tx_errs (insert_intent faults i h).
Proof. apply tx_errs_stmt. intros t d. destruct (negb _); [done|]. by destruct (_ || _). Qed.

Lemma tx_errs_with {A} te (m : Tx A) s : tx_errs m → (withTenantTx faults te m s).1 ≠ inl [].
Proof.
  intros Hm. unfold withTenantTx, run_tx.
  match goal with |- context [match ?m te (st_db s) _ with _ => _ end] =>
    assert (tx_errs m) as Hm' by (do 2 (apply tx_errs_bind; [apply tx_errs_query|intros ?]); exact Hm);
    specialize (Hm' te (st_db s) (st_clock s)); destruct (m te (st_db s) (st_clock s)) as [[[e|a] d'] n']
  end; simpl in *; [done|]. by destruct (faults n').
Qed.

#[local] Ltac errs_step :=
  first [ apply tx_errs_ret | apply tx_errs_fail | apply tx_errs_query | apply tx_errs_write
        | apply tx_errs_audit | apply tx_errs_pending | apply tx_errs_intent
        | apply tx_errs_bind; [|intros ?] | case_match ].

Lemma tx_errs_install_records rs : tx_errs (install_records faults rs).
Proof.
  induction rs as [|r rs IH]; simpl; [done|]. apply tx_errs_bind; [|done].
  unfold install_record, insertLedgers, insert_version, insert_event. repeat errs_step.
Qed.

Lemma tx_errs_insert_participants k row ps : tx_errs (insert_participants faults k row ps).
Proof. induction ps as [|p ps IH]; simpl; [done|]. by apply tx_errs_bind; [apply tx_errs_write|]. Qed.

#[local] Ltac errs_run :=
  repeat first [ apply tx_errs_install_records | apply tx_errs_insert_participants | errs_step
    | progress unfold loadFold, lockHead, lockIntentAndHead, installRecords, completeReconcile, insertLedgers,
        insert_version, insert_event, insertAudit, update_pending ].

Lemma pg_errors_set : ParticipationConsumer.store_errors_set (PS := pg_store faults new_id payload).
Proof.
  split_and!; intros; apply tx_errs_with; errs_run.
Qed.
End Errors.
