(* ===== verification/ParticipationCorrect.v ===== *)
(** The desired-participation projector on its PostgreSQL store: the history
    theorem for the deployed pair, runs that the general theorems apply to, and
    two runs in which the pair stops making progress. *)

From S2P Require Import Prelude Wire Subjects Trace PgTx DesiredParticipation DesiredTheorems ParticipationConsumer.
From S2P Require Import ParticipationPg ParticipationPgOK.

(** * From the empty database *)

Section Deployed.
Context (marshal_pc : ParticipationCommand → option string) (sha : string → string).
Context (faults : nat → fault) (new_id : nat → string) (payload : string → N → string → string).

#[local] Existing Instances pg_store pg_store_ok.

(** The database after a run of the projector that starts on the fresh schema. *)
Definition deployed (ds : list delivery) : PgState :=
  run_projector marshal_pc sha (PS := pg_store faults new_id payload) ds (mkPgState pg_empty 0).

Lemma pg_empty_wf : pg_wf pg_empty.
Proof. split; simpl; [intros k p [x Hx]|intros k h Hx]; by rewrite lookup_empty in Hx. Qed.

(** C8: the projector on PostgreSQL, from the fresh schema, over any sequence of
    commands, any answers of the authority and any failure of any statement or
    commit: every head past version 0 is the ledger's entry at its version, every
    interaction with participants has a head, and going on never moves a head back
    nor rewrites a ledger entry. *)
Theorem deployed_history ds more :
  pg_wf (st_db (deployed ds)) ∧
  (∀ k, (0 < f_Version (db_fold (st_db (deployed ds)) k))%N →
     ∃ i, db_ledger (st_db (deployed ds)) k (f_Version (db_fold (st_db (deployed ds)) k)) = Some i ∧
          sameIdentity i (f_Identity (db_fold (st_db (deployed ds)) k)) = true) ∧
  (∀ k, (f_Version (db_fold (st_db (deployed ds)) k) <=
         f_Version (db_fold (st_db (deployed (ds ++ more))) k))%N ∧
     ∀ v i, db_ledger (st_db (deployed ds)) k v = Some i →
            db_ledger (st_db (deployed (ds ++ more))) k v = Some i).
Proof.
  destruct (run_projector_good marshal_pc sha (PSOK := pg_store_ok faults new_id payload) ds
              (mkPgState pg_empty 0)) as (Hwf & Hh & _); [apply pg_empty_wf|by intros k ?|].
  destruct (run_projector_good marshal_pc sha (PSOK := pg_store_ok faults new_id payload) more _ Hwf Hh)
    as (_ & _ & Ha).
  split_and!; [exact Hwf|exact Hh|]. unfold deployed, run_projector in *. rewrite foldl_app. exact Ha.
Qed.
End Deployed.

(** * A small deployment *)

Module Demo.
Definition tenant : string := "01890000-0000-7000-8000-000000000001".
Definition room : string := "01890000-0000-7000-8000-000000000002".
Definition alice : string := "01890000-0000-7000-8000-0000000000aa".
Definition token : string := "01890000-0000-7000-8000-0000000000ff".
Definition token2 : string := "01890000-0000-7000-8000-0000000000fe".
Definition event (v : N) : string := "01890000-0000-7000-8000-0000000001" +:+ fmt_d (Z.of_N (10 + v)).
Definition trace : string := "00-4bf92f3577b34da6a3ce929d0e0e4736-00f067aa0ba902b7-01".

Definition cmd (v : N) (st : DesiredState) : ParticipationCommand :=
  mkPC (event v) v tenant room alice st (Some (mkTimestamp 0 0)) trace.

(** The body is the event id, the hash 32 of its bytes. *)
Definition marshal (c : ParticipationCommand) : option string := Some (pc_EventId c).
Definition sha (s : string) : string := String.substring 4 32 s.
Definition record (v : N) (st : DesiredState) : PRecord :=
  mkPRecord (cmd v st) (mkEI (event v) (sha (event v)) (event v)).

Definition no_fault (n : nat) : fault := NoFault.
Definition new_id (n : nat) : string := "01890000-0000-7000-9000-000000" +:+ fmt_d (100000 + Z.of_nat n).
Definition json (e : string) (v : N) (r : string) : string := e +:+ r.
Abbreviation store := (pg_store no_fault new_id json).
Definition writer : Principal := mkPrincipal tenant (mkGrant "corex" CapabilityWrite "").

(** An authority that replays versions [from..to], one that has lost its history
    and answers with a snapshot at [v], and one that answers with another history. *)
Definition replaying (cs : list ParticipationCommand) (head : N) : Authority :=
  mkAuthority (λ _, inr (Some (mkReplayResp cs head (event head) (sha (event head)) 1 "replay"))) (λ _, inl [ErrAuthority]).
Definition truncated (v : N) : Authority :=
  mkAuthority (λ _, inl [ErrUnknownHistory])
    (λ _, inr (Some (mkSnapResp tenant room v (event v) (sha (event v)) [alice] v "snapshot"))).

Definition fresh : PgState := mkPgState pg_empty 0.
Definition apply_as (tok : string) (au : Authority) (c : ParticipationCommand) (s : PgState) : outcome * PgState :=
  Apply marshal sha (PS := store) tok au writer c s.
Definition apply1 := apply_as token.

(** A gap: version 3 first; versions 1 to 3 are replayed and folded. *)
Definition gap_answer : Authority := replaying [cmd 1 ASSIGNED; cmd 2 UNASSIGNED; cmd 3 ASSIGNED] 3.
Definition after_gap : PgState := (apply1 gap_answer (cmd 3 ASSIGNED) fresh).2.

(** A snapshot at version 5 in answer to the first command. *)
Definition after_snapshot : PgState := (apply1 (truncated 5) (cmd 4 ASSIGNED) fresh).2.
End Demo.

Import Demo.

Lemma foldRecords_exact_witness :
  ∃ f', foldRecords (mkFold "" "" 0 (mkEI "" "" "") ∅ "") [record 1 ASSIGNED; record 2 UNASSIGNED] = Some f' ∧
    f_Version f' = 2%N ∧ alice ∉ f_Participants f'.
Proof.
  eexists. split; [vm_compute; reflexivity|].
  pose proof (foldRecords_exact (mkFold "" "" 0 (mkEI "" "" "") ∅ "") [record 1 ASSIGNED; record 2 UNASSIGNED] _
    eq_refl eq_refl) as (Hv & _ & Hp & _).
  split; [exact Hv|]. intros H. apply Hp in H. vm_compute in H. discriminate.
Defined.

Lemma validated_replay_folds_witness :
  ∃ f', foldRecords (mkFold tenant room 1 (mkEI "" "" "") ∅ "") [record 2 UNASSIGNED; record 3 ASSIGNED] = Some f' ∧
    f_Version f' = 3%N.
Proof.
  destruct (validated_replay_folds marshal sha (Some (mkReplayResp [cmd 2 UNASSIGNED; cmd 3 ASSIGNED] 3 (event 3)
      (sha (event 3)) 1 "replay")) (mkIntent token (mkKey tenant room) 1 2 3 (mkEI "" "" "")) (record 3 ASSIGNED)
      [record 2 UNASSIGNED; record 3 ASSIGNED] (mkFold tenant room 1 (mkEI "" "" "") ∅ ""))
    as (f' & H1 & H2 & _); [vm_compute; reflexivity..|right; reflexivity|].
  exists f'. split; [exact H1|]. rewrite H2. reflexivity.
Defined.

Lemma Apply_sound_witness :
  (apply1 gap_answer (cmd 3 ASSIGNED) fresh).1 = (Some Applied, []) ∧
  sound_outcome (PSOK := pg_store_ok no_fault new_id json) (cmd 3 ASSIGNED) fresh after_gap (Some Applied).
Proof.
  split; [vm_compute; reflexivity|].
  apply (Apply_sound marshal sha (PSOK := pg_store_ok no_fault new_id json) token gap_answer writer
    (cmd 3 ASSIGNED) fresh (Some Applied, []) after_gap); [|apply pg_empty_wf].
  vm_compute. reflexivity.
Defined.

Definition unmarshal (data : string) : option (ParticipationCommand * bool) :=
  if decide (data = event 3) then Some (cmd 3 ASSIGNED, false) else None.
Definition gap_message : PMsg :=
  mkPMsg ("corex.participation.commands.v1." +:+ tenant +:+ "." +:+ room) (event 3) trace (event 3).

Lemma acknowledged_command_is_covered_witness :
  ∃ s', handle marshal sha unmarshal (PS := store) (mkGrant "corex" CapabilityWrite "") token gap_answer
          gap_message fresh = (Ack, s') ∧
    ∃ c, unmarshal (m_Data gap_message) = Some (c, false) ∧ m_MsgId gap_message = pc_EventId c.
Proof.
  eexists. split; [vm_compute; reflexivity|].
  destruct (acknowledged_command_is_covered marshal sha unmarshal (PSOK := pg_store_ok no_fault new_id json)
    (mkGrant "corex" CapabilityWrite "") token gap_answer gap_message fresh
    (handle marshal sha unmarshal (PS := store) (mkGrant "corex" CapabilityWrite "") token gap_answer
          gap_message fresh).2) as (c & Hu & Hid & _).
  - vm_compute. reflexivity.
  - apply pg_empty_wf.
  - apply pg_errors_set.
  - split; discriminate.
  - exists c. exact (conj Hu Hid).
Defined.

(** * Runs that stop making progress *)

(** A command delivered again and again while nothing else changes. *)
Fixpoint redeliver (n : nat) (au : Authority) (c : ParticipationCommand) (s : PgState) : list disposition * PgState :=
  match n with
  | O => ([], s)
  | Datatypes.S n' =>
      let '(out, s1) := apply_as token2 au c s in
      let '(ds, s2) := redeliver n' au c s1 in (settle_message out :: ds, s2)
  end.

(** After an audited snapshot, a late command behind it that the authority no
    longer has cannot be settled. The second snapshot's ledger row is already
    there, the insert violates its primary key, the transaction rolls back, and
    the message is negatively acknowledged at every delivery, at the head of a
    consumer that allows one message in flight. *)
Theorem late_command_never_settles :
  (apply1 (truncated 5) (cmd 4 ASSIGNED) fresh).1 = (Some AuditedSnapshot, []) ∧
  (redeliver 6 (truncated 5) (cmd 3 ASSIGNED) after_snapshot).1 = [Nak; Nak; Nak; Nak; Nak; Nak].
Proof. vm_compute. done. Qed.

(** One bad answer blocks an interaction. A replay that fails validation
    leaves its intent pending; once the missing commands have been installed the
    normal way, every later gap finds that intent, is called divergent and
    terminated, although the authority's answers are now right. *)
Theorem stale_intent_blocks_reconcile :
  let bad := replaying [cmd 2 UNASSIGNED; cmd 1 ASSIGNED; cmd 3 ASSIGNED] 3 in
  let good := replaying [cmd 2 UNASSIGNED; cmd 3 ASSIGNED] 3 in
  let '(o1, s1) := apply1 bad (cmd 3 ASSIGNED) fresh in
  let '(o2, s2) := apply1 good (cmd 1 ASSIGNED) s1 in
  let '(o3, s3) := apply1 good (cmd 3 ASSIGNED) s2 in
  o1 = (Some Poisoned, [ErrDivergentHistory]) ∧ o2 = (Some Applied, []) ∧
  o3 = (None, [ErrDivergentHistory]) ∧ settle_message o3 = Term ∧
  f_Version (db_fold (st_db s3) (mkKey tenant room)) = 1%N.
Proof. vm_compute. done. Qed.
