(* ===== verification/ParticipationClient.v ===== *)
(** The clients of the participation authority: over NATS
    (internal/participationclientnats/client.go), which the deployed projector
    uses, and over gRPC (internal/participationclientgrpc/client.go). A connection
    is what it answers to a request; the protobuf codec is the class [Codec]. *)

From S2P Require Import Prelude Wire Subjects Trace DesiredParticipation DesiredTheorems.

Definition CapabilityRead : string := "Corex-participation-read".

(** * Messages *)

(** [ParticipationError_Code]. *)
Definition CODE_UNKNOWN_HISTORY : N := 1.
Definition CODE_PERMISSION_DENIED : N := 2.
Definition CODE_INVALID : N := 3.
Definition CODE_TRANSIENT : N := 4.

(** A reply: the outcome is a response, an error code, or not set. Fields a
    nested message has and the schema does not know are kept with it. *)
Record Reply (R : Type) := mkReply {
  rp_RequestId : string;
  rp_Outcome : option (R + N);
  rp_nested : string;
}.
Arguments mkReply {R}.
Arguments rp_RequestId {R}.
Arguments rp_Outcome {R}.
Arguments rp_nested {R}.

(** Deterministic [Marshal] of requests and replies, and [Unmarshal] of a reply
    with whether the reply itself had unknown fields. *)
Class Codec (Req R : Type) := {
  marshal_request : Req → option string;
  marshal_reply : Reply R → option string;
  unmarshal_reply : string → option (Reply R * bool);
}.

(** * Connections *)

(** The authentication options of a connection; callbacks are whether they are set. *)
Record NatsOptions := mkNatsOptions {
  no_User : string; no_Password : string; no_Nkey : string; no_SignatureCB : bool;
  no_Token : string; no_UserJWT : bool }.

Definition authenticated (o : NatsOptions) : bool :=
  (negb (bool_decide (no_User o = "")) && negb (bool_decide (no_Password o = "")))
  || (negb (bool_decide (no_Nkey o = "")) && no_SignatureCB o)
  || negb (bool_decide (no_Token o = "")) || no_UserJWT o.

Record NatsConn := mkNatsConn { nc_connected : bool; nc_Opts : NatsOptions }.

(** [RequestMsgWithContext]: the deadline of its context, the subject, the
    traceparent header that is set and the payload; the answer is the reply's
    traceparent header, "" when absent, and its data, or an error. *)
Definition roundtrip : Type := Z → string → option string → string → option (string * string).

Record NatsClient := mkNatsClient { nc_timeout : Z; nc_grant : TransportGrant }.

(** [New]; [None] is [ErrPermissionDenied]. *)
Definition NewNatsClient (connection : option NatsConn) (timeout : Z) (grant : TransportGrant) : option NatsClient :=
  match connection with
  | None => None
  | Some c =>
      if negb (nc_connected c) || (timeout <=? 0)%Z || negb (authenticated (nc_Opts c))
         || negb (bool_decide (g_ServiceID grant = "relaypoint")) || negb (ValidTransportGrant grant CapabilityRead)
      then None else Some (mkNatsClient timeout grant)
  end.

(** The deadline of a request made at [now], from the caller's and the timeout. *)
Definition requestContext (deadline : option Z) (now timeout : Z) : Z :=
  match deadline with
  | Some d => if (d - now <=? timeout)%Z then d else (now + timeout)%Z
  | None => (now + timeout)%Z
  end.

(** The two unclassified errors are [ErrAuthority]. *)
Definition mapWireError (code : option N) : part_err :=
  match code with
  | None => ErrInvalid
  | Some c =>
      if (c =? CODE_UNKNOWN_HISTORY)%N then ErrUnknownHistory
      else if (c =? CODE_PERMISSION_DENIED)%N then ErrPermissionDenied
      else if (c =? CODE_INVALID)%N then ErrInvalid
      else ErrAuthority
  end.

(** What a context carries: its deadline, the time of the call and its trace. *)
Record Context := mkContext { cx_deadline : option Z; cx_now : Z; cx_trace : option TraceContext }.

Section Nats.
Context {Req R : Type} `{!Codec Req R} (conn : roundtrip) (ctx : Context).

(** [Client.request]. *)
Definition request (c : NatsClient) (subject : string) (message : Req) : errs + Reply R :=
  match marshal_request message with
  | None => inl [ErrInvalid]
  | Some payload =>
      match conn (requestContext (cx_deadline ctx) (cx_now ctx) (nc_timeout c)) subject (InjectTraceparent (cx_trace ctx)) payload with
      | None => inl [ErrAuthority]
      | Some (traceparent, data) =>
          match ParseTraceparent traceparent with
          | None => inl [ErrInvalid]
          | Some _ =>
              match unmarshal_reply data with
              | Some (reply, false) =>
                  match marshal_reply reply with
                  | Some canonical => if decide (canonical = data) then inr reply else inl [ErrInvalid]
                  | None => inl [ErrInvalid]
                  end
              | _ => inl [ErrInvalid]
              end
          end
      end
  end.

(** The common body of [Replay] and [Snapshot]; [address] is the subject of the
    request, [id] its id. *)
Definition ask (c : option NatsClient) (address : Req → option string) (id : Req → string) (message : option Req) :
    errs + R :=
  match c, message with
  | Some c, Some message =>
      if negb (ValidTransportGrant (nc_grant c) CapabilityRead) then inl [ErrInvalid]
      else match address message with
           | None => inl [ErrInvalid]
           | Some subject =>
               match request c subject message with
               | inl e => inl e
               | inr reply =>
                   if decide (rp_RequestId reply ≠ id message) then inl [ErrInvalid]
                   else match rp_Outcome reply with
                        | Some (inl response) => inr response
                        | Some (inr code) => inl [mapWireError (Some code)]
                        | None => inl [mapWireError None]
                        end
               end
           end
  | _, _ => inl [ErrInvalid]
  end.
End Nats.

Section Authorities.
Context `{!Codec ReplayParticipationRequest ReplayResponse} `{!Codec SnapshotParticipationRequest SnapshotResponse}.

Definition replay_address (q : ReplayParticipationRequest) : option string :=
  ReplayParticipationAddress (rq_TenantId q) (rq_InteractionId q).
Definition snapshot_address (q : SnapshotParticipationRequest) : option string :=
  DesiredParticipationSnapshotAddress (sq_TenantId q) (sq_InteractionId q).

Definition nats_Replay (conn : roundtrip) (ctx : Context) (c : option NatsClient) (q : option ReplayParticipationRequest) :
    errs + ReplayResponse := ask conn ctx c replay_address rq_RequestId q.
Definition nats_Snapshot (conn : roundtrip) (ctx : Context) (c : option NatsClient) (q : option SnapshotParticipationRequest) :
    errs + SnapshotResponse := ask conn ctx c snapshot_address sq_RequestId q.

(** The NATS client as the projector's authority. *)
Definition nats_authority (conn : roundtrip) (ctx : Context) (c : NatsClient) : Authority :=
  mkAuthority
    (λ q, match nats_Replay conn ctx (Some c) (Some q) with inl e => inl e | inr r => inr (Some r) end)
    (λ q, match nats_Snapshot conn ctx (Some c) (Some q) with inl e => inl e | inr r => inr (Some r) end).

(** ** gRPC *)

(** The status codes the client looks at. *)
Definition NotFound : N := 5.
Definition PermissionDenied : N := 7.
Definition Unauthenticated : N := 16.

(** [status.Code] of an error of the call; [errors.Join] keeps the cause. *)
Definition mapError (code : N) : errs :=
  if (code =? NotFound)%N then [ErrUnknownHistory; ErrAuthority]
  else if (code =? Unauthenticated)%N || (code =? PermissionDenied)%N then [ErrPermissionDenied; ErrAuthority]
  else [ErrAuthority].

Definition NewGrpcClient (connected : bool) (grant : TransportGrant) : option TransportGrant :=
  if negb connected || negb (bool_decide (g_ServiceID grant = "relaypoint"))
     || negb (ValidTransportGrant grant CapabilityRead)
  then None else Some grant.

Definition outgoingContext (grant : TransportGrant) (tenantID : string) : list (string * string) :=
  [("x-service-id", g_ServiceID grant); ("x-tenant-id", tenantID); ("x-capability", g_Capability grant)].

(** A unary call with its metadata: a status code or a response. *)
Definition grpc_call {Req R} (call : list (string * string) → Req → N + R) (tenant : Req → string)
    (c : option TransportGrant) (message : option Req) : errs + R :=
  match c, message with
  | Some grant, Some message =>
      match call (outgoingContext grant (tenant message)) message with
      | inl code => inl (mapError code)
      | inr response => inr response
      end
  | _, _ => inl [ErrPermissionDenied]
  end.
Definition grpc_Replay := @grpc_call ReplayParticipationRequest ReplayResponse.
Definition grpc_Snapshot := @grpc_call SnapshotParticipationRequest SnapshotResponse.
End Authorities.

(** * What an answer means *)

Section Answers.
Context {Req R : Type} `{!Codec Req R} (conn : roundtrip) (ctx : Context) (c : NatsClient).

(** The connection answered the message on the subject with this reply, in its
    canonical encoding and with a valid trace. *)
Definition answered (subject : string) (message : Req) (reply : Reply R) : Prop :=
  ∃ payload traceparent data,
    marshal_request message = Some payload ∧
    conn (requestContext (cx_deadline ctx) (cx_now ctx) (nc_timeout c)) subject (InjectTraceparent (cx_trace ctx)) payload
      = Some (traceparent, data) ∧
    is_Some (ParseTraceparent traceparent) ∧ unmarshal_reply data = Some (reply, false) ∧ marshal_reply reply = Some data.

Lemma request_answered subject message :
  match request conn ctx c subject message with
  | inr reply => answered subject message reply
  | inl e => e = [ErrInvalid] ∨ e = [ErrAuthority]
  end.
Proof.
  unfold request. destruct (marshal_request message) as [payload|] eqn:Hm; [|by left].
  destruct (conn _ _ _ _) as [[tp data]|] eqn:Hc; [|by right].
  destruct (ParseTraceparent tp) as [tc|] eqn:Ht; [|by left].
  destruct (unmarshal_reply data) as [[reply []]|] eqn:Hu; [by left| |by left].
  destruct (marshal_reply reply) as [canonical|] eqn:Hr; [|by left]. case_decide as Heq; [|by left]. subst.
  exists payload, tp, data. split_and!; eauto.
Qed.

(** An error list that does not say the history is unknown. *)
Ltac not_unknown :=
  split; [done|]; intros Hin; repeat (apply elem_of_cons in Hin as [Hin|Hin]; [discriminate Hin|]); by apply elem_of_nil in Hin.

(** An answer stems from a reply to this very request; so does the verdict that
    the history is unknown. *)
Lemma ask_answered address id message :
  let from := λ outcome, ∃ subject reply, address message = Some subject ∧ answered subject message reply ∧
                rp_RequestId reply = id message ∧ rp_Outcome reply = Some outcome in
  match ask conn ctx (Some c) address id (Some message) with
  | inr response => from (inl response)
  | inl e => e ≠ [] ∧ (ErrUnknownHistory ∈ e → from (inr CODE_UNKNOWN_HISTORY))
  end.
Proof.
  intros from. unfold ask. destruct (negb _); [not_unknown|].
  destruct (address message) as [subject|] eqn:Ha; [|not_unknown].
  pose proof (request_answered subject message) as Hr. destruct (request _ _ _ _ _) as [e|reply].
  { destruct Hr as [-> | ->]; not_unknown. }
  destruct (decide (rp_RequestId reply ≠ id message)) as [Hid|Hid]; [not_unknown|]. apply dec_stable in Hid.
  destruct (rp_Outcome reply) as [[response|code]|] eqn:Ho; [by exists subject, reply| |not_unknown].
  unfold mapWireError. destruct (code =? CODE_UNKNOWN_HISTORY)%N eqn:Ec.
  { apply N.eqb_eq in Ec as ->. split; [done|]. intros _. by exists subject, reply. }
  repeat case_match; not_unknown.
Qed.
End Answers.

(** A request never outlives the caller's deadline nor the client's timeout. *)
Lemma requestContext_bounded deadline now timeout :
  (requestContext deadline now timeout <= now + timeout)%Z ∧
  (∀ d, deadline = Some d → requestContext deadline now timeout <= d)%Z.
Proof.
  unfold requestContext. destruct deadline as [d|]; [|split; [lia|done]].
  destruct (Z.leb_spec (d - now) timeout); split; try intros ? [= <-]; lia.
Qed.

(** * The projector with this authority *)

Section Projector.
Context (marshal_pc : ParticipationCommand → option string) (sha : string → string).
Context {S : Type} {PS : PStore S} {PSOK : PStoreOK S}.
Context `{!Codec ReplayParticipationRequest ReplayResponse} `{!Codec SnapshotParticipationRequest SnapshotResponse}.
Context (conn : roundtrip) (ctx : Context) (client : NatsClient).

Abbreviation authority := (nats_authority conn ctx client).

(** What a snapshot must have been asked and answered for. *)
Definition history_forgotten (c : ParticipationCommand) (token : string) (wire : SnapshotResponse) : Prop :=
  ∃ from to observed r1 r2 subject1 subject2,
    let q1 := mkReplayReq (pc_TenantId c) (pc_InteractionId c) from to token in
    let q2 := mkSnapReq (pc_TenantId c) (pc_InteractionId c) observed token in
    replay_address q1 = Some subject1 ∧ answered conn ctx client subject1 q1 r1 ∧ rp_RequestId r1 = token ∧
    rp_Outcome r1 = Some (inr CODE_UNKNOWN_HISTORY) ∧
    snapshot_address q2 = Some subject2 ∧ answered conn ctx client subject2 q2 r2 ∧ rp_RequestId r2 = token ∧
    rp_Outcome r2 = Some (inl wire).

Lemma snapshot_audited intent held s out s' :
  reconcile_snapshot authority intent held s = (out, s') → out.1 = Some AuditedSnapshot →
  ∃ wire snap, validateSnapshot (Some wire) intent held = inr snap ∧
    au_Snapshot authority (snapshot_request intent) = inr (Some wire).
Proof.
  unfold reconcile_snapshot. intros H Ho. destruct (au_Snapshot authority _) as [e|wire] eqn:Hs.
  { unfold failReconcile in H. destruct (ps_FailReconcile _ _ s) as [[|[]] ?]; injection H as <- <-; simpl in Ho; congruence. }
  destruct (validateSnapshot wire intent held) as [e|snap] eqn:Hv; [injection H as <- <-; simpl in Ho; congruence|].
  destruct wire as [wire|]; [|done]. by exists wire, snap.
Qed.

Lemma reconcile_audited token f held historical s out s' :
  reconcile marshal_pc sha token authority f held historical s = (out, s') → store_wf s →
  out.1 = Some AuditedSnapshot →
  ∃ intent wire snap, in_Key intent = mkKey (pc_TenantId (r_Command held)) (pc_InteractionId (r_Command held)) ∧
    validateSnapshot (Some wire) intent held = inr snap ∧
    au_Snapshot authority (snapshot_request intent) = inr (Some wire) ∧
    ∃ e, au_Replay authority (replay_request intent) = inl e ∧ ErrUnknownHistory ∈ e.
Proof.
  unfold reconcile. intros H Hwf Ho. destruct (negb _); [injection H as <- <-; simpl in Ho; congruence|].
  destruct (ps_BeginReconcile _ held s) as [begun s1] eqn:Hb. apply BeginReconcile_ok in Hb as (_ & _ & Hint); [|done].
  destruct begun as [e|[intent []]]; [injection H as <- <-; simpl in Ho; congruence| |injection H as <- <-; simpl in Ho; congruence].
  destruct (Hint intent eq_refl) as [Hkey _]. simpl in Hkey.
  destruct (au_Replay authority _) as [e|replay] eqn:Hr.
  - case_decide as Hu.
    + apply snapshot_audited in H as (wire & snap & ? & ?); [|done]. by exists intent, wire, snap; eauto 10.
    + unfold failReconcile in H. destruct (ps_FailReconcile _ _ s1) as [[|[]] ?]; injection H as <- <-; simpl in Ho; congruence.
  - destruct (validateReplay _ _ replay intent held) as [e|rs]; [injection H as <- <-; simpl in Ho; congruence|].
    destruct historical.
    + destruct rs; [injection H as <- <-; simpl in Ho; congruence|]. destruct (ps_InstallHistorical _ _ s1) as [[|[]] ?];
        injection H as <- <-; simpl in Ho; congruence.
    + destruct (foldRecords f rs); [|injection H as <- <-; simpl in Ho; congruence].
      destruct (ps_InstallReconcile _ _ _ s1) as [[|[]] ?]; injection H as <- <-; simpl in Ho; congruence.
Qed.

Lemma snapshot_wire_spec wire intent held snap c :
  validateSnapshot (Some wire) intent held = inr snap → Canonical marshal_pc sha c = Some held →
  in_Key intent = mkKey (pc_TenantId c) (pc_InteractionId c) →
  sr_TenantId wire = pc_TenantId c ∧ sr_InteractionId wire = pc_InteractionId c ∧
  (pc_AggregateVersion c <= sr_AggregateVersion wire)%N.
Proof.
  intros Hv Hcan Hkey. pose proof (validateSnapshot_spec _ _ _ _ Hv) as (Hk & _ & _ & _ & Hver).
  assert (sn_Fold snap = mkFold (sr_TenantId wire) (sr_InteractionId wire) (sr_AggregateVersion wire)
            (f_Identity (sn_Fold snap)) (f_Participants (sn_Fold snap)) (f_SnapshotProvenance (sn_Fold snap))) as Hs.
  { unfold validateSnapshot in Hv. repeat case_match; simplify_eq. done. }
  unfold record_version in Hver. rewrite Hs in Hk, Hver. rewrite (Canonical_command _ _ _ _ Hcan) in Hver.
  rewrite Hkey in Hk. by injection Hk as <- <-.
Qed.

(** C27: History is replaced by a snapshot only on the authority's own word: when a
    command ends as an audited snapshot, the authority was asked, on the subjects
    of the command's tenant and interaction and under one request id, to replay
    the gap and answered that it no longer knows that history, and then gave the
    snapshot that was installed, of this interaction and at or past the command. *)
Theorem snapshot_only_when_history_unknown token principal c s out s' :
  Apply marshal_pc sha token authority principal c s = (out, s') → store_wf s → out.1 = Some AuditedSnapshot →
  ∃ id wire, history_forgotten c id wire ∧ sr_TenantId wire = pc_TenantId c ∧
    sr_InteractionId wire = pc_InteractionId c ∧ (pc_AggregateVersion c <= sr_AggregateVersion wire)%N.
Proof.
  unfold Apply. intros H Hwf Ho. destruct (Canonical marshal_pc sha c) as [record|] eqn:Hcan;
    [|injection H as <- <-; simpl in Ho; congruence].
  case_match; [injection H as <- <-; simpl in Ho; congruence|].
  destruct (ps_Load _ _ s) as [loaded s1] eqn:Hload. apply Load_ok in Hload as (Hwf1 & _); [|done].
  assert (∃ f historical, reconcile marshal_pc sha token authority f record historical s1 = (out, s')) as (f & hist & Hrec).
  { destruct loaded as [e|[f retained]]; [injection H as <- <-; simpl in Ho; congruence|].
    case_match; [destruct retained as [id|]; [|by eauto]|].
    - case_match; [injection H as <- <-; simpl in Ho; congruence|].
      destruct (ps_RecordPoison _ _ s1) as [[] ?]; injection H as <- <-; simpl in Ho; congruence.
    - case_match; [by eauto|]. destruct (foldRecords f [record]); [|injection H as <- <-; simpl in Ho; congruence].
      destruct (ps_Install _ _ _ s1) as [[|[]] ?]; injection H as <- <-; simpl in Ho; congruence. }
  apply reconcile_audited in Hrec as (intent & wire & snap & Hkey & Hv & Hs & e & Hr & Hu); [|done..].
  rewrite (Canonical_command _ _ _ _ Hcan) in Hkey.
  exists (in_Token intent), wire. split; [|by eapply (snapshot_wire_spec wire intent record snap c)].
  pose proof (ask_answered conn ctx client replay_address rq_RequestId (replay_request intent)) as H1.
  pose proof (ask_answered conn ctx client snapshot_address sq_RequestId (snapshot_request intent)) as H2.
  cbn [au_Replay au_Snapshot nats_authority] in Hr, Hs. unfold nats_Replay, nats_Snapshot in Hr, Hs.
  destruct (ask _ _ _ _ _ (Some (replay_request intent))) as [e'|]; [|discriminate Hr]. injection Hr as ->.
  destruct (ask _ _ _ _ _ (Some (snapshot_request intent))) as [|w]; [discriminate Hs|]. injection Hs as ->.
  destruct H1 as [_ H1]. destruct (H1 Hu) as (sub1 & r1 & Ha1 & Hans1 & Hid1 & Ho1).
  destruct H2 as (sub2 & r2 & Ha2 & Hans2 & Hid2 & Ho2).
  unfold replay_request in Ha1, Hans1, Hid1. unfold snapshot_request in Ha2, Hans2, Hid2. rewrite Hkey in *.
  simpl in *.
  exists (in_RequestedFrom intent), (in_RequestedTo intent), (in_ObservedVersion intent), r1, r2, sub1, sub2. by split_and!.
Qed.
End Projector.
