(* ===== verification/ParticipationRuntime.v ===== *)
(** The participation runtime of the projector binary (cmd/projector/main.go
    newParticipationRuntime): the consumer of internal/participationnats with its
    stream, its fetch loop and its readiness, the projector, the PostgreSQL store
    and the NATS client of the authority, put together. *)

From S2P Require Import Prelude Wire Subjects Trace PgTx DesiredParticipation DesiredTheorems ParticipationConsumer.
From S2P Require Import ParticipationPg ParticipationPgOK ParticipationCorrect ParticipationClient.

(** * The stream *)

Definition StreamName : string := "PARTICIPATION_COMMANDS".
Definition commandSubjects : string := "corex.participation.commands.v1.*.*".

(** Storage and retention as their numbers: 0 is file storage, 2 the work queue. *)
Record CommandStream := mkCommandStream {
  cs_Name : string; cs_Subjects : list string; cs_Storage : N; cs_Retention : N; cs_Duplicates : Z }.
#[export] Instance CommandStream_eq_dec : EqDecision CommandStream.
Proof. solve_decision. Defined.

Definition commandStream : CommandStream := mkCommandStream StreamName [commandSubjects] 0 2 600000000000.

(** [StreamInfo]'s answer. *)
Inductive stream_info := InfoNotFound | InfoError | InfoConfig (config : CommandStream).

(** [None] is the nil error; [add] is what [AddStream] answers. *)
Definition EnsureStream (js : bool) (info : stream_info) (add : CommandStream → option part_err) : option part_err :=
  if negb js then Some ErrInvalid
  else match info with
       | InfoNotFound => add commandStream
       | InfoError => Some ErrAuthority
       | InfoConfig c =>
           if negb (bool_decide (cs_Name c = cs_Name commandStream))
              || negb (cs_Retention c =? cs_Retention commandStream)%N
              || negb (cs_Storage c =? cs_Storage commandStream)%N
              || negb (bool_decide (cs_Subjects c = cs_Subjects commandStream))
           then Some ErrInvalid else None
       end.

(** * The consumer *)

(** [Consumer]: its grant and whether it is ready. *)
Record Consumer := mkConsumer { cn_grant : TransportGrant; cn_ready : bool }.

(** [NewConsumer]: the arguments that may be nil are whether they are set, the
    last is whether the subscription succeeds. *)
Definition NewConsumer (js handler logger : bool) (grant : TransportGrant) (subscribed : bool) : option Consumer :=
  if negb js || negb handler || negb logger || negb (bool_decide (g_ServiceID grant = "corex"))
     || negb (ValidTransportGrant grant CapabilityWrite)
  then None
  else if subscribed then Some (mkConsumer grant true) else None.

Definition Consumer_Ready (c : option Consumer) : bool := match c with Some c => cn_ready c | None => false end.
Definition Consumer_Close (c : Consumer) : Consumer := mkConsumer (cn_grant c) false.

(** A fetched message with the environment of its handler: the id generator's
    token, the connection and the context of the authority's client. *)
Record arrival := mkArrival { a_msg : PMsg; a_token : string; a_conn : roundtrip; a_ctx : Context }.

(** What [Fetch] returns: a time-out, an error with [ctx.Err() != nil], messages. *)
Inductive fetch := FTimeout | FError (ended : bool) | FMessages (messages : list arrival).

(** [Run] is still going, or returned nil or the error. *)
Inductive run_state := Running | Returned (err : bool).

Section Run.
Context (marshal_pc : ParticipationCommand → option string) (sha : string → string).
Context (unmarshal_pc : string → option (ParticipationCommand * bool)).
Context {S : Type} {PS : PStore S}.
Context `{!Codec ReplayParticipationRequest ReplayResponse} `{!Codec SnapshotParticipationRequest SnapshotResponse}.
Context (client : NatsClient).

Definition on_message (grant : TransportGrant) (a : arrival) (s : S) : disposition * S :=
  handle marshal_pc sha unmarshal_pc grant (a_token a) (nats_authority (a_conn a) (a_ctx a) client) (a_msg a) s.

(** The messages of one fetch: what was handled, in which state of the store. *)
Fixpoint handle_all (grant : TransportGrant) (ms : list arrival) (s : S) : list (arrival * S) * S :=
  match ms with
  | [] => ([], s)
  | a :: rest => let '(log, s') := handle_all grant rest (on_message grant a s).2 in ((a, s) :: log, s')
  end.

(** The loop of [Run] over the answers of [Fetch]. *)
Fixpoint Consumer_Run (c : Consumer) (fetches : list fetch) (s : S) : run_state * Consumer * list (arrival * S) * S :=
  match fetches with
  | [] => (Running, c, [], s)
  | FTimeout :: rest => Consumer_Run c rest s
  | FError ended :: _ => (Returned (negb ended), mkConsumer (cn_grant c) false, [], s)
  | FMessages ms :: rest =>
      let '(log, s1) := handle_all (cn_grant c) ms s in
      let '(r, c', log', s2) := Consumer_Run c rest s1 in (r, c', log ++ log', s2)
  end.
End Run.

(** [newParticipationRuntime]: the grants it is built with. *)
Definition readGrant : TransportGrant := mkGrant "relaypoint" CapabilityRead "".
Definition writeGrant : TransportGrant := mkGrant "corex" CapabilityWrite "".
Definition authorityTimeout : Z := 5000000000.

Definition newParticipationRuntime (nc : option NatsConn) (js logger subscribed : bool) : option (NatsClient * Consumer) :=
  client ← NewNatsClient nc authorityTimeout readGrant;
  consumer ← NewConsumer js true logger writeGrant subscribed;
  Some (client, consumer).

(** * Theorems *)

Lemma runtime_consumer nc js logger subscribed client consumer :
  newParticipationRuntime nc js logger subscribed = Some (client, consumer) → consumer = mkConsumer writeGrant true.
Proof.
  unfold newParticipationRuntime. destruct (NewNatsClient _ _ _); [|done]. simpl.
  unfold NewConsumer. repeat case_match; intros; simplify_eq/=; done.
Qed.

Section Safe.
Context (marshal_pc : ParticipationCommand → option string) (sha : string → string).
Context (unmarshal_pc : string → option (ParticipationCommand * bool)).
Context {S : Type} {PS : PStore S} {PSOK : PStoreOK S}.
Context `{!Codec ReplayParticipationRequest ReplayResponse} `{!Codec SnapshotParticipationRequest SnapshotResponse}.
Context (client : NatsClient).

#[local] Abbreviation on_message := (on_message marshal_pc sha unmarshal_pc client).
#[local] Abbreviation handle_all := (handle_all marshal_pc sha unmarshal_pc client).
#[local] Abbreviation Consumer_Run := (Consumer_Run marshal_pc sha unmarshal_pc client).

(** The store after [s] in a run: well formed, and nothing moved back. *)
Definition later (s s' : S) : Prop := store_wf s' ∧ head_recorded s' ∧ advances s s'.

Lemma later_trans s1 s2 s3 : later s1 s2 → later s2 s3 → later s1 s3.
Proof. intros (_ & _ & H1) (? & ? & H2). split_and!; [done..|by etrans]. Qed.

Lemma on_message_later grant a s : later s s → later s (on_message grant a s).2.
Proof.
  intros (Hwf & Hh & Hr). unfold ParticipationRuntime.on_message, handle. destruct (admitted _ _ _ _) as [c|]; [|done].
  destruct (Apply _ _ _ _ _ c s) as [out s'] eqn:E. destruct (Apply_outcome _ _ _ _ _ _ _ _ _ E Hwf) as [? Ho]. simpl.
  destruct (sound_outcome_good _ _ _ _ Hwf Hh Ho) as [? ?]. done.
Qed.

Lemma later_self s s' : later s s' → later s' s'.
Proof. intros (? & ? & _). done. Qed.

(** Every handled message found a well-formed store, which the rest of the run
    only advanced. *)
Definition logged (grant : TransportGrant) (log : list (arrival * S)) (s' : S) : Prop :=
  ∀ a s0, (a, s0) ∈ log → later s0 s0 ∧ later (on_message grant a s0).2 s'.

Lemma handle_all_later grant ms s log s' :
  handle_all grant ms s = (log, s') → later s s → later s s' ∧ logged grant log s'.
Proof.
  revert s log s'. induction ms as [|a ms IH]; intros s log s'; simpl.
  { intros [= <- <-] Hs. split; [done|]. by intros a s0 ?%elem_of_nil. }
  destruct (handle_all grant ms _) as [log1 s1] eqn:E. intros [= <- <-] Hs.
  pose proof (on_message_later grant a s Hs) as Hm. destruct (IH _ _ _ E (later_self _ _ Hm)) as [H1 H2].
  split; [by eapply later_trans|]. intros b s0 [[= -> ->]|Hb]%elem_of_cons; [done|by apply H2].
Qed.

Lemma Run_later c fetches s r c' log s' :
  Consumer_Run c fetches s = (r, c', log, s') → later s s → later s s' ∧ logged (cn_grant c) log s'.
Proof.
  revert s r c' log s'. induction fetches as [|[|ended|ms] fetches IH]; intros s r c' log s'; simpl.
  - intros [= <- <- <- <-] Hs. split; [done|]. by intros a s0 ?%elem_of_nil.
  - apply IH.
  - intros [= <- <- <- <-] Hs. split; [done|]. by intros a s0 ?%elem_of_nil.
  - destruct (handle_all _ ms s) as [log1 s1] eqn:E1. destruct (Consumer_Run c fetches s1) as [[[r1 c1] log2] s2] eqn:E2.
    intros [= <- <- <- <-] Hs. destruct (handle_all_later _ _ _ _ _ E1 Hs) as [H1 L1].
    destruct (IH _ _ _ _ _ E2 (later_self _ _ H1)) as [H2 L2]. split; [by eapply later_trans|].
    intros a s0 [Ha|Ha]%elem_of_app; [|by apply L2]. destruct (L1 a s0 Ha). split; [done|by eapply later_trans].
Qed.

(** The loop ends exactly at an error of [Fetch], and is ready until then. *)
Lemma Run_ends c fetches s r c' log s' :
  Consumer_Run c fetches s = (r, c', log, s') →
  (r = Running ↔ ∀ ended, FError ended ∉ fetches) ∧ cn_ready c' = (if r is Running then cn_ready c else false).
Proof.
  revert s r c' log s'. induction fetches as [|[|ended|ms] fetches IH]; intros s r c' log s'; simpl.
  - intros [= <- <- <- <-]. split; [|done]. split; [|done]. intros _ ended. apply not_elem_of_nil.
  - intros H. destruct (IH _ _ _ _ _ H) as [-> ?]. split; [|done]. set_solver.
  - intros [= <- <- <- <-]. split; [|done]. split; [done|]. intros H. destruct (H ended). by left.
  - destruct (handle_all _ ms s) as [log1 s1]. destruct (Consumer_Run c fetches s1) as [[[r1 c1] log2] s2] eqn:E2.
    intros [= <- <- <- <-]. destruct (IH _ _ _ _ _ E2) as [-> ?]. split; [|done]. set_solver.
Qed.

Lemma nats_errors_set conn ctx : authority_errors_set (nats_authority conn ctx client).
Proof.
  split; intros q; cbn [au_Replay au_Snapshot nats_authority]; unfold nats_Replay, nats_Snapshot;
    [pose proof (ask_answered conn ctx client replay_address rq_RequestId q) as H
    |pose proof (ask_answered conn ctx client snapshot_address sq_RequestId q) as H];
    destruct (ask _ _ _ _ _ (Some q)); [|done| |done]; destruct H as [H _]; by intros [= ->].
Qed.
End Safe.

Section Deployed.
Context (marshal_pc : ParticipationCommand → option string) (sha : string → string).
Context (unmarshal_pc : string → option (ParticipationCommand * bool)).
Context (faults : nat → fault) (new_id : nat → string) (payload : string → N → string → string).
Context `{!Codec ReplayParticipationRequest ReplayResponse} `{!Codec SnapshotParticipationRequest SnapshotResponse}.

#[local] Existing Instances pg_store pg_store_ok.
#[local] Abbreviation deployed_store := (pg_store faults new_id payload).
#[local] Abbreviation deployed_run client := (Consumer_Run marshal_pc sha unmarshal_pc (PS := deployed_store) client).

(** C12: The participation runtime, from a fresh database, over anything its
    consumer fetches, anything its connection to the authority answers and any
    failure of the database: every message that was acknowledged carried a command
    of its own subject that the stored head still covers at the end, or that lost
    its compare-and-set; and the loop runs, and reports ready, until [Fetch] fails
    and no longer. *)
Theorem runtime_acknowledges_covered nc js logger subscribed client consumer fetches r consumer' log s' :
  newParticipationRuntime nc js logger subscribed = Some (client, consumer) →
  deployed_run client consumer fetches (mkPgState pg_empty 0) = (r, consumer', log, s') →
  pg_wf (st_db s') ∧
  (∀ a s0, (a, s0) ∈ log →
     (on_message marshal_pc sha unmarshal_pc (PS := deployed_store) client writeGrant a s0).1 = Ack →
     ∃ c, unmarshal_pc (m_Data (a_msg a)) = Some (c, false) ∧
       m_Subject (a_msg a) = "corex.participation.commands.v1." +:+ pc_TenantId c +:+ "." +:+ pc_InteractionId c ∧
       ((pc_AggregateVersion c <= f_Version (db_fold (st_db s') (key_of c)))%N ∨
        (Apply marshal_pc sha (PS := deployed_store) (a_token a) (nats_authority (a_conn a) (a_ctx a) client)
           (mkPrincipal (pc_TenantId c) writeGrant) c s0).1.1 = Some CompareAndSetLost)) ∧
  (r = Running ↔ ∀ ended, FError ended ∉ fetches) ∧ (Consumer_Ready (Some consumer') = true ↔ r = Running).
Proof.
  intros Hnew Hrun. pose proof (runtime_consumer _ _ _ _ _ _ Hnew) as ->.
  assert (later (PSOK := pg_store_ok faults new_id payload) (mkPgState pg_empty 0) (mkPgState pg_empty 0)) as Hstart.
  { split_and!; [apply pg_empty_wf|by intros k ?|done]. }
  destruct (Run_later _ _ _ _ _ _ _ _ _ _ _ Hrun Hstart) as [(Hwf & _) Hlog].
  destruct (Run_ends _ _ _ _ _ _ _ _ _ _ _ Hrun) as [Hends Hready].
  split_and!; [exact Hwf| |exact Hends|simpl; rewrite Hready; by destruct r].
  intros a s0 Ha Hack. destruct (Hlog a s0 Ha) as [(Hwf0 & _) (_ & _ & Hadv)]. cbn [cn_grant] in Hadv.
  destruct (on_message _ _ _ client writeGrant a s0) as [d s1] eqn:E. simpl in Hack. subst d.
  destruct (acknowledged_command_is_covered _ _ _ _ _ _ _ _ _ E Hwf0 (pg_errors_set _ _ _) (nats_errors_set _ _ _))
    as (c & Hu & _ & Hs & Hc).
  exists c. do 2 (split; [done|]). destruct Hc as [Hc|[Hc _]]; [left|by right].
  destruct (Hadv (key_of c)) as [Hv _]. simpl in Hc, Hv |- *. lia.
Qed.
End Deployed.
