(* ===== verification/ParticipationProgress.v ===== *)
(** Convergence of the desired-participation projector on PostgreSQL: while the
    database answers and the authority replays its history, the commands of any
    interactions may arrive in any order, repeated and with gaps, and every one of
    them is settled; what is stored of an interaction is its history up to the
    greatest version that arrived. *)

From S2P Require Import Prelude Wire Subjects Trace PgTx DesiredParticipation DesiredTheorems ParticipationConsumer.
From S2P Require Import ParticipationPg ParticipationPgOK ParticipationCorrect ParticipationClient ParticipationRuntime.

(** * Histories *)

(** The authority's histories: canonical commands of their interaction, numbered
    from 1, few enough for a bigint, no event id twice in a tenant. *)
Record authentic (marshal_pc : ParticipationCommand → option string) (sha : string → string)
    (hist : Key → list PRecord) : Prop := {
  au_canonical k i r : hist k !! i = Some r →
    Canonical marshal_pc sha (r_Command r) = Some r ∧ record_key r = k ∧ record_version r = N.of_nat (S i);
  au_short k : bigint (N.of_nat (length (hist k))) = true;
  au_events k k' i j r r' : k_TenantID k = k_TenantID k' → hist k !! i = Some r → hist k' !! j = Some r' →
    ei_EventID (r_Identity r) = ei_EventID (r_Identity r') → k = k' ∧ i = j;
}.

Section Converge.
Context (marshal_pc : ParticipationCommand → option string) (sha : string → string).
Context (unmarshal_pc : string → option (ParticipationCommand * bool)).
Context (faults : nat → fault) (new_id : nat → string) (payload : string → N → string → string).
Context (hist : Key → list PRecord).
Hypothesis Hhist : authentic marshal_pc sha hist.
(** A SHA-256 digest is 32 bytes. *)
Hypothesis Hsha : ∀ b, String.length (sha b) = 32.

#[local] Abbreviation must := (tx_must (E := errs) faults).

Lemma entry_canonical k i r :
  hist k !! i = Some r → Canonical marshal_pc sha (r_Command r) = Some r ∧ record_key r = k ∧ record_version r = N.of_nat (S i).
Proof. apply (au_canonical _ _ _ Hhist). Qed.

Lemma entry_hash k i r : hist k !! i = Some r → String.length (ei_Hash (r_Identity r)) = 32.
Proof.
  intros [Hc _]%entry_canonical. revert Hc. generalize (r_Command r). unfold Canonical.
  intros c. repeat case_match; try done; intros [= <-]; apply Hsha.
Qed.

Lemma entry_small k i r : hist k !! i = Some r → bigint (N.of_nat (S i)) = true.
Proof.
  intros Hi%lookup_lt_Some. pose proof (au_short _ _ _ Hhist k) as Hs. unfold bigint in *. apply N.ltb_lt in Hs. apply N.ltb_lt. lia.
Qed.

(** * The tables that hold a prefix of each history *)

Abbreviation marks := (Key → nat).
Definition upd (m : marks) (k : Key) (n : nat) : marks := λ k', if decide (k' = k) then n else m k'.

Definition version_row (r : PRecord) : VersionRow :=
  mkVersionRow (ei_EventID (r_Identity r)) (ei_Hash (r_Identity r)) (Some (ei_Body (r_Identity r))) "command".

(** Entry [i] of the history of [k] is stored. *)
Definition stored (m : marks) (k : Key) (i : nat) (r : PRecord) : Prop := i < m k ∧ hist k !! i = Some r.

Record tables (m : marks) (d : Pg) : Prop := {
  tb_bound k : m k ≤ length (hist k);
  tb_version k v row : pg_versions d !! (k, v) = Some row ↔
    ∃ i r, stored m k i r ∧ v = N.of_nat (S i) ∧ row = version_row r;
  tb_event t e row : pg_events d !! (t, e) = Some row →
    ∃ k i r, stored m k i r ∧ t = k_TenantID k ∧ e = ei_EventID (r_Identity r) ∧
      el_interaction row = k_InteractionID k ∧ el_version row = N.of_nat (S i);
  tb_folded k p : is_Some (pg_folded d !! (k, p)) ↔ wants p (take (m k) (hist k)) = Some true;
}.

Definition head_at (k : Key) (n : nat) : HeadRow :=
  match n with
  | O => no_head
  | S j => match hist k !! j with
           | Some r => mkHeadRow (N.of_nat (S j)) (Some (ei_EventID (r_Identity r))) (Some (ei_Hash (r_Identity r))) None None None
           | None => no_head
           end
  end.

Record holds (m : marks) (used : list string) (d : Pg) : Prop := {
  hl_tables : tables m d;
  hl_head k : head_of d k = head_at k (m k);
  hl_pending t e row : pg_pending d !! (t, e) = Some row →
    ∃ k i r, stored m k i r ∧ t = k_TenantID k ∧ e = ei_EventID (r_Identity r) ∧
      pi_interaction row = k_InteractionID k ∧ pi_version row = N.of_nat (S i);
  hl_intent t tok row : pg_intents d !! (t, tok) = Some row → ri_status row ≠ pending ∧ tok ∈ used;
}.

Lemma upd_same m k n : upd m k n k = n.
Proof. unfold upd. by rewrite decide_True. Qed.
Lemma upd_other m k n k' : k' ≠ k → upd m k n k' = m k'.
Proof. intros. unfold upd. by rewrite decide_False. Qed.

Lemma stored_upd m k n k' i r : m k ≤ n → stored m k' i r → stored (upd m k n) k' i r.
Proof. intros Hn [Hi Hr]. split; [|done]. unfold upd. case_decide; [subst; lia|done]. Qed.

Lemma stored_upd_inv m k n k' i r : stored (upd m k n) k' i r → stored m k' i r ∨ k' = k ∧ m k ≤ i < n.
Proof.
  unfold stored, upd. intros [Hi Hr]. case_decide as Hk; [subst|by left]. destruct (decide (i < m k)); [by left|right; split; [done|lia]].
Qed.

Lemma tables_ext m m' d : (∀ k, m k = m' k) → tables m d → tables m' d.
Proof.
  intros He [H1 H2 H3 H4]. assert (∀ k i r, stored m k i r ↔ stored m' k i r) as Hs by (intros; unfold stored; by rewrite He).
  split.
  - intros k. by rewrite <-He.
  - intros k v row. rewrite H2. by setoid_rewrite Hs.
  - intros t e row (k & i & r & Hst & ?)%H3. exists k, i, r. by rewrite <-Hs.
  - intros k p. by rewrite H4, He.
Qed.

Lemma head_at_version k n : n ≤ length (hist k) → hd_version (head_at k n) = N.of_nat n.
Proof.
  destruct n as [|j]; [done|]. intros Hn. simpl. destruct (hist k !! j) as [r|] eqn:E; [done|]. apply lookup_ge_None in E. lia.
Qed.

(** ** Freshness of the next entries *)

Section Fresh.
Context (m : marks) (d : Pg) (k : Key) (i : nat) (r : PRecord).
Context (Htb : tables m d) (Hr : hist k !! i = Some r) (Hi : m k ≤ i).

Lemma fresh_stored k' j r' :
  stored m k' j r' → k_TenantID k' = k_TenantID k → ei_EventID (r_Identity r') = ei_EventID (r_Identity r) → False.
Proof. intros [Hj Hr'] Ht He. destruct (au_events _ _ _ Hhist _ _ _ _ _ _ Ht Hr' Hr He) as [-> ->]. lia. Qed.

Lemma fresh_number k' j r' :
  stored m k' j r' → k_TenantID k' = k_TenantID k → k_InteractionID k' = k_InteractionID k →
  N.of_nat (S j) = N.of_nat (S i) → False.
Proof. intros [Hj _] Ht Hint Hn. assert (k' = k) as -> by (destruct k', k; simpl in *; congruence). lia. Qed.

Lemma fresh_version : pg_versions d !! (k, N.of_nat (S i)) = None.
Proof.
  destruct (pg_versions d !! _) as [row|] eqn:E; [|done].
  apply (tb_version _ _ Htb) in E as (j & r' & [Hj _] & Hv & _). lia.
Qed.

Lemma fresh_event : pg_events d !! (k_TenantID k, ei_EventID (r_Identity r)) = None.
Proof.
  destruct (pg_events d !! _) as [row|] eqn:E; [|done].
  apply (tb_event _ _ Htb) in E as (k' & j & r' & Hst & Ht & He & _). destruct (fresh_stored k' j r' Hst); congruence.
Qed.

Lemma fresh_event_version : event_version_used d (k_TenantID k) (k_InteractionID k) (N.of_nat (S i)) = false.
Proof.
  unfold event_version_used. apply bool_decide_eq_false. intros ([t e] & row & Hrow & Ht & Hint & Hv). simpl in Ht. subst t.
  apply (tb_event _ _ Htb) in Hrow as (k' & j & r' & Hst & Ht & _ & Hint' & Hv').
  destruct (fresh_number k' j r' Hst); congruence.
Qed.
End Fresh.

(** * Statements that succeed *)

(** Nothing but the ledgers and the participants changes. *)
Definition rest (d d' : Pg) : Prop :=
  pg_heads d' = pg_heads d ∧ pg_pending d' = pg_pending d ∧ pg_intents d' = pg_intents d.

Lemma install_record_must m k i r d :
  tables m d → hist k !! i = Some r → m k = i →
  must (k_TenantID k) (install_record faults r) d (λ _ d', tables (upd m k (S i)) d' ∧ rest d d').
Proof.
  intros Htb Hr Hm. destruct (entry_canonical k i r Hr) as (Hc & Hk & Hv). pose proof (Canonical_identity _ _ _ _ Hc) as Hid.
  pose proof (entry_small k i r Hr) as Hb. unfold install_record, insertLedgers. rewrite Hk, Hv.
  rewrite decide_False by done. apply tx_must_bind, tx_must_bind. unfold insert_version. apply tx_must_write.
  { rewrite Hb, (fresh_version m d k i Htb) by lia. by rewrite bool_decide_eq_true_2, andb_true_r by done. }
  unfold insert_event. apply tx_must_write.
  { cbn [pg_events set_versions]. rewrite Hb, (fresh_event m d k i r Htb Hr) by lia.
    rewrite bool_decide_eq_true_2 by done. rewrite !andb_true_r.
    pose proof (fresh_event_version m d k i r Htb Hr ltac:(lia)) as Hf. unfold event_version_used in *. simpl. by rewrite Hf. }
  assert (∀ folded, (∀ k' p, is_Some (folded !! (k', p)) ↔
      if decide (k' = k ∧ pc_ParticipantId (r_Command r) = p) then pc_DesiredState (r_Command r) = ASSIGNED
      else is_Some (pg_folded d !! (k', p))) →
    ∀ d', pg_versions d' = <[(k, N.of_nat (S i)) := version_row r]> (pg_versions d) →
    pg_events d' = <[(k_TenantID k, ei_EventID (r_Identity r)) := mkEventRow (k_InteractionID k) (N.of_nat (S i)) (ei_Hash (r_Identity r))]> (pg_events d) →
    pg_folded d' = folded → tables (upd m k (S i)) d') as Hnew.
  { intros folded Hf d' Hvs Hes <-. destruct Htb as [H1 H2 H3 H4]. apply lookup_lt_Some in Hr as Hlt. split.
    - intros k'. unfold upd. case_decide; [subst; lia|apply H1].
    - intros k' v row. rewrite Hvs. destruct (decide ((k', v) = (k, N.of_nat (S i)))) as [[= -> ->]|Hne].
      + rewrite lookup_insert_eq. split.
        * intros [= <-]. exists i, r. split_and!; [|done..]. split; [rewrite upd_same; lia|done].
        * intros (j & r' & [Hj Hr'] & Hv' & ->). assert (j = i) as -> by lia. congruence.
      + rewrite lookup_insert_ne by congruence. rewrite H2. split.
        * intros (j & r' & Hst & ?). exists j, r'. split; [by apply stored_upd; [lia|]|done].
        * intros (j & r' & Hst & -> & ?). exists j, r'. split; [|done].
          apply stored_upd_inv in Hst as [?|[-> ?]]; [done|]. assert (j = i) as -> by lia. done.
    - intros t e row. rewrite Hes. destruct (decide ((t, e) = (k_TenantID k, ei_EventID (r_Identity r)))) as [[= -> ->]|Hne].
      + rewrite lookup_insert_eq. intros [= <-]. exists k, i, r. split_and!; [|done..]. split; [rewrite upd_same; lia|done].
      + rewrite lookup_insert_ne by congruence. intros (k' & j & r' & Hst & ?)%H3. exists k', j, r'.
        split; [by apply stored_upd; [lia|]|done].
    - intros k' p. rewrite Hf. unfold upd. destruct (decide (k' = k)) as [->|Hne].
      + rewrite (take_S_r (hist k) i r Hr), wants_snoc, <-Hm. destruct (decide (pc_ParticipantId (r_Command r) = p)) as [Hp|Hp].
        * rewrite decide_True by done. split; [intros ->; by rewrite bool_decide_eq_true_2|by intros [= ?%bool_decide_eq_true]].
        * rewrite decide_False by naive_solver. apply H4.
      + rewrite decide_False by naive_solver. apply H4. }
  case_decide as Has.
  - apply tx_must_write; [by rewrite Hb|]. split; [|done]. eapply Hnew; [|done..].
    intros k' p. simpl. case_decide as Hkp.
    + destruct Hkp as [-> <-]. rewrite lookup_insert_eq. split; [done|eauto].
    + rewrite lookup_insert_ne; [done|]. intros Heq. injection Heq as <- <-. by apply Hkp.
  - apply tx_must_write; [done|]. split; [|done]. eapply Hnew; [|done..].
    intros k' p. simpl. case_decide as Hkp.
    + destruct Hkp as [-> <-]. rewrite lookup_delete_eq. split; [by intros [? ?]|done].
    + rewrite lookup_delete_ne; [done|]. intros Heq. injection Heq as <- <-. by apply Hkp.
Qed.

(** [rs] is the history of [k] from [n] on. *)
Definition continues (k : Key) (n : nat) (rs : list PRecord) : Prop := ∀ i r, rs !! i = Some r → hist k !! (n + i) = Some r.

Lemma continues_cons k n r rs : continues k n (r :: rs) → hist k !! n = Some r ∧ continues k (S n) rs.
Proof.
  intros H. split; [rewrite <-(Nat.add_0_r n); by apply H|]. intros i r' Hi.
  replace (S n + i) with (n + S i) by lia. by apply H.
Qed.

Lemma install_records_must k rs m d :
  tables m d → continues k (m k) rs →
  must (k_TenantID k) (install_records faults rs) d (λ _ d', tables (upd m k (m k + length rs)) d' ∧ rest d d').
Proof.
  revert m d. induction rs as [|r rs IH]; intros m d Htb Hc; simpl.
  { apply tx_must_ret. split; [|done]. eapply tables_ext; [|exact Htb]. intros k'. unfold upd. case_decide; [subst; lia|done]. }
  apply continues_cons in Hc as [Hr Hc]. apply tx_must_bind.
  eapply tx_must_mono; [by apply (install_record_must m k (m k) r d)|]. intros _ d1 [Htb1 (Hh1 & Hp1 & Hi1)].
  eapply tx_must_mono; [apply (IH (upd m k (S (m k))) d1 Htb1); by rewrite upd_same|].
  intros _ d2 [Htb2 (Hh2 & Hp2 & Hi2)]. split; [|split_and!; congruence].
  eapply tables_ext; [|exact Htb2]. intros k'.
  destruct (decide (k' = k)) as [->|Hne]; [rewrite !upd_same; simpl; lia|by rewrite !upd_other].
Qed.

Lemma installRecords_must k rs m d fin r :
  tables m d → continues k (m k) rs → is_Some (pg_heads d !! k) → last rs = Some r →
  f_Identity fin = r_Identity r → key_of_fold fin = k → f_Version fin = N.of_nat (m k + length rs) →
  must (k_TenantID k) (installRecords faults rs fin) d
    (λ _ d', tables (upd m k (m k + length rs)) d' ∧
       (∀ k', head_of d' k' = if decide (k' = k) then head_at k (m k + length rs) else head_of d k') ∧
       pg_pending d' = pg_pending d ∧ pg_intents d' = pg_intents d).
Proof.
  intros Htb Hc [h Hh] Hlast Hid Hk Hv. rewrite last_lookup in Hlast. unfold installRecords. apply tx_must_bind.
  eapply tx_must_mono; [by apply install_records_must|]. intros _ d1 [Htb1 (Hh1 & Hp1 & Hi1)].
  pose proof (Hc _ _ Hlast) as Hr. apply lookup_lt_Some in Hlast as Hlt.
  assert (m k + length rs = S (m k + pred (length rs))) as Hn by lia. rewrite Hn in *.
  assert (f_TenantID fin = k_TenantID k) as -> by (by rewrite <-Hk).
  apply tx_must_write; [rewrite Hv; by rewrite (entry_small _ _ _ Hr)|].
  split; [|split; [|done]].
  - destruct Htb1 as [H1 H2 H3 H4]. split; assumption.
  - intros k'. unfold head_of. simpl. rewrite Hh1, Hk. case_decide as Hd.
    + subst k'. rewrite lookup_alter_eq, Hh. simpl. by rewrite Hr, Hv, Hid.
    + by rewrite lookup_alter_ne.
Qed.

(** ** Heads and loads *)

(** A lock inserts the head's row at most. *)
Definition locked (k : Key) (d d' : Pg) : Prop :=
  (∀ k', head_of d' k' = head_of d k') ∧ is_Some (pg_heads d' !! k) ∧ pg_folded d' = pg_folded d ∧
  pg_versions d' = pg_versions d ∧ pg_events d' = pg_events d ∧ pg_pending d' = pg_pending d ∧ pg_intents d' = pg_intents d.

Lemma locked_tables k m d d' : locked k d d' → tables m d → tables m d'.
Proof. intros (_ & _ & Hf & Hv & He & _) [H1 H2 H3 H4]. split; intros *; rewrite ?Hf, ?Hv, ?He; auto. Qed.

Lemma locked_holds k m used d d' : locked k d d' → holds m used d → holds m used d'.
Proof.
  intros Hl [H1 H2 H3 H4]. pose proof Hl as (Hh & _ & _ & _ & _ & Hp & Hi).
  split; [by eapply locked_tables|..]; intros *; rewrite ?Hh, ?Hp, ?Hi; [apply H2|apply H3|apply H4].
Qed.

Lemma lockHead_must k d :
  must (k_TenantID k) (lockHead faults k) d (λ v d', v = hd_version (head_of d k) ∧ locked k d d').
Proof.
  unfold lockHead. apply tx_must_bind, tx_must_write; [done|]. apply tx_must_bind, tx_must_query.
  unfold locked, head_of. destruct (pg_heads d !! k) as [h|] eqn:Hh; simpl.
  - rewrite Hh. apply tx_must_ret. by rewrite Hh.
  - rewrite lookup_insert_eq. apply tx_must_ret. simpl. rewrite lookup_insert_eq. split; [done|]. split_and!; try done.
    intros k'. destruct (decide (k' = k)) as [->|Hne]; [by rewrite lookup_insert_eq, Hh|by rewrite lookup_insert_ne].
Qed.

Lemma loadFold_must k m used d :
  holds m used d →
  must (k_TenantID k) (loadFold faults k) d
    (λ f d', d' = d ∧ f_Version f = N.of_nat (m k) ∧ f_TenantID f = k_TenantID k ∧ f_InteractionID f = k_InteractionID k).
Proof.
  intros Hd. pose proof (hl_head _ _ _ Hd k) as Hhd. pose proof (tb_bound _ _ (hl_tables _ _ _ Hd) k) as Hlen.
  pose proof (head_at_version k (m k) Hlen) as Hv. rewrite <-Hhd in Hv. unfold head_of in *.
  unfold loadFold. apply tx_must_bind, tx_must_query. destruct (pg_heads d !! k) as [h|]; simpl in *.
  - case_match eqn:Hpos.
    + apply N.ltb_lt in Hpos. destruct (m k) as [|j]; [lia|]. simpl in Hhd.
      destruct (hist k !! j) as [r|] eqn:Hr; [|subst h; done]. subst h. simpl.
      apply tx_must_bind, tx_must_query, tx_must_ret. done.
    + apply tx_must_bind, tx_must_query, tx_must_ret. done.
  - apply tx_must_ret. done.
Qed.

Lemma held_Load_must k i r m used s :
  answers_from faults (st_clock s) → holds m used (st_db s) → hist k !! i = Some r →
  ∃ f retained s', Load faults k (record_version r) s = (inr (f, retained), s') ∧ st_db s' = st_db s ∧
    answers_from faults (st_clock s') ∧ f_Version f = N.of_nat (m k) ∧ key_of_fold f = k ∧
    (if decide (i < m k) then ∃ id, retained = Some id ∧ sameIdentity id (r_Identity r) = true else retained = None).
Proof.
  intros Hs Hd Hr. destruct (entry_canonical k i r Hr) as (_ & _ & Hv). rewrite Hv. unfold Load.
  match goal with |- context [withTenantTx _ _ ?tx s] =>
    assert (must (k_TenantID k) tx (st_db s) (λ x d', d' = st_db s ∧ f_Version x.1 = N.of_nat (m k) ∧ key_of_fold x.1 = k ∧
      (if decide (i < m k) then ∃ id, x.2 = Some id ∧ sameIdentity id (r_Identity r) = true else x.2 = None))) as Hm end.
  { apply tx_must_bind. eapply tx_must_mono; [by apply (loadFold_must k m used)|]. intros f d' (-> & Hf & Ht & Hi).
    assert (key_of_fold f = k) as Hk by (unfold key_of_fold; rewrite Ht, Hi; by destruct k).
    change (N.of_nat (S i) =? 0)%N with false. cbv iota. rewrite (entry_small k i r Hr). cbn [negb].
    apply tx_must_bind, tx_must_query, tx_must_ret. cbn [fst snd]. do 3 (split; [done|]).
    pose proof (hl_tables _ _ _ Hd) as Htb. case_decide as Hlt.
    - assert (pg_versions (st_db s) !! (k, N.of_nat (S i)) = Some (version_row r)) as ->.
      { apply (tb_version _ _ Htb). exists i, r. done. }
      cbn [version_row vl_hash]. rewrite (entry_hash k i r Hr). cbn. eexists. split; [done|].
      unfold sameIdentity. simpl. by rewrite !bool_decide_eq_true_2.
    - destruct (pg_versions _ !! _) as [row|] eqn:E; [|done].
      apply (tb_version _ _ Htb) in E as (j & ? & [? _] & ? & _). lia. }
  destruct (run_tx_must faults _ _ s _ Hs Hm) as ([f retained] & s' & Hrun & (? & ? & ? & ?) & Hs').
  exists f, retained, s'. split_and!; done.
Qed.

(** ** Installs *)

(** The records [rs] and the fold [fin] bring [k] to [n]. *)
Definition brings (m : marks) (k : Key) (rs : list PRecord) (fin : Fold) (n : nat) : Prop :=
  continues k (m k) rs ∧ n = m k + length rs ∧ key_of_fold fin = k ∧ f_Version fin = N.of_nat n ∧
  ∃ r, last rs = Some r ∧ f_Identity fin = r_Identity r.

Lemma holds_installed m used k n d d' :
  holds m used d → m k ≤ n → tables (upd m k n) d' →
  (∀ k', head_of d' k' = if decide (k' = k) then head_at k n else head_of d k') →
  (∀ t e row, pg_pending d' !! (t, e) = Some row → pg_pending d !! (t, e) = Some row ∨
     ∃ i r, stored (upd m k n) k i r ∧ t = k_TenantID k ∧ e = ei_EventID (r_Identity r) ∧
       pi_interaction row = k_InteractionID k ∧ pi_version row = N.of_nat (S i)) →
  ∀ used', (∀ t tok row, pg_intents d' !! (t, tok) = Some row → pg_intents d !! (t, tok) = Some row ∨ ri_status row ≠ pending ∧ tok ∈ used') →
  (∀ x, x ∈ used → x ∈ used') → holds (upd m k n) used' d'.
Proof.
  intros [H1 H2 H3 H4] Hn Htb Hh Hp used' Hi Hu. split; [done|..].
  - intros k'. rewrite Hh, H2. unfold upd. case_decide; [by subst|done].
  - intros t e row [(k' & i & r & Hst & ?)%H3|(i & r & ?)]%Hp; [|by exists k, i, r].
    exists k', i, r. split; [by apply stored_upd|done].
  - intros t tok row [[? ?]%H4|?]%Hi; [split; auto|done].
Qed.

Lemma Install_must m used k rs fin n s :
  answers_from faults (st_clock s) → holds m used (st_db s) → brings m k rs fin n →
  ∃ s', Install faults (N.of_nat (m k)) rs fin s = (inr true, s') ∧ holds (upd m k n) used (st_db s') ∧
    answers_from faults (st_clock s').
Proof.
  intros Hs Hd (Hc & -> & Hk & Hv & r & Hlast & Hid). unfold Install. rewrite Hk.
  replace (f_TenantID fin) with (k_TenantID k) by (by rewrite <-Hk).
  match goal with |- context [withTenantTx _ _ ?tx s] =>
    assert (must (k_TenantID k) tx (st_db s) (λ ok d', ok = true ∧ holds (upd m k (m k + length rs)) used d')) as Hm end.
  { apply tx_must_bind. eapply tx_must_mono; [apply lockHead_must|]. intros v d1 [-> Hl].
    rewrite (hl_head _ _ _ Hd), head_at_version, N.eqb_refl by apply (tb_bound _ _ (hl_tables _ _ _ Hd)). cbn [negb].
    apply tx_must_bind. pose proof (locked_holds _ _ _ _ _ Hl Hd) as Hd1.
    eapply tx_must_mono; [apply (installRecords_must k rs m d1 fin r); try done; [apply Hd1|apply Hl]|].
    intros _ d2 (Htb & Hh & Hp & Hi). apply tx_must_ret. split; [done|].
    eapply (holds_installed m used k _ d1); try done; [lia|intros t e row; rewrite Hp; by left|intros t tok row; rewrite Hi; by left]. }
  destruct (run_tx_must faults _ _ s _ Hs Hm) as (? & s' & Hrun & (-> & ?) & Hs'). by exists s'.
Qed.

(** ** Reconciliations *)

Definition begun_pending (k : Key) (held : PRecord) : PendingRow :=
  mkPendingRow (k_InteractionID k) (record_version held) (ei_Hash (r_Identity held)) (ei_Body (r_Identity held)) 0 pending.
Definition begun_intent (intent : Intent) (held : PRecord) : IntentRow :=
  mkIntentRow (k_InteractionID (in_Key intent)) (in_ObservedVersion intent) (in_RequestedFrom intent)
    (in_RequestedTo intent) (ei_EventID (r_Identity held)) (ei_Hash (r_Identity held)) pending.

(** The database of a reconciliation that has begun on [d]. *)
Definition begun (intent : Intent) (held : PRecord) (d : Pg) : Pg :=
  let t := k_TenantID (in_Key intent) in
  set_intents (<[(t, in_Token intent) := begun_intent intent held]> (pg_intents d))
    (set_pending (<[(t, ei_EventID (r_Identity held)) := begun_pending (in_Key intent) held]> (pg_pending d)) d).

Definition gap_intent (token : string) (m : marks) (k : Key) (held : PRecord) : Intent :=
  mkIntent token k (N.of_nat (m k)) (N.of_nat (S (m k))) (record_version held) (r_Identity held).

Lemma no_pending_intent m used d k : holds m used d → pending_intent d k = None.
Proof.
  intros Hd. unfold pending_intent. destruct (head _) as [[id row]|] eqn:E; [|done].
  apply head_Some_elem_of, list_elem_of_filter in E as [(_ & _ & Hst) Hin]. apply elem_of_map_to_list in Hin.
  destruct id as [t tok]. by destruct (hl_intent _ _ _ Hd _ _ _ Hin).
Qed.

Lemma pending_intent_set p d k : pending_intent (set_pending p d) k = pending_intent d k.
Proof. unfold pending_intent. by cbn [pg_intents set_pending]. Qed.

Lemma insert_pending_must m used k i held d :
  holds m used d → hist k !! i = Some held → m k ≤ i →
  must (k_TenantID k) (insert_pending faults k held) d
    (λ ok d', ok = true ∧
       d' = set_pending (<[(k_TenantID k, ei_EventID (r_Identity held)) := begun_pending k held]> (pg_pending d)) d).
Proof.
  intros Hd Hr Hi. destruct (entry_canonical k i held Hr) as (_ & _ & Hv). pose proof (entry_small k i held Hr) as Hb.
  assert (bool_decide (is_Some (pg_pending d !! (k_TenantID k, ei_EventID (r_Identity held)))) = false) as Hnew.
  { apply bool_decide_eq_false. intros [row Hrow]. apply (hl_pending _ _ _ Hd) in Hrow as (k' & j & r' & Hst & Ht & He & _).
    eapply (fresh_stored m k i held); eauto. }
  assert (pending_version_used d (k_TenantID k) (k_InteractionID k) (record_version held) = false) as Hver.
  { apply bool_decide_eq_false. rewrite Hv. intros ([t e] & row & Hrow & Ht & Hint & Hver). simpl in Ht. subst t.
    apply (hl_pending _ _ _ Hd) in Hrow as (k' & j & r' & Hst & Ht & _ & Hint' & Hver').
    eapply (fresh_number m k i); eauto; congruence. }
  unfold insert_pending. apply tx_must_stmt_at. intros _. rewrite bool_decide_eq_true_2, Hnew, Hver by done.
  assert (bigint (record_version held) = true) as -> by (by rewrite Hv).
  rewrite (proj2 (N.ltb_lt 0 (record_version held))) by lia. done.
Qed.

Lemma insert_intent_row intent held d :
  bigint (in_ObservedVersion intent) = true → bigint (in_RequestedFrom intent) = true → bigint (in_RequestedTo intent) = true →
  (0 <? in_RequestedFrom intent)%N = true → (in_RequestedFrom intent <=? in_RequestedTo intent)%N = true →
  pg_intents d !! (k_TenantID (in_Key intent), in_Token intent) = None → pending_intent d (in_Key intent) = None →
  must (k_TenantID (in_Key intent)) (insert_intent faults intent held) d
    (λ ok d', ok = true ∧
       d' = set_intents (<[(k_TenantID (in_Key intent), in_Token intent) := begun_intent intent held]> (pg_intents d)) d).
Proof.
  intros H1 H2 H3 H4 H5 H6 H7. unfold insert_intent. apply tx_must_stmt_at. intros _.
  rewrite H1, H2, H3, H4, H5, bool_decide_eq_true_2 by done. cbn [negb andb].
  rewrite H6, H7, !bool_decide_eq_false_2 by (by intros [? ?]). cbn [orb]. split; reflexivity.
Qed.

Lemma small_le i j : bigint (N.of_nat (S i)) = true → j ≤ S i → bigint (N.of_nat j) = true.
Proof. unfold bigint. rewrite !N.ltb_lt. lia. Qed.
Lemma range_ok n i : n ≤ i → (0 <? N.of_nat (S n))%N = true ∧ (N.of_nat (S n) <=? N.of_nat (S i))%N = true.
Proof. intros. split; [apply N.ltb_lt; lia|apply N.leb_le; lia]. Qed.
Lemma insert_intent_must m used token k i held p d :
  holds m used d → hist k !! i = Some held → m k ≤ i → token ∉ used →
  let intent := gap_intent token m k held in
  must (k_TenantID k) (insert_intent faults intent held) (set_pending p d)
    (λ ok d', ok = true ∧
       d' = set_intents (<[(k_TenantID k, token) := begun_intent intent held]> (pg_intents d)) (set_pending p d)).
Proof.
  intros Hd Hr Hi Htok intent. destruct (entry_canonical k i held Hr) as (_ & _ & Hv). pose proof (entry_small k i held Hr) as Hb.
  apply (insert_intent_row intent held (set_pending p d)); unfold intent, gap_intent; cbn [in_Key in_ObservedVersion in_RequestedFrom in_RequestedTo in_Token pg_intents set_pending]; rewrite ?Hv.
  - apply (small_le i); [done|lia].
  - apply (small_le i); [done|lia].
  - done.
  - apply (range_ok _ _ Hi).
  - apply (range_ok _ _ Hi).
  - destruct (pg_intents d !! _) as [row|] eqn:E; [|done]. by apply (hl_intent _ _ _ Hd) in E as [_ ?].
  - rewrite pending_intent_set. by apply (no_pending_intent m used).
Qed.

Lemma BeginReconcile_must m used k i held token s :
  answers_from faults (st_clock s) → holds m used (st_db s) → hist k !! i = Some held → m k ≤ i → token ∉ used →
  let intent := gap_intent token m k held in
  ∃ d s', BeginReconcile faults intent held s = (inr (intent, true), s') ∧ holds m used d ∧
    st_db s' = begun intent held d ∧ answers_from faults (st_clock s').
Proof.
  intros Hs Hd Hr Hi Htok intent. unfold BeginReconcile.
  match goal with |- context [withTenantTx _ _ ?tx s] =>
    assert (must (k_TenantID k) tx (st_db s) (λ x d', x = (intent, true) ∧ ∃ d, holds m used d ∧ d' = begun intent held d)) as Hm end.
  { apply tx_must_bind. eapply tx_must_mono; [apply lockHead_must|]. intros v d1 [-> Hl].
    change (in_Key intent) with k in *. change (in_ObservedVersion intent) with (N.of_nat (m k)).
    rewrite (hl_head _ _ _ Hd), head_at_version, N.eqb_refl by apply (tb_bound _ _ (hl_tables _ _ _ Hd)). cbn [negb].
    pose proof (locked_holds _ _ _ _ _ Hl Hd) as Hd1. apply tx_must_bind, tx_must_query.
    rewrite (no_pending_intent m used d1 k Hd1). apply tx_must_bind.
    eapply tx_must_mono; [by apply (insert_pending_must m used k i held d1)|]. intros ? d2 [-> ->]. cbn [negb]. apply tx_must_bind.
    eapply tx_must_mono; [by apply (insert_intent_must m used token k i held)|]. intros ? d3 [-> ->].
    apply tx_must_ret. split; [done|]. exists d1. done. }
  destruct (run_tx_must faults _ _ s _ Hs Hm) as (? & s' & Hrun & (-> & d & ? & ?) & Hs'). by exists d, s'.
Qed.

Lemma lockIntentAndHead_must m used k i held token d :
  holds m used d → hist k !! i = Some held →
  let intent := gap_intent token m k held in
  must (k_TenantID k) (lockIntentAndHead faults intent) (begun intent held d)
    (λ ok d', ok = true ∧ locked k (begun intent held d) d').
Proof.
  intros Hd Hr intent. unfold lockIntentAndHead. apply tx_must_bind. change (in_Key intent) with k.
  eapply tx_must_mono; [apply lockHead_must|]. intros v d1 [-> Hl].
  assert (head_of (begun intent held d) k = head_of d k) as -> by done. change (in_ObservedVersion intent) with (N.of_nat (m k)).
  rewrite (hl_head _ _ _ Hd), head_at_version, N.eqb_refl by apply (tb_bound _ _ (hl_tables _ _ _ Hd)). cbn [negb].
  apply tx_must_query. pose proof Hl as (_ & _ & _ & _ & _ & _ & Hi). rewrite Hi. unfold begun.
  cbn [pg_intents set_intents in_Key in_Token intent gap_intent]. rewrite lookup_insert_eq.
  cbn [begun_intent ri_interaction ri_observed ri_status in_Key in_ObservedVersion intent gap_intent].
  rewrite !bool_decide_eq_true_2, N.eqb_refl by done. done.
Qed.

Lemma InstallReconcile_must m used k i held token rs fin s d :
  answers_from faults (st_clock s) → holds m used d → hist k !! i = Some held → brings m k rs fin (S i) → m k ≤ i →
  let intent := gap_intent token m k held in st_db s = begun intent held d →
  ∃ s', InstallReconcile faults intent rs fin s = (inr true, s') ∧ holds (upd m k (S i)) (token :: used) (st_db s') ∧
    answers_from faults (st_clock s').
Proof.
  intros Hs Hd Hr (Hc & Hn & Hk & Hv & r & Hlast & Hid) Hi intent Hdb. unfold InstallReconcile.
  match goal with |- context [withTenantTx _ _ ?tx s] =>
    assert (must (k_TenantID k) tx (st_db s) (λ ok d', ok = true ∧ holds (upd m k (S i)) (token :: used) d')) as Hm end.
  { rewrite Hdb. apply tx_must_bind. eapply tx_must_mono; [by apply (lockIntentAndHead_must m used k i)|].
    intros ? d1 [-> Hl]. cbn [negb]. apply tx_must_bind.
    assert (tables m d1) as Htb1.
    { eapply locked_tables; [exact Hl|]. destruct (hl_tables _ _ _ Hd) as [H1 H2 H3 H4]. split; assumption. }
    eapply tx_must_mono; [apply (installRecords_must k rs m d1 fin r); try done; [apply Hl|by rewrite Hv, Hn]|].
    rewrite <-Hn. intros _ d2 (Htb & Hh & Hp & Hint).
    destruct Hl as (Hlh & _ & _ & _ & _ & Hlp & Hli).
    apply tx_must_bind. unfold completeReconcile. change (in_Key intent) with k. change (in_Token intent) with token.
    apply tx_must_bind, tx_must_write; [done|]. apply tx_must_write; [done|]. apply tx_must_ret. split; [done|].
    eapply (holds_installed m used k (S i) d); [done|lia| | | | |].
    - destruct Htb as [H1 H2 H3 H4]. split; assumption.
    - intros k'. change (head_of _ k') with (head_of d2 k') at 1. rewrite Hh, Hlh. done.
    - intros t e row. cbn [pg_pending set_pending set_intents]. rewrite Hp, Hlp. unfold begun. cbn [pg_pending set_pending set_intents].
      change (in_Key intent) with k. change (in_Held intent) with (r_Identity held).
      destruct (decide ((t, e) = (k_TenantID k, ei_EventID (r_Identity held)))) as [Heq|Hne].
      + injection Heq as -> ->. rewrite lookup_alter_eq, lookup_insert_eq. cbn. intros [= <-]. right. exists i, held.
        split_and!; try done; [split; [rewrite upd_same; lia|done]|]. simpl. by destruct (entry_canonical k i held Hr) as (_ & _ & ->).
      + rewrite lookup_alter_ne, lookup_insert_ne by (intros Heq; apply Hne; by symmetry). by left.
    - intros t tok row. cbn [pg_intents set_pending set_intents]. rewrite Hint, Hli. unfold begun. cbn [pg_intents set_pending set_intents].
      change (in_Key intent) with k. change (in_Token intent) with token.
      destruct (decide ((t, tok) = (k_TenantID k, token))) as [Heq|Hne].
      + injection Heq as -> ->. rewrite lookup_alter_eq, lookup_insert_eq. cbn. intros [= <-]. right. simpl. split; [done|by left].
      + rewrite lookup_alter_ne, lookup_insert_ne by (intros Heq; apply Hne; by symmetry). by left.
    - intros x Hx. by right. }
  destruct (run_tx_must faults _ _ s _ Hs Hm) as (? & s' & Hrun & (-> & ?) & Hs'). by exists s'.
Qed.

(** * Folds and replays of a history *)

Lemma small_sum k n : n ≤ length (hist k) → (N.of_nat n < two64N)%N.
Proof.
  intros Hn. pose proof (au_short _ _ _ Hhist k) as Hs. unfold bigint in Hs. apply N.ltb_lt in Hs. unfold two64N. lia.
Qed.

Lemma add64_small a b : (a + b < two64N)%N → add64 a b = (a + b)%N.
Proof. intros H. unfold add64. by apply N.mod_small. Qed.

Lemma continues_length k n rs : continues k n rs → rs ≠ [] → n + length rs ≤ length (hist k).
Proof.
  intros Hc Hne. destruct (last rs) as [r|] eqn:Hl; [|by apply last_None in Hl]. rewrite last_lookup in Hl.
  apply lookup_lt_Some in Hl as Hlt. apply Hc, lookup_lt_Some in Hl. lia.
Qed.

Lemma fold_brings m k f rs :
  f_Version f = N.of_nat (m k) → key_of_fold f = k → continues k (m k) rs → rs ≠ [] →
  ∃ fin, foldRecords f rs = Some fin ∧ brings m k rs fin (m k + length rs).
Proof.
  intros Hv Hk Hc Hne. pose proof (continues_length k (m k) rs Hc Hne) as Hlen.
  pose proof (small_sum k _ Hlen) as Hsum.
  destruct (folds_consecutive k f rs) as (fin & Hfin & Hver & _); [rewrite Hv; lia|by right| |].
  { intros n r Hr. destruct (entry_canonical _ _ _ (Hc n r Hr)) as (_ & ? & ->). split; [done|].
    apply lookup_lt_Some in Hr. rewrite Hv, add64_small by lia. lia. }
  exists fin. split; [done|]. destruct (foldRecords_exact f rs fin Hfin) as (_ & _ & _ & Hlast); [rewrite Hv; lia|].
  destruct (last rs) as [r|] eqn:Hl; [|by apply last_None in Hl]. destruct (Hlast r eq_refl) as [Hid Hkey].
  assert (record_key r = k) as Hrk. { rewrite last_lookup in Hl. by destruct (entry_canonical _ _ _ (Hc _ r Hl)) as (_ & ? & _). }
  split_and!; [done|done| |rewrite Hver, Hv; lia|by exists r]. unfold key_of_fold. by rewrite Hkey.
Qed.

Lemma replay_canonical intent n j rs :
  in_RequestedFrom intent = N.of_nat (S n) → continues (in_Key intent) (n + j) rs →
  replay_records marshal_pc sha intent (N.of_nat j) (r_Command <$> rs) = Some rs.
Proof.
  intros Hfrom. revert j. induction rs as [|r rs IH]; intros j Hc; [done|].
  pose proof (continues_length _ _ _ Hc ltac:(done)) as Hlen. simpl in Hlen. pose proof (small_sum _ _ Hlen) as Hsum.
  apply continues_cons in Hc as [Hr Hc]. destruct (entry_canonical _ _ _ Hr) as (Hcan & Hk & Hv). simpl. rewrite Hcan.
  rewrite decide_True.
  - replace (N.of_nat j + 1)%N with (N.of_nat (S j)) by lia. rewrite IH; [done|]. by rewrite Nat.add_succ_r.
  - unfold record_key, record_version in *. rewrite Hfrom, add64_small by lia. rewrite <-Hk. split_and!; [done|done|]. lia.
Qed.

(** An answer to a request for versions [n+1] to [n + length rs]: the commands, and
    the head of a history that is at least that long. *)
Definition replay_of (rs : list PRecord) (h : nat) (last_ : PRecord) (floor : N) (provenance : string) : ReplayResponse :=
  mkReplayResp (r_Command <$> rs) (N.of_nat h) (ei_EventID (r_Identity last_)) (ei_Hash (r_Identity last_)) floor provenance.

Lemma replay_validates m k i held token rs h top floor provenance :
  hist k !! i = Some held → m k ≤ i → continues k (m k) rs → m k + length rs = S i →
  S i ≤ h → hist k !! pred h = Some top → floor ≠ 0%N → provenance ≠ "" →
  validateReplay marshal_pc sha (Some (replay_of rs h top floor provenance)) (gap_intent token m k held) held = inr rs.
Proof.
  intros Hr Hi Hc Hlen Hh Htop Hfl Hpr. destruct (entry_canonical _ _ _ Hr) as (_ & _ & Hv).
  apply lookup_lt_Some in Hr as Hlt. pose proof (small_sum k (S i) ltac:(lia)) as Hsum. pose proof (au_short _ _ _ Hhist k) as Hbig.
  unfold validateReplay, replay_of. cbn [rr_HistoryFloor rr_Provenance rr_HeadVersion rr_Commands rr_HeadEventId rr_HeadHash].
  rewrite (proj2 (N.eqb_neq _ _) Hfl), bool_decide_eq_false_2 by done. unfold gap_intent. cbn [in_RequestedTo in_RequestedFrom].
  rewrite Hv, (proj2 (N.ltb_ge _ _)) by lia.
  assert (add64 (sub64 (N.of_nat (S i)) (N.of_nat (S (m k)))) 1 = N.of_nat (length rs)) as ->.
  { unfold sub64. replace (N.of_nat (S i) + two64N - N.of_nat (S (m k)))%N with (N.of_nat (i - m k) + 1 * two64N)%N by lia.
    rewrite N.Div0.mod_add, N.mod_small by lia. rewrite add64_small; lia. }
  assert (i64 (Z.of_N (N.of_nat (length rs))) = Z.of_nat (length rs)) as ->.
  { rewrite nat_N_Z. apply i64_id. unfold bigint in Hbig. apply N.ltb_lt in Hbig. unfold in_i64, two63. lia. }
  rewrite length_fmap, Z.eqb_refl. cbn [orb negb].
  rewrite (replay_canonical _ (m k) 0 rs) by (done || by rewrite Nat.add_0_r).
  assert (rs !! (i - m k) = Some held) as Hheld.
  { destruct (lookup_lt_is_Some_2 rs (i - m k)) as [x Hx]; [lia|]. pose proof (Hc _ _ Hx) as Hx'.
    replace (m k + (i - m k)) with i in Hx' by lia. congruence. }
  assert (last rs = Some held) as Hl by (rewrite last_lookup; by replace (pred (length rs)) with (i - m k) by lia).
  rewrite Hl. assert (holds_record held rs = true) as Hhold.
  { unfold holds_record. apply existsb_exists. exists held. split; [by eapply list_elem_of_In, list_elem_of_lookup_2|].
    unfold sameIdentity. by rewrite !bool_decide_eq_true_2. }
  rewrite Hhold. change (pc_AggregateVersion (r_Command held)) with (record_version held). rewrite Hv.
  destruct (N.eqb_spec (N.of_nat h) (N.of_nat (S i))) as [Heq|]; [|done].
  assert (top = held) as -> by (assert (h = S i) as -> by lia; simpl in Htop; congruence).
  by rewrite !bool_decide_eq_true_2.
Qed.

Lemma continues_slice k n i : S i ≤ length (hist k) → n ≤ S i → continues k n (take (S i - n) (drop n (hist k))).
Proof. intros _ _ j r [Hj _]%lookup_take_Some. by rewrite lookup_drop in Hj. Qed.

Lemma continues_unique k n rs : continues k n rs → rs = take (length rs) (drop n (hist k)).
Proof.
  intros Hc. apply list_eq_same_length with (length rs); [|done|].
  - destruct rs as [|r rs]; [done|]. pose proof (continues_length k n _ Hc ltac:(done)). rewrite length_take, length_drop. lia.
  - intros j x y _ Hx [Hy _]%lookup_take_Some. rewrite lookup_drop in Hy. apply Hc in Hx. congruence.
Qed.

(** * One command *)

(** The authority knows the history: to a request [token] for the versions of [k]
    from any one on up to entry [i] it answers with the commands. *)
Definition faithful (au : Authority) (token : string) (k : Key) (i : nat) : Prop :=
  ∀ n rs, continues k n rs → n + length rs = S i → rs ≠ [] →
    ∃ h top floor provenance, S i ≤ h ∧ hist k !! pred h = Some top ∧ floor ≠ 0%N ∧ provenance ≠ "" ∧
      au_Replay au (mkReplayReq (k_TenantID k) (k_InteractionID k) (N.of_nat (S n)) (N.of_nat (S i)) token) =
        inr (Some (replay_of rs h top floor provenance)).

Lemma holds_used m used used' d : holds m used d → (∀ x, x ∈ used → x ∈ used') → holds m used' d.
Proof. intros [H1 H2 H3 H4] Hu. split; [done..|]. intros t tok row [? ?]%H4. auto. Qed.

Lemma holds_ext m m' used d : (∀ k, m k = m' k) → holds m used d → holds m' used d.
Proof.
  intros He [H1 H2 H3 H4]. split; [by eapply tables_ext|by intros k; rewrite H2, He| |done].
  intros t e row (k & i & r & [? ?] & ?)%H3. exists k, i, r. split; [|done]. split; [by rewrite <-He|done].
Qed.

#[local] Abbreviation store := (pg_store faults new_id payload).
#[local] Abbreviation Apply := (Apply marshal_pc sha (PS := store)).

(** After a command the mark of its interaction is at least its version. *)
Definition reached (m : marks) (k : Key) (i : nat) : marks := upd m k (Nat.max (m k) (S i)).

Lemma gap_reconciles m used k i r f token au s :
  answers_from faults (st_clock s) → holds m used (st_db s) → hist k !! i = Some r → m k ≤ i →
  f_Version f = N.of_nat (m k) → key_of_fold f = k → token ∉ used → uuidv7Pattern token = true → faithful au token k i →
  ∃ s', reconcile marshal_pc sha (PS := store) token au f r false s = ((Some Applied, []), s') ∧
    holds (upd m k (S i)) (token :: used) (st_db s') ∧ answers_from faults (st_clock s').
Proof.
  intros Hs Hd Hr Hi Hv Hk Htok Huuid Hau. unfold reconcile. rewrite Huuid. cbn [negb].
  destruct (entry_canonical k i r Hr) as (_ & Hrk & Hrv). apply lookup_lt_Some in Hr as Hlt.
  pose proof (small_sum k (S i) ltac:(lia)) as Hsum.
  assert (mkIntent token (mkKey (pc_TenantId (r_Command r)) (pc_InteractionId (r_Command r))) (f_Version f) (add64 (f_Version f) 1)
    (pc_AggregateVersion (r_Command r)) (r_Identity r) = gap_intent token m k r) as ->.
  { unfold gap_intent. unfold record_key in Hrk. rewrite Hrk, Hv, add64_small by lia. f_equal. lia. }
  destruct (BeginReconcile_must m used k i r token s Hs Hd Hr Hi Htok) as (d & s1 & Hbegin & Hd1 & Hdb & Hs1).
  cbn [ps_BeginReconcile pg_store]. rewrite Hbegin. cbv beta iota zeta.
  set (rs := take (S i - m k) (drop (m k) (hist k))).
  assert (continues k (m k) rs) as Hc by (by apply continues_slice; lia).
  assert (m k + length rs = S i) as Hlen by (unfold rs; rewrite length_take, length_drop; lia).
  assert (rs ≠ []) as Hne by (intros ->; simpl in Hlen; lia).
  destruct (Hau (m k) rs Hc Hlen Hne) as (h & top & floor & prov & Hh & Htop & Hfl & Hpr & Hans).
  assert (replay_request (gap_intent token m k r) =
    mkReplayReq (k_TenantID k) (k_InteractionID k) (N.of_nat (S (m k))) (N.of_nat (S i)) token) as ->.
  { unfold replay_request, gap_intent. simpl. by rewrite Hrv. }
  rewrite Hans, (replay_validates m k i r token rs h top floor prov) by done.
  destruct (fold_brings m k f rs Hv Hk Hc Hne) as (fin & Hfin & Hbr). rewrite Hfin. rewrite Hlen in Hbr.
  destruct (InstallReconcile_must m used k i r token rs fin s1 d Hs1 Hd1 Hr Hbr Hi Hdb) as (s2 & Hinst & Hd2 & Hs2).
  cbn [ps_InstallReconcile pg_store]. rewrite Hinst. by exists s2.
Qed.

Lemma Apply_converges m used k i r token au grant s :
  answers_from faults (st_clock s) → holds m used (st_db s) → hist k !! i = Some r → token ∉ used →
  uuidv7Pattern token = true → faithful au token k i → ValidTransportGrant grant CapabilityWrite = true →
  ∃ res s', Apply token au (mkPrincipal (pc_TenantId (r_Command r)) grant) (r_Command r) s = ((Some res, []), s') ∧
    holds (reached m k i) (token :: used) (st_db s') ∧ answers_from faults (st_clock s').
Proof.
  intros Hs Hd Hr Htok Huuid Hau Hg. destruct (entry_canonical k i r Hr) as (Hcan & Hrk & Hrv).
  unfold DesiredParticipation.Apply. rewrite Hcan. cbn [p_TenantID p_Grant]. rewrite bool_decide_eq_true_2, Hg by done. cbn [negb orb].
  unfold record_key in Hrk. rewrite Hrk. change (pc_AggregateVersion (r_Command r)) with (record_version r).
  destruct (held_Load_must k i r m used s Hs Hd Hr) as (f & retained & s1 & Hload & Hdb & Hs1 & Hv & Hk & Hret).
  cbn [ps_Load pg_store]. rewrite Hload. cbv beta iota zeta. rewrite <-Hdb in Hd.
  apply lookup_lt_Some in Hr as Hlt. pose proof (small_sum k (S i) ltac:(lia)) as Hsum. rewrite Hv, Hrv.
  case_decide as Hcase.
  - rewrite (proj2 (N.leb_le _ _)) by lia. destruct Hret as (id & -> & Hsame). rewrite Hsame.
    exists Duplicate, s1. split_and!; [done| |done]. eapply holds_used; [|by intros; right].
    eapply holds_ext; [|exact Hd]. intros k'. unfold reached, upd. case_decide; [subst; lia|done].
  - rewrite (proj2 (N.leb_gt _ _)) by lia. rewrite add64_small by lia.
    assert (∀ k', upd m k (S i) k' = reached m k i k') as Hmark by (intros k'; unfold reached, upd; case_decide; [lia|done]).
    destruct (N.ltb_spec (N.of_nat (m k) + 1) (N.of_nat (S i))) as [Hgap|Hnext].
    + destruct (gap_reconciles m used k i r f token au s1) as (s2 & Hrec & Hd2 & Hs2); try done; [lia|].
      rewrite Hrec. exists Applied, s2. split_and!; [done|by eapply holds_ext|done].
    + assert (m k = i) as Hmi by lia.
      destruct (fold_brings m k f [r] Hv Hk) as (fin & Hfin & Hbr); [|done|].
      { intros j x Hx. apply list_lookup_singleton_Some in Hx as [-> <-]. by rewrite Nat.add_0_r, Hmi. }
      rewrite Hfin. destruct (Install_must m used k [r] fin (m k + 1) s1 Hs1 Hd Hbr) as (s2 & Hinst & Hd2 & Hs2).
      cbn [ps_Install pg_store]. rewrite Hinst. exists Applied, s2. split_and!; [done| |done].
      eapply holds_used; [|by intros; right]. eapply holds_ext; [|exact Hd2].
      intros k'. rewrite <-Hmark. by replace (m k + 1) with (S i) by lia.
Qed.

(** * The runtime *)

Context `{!Codec ReplayParticipationRequest ReplayResponse} `{!Codec SnapshotParticipationRequest SnapshotResponse}.
Context (client : NatsClient).
#[local] Abbreviation on_message := (on_message marshal_pc sha unmarshal_pc (PS := store) client).
#[local] Abbreviation handle_all := (handle_all marshal_pc sha unmarshal_pc (PS := store) client).
#[local] Abbreviation Consumer_Run := (Consumer_Run marshal_pc sha unmarshal_pc (PS := store) client).

(** The version of [k] a message carries, 0 when it carries none. *)
Definition carried (a : arrival) (k : Key) : nat :=
  match admitted marshal_pc sha unmarshal_pc (a_msg a) with
  | Some c => if decide (key_of c = k) then N.to_nat (pc_AggregateVersion c) else 0
  | None => 0
  end.

(** The greatest version of [k] among some messages. *)
Definition reach (ms : list arrival) (k : Key) : nat := foldr (λ a n, Nat.max (carried a k) n) 0 ms.

(** A message with a command of a history, whose handler draws a well-formed id and
    whose authority knows the history. *)
Definition genuine (a : arrival) : Prop :=
  ∃ k i r, hist k !! i = Some r ∧ admitted marshal_pc sha unmarshal_pc (a_msg a) = Some (r_Command r) ∧
    uuidv7Pattern (a_token a) = true ∧ faithful (nats_authority (a_conn a) (a_ctx a) client) (a_token a) k i.

(** What the messages [ms] make of a store that held [m]. *)
Definition converged (m : marks) (used : list string) (ms : list arrival) (s : PgState) : Prop :=
  ∃ m' used', holds m' used' (st_db s) ∧ (∀ k, m' k = Nat.max (m k) (reach ms k)) ∧
    (∀ x, x ∈ used' → x ∈ used ∨ x ∈ a_token <$> ms) ∧ answers_from faults (st_clock s).

Definition fresh_tokens (used : list string) (ms : list arrival) : Prop :=
  NoDup (a_token <$> ms) ∧ ∀ a, a ∈ ms → a_token a ∉ used.

Lemma on_message_converges m used grant a s :
  answers_from faults (st_clock s) → holds m used (st_db s) → genuine a → a_token a ∉ used →
  ValidTransportGrant grant CapabilityWrite = true →
  (on_message grant a s).1 = Ack ∧ converged m used [a] (on_message grant a s).2.
Proof.
  intros Hs Hd (k & i & r & Hr & Hadm & Huuid & Hau) Htok Hg. unfold ParticipationRuntime.on_message, handle. rewrite Hadm.
  destruct (Apply_converges m used k i r (a_token a) (nats_authority (a_conn a) (a_ctx a) client) grant s)
    as (res & s' & HA & Hd' & Hs'); try done.
  rewrite HA. split; [reflexivity|].
  exists (reached m k i), (a_token a :: used). split_and!; [done| | |done].
  - intros k'. unfold reached, upd, reach. simpl. unfold carried. rewrite Hadm.
    destruct (entry_canonical k i r Hr) as (_ & Hk & Hv). unfold key_of. unfold record_key in Hk. rewrite Hk.
    change (pc_AggregateVersion (r_Command r)) with (record_version r). rewrite Hv, Nat2N.id, Nat.max_0_r.
    destruct (decide (k' = k)) as [->|Hne]; [by rewrite decide_True|]. rewrite decide_False by done. lia.
  - intros x [->|?]%elem_of_cons; [right; by left|by left].
Qed.

Lemma reach_app ms ms' k : reach (ms ++ ms') k = Nat.max (reach ms k) (reach ms' k).
Proof. induction ms as [|a ms IH]; simpl; [lia|]. unfold reach in *. simpl. rewrite IH. lia. Qed.

Lemma converged_trans m used m1 used1 ms ms' s :
  (∀ k, m1 k = Nat.max (m k) (reach ms k)) → (∀ x, x ∈ used1 → x ∈ used ∨ x ∈ a_token <$> ms) →
  converged m1 used1 ms' s → converged m used (ms ++ ms') s.
Proof.
  intros Hm1 Hu1 (m2 & used2 & Hd & Hm2 & Hu2 & Hs). exists m2, used2. split_and!; [done| | |done].
  - intros k. rewrite Hm2, Hm1, reach_app. lia.
  - intros x Hx. rewrite fmap_app, elem_of_app. destruct (Hu2 x Hx) as [[?|?]%Hu1|?]; auto.
Qed.

Lemma converged_nil m used s : answers_from faults (st_clock s) → holds m used (st_db s) → converged m used [] s.
Proof. intros Hs Hd. exists m, used. split_and!; [done| |by left|done]. intros k. unfold reach. simpl. lia. Qed.

Lemma fresh_app used ms ms' used1 :
  fresh_tokens used (ms ++ ms') → (∀ x, x ∈ used1 → x ∈ used ∨ x ∈ a_token <$> ms) → fresh_tokens used1 ms'.
Proof.
  intros [Hnd Hf] Hu. rewrite fmap_app in Hnd. apply NoDup_app in Hnd as (_ & Hdis & Hnd). split; [done|].
  intros a Ha Hin. destruct (Hu _ Hin) as [?|Hx]; [eapply Hf; [|done]; set_solver|].
  apply (Hdis _ Hx). by apply list_elem_of_fmap_2.
Qed.

Lemma handle_all_converges grant ms m used s log s' :
  handle_all grant ms s = (log, s') → ValidTransportGrant grant CapabilityWrite = true →
  answers_from faults (st_clock s) → holds m used (st_db s) → Forall genuine ms → fresh_tokens used ms →
  log.*1 = ms ∧ (∀ a s0, (a, s0) ∈ log → (on_message grant a s0).1 = Ack) ∧ converged m used ms s'.
Proof.
  intros Hrun Hg. revert m used s log s' Hrun. induction ms as [|a ms IH]; intros m used s log s'; simpl.
  { intros [= <- <-] Hs Hd _ _. split_and!; [done|by intros ? ? ?%elem_of_nil|by apply converged_nil]. }
  destruct (handle_all grant ms _) as [log1 s1] eqn:E. intros [= <- <-] Hs Hd [Ha Hms]%Forall_cons Hf.
  destruct (on_message_converges m used grant a s Hs Hd Ha) as (Hack & m1 & used1 & Hd1 & Hm1 & Hu1 & Hs1);
    [apply Hf; by left|done|].
  destruct (IH m1 used1 _ _ _ E Hs1 Hd1 Hms) as (Hlog & Hacks & Hconv); [by apply (fresh_app used [a])|].
  split_and!; [simpl; by f_equal| |by apply (converged_trans m used m1 used1 [a] ms)].
  intros b s0 [Heq|Hb]%elem_of_cons; [injection Heq as -> ->; done|by eapply Hacks].
Qed.

Lemma Run_converges c fetches m used s r c' log s' :
  Consumer_Run c fetches s = (r, c', log, s') → ValidTransportGrant (cn_grant c) CapabilityWrite = true →
  answers_from faults (st_clock s) → holds m used (st_db s) → Forall genuine log.*1 → fresh_tokens used log.*1 →
  (∀ a s0, (a, s0) ∈ log → (on_message (cn_grant c) a s0).1 = Ack) ∧ converged m used log.*1 s'.
Proof.
  intros Hrun Hg. revert m used s r c' log s' Hrun. induction fetches as [|[|ended|ms] fetches IH]; intros m used s r c' log s'; simpl.
  - intros [= <- <- <- <-] Hs Hd _ _. split; [by intros ? ? ?%elem_of_nil|by apply converged_nil].
  - apply IH.
  - intros [= <- <- <- <-] Hs Hd _ _. split; [by intros ? ? ?%elem_of_nil|by apply converged_nil].
  - destruct (handle_all _ ms s) as [log1 s1] eqn:E1. destruct (Consumer_Run c fetches s1) as [[[r1 c1] log2] s2] eqn:E2.
    intros [= <- <- <- <-] Hs Hd Hgen Hf. rewrite fmap_app in *. apply Forall_app in Hgen as [Hg1 Hg2].
    assert (log1.*1 = ms) as Hms.
    { clear -E1. revert s log1 s1 E1. induction ms as [|a ms IH]; intros s log s'; simpl; [by intros [= <- _]|].
      destruct (handle_all _ ms _) as [l1 s1] eqn:E. intros [= <- _]. simpl. f_equal. by eapply IH. }
    rewrite Hms in *. destruct (handle_all_converges _ ms m used s log1 s1 E1 Hg Hs Hd Hg1) as (_ & Ha1 & m1 & used1 & Hd1 & Hm1 & Hu1 & Hs1).
    { destruct Hf as [Hnd Hf]. rewrite fmap_app in Hnd. apply NoDup_app in Hnd as (Hnd & _). split; [done|]. intros a Ha. apply Hf. set_solver. }
    destruct (IH m1 used1 _ _ _ _ _ E2 Hs1 Hd1 Hg2) as (Ha2 & Hconv); [by eapply (fresh_app used ms)|].
    split; [|by apply (converged_trans m used m1 used1 ms log2.*1)].
    intros a s0 [?|?]%elem_of_app; [by apply Ha1|by apply Ha2].
Qed.

Lemma holds_empty : holds (λ _, 0) [] pg_empty.
Proof.
  split; [split| | |]; simpl.
  - intros k. lia.
  - intros k v row. rewrite lookup_empty. split; [done|]. intros (i & r & [Hi _] & _). lia.
  - intros t e row. by rewrite lookup_empty.
  - intros k p. rewrite lookup_empty, take_0. split; [by intros [? ?]|done].
  - intros k. unfold head_of. simpl. by rewrite lookup_empty.
  - intros t e row. by rewrite lookup_empty.
  - intros t tok row. by rewrite lookup_empty.
Qed.

(** What the tables say of an interaction. *)
Lemma holds_view m used d k :
  holds m used d →
  f_Version (db_fold d k) = N.of_nat (m k) ∧
  (∀ p, p ∈ f_Participants (db_fold d k) ↔ wants p (take (m k) (hist k)) = Some true) ∧
  (∀ i r, i < m k → hist k !! i = Some r → db_ledger d k (N.of_nat (S i)) = Some (r_Identity r)).
Proof.
  intros Hd. pose proof (hl_tables _ _ _ Hd) as Htb. split_and!.
  - simpl. rewrite (hl_head _ _ _ Hd). apply head_at_version, (tb_bound _ _ Htb).
  - intros p. simpl. rewrite elem_of_participants. apply (tb_folded _ _ Htb).
  - intros i r Hi Hr. unfold db_ledger. assert (pg_versions d !! (k, N.of_nat (S i)) = Some (version_row r)) as ->.
    { apply (tb_version _ _ Htb). by exists i, r. }
    simpl. unfold row_identity. simpl. by destruct (r_Identity r).
Qed.

(** C17: Eventual consistency. Let the participation runtime start on a fresh
    database that answers, and let its consumer fetch, in any order, with any
    repetitions and any gaps, commands of the authority's histories of any number
    of interactions, while the authority knows those histories. Then every message
    is acknowledged at its first delivery, and what is stored of an interaction is
    exactly its history up to the greatest version that arrived: the head is that
    version, the participants are those whose last command up to it assigns them,
    and the ledger holds every command up to it, those that never arrived
    included. *)
Theorem runtime_converges nc js logger subscribed consumer fetches r consumer' log s' :
  newParticipationRuntime nc js logger subscribed = Some (client, consumer) → answers_from faults 0 →
  Consumer_Run consumer fetches (mkPgState pg_empty 0) = (r, consumer', log, s') →
  Forall genuine log.*1 → NoDup (a_token <$> log.*1) →
  (∀ a s0, (a, s0) ∈ log → (on_message writeGrant a s0).1 = Ack) ∧
  ∀ k, let n := reach log.*1 k in
    f_Version (db_fold (st_db s') k) = N.of_nat n ∧
    (∀ p, p ∈ f_Participants (db_fold (st_db s') k) ↔ wants p (take n (hist k)) = Some true) ∧
    (∀ i r, i < n → hist k !! i = Some r → db_ledger (st_db s') k (N.of_nat (S i)) = Some (r_Identity r)) ∧
    n ≤ length (hist k).
Proof.
  intros Hnew Hans Hrun Hgen Hnd. pose proof (runtime_consumer _ _ _ _ _ _ Hnew) as ->.
  destruct (Run_converges _ _ (λ _, 0) [] _ _ _ _ _ Hrun) as (Hack & m & used & Hd & Hm & _ & _);
    [reflexivity|done|apply holds_empty|done|split; [done|by intros ? ? ?%elem_of_nil]|].
  split; [exact Hack|]. intros k n. assert (m k = n) as <- by (rewrite Hm; unfold n; lia).
  destruct (holds_view m used (st_db s') k Hd) as (? & ? & ?). split_and!; try done. apply (tb_bound _ _ (hl_tables _ _ _ Hd)).
Qed.
End Converge.
