(* ===== verification/ParticipationRuns.v ===== *)
(** Concrete runs of the participation runtime: a snapshot after a lost history, a
    replayed gap, and one malformed reply of the authority. *)

From S2P Require Import Prelude Wire Subjects Trace PgTx DesiredParticipation DesiredTheorems ParticipationConsumer.
From S2P Require Import ParticipationPg ParticipationPgOK ParticipationCorrect ParticipationClient ParticipationRuntime ParticipationProgress.
Import Demo.

(** * The environment *)

(** Commands are their event ids; versions 3 and 4 are known. *)
Definition read_command (data : string) : option (ParticipationCommand * bool) :=
  if decide (data = event 3) then Some (cmd 3 ASSIGNED, false)
  else if decide (data = event 4) then Some (cmd 4 ASSIGNED, false) else None.

(** A codec that knows two replies to a replay and one to a snapshot request. *)
Definition replay3 : ReplayResponse :=
  mkReplayResp [cmd 1 ASSIGNED; cmd 2 UNASSIGNED; cmd 3 ASSIGNED] 3 (event 3) (sha (event 3)) 1 "replay".
Definition snapshot5 : SnapshotResponse := mkSnapResp tenant room 5 (event 5) (sha (event 5)) [alice] 5 "snapshot".

#[local] Instance replay_codec : Codec ReplayParticipationRequest ReplayResponse := {
  marshal_request q := Some (rq_RequestId q);
  marshal_reply r := Some (match rp_Outcome r with Some (inl _) => "replay" | Some (inr _) => "unknown" | None => "" end);
  unmarshal_reply data :=
    if decide (data = "replay") then Some (mkReply token (Some (inl replay3)) "", false)
    else if decide (data = "unknown") then Some (mkReply token (Some (inr CODE_UNKNOWN_HISTORY)) "", false) else None;
}.

#[local] Instance snapshot_codec : Codec SnapshotParticipationRequest SnapshotResponse := {
  marshal_request q := Some (sq_RequestId q);
  marshal_reply r := Some "snapshot";
  unmarshal_reply data := if decide (data = "snapshot") then Some (mkReply token (Some (inl snapshot5)) "", false) else None;
}.

(** Connections: one whose authority replays, one whose authority has lost its
    history, one whose replies have no trace, and one that times out. *)
Definition replays : roundtrip := λ _ subject _ _, Some (trace, "replay").
Definition forgot : roundtrip := λ _ subject _ _,
  Some (trace, if String.prefix "rpc.corex.participation-replay" subject then "unknown" else "snapshot").
Definition traceless : roundtrip := λ _ _ _ _, Some ("", "replay").
Definition silent : roundtrip := λ _ _ _ _, None.

Definition background : Context := mkContext None 0 None.
Definition wire_options : NatsOptions := mkNatsOptions "projector" "secret" "" false "" false.
Definition wire : option NatsConn := Some (mkNatsConn true wire_options).
Definition client : NatsClient := mkNatsClient authorityTimeout readGrant.
Definition consumer : Consumer := mkConsumer writeGrant true.

Example runtime_starts : newParticipationRuntime wire true true true = Some (client, consumer).
Proof. vm_compute. reflexivity. Qed.

Definition message (v : N) : PMsg :=
  mkPMsg ("corex.participation.commands.v1." +:+ tenant +:+ "." +:+ room) (event v) trace (event v).
Definition arrives (conn : roundtrip) (v : N) : arrival := mkArrival (message v) token conn background.

Abbreviation receive conn v s :=
  (on_message marshal sha read_command (PS := store) client writeGrant (arrives conn v) s).

(** * Witnesses *)

Lemma snapshot_only_when_history_unknown_witness :
  (Apply marshal sha (PS := store) token (nats_authority forgot background client) writer (cmd 4 ASSIGNED) fresh).1
    = (Some AuditedSnapshot, []) ∧
  ∃ id wire, history_forgotten forgot background client (cmd 4 ASSIGNED) id wire.
Proof.
  split; [vm_compute; reflexivity|].
  destruct (snapshot_only_when_history_unknown marshal sha (PSOK := pg_store_ok no_fault new_id json) forgot background client
              token writer (cmd 4 ASSIGNED) fresh _ _ (surjective_pairing _)) as (id & w & H & _).
  - apply pg_empty_wf.
  - vm_compute. reflexivity.
  - exists id, w. exact H.
Defined.

Definition fetched : list fetch := [FTimeout; FMessages [arrives replays 3]; FError true].
Abbreviation ran := (Consumer_Run marshal sha read_command (PS := store) client consumer fetched fresh).

Lemma runtime_acknowledges_covered_witness :
  (receive replays 3 fresh).1 = Ack ∧ ran.1.1.1 = Returned false ∧
  ∃ c, read_command (event 3) = Some (c, false) ∧
    ((pc_AggregateVersion c <= f_Version (db_fold (st_db ran.2) (key_of c)))%N ∨
     (Apply marshal sha (PS := store) token (nats_authority replays background client)
        (mkPrincipal (pc_TenantId c) writeGrant) c fresh).1.1 = Some CompareAndSetLost).
Proof.
  assert ((receive replays 3 fresh).1 = Ack) as Hack by (vm_compute; reflexivity).
  split; [exact Hack|]. split; [vm_compute; reflexivity|].
  assert (∀ x : run_state * Consumer * list (arrival * PgState) * PgState, x = (x.1.1.1, x.1.1.2, x.1.2, x.2)) as Hx
    by (by intros [[[]]]).
  destruct (runtime_acknowledges_covered marshal sha read_command no_fault new_id json wire true true true client consumer
              fetched _ _ _ _ runtime_starts (Hx ran)) as (_ & Hcov & _).
  destruct (Hcov (arrives replays 3) fresh) as (c & Hu & _ & Hc); [by left|exact Hack|].
  exists c. exact (conj Hu Hc).
Defined.

(** * One malformed reply *)

Abbreviation dropped := ((receive traceless 3 fresh).2).

(** One malformed reply of the authority loses a command and blocks its
    interaction. A connection that times out makes the message come again; a reply
    without a trace is reported as an invalid message, so the first of three
    attempts terminates the message. No dead letter and no alert is written, the
    intent stays pending, and the next command of the interaction is terminated
    too although the authority now answers well. *)
Example malformed_reply_drops_command :
  (receive silent 3 fresh).1 = Nak ∧ (receive traceless 3 fresh).1 = Term ∧
  pg_dlq (st_db dropped) = ∅ ∧ pg_alerts (st_db dropped) = ∅ ∧
  (receive replays 4 dropped).1 = Term ∧
  f_Version (db_fold (st_db (receive replays 4 dropped).2) (mkKey tenant room)) = 0%N.
Proof. split_and!; vm_compute; reflexivity. Qed.

(** * Commands out of order *)

Module OutOfOrder.
(** A digest of 32 bytes, that of [Demo] where it has one. *)
Definition sha32 (body : string) : string :=
  if String.length (sha body) =? 32 then sha body else "00000000000000000000000000000000".

Lemma sha32_length b : String.length (sha32 b) = 32.
Proof. unfold sha32. destruct (Nat.eqb_spec (String.length (sha b)) 32); done. Qed.

Definition the_room : Key := mkKey tenant room.
Definition commands : list PRecord := [record 1 ASSIGNED; record 2 UNASSIGNED; record 3 ASSIGNED].
Definition hist (k : Key) : list PRecord := if decide (k = the_room) then commands else [].

Lemma hist_lookup k i r : hist k !! i = Some r → k = the_room ∧ commands !! i = Some r.
Proof. unfold hist. case_decide; [done|by rewrite lookup_nil]. Qed.

Lemma hist_authentic : authentic marshal sha32 hist.
Proof.
  split.
  - intros k i r [-> Hr]%hist_lookup. do 3 (destruct i as [|i]; [injection Hr as <-; vm_compute; done|]).
    apply lookup_lt_Some in Hr. simpl in Hr. lia.
  - intros k. unfold hist. case_decide; reflexivity.
  - intros k k' i j r r' _ [-> Hr]%hist_lookup [-> Hr']%hist_lookup He. split; [done|].
    do 3 (destruct i as [|i]; [injection Hr as <-; do 3 (destruct j as [|j]; [injection Hr' as <-; first [done|vm_compute in He; discriminate]|]);
      apply lookup_lt_Some in Hr'; simpl in Hr'; lia|]). apply lookup_lt_Some in Hr. simpl in Hr. lia.
Qed.

Definition read (data : string) : option (ParticipationCommand * bool) :=
  match find (λ r, bool_decide (ei_EventID (r_Identity r) = data)) commands with
  | Some r => Some (r_Command r, false)
  | None => None
  end.

(** Requests are their range and their id; the authority's replies repeat them. *)
Definition digit (v : N) : ascii := ascii_of_N (48 + v).
Definition slice (from to : nat) : list PRecord := take (to - from) (drop from commands).

#[local] Instance history_codec : Codec ReplayParticipationRequest ReplayResponse := {
  marshal_request q := Some (String (digit (rq_FromVersion q)) (String (digit (rq_ToVersion q)) (rq_RequestId q)));
  marshal_reply r :=
    match rp_Outcome r with
    | Some (inl resp) =>
        match head (rr_Commands resp), last (rr_Commands resp) with
        | Some c, Some c' => Some (String (digit (pc_AggregateVersion c)) (String (digit (pc_AggregateVersion c')) (rp_RequestId r)))
        | _, _ => None
        end
    | _ => None
    end;
  unmarshal_reply data :=
    match data with
    | String a (String b id) =>
        Some (mkReply id (Some (inl (replay_of (slice (N.to_nat (N_of_ascii a) - 49) (N.to_nat (N_of_ascii b) - 48)) 3
                (record 3 ASSIGNED) 1 "replay"))) "", false)
    | _ => None
    end;
}.
Definition echo : roundtrip := λ _ _ _ payload, Some (trace, payload).

Definition token3 : string := "01890000-0000-7000-8000-0000000000fd".
Definition delivered (v : N) (tok : string) : arrival := mkArrival (message v) tok echo background.
Definition shuffled : list fetch := [FMessages [delivered 3 token]; FTimeout; FMessages [delivered 1 token2; delivered 3 token3]].
Abbreviation out := (Consumer_Run marshal sha32 read (PS := store) client consumer shuffled fresh).

Lemma echo_faithful i tok :
  i < 3 → tok ∈ [token; token2; token3] → faithful hist (nats_authority echo background client) tok the_room i.
Proof.
  intros Hi Htok n rs Hc Hlen Hne. pose proof (continues_unique hist the_room n rs Hc) as Hrs.
  assert (length rs = S i - n) as Hl by lia. assert (n ≤ i) as Hn by (destruct rs; [done|simpl in *; lia]).
  rewrite Hl in Hrs. clear Hc Hlen Hne Hl. change (hist the_room) with commands in Hrs.
  exists 3, (record 3 ASSIGNED), 1%N, "replay". split; [lia|].
  rewrite !elem_of_cons, elem_of_nil in Htok. subst rs.
  destruct Htok as [->|[->|[->|[]]]]; destruct i as [|[|[|]]]; try lia; destruct n as [|[|[|]]]; try lia;
    split_and!; try discriminate; vm_compute; reflexivity.
Qed.

Lemma arrives_genuine v i tok :
  N.of_nat (S i) = v → i < 3 → tok ∈ [token; token2; token3] → genuine marshal sha32 read hist client (delivered v tok).
Proof.
  intros <- Hi Htok. destruct (lookup_lt_is_Some_2 commands i) as [r Hr]; [done|]. exists the_room, i, r.
  split; [done|]. split; [|split; [|by apply echo_faithful]].
  - destruct i as [|[|[|]]]; [injection Hr as <-; vm_compute; reflexivity..|lia].
  - rewrite !elem_of_cons, elem_of_nil in Htok. destruct Htok as [->|[->|[->|[]]]]; vm_compute; reflexivity.
Qed.

Lemma runtime_converges_witness :
  Forall (λ x, (on_message marshal sha32 read (PS := store) client writeGrant x.1 x.2).1 = Ack) out.1.2 ∧
  f_Version (db_fold (st_db out.2) the_room) = 3%N ∧ alice ∈ f_Participants (db_fold (st_db out.2) the_room).
Proof.
  assert (∀ x : run_state * Consumer * list (arrival * PgState) * PgState, x = (x.1.1.1, x.1.1.2, x.1.2, x.2)) as Hx
    by (by intros [[[]]]).
  assert (out.1.2.*1 = [delivered 3 token; delivered 1 token2; delivered 3 token3]) as Hlog by (cbn [Consumer_Run shuffled fmap]; reflexivity).
  destruct (runtime_converges marshal sha32 read no_fault new_id json hist hist_authentic sha32_length client
    wire true true true consumer shuffled _ _ _ _ runtime_starts (λ _ _, eq_refl) (Hx out)) as [Hack Hview].
  - rewrite Hlog. repeat constructor; [apply (arrives_genuine 3 2)|apply (arrives_genuine 1 0)|apply (arrives_genuine 3 2)];
      (reflexivity || lia || set_solver).
  - rewrite Hlog. apply (bool_decide_unpack _). vm_compute. exact I.
  - split; [apply Forall_forall; intros [a s0] Ha; by apply Hack|].
    destruct (Hview the_room) as (Hv & Hp & _). rewrite Hlog in Hv, Hp. split; [rewrite Hv; vm_compute; reflexivity|].
    apply Hp. vm_compute. reflexivity.
Defined.
End OutOfOrder.
