(* ===== verification/AuthCallout.v ===== *)
(** The NATS auth-callout responder (internal/authcallout): token verification,
    the permissions minted for an identity, and the signed answer. Cryptography,
    base64, JSON and JWT libraries are arguments. *)

From S2P Require Import Prelude Identity JetStreamStore.

(** Why a connection is refused. *)
Inductive auth_err :=
| AEInvalidTenant | AEInvalidUser | AEEmptyConn | AEVisitorCapability | AEInvalidConversation
| AEBackendCapability | AENoGrantCapability | AENoGrantRole
| AENoVerifier | AEMalformed | AEBadBody | AEBadSig | AESigMismatch | AEBadClaims | AEExpired
| AEMissing | AEHmacCapability | AEHmacBackend | AEHmacRole
| AEVisitorEmpty | AEHeader | AEFetch | AEUnknownKid | AEThrottled | AEJwt | AEVisitorMissing
| AEUnsafe | AESubscriberClaims | AEMissingCid | AEDecode | AEEncode.

#[export] Instance auth_err_eq_dec : EqDecision auth_err.
Proof. solve_decision. Defined.

(** * Subject tokens *)

(** [validSubjectToken]: no separator, wildcard, blank or control character. A
    byte of a longer UTF-8 sequence is above 0x7f, so the bytes decide. *)
Definition bad_token_char (c : ascii) : bool :=
  let n := N_of_ascii c in
  bool_decide (c = "."%char) || bool_decide (c = "*"%char) || bool_decide (c = ">"%char)
  || (n <=? 32)%N || (n =? 127)%N.

Fixpoint no_bad_char (s : string) : bool :=
  match s with
  | EmptyString => true
  | String c s' => negb (bad_token_char c) && no_bad_char s'
  end.

Definition validSubjectToken (s : string) : bool := negb (bool_decide (s = "")) && no_bad_char s.

(** * Grants *)

Record Grant := mkGrantP {
  PubAllow : list string;
  PubDeny : list string;
  SubAllow : list string;
  SubDeny : list string;
  AllowResponses : bool;
}.

Definition visitor_grant (t cid inbox : string) : Grant :=
  mkGrantP [] [">"]
    ["tenant." +:+ t +:+ ".interaction." +:+ cid +:+ ".log";
     "tenant." +:+ t +:+ ".conversation." +:+ cid +:+ ".events"; inbox]
    ["_INBOX.>"; "tenant.*.agent.*.feed.>"] false.

Definition backend_grant (t self inbox : string) : Grant :=
  mkGrantP
    ["tenant." +:+ t +:+ ".interaction.*.cmd." +:+ self; inbox;
     "$JS.API.STREAM.INFO." +:+ LogStreamName;
     "$JS.API.CONSUMER.CREATE." +:+ LogStreamName +:+ ".>";
     "$JS.API.CONSUMER.DURABLE.CREATE." +:+ LogStreamName +:+ ".>";
     "$JS.API.CONSUMER.INFO." +:+ LogStreamName +:+ ".>";
     "$JS.API.CONSUMER.MSG.NEXT." +:+ LogStreamName +:+ ".>";
     "$JS.API.CONSUMER.DELETE." +:+ LogStreamName +:+ ".>"]
    ["tenant.*.interaction.*.log"]
    ["tenant." +:+ t +:+ ".interaction.*.log"; "tenant." +:+ t +:+ ".notify.>";
     "tenant." +:+ t +:+ ".routing.>"; inbox]
    ["_INBOX.>"] true.

Definition subscriber_grant (t self inbox capability : string) : Grant :=
  mkGrantP
    ["tenant." +:+ t +:+ ".interaction.*.cmd." +:+ self; "tenant." +:+ t +:+ ".presence." +:+ self +:+ ".state";
     "tenant." +:+ t +:+ ".presence." +:+ self +:+ ".typing.>"; inbox]
    ["tenant.*.interaction.*.log"; "tenant.*.agent.*.feed.>"]
    (["tenant." +:+ t +:+ ".agent." +:+ self +:+ ".feed.>"; "tenant." +:+ t +:+ ".routing.offer.user." +:+ self;
      "tenant." +:+ t +:+ ".routing.offer.user." +:+ self +:+ ".control"; "tenant." +:+ t +:+ ".notify." +:+ self;
      "tenant." +:+ t +:+ ".presence.*.state"; "tenant." +:+ t +:+ ".presence.*.typing.>"; inbox]
     ++ (if decide (capability = CapabilityAgentFeedAdminOperationObserver)
         then ["tenant." +:+ t +:+ ".admin.operation.*.changed"] else []))
    ["_INBOX.>"; "tenant.*.interaction.*.log"] true.

Definition GrantsFor (id : Identity) (conn : string) : auth_err + Grant :=
  if negb (validSubjectToken (id_TenantID id)) then inl AEInvalidTenant
  else if negb (validSubjectToken (id_UserID id)) then inl AEInvalidUser
  else if decide (conn = "") then inl AEEmptyConn
  else
    let inbox := "_INBOX_" +:+ conn +:+ ".>" in
    if decide (id_Role id = RoleVisitor) then
      if decide (id_Capability id ≠ "") then inl AEVisitorCapability
      else if negb (validSubjectToken (id_ConversationID id)) then inl AEInvalidConversation
      else inr (visitor_grant (id_TenantID id) (id_ConversationID id) inbox)
    else if decide (id_Role id = RoleTrustedBackend) then
      if decide (id_Capability id ≠ "") then inl AEBackendCapability
      else inr (backend_grant (id_TenantID id) (id_UserID id) inbox)
    else if decide (id_Role id = "") then
      if negb (IsSubscriberCapability (id_Capability id)) || negb (bool_decide (id_ConversationID id = ""))
      then inl AENoGrantCapability
      else inr (subscriber_grant (id_TenantID id) (id_UserID id) inbox (id_Capability id))
    else inl AENoGrantRole.

(** * The development token *)

Record claims := mkClaims {
  cl_Tenant : string; cl_User : string; cl_Role : string; cl_Capability : string; cl_ExpUnix : Z }.

(** What the token code takes from its libraries. *)
Class TokenLib := {
  b64_encode : string → string;
  b64_decode : string → option string;
  hmac : string → string → string;
  claims_encode : claims → option string;
  claims_decode : string → option claims;
}.

Section Hmac.
Context {TL : TokenLib}.

(** [HMACVerifier.Verify] at Unix time [now]. *)
Definition hmac_Verify (secret : string) (allowTrustedBackend : bool) (now : Z) (token : string) :
    auth_err + Identity :=
  match split_on "." token with
  | [p0; p1] =>
      match b64_decode p0 with
      | None => inl AEBadBody
      | Some body =>
          match b64_decode p1 with
          | None => inl AEBadSig
          | Some sig =>
              if decide (sig ≠ hmac secret p0) then inl AESigMismatch
              else
                match claims_decode body with
                | None => inl AEBadClaims
                | Some c =>
                    if decide (cl_ExpUnix c ≠ 0%Z ∧ (cl_ExpUnix c < now)%Z) then inl AEExpired
                    else if decide (cl_Tenant c = "" ∨ cl_User c = "") then inl AEMissing
                    else if negb (validSubjectToken (cl_Tenant c)) then inl AEInvalidTenant
                    else if negb (validSubjectToken (cl_User c)) then inl AEInvalidUser
                    else if decide (cl_Capability c ≠ "") then
                      if decide (cl_Role c ≠ "") then inl AEHmacCapability
                      else if negb (IsSubscriberCapability (cl_Capability c)) then inl AEHmacCapability
                      else inr (mkIdentity (cl_Tenant c) (cl_User c) "" (cl_Capability c) "" None)
                    else if decide (cl_Role c = RoleTrustedBackend) then
                      if negb allowTrustedBackend then inl AEHmacBackend
                      else inr (mkIdentity (cl_Tenant c) (cl_User c) RoleTrustedBackend "" "" None)
                    else inl AEHmacRole
                end
          end
      end
  | _ => inl AEMalformed
  end.

(** [MintDevToken] at Unix time [now], with a lifetime in seconds. *)
Definition MintDevToken (secret : string) (id : Identity) (now ttl : Z) : auth_err + string :=
  if decide (id_Role id ≠ "" ∧ id_Capability id ≠ "") then inl AEHmacCapability
  else if decide (id_Role id = "" ∧ IsSubscriberCapability (id_Capability id) = false) then inl AEHmacCapability
  else if decide (id_Role id ≠ "" ∧ id_Role id ≠ RoleTrustedBackend) then inl AEHmacRole
  else
    let c := mkClaims (id_TenantID id) (id_UserID id) (id_Role id) (id_Capability id)
               (if (0 <? ttl)%Z then (now + ttl)%Z else 0%Z) in
    match claims_encode c with
    | None => inl AEEncode
    | Some body => let b64 := b64_encode body in inr (b64 +:+ "." +:+ b64_encode (hmac secret b64))
    end.
End Hmac.

(** [ChainVerifier.Verify]: the first link that accepts, else the last error. *)
Definition chain_Verify {St} (links : list (string → St → (auth_err + Identity) * St)) (token : string) :
    St → (auth_err + Identity) * St :=
  foldr (λ link k lastErr s,
    match link token s with
    | (inr id, s') => (inr id, s')
    | (inl e, s') => k e s'
    end) (λ lastErr s, (inl lastErr, s)) links AENoVerifier.

(** * Visitor tokens *)

Definition visitorIssuer : string := "desk-ingress".
Definition visitorAudience : string := "relaypoint".

(** A claim of a parsed token: a JSON string or anything else. *)
Inductive claim_val := CStr (s : string) | COther.
Record vtoken := mkVToken { vt_Subject : string; vt_Exp : Z; vt_Claims : gmap string claim_val }.

Definition claimString (t : vtoken) (key : string) : string * bool :=
  match vt_Claims t !! key with Some (CStr s) => (s, true) | _ => ("", false) end.

(** What the visitor verifier takes from the JOSE library: the header of a
    token (key id and whether the algorithm is EdDSA), key sets, and the
    verification of signature, issuer, audience and times. *)
Class JoseLib (KS : Type) := {
  jws_header : string → option (string * bool);
  jwk_parse : string → option KS;
  jwk_lookup : KS → string → bool;
  jwt_parse : KS → string → string → Z → string → option vtoken;
}.

(** The mutable fields and the settings of [VisitorVerifier]. *)
Record vstate (KS : Type) := mkVState { v_cached : option KS; v_fetchedAt : Z; v_lastUnknownPoll : Z }.
Arguments mkVState {KS}.
Arguments v_cached {KS}.
Arguments v_fetchedAt {KS}.
Arguments v_lastUnknownPoll {KS}.
Record vconfig := mkVConfig { vc_ttl : Z; vc_refetchMin : Z }.

Section Visitor.
Context {KS : Type} {JL : JoseLib KS}.
Context (cfg : vconfig).

Definition headerKID (token : string) : option string :=
  match jws_header token with
  | Some (kid, eddsa) => if decide (kid = "") then None else if eddsa then Some kid else None
  | None => None
  end.

(** One call's readings of the clock, in the order of the code, and what the key
    endpoint would answer. *)
Record vcall := mkVCall { ck_fresh : Z; ck_poll : Z; ck_mark : Z; ck_fetched : Z; ck_validate : Z;
  ck_answer : option string }.

(** [refetch] *)
Definition refetch (c : vcall) (v : vstate KS) : (auth_err + KS) * vstate KS :=
  match ck_answer c ≫= jwk_parse with
  | None => (inl AEFetch, v)
  | Some set => (inr set, mkVState (Some set) (ck_fetched c) (v_lastUnknownPoll v))
  end.

(** Whether the cache is fresh, as [keySet] reads it. *)
Definition is_fresh (t : Z) (v : vstate KS) : option KS :=
  match v_cached v with
  | Some set => if (t - v_fetchedAt v <? vc_ttl cfg)%Z then Some set else None
  | None => None
  end.

(** [keySet]; the second component says whether the endpoint was asked. *)
Definition keySet (kid : string) (c : vcall) (v : vstate KS) : (auth_err + KS) * bool * vstate KS :=
  let ask v :=
    let '(r, v') := refetch c v in
    (match r with
     | inl e => inl e
     | inr set => if jwk_lookup set kid then inr set else inl AEUnknownKid
     end, true, v') in
  match is_fresh (ck_fresh c) v with
  | Some set =>
      if jwk_lookup set kid then (inr set, false, v)
      else if (ck_poll c - v_lastUnknownPoll v <? vc_refetchMin cfg)%Z then (inl AEThrottled, false, v)
      else ask (mkVState (v_cached v) (v_fetchedAt v) (ck_mark c))
  | None => ask v
  end.

(** The identity of a validated token. *)
Definition visitor_identity (t : vtoken) : auth_err + Identity :=
  let '(tid, _) := claimString t "tid" in
  let sub := vt_Subject t in
  let '(role, _) := claimString t "role" in
  if decide (tid = "" ∨ sub = "") then inl AEVisitorMissing
  else if negb (validSubjectToken tid) then inl AEUnsafe
  else if negb (validSubjectToken sub) then inl AEUnsafe
  else
    let '(capability, capabilitySet) := claimString t "cap" in
    let '(cid, cidSet) := claimString t "cid" in
    if capabilitySet : bool then
      if bool_decide (is_Some (vt_Claims t !! "role")) || cidSet || negb (IsSubscriberCapability capability)
      then inl AESubscriberClaims
      else inr (mkIdentity tid sub "" capability "" None)
    else if negb (bool_decide (role = "")) || negb cidSet || bool_decide (cid = "") then inl AEMissingCid
    else if negb (validSubjectToken cid) then inl AEUnsafe
    else inr (mkIdentity tid sub RoleVisitor "" cid (Some (vt_Exp t))).

(** [VisitorVerifier.Verify] *)
Definition visitor_Verify (c : vcall) (token : string) (v : vstate KS) : (auth_err + Identity) * vstate KS :=
  if decide (token = "") then (inl AEVisitorEmpty, v)
  else match headerKID token with
       | None => (inl AEHeader, v)
       | Some kid =>
           let '(r, _, v') := keySet kid c v in
           (match r with
            | inl e => inl e
            | inr set =>
                match jwt_parse set visitorIssuer visitorAudience (ck_validate c) token with
                | None => inl AEJwt
                | Some t => visitor_identity t
                end
            end, v')
       end.
End Visitor.

(** * The responder *)

Record AuthRequest := mkAuthRequest { rq_Token : string; rq_UserNkey : string; rq_ServerID : string }.

(** The user claims the responder signs. [uc_Resp] is the one-message response
    permission, [uc_Expires] 0 means no expiry. *)
Record UserClaims := mkUserClaims {
  uc_Subject : string;
  uc_Name : string;
  uc_Audience : string;
  uc_Grant : Grant;
  uc_Resp : bool;
  uc_Expires : Z;
}.

Record AuthResponse := mkAuthResponse { ar_UserNkey : string; ar_Audience : string; ar_Jwt : string; ar_Error : option auth_err }.

(** NATS JWT encoding and decoding. *)
Class NatsJwt := {
  decode_request : string → option AuthRequest;
  encode_user : UserClaims → option string;
  encode_response : AuthResponse → option string;
}.

Section Responder.
Context {NJ : NatsJwt}.
Context (account : string) (visitorTTLCap : Z).

(** Nanoseconds since the epoch to Unix seconds. *)
Definition unix (t : Z) : Z := (t / 1000000000)%Z.

Definition cappedExpiry (now : Z) (id : Identity) : Z :=
  if decide (id_Role id ≠ RoleVisitor) then 0%Z
  else
    let exp := (now + visitorTTLCap)%Z in
    unix (match id_ExpiresAt id with
          | Some e => if (e <? exp)%Z then e else exp
          | None => exp
          end).

(** The claims minted for an identity. *)
Definition user_claims (req : AuthRequest) (id : Identity) (grant : Grant) (now : Z) : UserClaims :=
  mkUserClaims (rq_UserNkey req) (id_TenantID id +:+ "/" +:+ id_UserID id) account grant
    (AllowResponses grant) (cappedExpiry now id).

Definition respond (req : AuthRequest) (userJWT : string) (err : option auth_err) : option string :=
  encode_response (mkAuthResponse (rq_UserNkey req) (rq_ServerID req) userJWT err).

(** [handle]: the signed answer, or why not. *)
Definition handle_auth (verify : string → auth_err + Identity) (conn : string) (now : Z) (reqJWT : string) :
    auth_err + string :=
  match decode_request reqJWT with
  | None => inl AEDecode
  | Some req =>
      match verify (rq_Token req) with
      | inl e => inl e
      | inr id =>
          match GrantsFor id conn with
          | inl e => inl e
          | inr grant =>
              match encode_user (user_claims req id grant now) with
              | None => inl AEEncode
              | Some userJWT =>
                  match respond req userJWT None with
                  | Some token => inr token
                  | None => inl AEEncode
                  end
              end
          end
      end
  end.

Definition deny (reqJWT : string) (reason : auth_err) : option string :=
  req ← decode_request reqJWT; respond req "" (Some reason).

(** The subscription's callback: what is sent back, if anything. *)
Definition on_auth_request (verify : string → auth_err + Identity) (conn : string) (now : Z) (reqJWT : string) :
    option string :=
  match handle_auth verify conn now reqJWT with
  | inr token => Some token
  | inl e => deny reqJWT e
  end.
End Responder.

(** * The deployed responder (cmd/authcallout/main.go) *)

Section Deployed.
Context {TL : TokenLib} {KS : Type} {JL : JoseLib KS}.

(** With a JWKS endpoint configured the chain is the HMAC link without backends,
    then the visitor link; without one, the HMAC link alone with backends. *)
Definition deployed_verify (jwks : bool) (cfg : vconfig) (secret : string) (now : Z) (c : vcall) (token : string)
    (v : vstate KS) : (auth_err + Identity) * vstate KS :=
  if jwks then chain_Verify [λ tk s, (hmac_Verify secret false now tk, s); visitor_Verify cfg c] token v
  else (hmac_Verify secret true now token, v).
End Deployed.
