(* ===== verification/AuthTheorems.v ===== *)
(** What the minted permissions allow, under the documented meaning of NATS
    subject and response permissions: they pin every command to the authenticated
    identity and keep the log to the router, responses apart, and confine readers;
    and the verifiers' guarantees. *)

From S2P Require Import Prelude Bytes Identity Subjects MemStore JetStreamStore AuthCallout.

(** * NATS permissions *)

(** A pattern matches token by token: [*] one token, a final [>] one or more. *)
Fixpoint token_match (p s : list string) : bool :=
  match p, s with
  | [], [] => true
  | t :: p', u :: s' =>
      if decide (t = ">" ∧ p' = []) then true
      else (bool_decide (t = "*") || bool_decide (t = u)) && token_match p' s'
  | _, _ => false
  end.

Definition acl_match (pattern subject : string) : bool :=
  token_match (split_on "." pattern) (split_on "." subject).

(** An empty allow list allows everything; a deny outranks every allow. *)
Definition permitted (allow deny : list string) (subject : string) : Prop :=
  (allow = [] ∨ ∃ p, p ∈ allow ∧ acl_match p subject = true) ∧ ∀ p, p ∈ deny → acl_match p subject = false.

(** What the lists of a grant let the connection publish, and which messages may be
    delivered to it through any subscription the server admits. *)
Definition may_publish (g : Grant) : string → Prop := permitted (PubAllow g) (PubDeny g).
Definition may_receive (g : Grant) : string → Prop := permitted (SubAllow g) (SubDeny g).

(** ** Response permissions *)

(** The messages a connection is delivered and publishes, with their reply subject
    ([""] for none). *)
Inductive conn_event := CRecv (subject reply : string) | CPub (subject reply : string).

(** [admitted g tr replies]: the server lets a connection of grant [g] do [tr].
    The reply subject of a message delivered to it may be published to once, past
    both lists, when the grant allows responses; [replies] are those still open. *)
Inductive admitted (g : Grant) : list conn_event → gset string → Prop :=
| adm_nil : admitted g [] ∅
| adm_deliver tr R s r :
    admitted g tr R → may_receive g s →
    admitted g (tr ++ [CRecv s r]) (if AllowResponses g && negb (bool_decide (r = "")) then {[r]} ∪ R else R)
| adm_publish tr R s r : admitted g tr R → may_publish g s → admitted g (tr ++ [CPub s r]) R
| adm_respond tr R s r : admitted g tr R → s ∈ R → admitted g (tr ++ [CPub s r]) (R ∖ {[s]}).

(** How often a connection published to [s], and was delivered a message that
    names [s] as its reply subject. *)
Definition is_publish (s : string) (ev : conn_event) : nat :=
  match ev with CPub s' _ => if decide (s' = s) then 1 else 0 | CRecv _ _ => 0 end.
Definition is_request (s : string) (ev : conn_event) : nat :=
  match ev with CRecv _ r => if decide (r = s) then 1 else 0 | CPub _ _ => 0 end.
Definition publishes (s : string) (tr : list conn_event) : nat := sum_list_with (is_publish s) tr.
Definition requests_on (s : string) (tr : list conn_event) : nat := sum_list_with (is_request s) tr.

(** Past the lists there is one publish for each message that asks for it. *)
Lemma responses_bounded g tr R s :
  admitted g tr R → ¬ may_publish g s →
  publishes s tr + (if decide (s ∈ R) then 1 else 0) ≤ (if AllowResponses g then requests_on s tr else 0).
Proof.
  intros Ha Hs. induction Ha as [|tr R s' r Ha IH Hr|tr R s' r Ha IH Hp|tr R s' r Ha IH Hin];
    unfold publishes, requests_on in *; rewrite ?sum_list_with_app; simpl.
  - rewrite decide_False by set_solver. destruct (AllowResponses g); lia.
  - destruct (AllowResponses g); simpl in *; [|lia]. destruct (bool_decide (r = "")); simpl; [repeat case_decide; lia|].
    destruct (decide (r = s)) as [->|Hne]; [rewrite decide_True by set_solver; repeat case_decide; lia|].
    rewrite (decide_ext (s ∈ {[r]} ∪ R) (s ∈ R)) by set_solver. lia.
  - rewrite (decide_False (P := s' = s)) by (by intros ->). destruct (AllowResponses g); lia.
  - destruct (decide (s' = s)) as [->|Hne].
    + rewrite decide_True in IH by done. rewrite decide_False by set_solver. destruct (AllowResponses g); lia.
    + rewrite (decide_ext (s ∈ R ∖ {[s']}) (s ∈ R)) by set_solver. destruct (AllowResponses g); lia.
Qed.

Lemma admitted_snoc g tr ev R :
  admitted g (tr ++ [ev]) R →
  ∃ R', admitted g tr R' ∧ match ev with CPub s _ => may_publish g s ∨ s ∈ R' | CRecv s _ => may_receive g s end.
Proof.
  intros Ha. remember (tr ++ [ev]) as tr' eqn:E. destruct Ha as [|tr0 R s r Ha Hr|tr0 R s r Ha Hp|tr0 R s r Ha Hin].
  { by destruct tr. }
  all: apply app_inj_tail in E as [<- <-]; eauto.
Qed.

Lemma admitted_prefix g tr1 tr2 R : admitted g (tr1 ++ tr2) R → ∃ R', admitted g tr1 R'.
Proof.
  revert R. induction tr2 as [|ev tr2 IH] using rev_ind; intros R Ha; [rewrite app_nil_r in Ha; eauto|].
  rewrite app_assoc in Ha. apply admitted_snoc in Ha as (R' & Ha & _). by eapply IH.
Qed.

(** Why a publish was admitted: by the lists, or as the response to a message
    delivered before it. *)
Lemma admitted_publish g tr1 s r tr2 R :
  admitted g (tr1 ++ CPub s r :: tr2) R →
  may_publish g s ∨ AllowResponses g = true ∧ ∃ s', CRecv s' s ∈ tr1.
Proof.
  intros Ha. assert (∃ R', admitted g (tr1 ++ [CPub s r]) R') as [R1 Ha1].
  { apply (admitted_prefix g _ tr2 R). by rewrite <-app_assoc. }
  apply admitted_snoc in Ha1 as (R2 & H2 & [?|Hin]); [by left|right].
  clear -H2 Hin. induction H2 as [|tr R s' r Ha IH Hr|tr R s' r Ha IH Hp|tr R s' r Ha IH Hs]; [set_solver|..].
  - destruct (AllowResponses g) eqn:Hg; simpl in Hin.
    + split; [done|]. destruct (bool_decide (r = "")); simpl in Hin.
      * destruct (IH Hin) as [_ [x Hx]]. exists x. set_solver.
      * apply elem_of_union in Hin as [->%elem_of_singleton|Hin]; [exists s'; set_solver|].
        destruct (IH Hin) as [_ [x Hx]]. exists x. set_solver.
    + by destruct (IH Hin).
  - destruct (IH Hin) as [? [x Hx]]. split; [done|]. exists x. set_solver.
  - destruct (IH ltac:(set_solver)) as [? [x Hx]]. split; [done|]. exists x. set_solver.
Qed.

(** ** Patterns *)

Lemma valid_tok s : validSubjectToken s = true → tok s ∧ s ≠ "" ∧ s ≠ "*" ∧ s ≠ ">".
Proof.
  unfold validSubjectToken. intros [Hne Hc]%andb_true_iff. apply negb_true_iff, bool_decide_eq_false in Hne.
  split_and!; [|done|by intros ->|by intros ->]. clear Hne. unfold tok.
  induction s as [|c s IH]; simpl in *; [done|]. apply andb_true_iff in Hc as [Hb Hs].
  rewrite (IH Hs). unfold bad_token_char in Hb. destruct (bool_decide (c = "."%char)); done.
Qed.

Lemma split_prefix w x :
  has_char "." w = false → ∃ a rest, split_on "." (w +:+ x) = (w +:+ a) :: rest.
Proof.
  induction w as [|c w IH]; simpl; intros Hw.
  - destruct (split_on "." x) as [|a rest] eqn:E; [|by exists a, rest].
    exfalso. destruct x as [|c x]; simpl in E; [done|]. case_decide; [done|]. by destruct (split_on "." x).
  - apply orb_false_iff in Hw as [Hc Hw]. apply bool_decide_eq_false in Hc. rewrite decide_False by done.
    destruct (IH Hw) as (a & rest & ->). by exists a, rest.
Qed.

(** How a pattern that starts with a token can match. *)
Lemma token_match_cons t p s :
  token_match (t :: p) s = true →
  (t = ">" ∧ p = []) ∨ ∃ u s', s = u :: s' ∧ (t = "*" ∨ t = u) ∧ token_match p s' = true.
Proof.
  destruct s as [|u s]; simpl; [done|]. case_decide as Hd; [by left|]. intros [Ho Hm]%andb_true_iff. right.
  exists u, s. split_and!; [done| |done]. by apply orb_true_iff in Ho as [?%bool_decide_eq_true|?%bool_decide_eq_true]; auto.
Qed.

Lemma token_match_nil s : token_match [] s = true → s = [].
Proof. by destruct s. Qed.

Lemma acl_match_join l s :
  l ≠ [] → Forall (λ t, has_char "." t = false) l → acl_match (join_on "." l) s = token_match l (split_on "." s).
Proof. intros. unfold acl_match. by rewrite split_join. Qed.

(** Inverts a match of a pattern with concrete tokens. *)
Ltac inv_match H :=
  lazymatch type of H with
  | token_match (_ :: _) _ = true =>
      let u := fresh "u" in let s := fresh "s" in let Hs := fresh "Hs" in let Ho := fresh "Ho" in
      apply token_match_cons in H as [[? ?]|(u & s & Hs & Ho & H)];
      [try discriminate; try congruence
      |destruct Ho as [Ho|Ho]; [try discriminate; try congruence|]; try inv_match H]
  | token_match [] _ = true => apply token_match_nil in H
  | _ => idtac
  end.

(** The inbox pattern matches nothing that starts with another token. *)
Lemma inbox_first conn s t rest :
  split_on "." s = t :: rest → acl_match ("_INBOX_" +:+ conn +:+ ".>") s = true → ∃ x, t = "_INBOX_" +:+ x.
Proof.
  intros Hs. unfold acl_match. rewrite Hs.
  destruct (split_prefix "_INBOX_" (conn +:+ ".>") eq_refl) as (a & r & ->).
  intros [[? _]|(u & s' & [= <- <-] & [?|<-] & _)]%token_match_cons; [done|done|]. by exists a.
Qed.

(** ** What an identity may publish *)

(** The publishable patterns of a grant, as token lists, besides the inbox. *)
Definition command_pattern (t self : string) : list string := ["tenant"; t; "interaction"; "*"; "cmd"; self].
Definition backend_pub : list (list string) :=
  [["$JS"; "API"; "STREAM"; "INFO"; LogStreamName]; ["$JS"; "API"; "CONSUMER"; "CREATE"; LogStreamName; ">"];
   ["$JS"; "API"; "CONSUMER"; "DURABLE"; "CREATE"; LogStreamName; ">"];
   ["$JS"; "API"; "CONSUMER"; "INFO"; LogStreamName; ">"];
   ["$JS"; "API"; "CONSUMER"; "MSG"; "NEXT"; LogStreamName; ">"];
   ["$JS"; "API"; "CONSUMER"; "DELETE"; LogStreamName; ">"]].
Definition presence_pub (t self : string) : list (list string) :=
  [["tenant"; t; "presence"; self; "state"]; ["tenant"; t; "presence"; self; "typing"; ">"]].

Definition pats_ok (ps : list (list string)) : Prop :=
  Forall (λ l, l ≠ [] ∧ Forall (λ t, has_char "." t = false) l) ps.

(** A subject that matches an allow list matches one of its patterns. *)
Lemma allow_match ps s p :
  pats_ok ps → p ∈ (join_on "." <$> ps) → acl_match p s = true →
  ∃ l, l ∈ ps ∧ token_match l (split_on "." s) = true.
Proof.
  intros Hok Hp Hm. apply list_elem_of_fmap in Hp as (l & -> & Hl).
  destruct (proj1 (Forall_forall _ _) Hok l Hl) as [Hne Hf]. rewrite acl_match_join in Hm by done. eauto.
Qed.

Lemma subscriber_pub t self inbox cap :
  PubAllow (subscriber_grant t self inbox cap) =
    (join_on "." <$> command_pattern t self :: presence_pub t self) ++ [inbox].
Proof. reflexivity. Qed.

Lemma backend_pub_allow t self inbox :
  PubAllow (backend_grant t self inbox) =
    (join_on "." <$> [command_pattern t self]) ++ [inbox] ++ (join_on "." <$> backend_pub).
Proof. reflexivity. Qed.

Ltac solve_pats := repeat first [ apply Forall_cons; split | apply Forall_nil | split | done ].

Lemma subscriber_pats_ok t self : tok t → tok self → pats_ok (command_pattern t self :: presence_pub t self).
Proof. intros Ht Hs. unfold tok in *. solve_pats. Qed.

Lemma command_pats_ok t self : tok t → tok self → pats_ok [command_pattern t self].
Proof. intros Ht Hs. unfold tok in *. solve_pats. Qed.

Lemma backend_pats_ok : pats_ok backend_pub.
Proof. solve_pats. Qed.

(** The split of a command subject. *)
Lemma parse_split s t i u :
  parseCmdSubject s = Some (t, i, u) → split_on "." s = ["tenant"; t; "interaction"; i; "cmd"; u].
Proof.
  unfold parseCmdSubject. destruct (split_on "." s) as [|p0 [|p1 [|p2 [|p3 [|p4 [|p5 [|]]]]]]]; try done.
  case_decide as Hd; [|done]. case_decide; [done|]. intros [= -> -> ->]. by destruct Hd as (-> & -> & ->).
Qed.

(** The cases of a minted grant. *)
Lemma GrantsFor_cases id conn g :
  GrantsFor id conn = inr g →
  let inbox := "_INBOX_" +:+ conn +:+ ".>" in
  validSubjectToken (id_TenantID id) = true ∧ validSubjectToken (id_UserID id) = true ∧
  ((id_Role id = RoleVisitor ∧ validSubjectToken (id_ConversationID id) = true ∧
    g = visitor_grant (id_TenantID id) (id_ConversationID id) inbox) ∨
   (id_Role id = RoleTrustedBackend ∧ g = backend_grant (id_TenantID id) (id_UserID id) inbox) ∨
   (id_Role id = "" ∧ g = subscriber_grant (id_TenantID id) (id_UserID id) inbox (id_Capability id))).
Proof.
  unfold GrantsFor. destruct (validSubjectToken (id_TenantID id)); [|done].
  destruct (validSubjectToken (id_UserID id)); [|done]. simpl. case_decide; [done|].
  case_decide as Hv.
  { case_decide; [done|]. destruct (validSubjectToken (id_ConversationID id)); [|done]. intros [= <-].
    do 2 (split; [done|]). by left. }
  case_decide as Hb.
  { case_decide; [done|]. intros [= <-]. do 2 (split; [done|]). right. by left. }
  case_decide as He; [|done]. case_match; [done|]. intros [= <-]. do 2 (split; [done|]). right. by right.
Qed.

Lemma command_match t self t' i u :
  tok self → self ≠ ">" → self ≠ "*" → t ≠ "*" →
  token_match (command_pattern t self) ["tenant"; t'; "interaction"; i; "cmd"; u] = true → t' = t ∧ u = self.
Proof.
  intros Hs H1 H2 H3 H. unfold command_pattern in H. inv_match H; simplify_eq; done.
Qed.

Lemma deny_match (l deny : list string) s :
  join_on "." l ∈ deny → l ≠ [] → Forall (λ t, has_char "." t = false) l →
  (∀ p, p ∈ deny → acl_match p s = false) → token_match l (split_on "." s) = false.
Proof. intros Hin Hne Hf Hd. rewrite <-acl_match_join by done. by apply Hd. Qed.

Lemma inbox_not_tenant conn s rest :
  split_on "." s = "tenant" :: rest → acl_match ("_INBOX_" +:+ conn +:+ ".>") s = true → False.
Proof. intros Hs Hm. by destruct (inbox_first conn s _ _ Hs Hm) as [x ?]. Qed.

(** Publishing on a command subject takes the command pattern of the grant. *)
Lemma publish_command id conn g s t i u :
  GrantsFor id conn = inr g → may_publish g s → parseCmdSubject s = Some (t, i, u) →
  id_Role id ≠ RoleVisitor ∧ t = id_TenantID id ∧ u = id_UserID id.
Proof.
  intros Hg [Hallow Hdeny] Hs%parse_split.
  apply GrantsFor_cases in Hg as (Ht & Hu & Hg). apply valid_tok in Ht as (Htt & _ & Ht1 & _), Hu as (Hut & _ & Hu1 & Hu2).
  destruct Hg as [(Hr & _ & ->)|[[Hr ->]|[Hr ->]]].
  - exfalso. assert (acl_match ">" s = false) as Hd by (apply Hdeny; by left).
    unfold acl_match in Hd. rewrite Hs in Hd. done.
  - split; [rewrite Hr; discriminate|]. destruct Hallow as [Hnil|(p & Hp & Hm)]; [discriminate Hnil|].
    rewrite backend_pub_allow, !elem_of_app, list_elem_of_singleton in Hp. destruct Hp as [Hp|[->|Hp]].
    + apply (allow_match [command_pattern (id_TenantID id) (id_UserID id)]) in Hm as (l & Hl & Hm);
        [|by apply command_pats_ok|exact Hp].
      apply list_elem_of_singleton in Hl as ->. rewrite Hs in Hm. by apply command_match in Hm.
    + exfalso. by eapply inbox_not_tenant.
    + exfalso. apply (allow_match backend_pub) in Hm as (l & Hl & Hm); [|apply backend_pats_ok|exact Hp].
      rewrite Hs in Hm. unfold backend_pub in Hl. rewrite !elem_of_cons, elem_of_nil in Hl.
      destruct Hl as [->|[->|[->|[->|[->|[->|[]]]]]]]; inv_match Hm; simplify_eq.
  - split; [rewrite Hr; discriminate|]. destruct Hallow as [Hnil|(p & Hp & Hm)]; [discriminate Hnil|].
    rewrite subscriber_pub, elem_of_app, list_elem_of_singleton in Hp. destruct Hp as [Hp| ->].
    + apply (allow_match (command_pattern (id_TenantID id) (id_UserID id) :: presence_pub (id_TenantID id) (id_UserID id)))
        in Hm as (l & Hl & Hm); [|by apply subscriber_pats_ok|exact Hp]. rewrite Hs in Hm.
      unfold presence_pub in Hl. rewrite !elem_of_cons, elem_of_nil in Hl. destruct Hl as [->|[->|[->|[]]]].
      * by apply command_match in Hm.
      * exfalso. inv_match Hm; simplify_eq.
      * exfalso. inv_match Hm; simplify_eq.
    + exfalso. by eapply inbox_not_tenant.
Qed.

(** The roles that may respond. *)
Lemma responses_role id conn g : GrantsFor id conn = inr g → AllowResponses g = true → id_Role id ≠ RoleVisitor.
Proof.
  intros (_ & _ & [(_ & _ & ->)|[[Hr _]|[Hr _]]])%GrantsFor_cases; [done|rewrite Hr; discriminate..].
Qed.

Lemma log_not_listed id conn g t i :
  GrantsFor id conn = inr g → tok t → tok i → ¬ may_publish g (logSubjectFor t i).
Proof.
  intros Hg Ht Hi [_ Hdeny]. apply GrantsFor_cases in Hg as (_ & _ & Hg).
  assert (acl_match "tenant.*.interaction.*.log" (logSubjectFor t i) = true) as Hlog.
  { unfold acl_match. rewrite split_logSubject by done. vm_compute. reflexivity. }
  destruct Hg as [(_ & _ & ->)|[[_ ->]|[_ ->]]].
  - assert (acl_match ">" (logSubjectFor t i) = false) as Hd by (apply Hdeny; by left).
    unfold acl_match in Hd. by rewrite split_logSubject in Hd.
  - rewrite (Hdeny "tenant.*.interaction.*.log") in Hlog; [done|by left].
  - rewrite (Hdeny "tenant.*.interaction.*.log") in Hlog; [done|by left].
Qed.

(** C7: the minted permissions make the subject an authenticated author, except in
    a response. Whatever a connection with a credential of the responder does, if
    the server admits a publish of it on a command subject then the connection is
    not a visitor's, and either the subject's tenant and suffix are those of the
    verified identity, so that the identity the router reads off the subject is
    that one, or a message delivered to the connection before named the subject as
    its reply subject. *)
Theorem grant_pins_identity id conn g tr1 subject reply tr2 R t i u trusted :
  GrantsFor id conn = inr g → admitted g (tr1 ++ CPub subject reply :: tr2) R →
  parseCmdSubject subject = Some (t, i, u) →
  id_Role id ≠ RoleVisitor ∧
  ((t = id_TenantID id ∧ u = id_UserID id ∧
    id_TenantID (identityFromSubject subject trusted) = id_TenantID id ∧
    id_UserID (identityFromSubject subject trusted) = id_UserID id) ∨
   ∃ s, CRecv s subject ∈ tr1).
Proof.
  intros Hg [Hp|[Hresp Hd]]%admitted_publish Hs; [|by split; [eapply responses_role|right]].
  destruct (publish_command _ _ _ _ _ _ _ Hg Hp Hs) as (? & -> & ->). split; [done|left]. split_and!; try done;
    unfold identityFromSubject; rewrite (parse_split _ _ _ _ Hs);
    apply parseCmdSubject_toks in Hs as (_ & _ & _ & _ & ? & _ & ?);
    (rewrite decide_False by tauto); by case_decide.
Qed.

(** C29: the log has one writer, except for responses. Whatever a connection with a
    credential of the responder does, it publishes on an interaction's log subject
    no more often than it was delivered a message that names that log as its reply
    subject, and a visitor's connection never does. *)
Theorem log_is_router_only id conn g tr R t i :
  GrantsFor id conn = inr g → tok t → tok i → admitted g tr R →
  publishes (logSubjectFor t i) tr ≤ requests_on (logSubjectFor t i) tr ∧
  (id_Role id = RoleVisitor → publishes (logSubjectFor t i) tr = 0).
Proof.
  intros Hg Ht Hi Ha. pose proof (responses_bounded _ _ _ _ Ha (log_not_listed _ _ _ _ _ Hg Ht Hi)) as Hb.
  pose proof (responses_role _ _ _ Hg) as Hv. destruct (AllowResponses g); split; [lia|by intros ?%Hv|lia|lia].
Qed.

(** ** What an identity may receive *)

Definition visitor_sub (t cid : string) : list (list string) :=
  [["tenant"; t; "interaction"; cid; "log"]; ["tenant"; t; "conversation"; cid; "events"]].
Definition backend_sub (t : string) : list (list string) :=
  [["tenant"; t; "interaction"; "*"; "log"]; ["tenant"; t; "notify"; ">"]; ["tenant"; t; "routing"; ">"]].
Definition subscriber_sub (t self : string) : list (list string) :=
  [["tenant"; t; "agent"; self; "feed"; ">"]; ["tenant"; t; "routing"; "offer"; "user"; self];
   ["tenant"; t; "routing"; "offer"; "user"; self; "control"]; ["tenant"; t; "notify"; self];
   ["tenant"; t; "presence"; "*"; "state"]; ["tenant"; t; "presence"; "*"; "typing"; ">"]].
Definition admin_sub (t cap : string) : list (list string) :=
  if decide (cap = CapabilityAgentFeedAdminOperationObserver)
  then [["tenant"; t; "admin"; "operation"; "*"; "changed"]] else [].

(** The patterns a role reads by, besides its inbox. *)
Definition read_patterns (id : Identity) : list (list string) :=
  if decide (id_Role id = RoleVisitor) then visitor_sub (id_TenantID id) (id_ConversationID id)
  else if decide (id_Role id = RoleTrustedBackend) then backend_sub (id_TenantID id)
  else subscriber_sub (id_TenantID id) (id_UserID id) ++ admin_sub (id_TenantID id) (id_Capability id).

Lemma receive_match id conn g s :
  GrantsFor id conn = inr g → may_receive g s →
  acl_match ("_INBOX_" +:+ conn +:+ ".>") s = true ∨
  ∃ l, l ∈ read_patterns id ∧ token_match l (split_on "." s) = true.
Proof.
  intros Hg [Hallow _]. apply GrantsFor_cases in Hg as (Ht & Hu & Hg).
  apply valid_tok in Ht as (Ht & _), Hu as (Hu & _). unfold tok in Ht, Hu. unfold read_patterns.
  destruct Hg as [(Hr & Hc & ->)|[[Hr ->]|[Hr ->]]]; rewrite Hr;
    (destruct Hallow as [Hnil|(p & Hp & Hm)]; [discriminate Hnil|]).
  - apply valid_tok in Hc as (Hc & _). unfold tok in Hc. rewrite decide_True by done.
    change (SubAllow _) with ((join_on "." <$> visitor_sub (id_TenantID id) (id_ConversationID id)) ++
      ["_INBOX_" +:+ conn +:+ ".>"]) in Hp.
    rewrite elem_of_app, list_elem_of_singleton in Hp. destruct Hp as [Hp| ->]; [right|by left].
    apply (allow_match (visitor_sub (id_TenantID id) (id_ConversationID id)) _ p); [|exact Hp|exact Hm]. solve_pats.
  - rewrite decide_False, decide_True by done.
    change (SubAllow _) with ((join_on "." <$> backend_sub (id_TenantID id)) ++ ["_INBOX_" +:+ conn +:+ ".>"]) in Hp.
    rewrite elem_of_app, list_elem_of_singleton in Hp. destruct Hp as [Hp| ->]; [right|by left].
    apply (allow_match (backend_sub (id_TenantID id)) _ p); [|exact Hp|exact Hm]. solve_pats.
  - rewrite !decide_False by done.
    assert (SubAllow (subscriber_grant (id_TenantID id) (id_UserID id) ("_INBOX_" +:+ conn +:+ ".>") (id_Capability id)) =
      (join_on "." <$> subscriber_sub (id_TenantID id) (id_UserID id)) ++ ["_INBOX_" +:+ conn +:+ ".>"] ++
      (join_on "." <$> admin_sub (id_TenantID id) (id_Capability id))) as Heq.
    { unfold subscriber_grant, admin_sub. simpl. by case_decide. }
    rewrite Heq, !elem_of_app, list_elem_of_singleton in Hp. destruct Hp as [Hp|[->|Hp]]; [right|by left|right].
    + apply (allow_match (subscriber_sub (id_TenantID id) (id_UserID id))) in Hm as (l & Hl & Hm); [|solve_pats|exact Hp].
      exists l. split; [|done]. apply elem_of_app. by left.
    + apply (allow_match (admin_sub (id_TenantID id) (id_Capability id))) in Hm as (l & Hl & Hm); [|unfold admin_sub; case_decide; solve_pats|exact Hp].
      exists l. split; [|done]. apply elem_of_app. by right.
Qed.

Lemma split_inj s l : split_on "." s = l → s = join_on "." l.
Proof. intros <-. by rewrite join_split. Qed.

(** Enumerates the patterns a hypothesis ranges over. *)
Ltac each_pattern Hl :=
  unfold visitor_sub, backend_sub, subscriber_sub, admin_sub in Hl; try case_decide;
  repeat (rewrite ?elem_of_app, ?elem_of_cons, ?elem_of_nil in Hl); destruct_or? Hl; subst; try done.

(** C30: readers are confined. Outside its own inbox, a connection is delivered
    only messages of its tenant; a visitor only the log and the events of the one
    conversation its token is bound to; a subscriber no interaction log at all, and
    of the agent feeds only its own. *)
Theorem reads_confined id conn g s :
  GrantsFor id conn = inr g → may_receive g s → acl_match ("_INBOX_" +:+ conn +:+ ".>") s = false →
  (∃ rest, split_on "." s = "tenant" :: id_TenantID id :: rest) ∧
  (id_Role id = RoleVisitor →
     s = logSubjectFor (id_TenantID id) (id_ConversationID id) ∨
     s = "tenant." +:+ id_TenantID id +:+ ".conversation." +:+ id_ConversationID id +:+ ".events") ∧
  (id_Role id = "" →
     (∀ i, split_on "." s ≠ ["tenant"; id_TenantID id; "interaction"; i; "log"]) ∧
     (∀ agent rest, split_on "." s = "tenant" :: id_TenantID id :: "agent" :: agent :: "feed" :: rest →
        agent = id_UserID id)).
Proof.
  intros Hg Hr Hi. pose proof (GrantsFor_cases _ _ _ Hg) as (Ht & Hu & Hcases).
  apply valid_tok in Ht as (_ & _ & Ht1 & Ht2), Hu as (_ & _ & Hu1 & Hu2).
  destruct (receive_match _ _ _ _ Hg Hr) as [Hm|(l & Hl & Hm)]; [congruence|]. clear Hi Hr Hg.
  unfold read_patterns in Hl. destruct Hcases as [(Hrole & Hc & _)|[[Hrole _]|[Hrole _]]]; rewrite Hrole in Hl |- *.
  - apply valid_tok in Hc as (_ & _ & Hc1 & Hc2). rewrite decide_True in Hl by done.
    each_pattern Hl; inv_match Hm; subst; (split_and!; [by eexists|intros _|done]).
    + left. exact (split_inj _ _ Hs).
    + right. exact (split_inj _ _ Hs).
  - rewrite decide_False, decide_True in Hl by done.
    each_pattern Hl; inv_match Hm; subst; (split_and!; [by eexists|done|done]).
  - rewrite !decide_False in Hl by done.
    each_pattern Hl; inv_match Hm; subst; (split_and!; [by eexists|done|intros _; split; intros]);
      repeat match goal with H : split_on "." s = _ |- _ => rewrite H in * end; intros; simplify_eq; done.
Qed.

Definition ana : Identity := mkIdentity "t1" "ana" "" CapabilityAgentFeed "" None.
Definition ana_grant : Grant := subscriber_grant "t1" "ana" "_INBOX_c1.>" CapabilityAgentFeed.

Lemma ana_commands : admitted ana_grant ([] ++ CPub "tenant.t1.interaction.i7.cmd.ana" "_INBOX_c1.r" :: []) ∅.
Proof.
  apply (adm_publish _ []); [constructor|]. split.
  - right. exists "tenant.t1.interaction.*.cmd.ana". split; [left|reflexivity].
  - intros p [->|[->|[]%elem_of_nil]%elem_of_cons]%elem_of_cons; reflexivity.
Qed.

Lemma grant_pins_identity_witness :
  GrantsFor ana "c1" = inr ana_grant ∧
  (id_UserID (identityFromSubject "tenant.t1.interaction.i7.cmd.ana" ∅) = "ana" ∨
   ∃ s, CRecv s "tenant.t1.interaction.i7.cmd.ana" ∈ @nil conn_event).
Proof.
  split; [reflexivity|].
  destruct (grant_pins_identity ana "c1" ana_grant [] "tenant.t1.interaction.i7.cmd.ana" "_INBOX_c1.r" [] ∅ "t1" "i7" "ana" ∅
    eq_refl ana_commands eq_refl) as [_ [(_ & _ & _ & H)|H]]; [left; exact H|right; exact H].
Defined.

Lemma log_is_router_only_witness :
  GrantsFor ana "c1" = inr ana_grant ∧
  publishes (logSubjectFor "t1" "i7") [CPub "tenant.t1.interaction.i7.cmd.ana" "_INBOX_c1.r"] ≤ 0.
Proof.
  split; [reflexivity|].
  exact (proj1 (log_is_router_only ana "c1" ana_grant _ ∅ "t1" "i7" eq_refl eq_refl eq_refl ana_commands)).
Defined.

Lemma split_last s t : has_char "." t = false → split_on "." (s +:+ String "." t) = split_on "." s ++ [t].
Proof.
  intros Ht. induction s as [|c s IH]; simpl; [by rewrite split_on_tok|]. rewrite IH. case_decide; [done|].
  pose proof (split_on_nonempty "." s). by destruct (split_on "." s).
Qed.

Lemma token_match_self l x : token_match (l ++ [">"]) (l ++ [x]) = true.
Proof. induction l as [|t l IH]; [reflexivity|]. simpl. case_decide; [done|]. by rewrite IH, (bool_decide_eq_true_2 (t = t)), orb_true_r by done. Qed.

(** The own inbox is open in both directions, and its messages may be answered. *)
Lemma inbox_open id conn g :
  GrantsFor id conn = inr g → id_Role id ≠ RoleVisitor →
  let inbox := "_INBOX_" +:+ conn +:+ ".x" in
  may_publish g inbox ∧ may_receive g inbox ∧ AllowResponses g = true.
Proof.
  intros (_ & _ & Hg)%GrantsFor_cases Hrole inbox.
  assert (acl_match ("_INBOX_" +:+ conn +:+ ".>") inbox = true) as Hm.
  { unfold acl_match, inbox. rewrite <-!str_app_assoc, !split_last by done. apply token_match_self. }
  assert (∀ p t rest, split_on "." p = t :: rest → t ≠ "*" → t ≠ ">" → (∀ x, t ≠ "_INBOX_" +:+ x) → acl_match p inbox = false) as Hd.
  { intros p t rest Hp H1 H2 Hx. unfold acl_match. rewrite Hp.
    destruct (split_prefix "_INBOX_" (conn +:+ ".x") eq_refl) as (a & r & Hr). unfold inbox. rewrite Hr.
    apply not_true_iff_false. intros [[? _]|(u & s' & [= <- <-] & [?|?] & _)]%token_match_cons; [done|done|]. by destruct (Hx a). }
  assert (∀ p, p ∈ ["tenant.*.interaction.*.log"; "tenant.*.agent.*.feed.>"; "_INBOX.>"] → acl_match p inbox = false) as Hdeny.
  { intros p Hp. repeat (apply elem_of_cons in Hp as [->|Hp]; [by eapply Hd; [reflexivity|..]|]). by apply elem_of_nil in Hp. }
  destruct Hg as [(Hr & _ & _)|[[_ ->]|[_ ->]]]; [done|..]; (split_and!; [split|split|done]).
  all: try (intros p Hp; apply Hdeny; simpl in Hp; set_solver).
  all: right; exists ("_INBOX_" +:+ conn +:+ ".>"); (split; [|done]); simpl; try case_decide; set_solver.
Qed.

(** C40: A subscriber or a backend needs no other party for a response. With any
    credential that is not a visitor's, a message the connection sends to its own
    inbox with a reply subject of its choice is delivered to it and lets it publish
    there once, past its lists: to the command subject of another user, or to the
    log of any interaction. *)
Theorem response_permission_escapes id conn g s :
  GrantsFor id conn = inr g → id_Role id ≠ RoleVisitor → s ≠ "" →
  let inbox := "_INBOX_" +:+ conn +:+ ".x" in
  admitted g [CPub inbox s; CRecv inbox s; CPub s ""] ∅.
Proof.
  intros Hg Hrole Hs inbox.
  assert (may_publish g inbox ∧ may_receive g inbox ∧ AllowResponses g = true) as (Hp & Hr & Ha).
  { by apply (inbox_open id conn). }
  assert (∅ = ({[s]} ∪ ∅) ∖ {[s]} :> gset string) as -> by set_solver.
  apply (adm_respond g [CPub inbox s; CRecv inbox s]); [|set_solver].
  replace ({[s]} ∪ ∅ : gset string) with (if AllowResponses g && negb (bool_decide (s = "")) then {[s]} ∪ ∅ else ∅ : gset string)
    by (by rewrite Ha, bool_decide_eq_false_2).
  apply (adm_deliver g [CPub inbox s]); [|done]. apply (adm_publish g []); [constructor|done].
Qed.

Lemma response_permission_escapes_witness :
  let inbox := "_INBOX_" +:+ "c1" +:+ ".x" in
  let log := logSubjectFor "t2" "i9" in
  GrantsFor ana "c1" = inr ana_grant ∧
  admitted ana_grant [CPub inbox log; CRecv inbox log; CPub log ""] ∅ ∧
  publishes log [CPub inbox log; CRecv inbox log; CPub log ""] = 1.
Proof.
  intros inbox log. split; [reflexivity|]. split; [|vm_compute; reflexivity].
  apply (response_permission_escapes ana "c1" ana_grant log); [reflexivity|discriminate|discriminate].
Defined.

Lemma reads_confined_witness :
  let id := mkIdentity "t1" "v9" RoleVisitor "" "i7" None in
  ∃ g, GrantsFor id "c1" = inr g ∧ may_receive g "tenant.t1.interaction.i7.log" ∧
    ∃ rest, split_on "." "tenant.t1.interaction.i7.log" = "tenant" :: "t1" :: rest.
Proof.
  intros id. eexists. split; [vm_compute; reflexivity|].
  assert (may_receive (visitor_grant "t1" "i7" "_INBOX_c1.>") "tenant.t1.interaction.i7.log") as Hr.
  { split.
    - right. exists "tenant.t1.interaction.i7.log". split; [left|reflexivity].
    - intros p [->|[->|[]%elem_of_nil]%elem_of_cons]%elem_of_cons; reflexivity. }
  split; [exact Hr|].
  apply (reads_confined id "c1" _ "tenant.t1.interaction.i7.log" eq_refl Hr eq_refl).
Defined.

(** * The verifiers *)

Section Tokens.
Context {TL : TokenLib}.

(** What the token code relies on of base64 and JSON. *)
Hypothesis b64_roundtrip : ∀ s, b64_decode (b64_encode s) = Some s.
Hypothesis b64_no_dot : ∀ s, has_char "." (b64_encode s) = false.
Hypothesis claims_roundtrip : ∀ c body, claims_encode c = Some body → claims_decode body = Some c.

(** A development token verifies to exactly the identity it was minted for,
    until it expires; a different secret or a posture that forbids backends are the
    only other ways it can fail. *)
Theorem dev_token_roundtrip secret id now ttl token now' :
  MintDevToken secret id now ttl = inr token →
  validSubjectToken (id_TenantID id) = true → validSubjectToken (id_UserID id) = true →
  id_ConversationID id = "" → id_ExpiresAt id = None → (0 < ttl → now' <= now + ttl)%Z →
  hmac_Verify secret true now' token = inr id.
Proof.
  intros Hm Ht Hu Hc He Hexp. unfold MintDevToken in Hm.
  case_decide as H1; [done|]. case_decide as H2; [done|]. case_decide as H3; [done|].
  destruct (claims_encode _) as [body|] eqn:Hb; [|done]. injection Hm as <-.
  apply claims_roundtrip in Hb. unfold hmac_Verify.
  rewrite split_on_cons, split_on_tok by apply b64_no_dot.
  rewrite !b64_roundtrip, decide_False, Hb by (intros ?; done). simpl.
  rewrite decide_False; [|destruct (Z.ltb_spec 0 ttl); intros [? ?]; [lia|done]].
  pose proof (valid_tok _ Ht) as (_ & Ht' & _). pose proof (valid_tok _ Hu) as (_ & Hu' & _).
  rewrite decide_False by tauto. rewrite Ht, Hu. simpl. destruct id as [t u role cap conv exp]. simpl in *. subst.
  destruct (decide (cap = "")) as [->|Hcap].
  - rewrite decide_False by tauto. destruct (decide (role = RoleTrustedBackend)) as [->|Hr]; [done|].
    exfalso. destruct (decide (role = "")) as [->|?]; [|by apply H3]. by apply H2.
  - rewrite decide_True by done. destruct (decide (role = "")) as [->|?]; [|by exfalso; apply H1].
    destruct (IsSubscriberCapability cap) eqn:Hs; [done|]. exfalso. by apply H2.
Qed.
End Tokens.

(** The identities a verifier can return. *)
Definition grantable (id : Identity) : Prop :=
  validSubjectToken (id_TenantID id) = true ∧ validSubjectToken (id_UserID id) = true ∧
  ((id_Role id = "" ∧ IsSubscriberCapability (id_Capability id) = true ∧ id_ConversationID id = "") ∨
   (id_Role id = RoleVisitor ∧ id_Capability id = "" ∧ validSubjectToken (id_ConversationID id) = true) ∨
   (id_Role id = RoleTrustedBackend ∧ id_Capability id = "")).

Lemma hmac_grantable {TL : TokenLib} secret allow now token id :
  hmac_Verify secret allow now token = inr id →
  grantable id ∧ id_Role id ≠ RoleVisitor ∧ (id_Role id = RoleTrustedBackend → allow = true).
Proof.
  unfold hmac_Verify. destruct (split_on "." token) as [|p0 [|p1 [|]]]; try done.
  destruct (b64_decode p0) as [body|]; [|done]. destruct (b64_decode p1); [|done]. case_decide; [done|].
  destruct (claims_decode body) as [c|]; [|done]. do 2 (case_decide; [done|]).
  destruct (validSubjectToken (cl_Tenant c)) eqn:Ht; [|done].
  destruct (validSubjectToken (cl_User c)) eqn:Hu; [|done]. simpl. case_decide.
  - case_decide; [done|]. destruct (IsSubscriberCapability (cl_Capability c)) eqn:Hs; [|done]. intros [= <-].
    split_and!; [|done|done]. split_and!; [done|done|by left].
  - case_decide; [|done]. destruct allow; [|done]. intros [= <-].
    split_and!; [|done|done]. split_and!; [done|done|by right; right].
Qed.

Lemma visitor_grantable t id :
  visitor_identity t = inr id → grantable id ∧ id_Role id ≠ RoleTrustedBackend.
Proof.
  unfold visitor_identity. destruct (claimString t "tid") as [tid b1], (claimString t "role") as [role b2].
  case_decide; [done|]. destruct (validSubjectToken tid) eqn:Ht; [|done].
  destruct (validSubjectToken (vt_Subject t)) eqn:Hu; [|done]. simpl.
  destruct (claimString t "cap") as [cap []], (claimString t "cid") as [cid bc].
  - destruct (IsSubscriberCapability cap) eqn:Hs; [|by rewrite orb_true_r]. case_match; [done|]. intros [= <-].
    split; [|done]. split_and!; [done|done|by left].
  - case_match; [done|]. destruct (validSubjectToken cid) eqn:Hc; [|done]. intros [= <-].
    split; [|done]. split_and!; [done|done|right; by left].
Qed.

Lemma grantable_granted id conn : grantable id → conn ≠ "" → ∃ g, GrantsFor id conn = inr g.
Proof.
  intros (Ht & Hu & H) Hc. unfold GrantsFor. rewrite Ht, Hu, decide_False by done. simpl.
  destruct H as [(-> & Hs & ->)|[(-> & -> & Hv)|[-> ->]]]; simpl.
  - rewrite Hs. simpl. eauto.
  - rewrite Hv. simpl. eauto.
  - eauto.
Qed.

(** * The key cache *)

Section Keys.
Context {KS : Type} {JL : JoseLib KS}.
Context (cfg : vconfig).

(** A sequence of verifications on one verifier: the answers of [keySet], and the
    times at which an unknown key id made it ask the endpoint despite a fresh cache. *)
Fixpoint serve_keys (calls : list (string * vcall)) (v : vstate KS) : list (auth_err + KS) * list Z :=
  match calls with
  | [] => ([], [])
  | (kid, c) :: rest =>
      let '(r, asked, v') := keySet cfg kid c v in
      let '(rs, polls) := serve_keys rest v' in
      (r :: rs, if asked && bool_decide (is_Some (is_fresh cfg (ck_fresh c) v)) then ck_mark c :: polls else polls)
  end.

(** Consecutive times at least [d] apart, the first at least [d] after [t]. *)
Fixpoint spaced (d t : Z) (l : list Z) : Prop :=
  match l with
  | [] => True
  | x :: l' => (d <= x - t)%Z ∧ spaced d x l'
  end.

Lemma refetch_poll c v r v' :
  refetch c v = (r, v') → v_lastUnknownPoll v' = v_lastUnknownPoll v.
Proof. unfold refetch. case_match; by intros [= <- <-]. Qed.

Lemma keySet_poll kid c v r asked v' :
  keySet cfg kid c v = (r, asked, v') → (ck_poll c <= ck_mark c)%Z →
  if asked && bool_decide (is_Some (is_fresh cfg (ck_fresh c) v))
  then v_lastUnknownPoll v' = ck_mark c ∧ (vc_refetchMin cfg <= ck_mark c - v_lastUnknownPoll v)%Z
  else v_lastUnknownPoll v' = v_lastUnknownPoll v.
Proof.
  unfold keySet. intros H Hc. destruct (is_fresh cfg (ck_fresh c) v) as [set|] eqn:Hf.
  - destruct (jwk_lookup set kid); [by injection H as <- <- <-|].
    destruct (Z.ltb_spec (ck_poll c - v_lastUnknownPoll v) (vc_refetchMin cfg)); [by injection H as <- <- <-|].
    destruct (refetch c _) as [r' w] eqn:E. apply refetch_poll in E. injection H as <- <- <-. simpl in *.
    split; [done|lia].
  - destruct (refetch c v) as [r' w] eqn:E. apply refetch_poll in E. injection H as <- <- <-. done.
Qed.

Lemma keySet_holds kid c v set asked v' :
  keySet cfg kid c v = (inr set, asked, v') →
  jwk_lookup set kid = true ∧ v_cached v' = Some set ∧
  ((ck_fresh c - v_fetchedAt v' < vc_ttl cfg)%Z ∨ v_fetchedAt v' = ck_fetched c ∧ ck_answer c ≫= jwk_parse = Some set).
Proof.
  unfold keySet. destruct (is_fresh cfg (ck_fresh c) v) as [set'|] eqn:Hf.
  - destruct (jwk_lookup set' kid) eqn:Hk.
    + intros [= <- <- <-]. split_and!; [done| |]; unfold is_fresh in Hf;
        (destruct (v_cached v); [|done]); case_match; simplify_eq; [done|]. left. by apply Z.ltb_lt.
    + case_match; [done|]. unfold refetch. destruct (ck_answer c ≫= jwk_parse) as [set2|]; simpl; [|done].
      destruct (jwk_lookup set2 kid) eqn:Hk2; [|done]. intros [= <- <- <-]. auto.
  - unfold refetch. destruct (ck_answer c ≫= jwk_parse) as [set2|]; simpl; [|done].
    destruct (jwk_lookup set2 kid) eqn:Hk2; [|done]. intros [= <- <- <-]. auto.
Qed.

(** C37: forged key ids cannot make the verifier hammer the key endpoint, and no
    key outlives its time. Over any sequence of tokens, the requests that an
    unknown key id forces while the cache is fresh are at least the cooldown apart;
    and every key set an answer is verified against holds the token's key id. *)
Theorem unknown_kid_throttled calls v :
  (∀ kid c, (kid, c) ∈ calls → (ck_poll c <= ck_mark c)%Z) →
  spaced (vc_refetchMin cfg) (v_lastUnknownPoll v) (serve_keys calls v).2 ∧
  ∀ n kid c set, calls !! n = Some (kid, c) → (serve_keys calls v).1 !! n = Some (inr set) →
    jwk_lookup set kid = true.
Proof.
  revert v. induction calls as [|[kid c] calls IH]; intros v Hmono; simpl.
  { split; [done|]. intros n kid c set Hn. by rewrite lookup_nil in Hn. }
  destruct (keySet cfg kid c v) as [[r asked] v'] eqn:E.
  pose proof (keySet_poll _ _ _ _ _ _ E (Hmono kid c ltac:(by left))) as Hpoll.
  destruct (IH v') as [IH1 IH2]; [intros k' c' Hin; apply (Hmono k'); by right|].
  destruct (serve_keys calls v') as [rs polls]. simpl in *. split.
  - destruct (asked && _); simpl.
    + destruct Hpoll as [Hl Hd]. split; [done|]. by rewrite <-Hl.
    + by rewrite <-Hpoll.
  - intros [|n] kid' c' set Hc Hr; simpl in *; [|by eapply IH2].
    injection Hc as <- <-. injection Hr as ->. by apply keySet_holds in E as [? _].
Qed.
End Keys.

(** * The responder in production *)

Section Production.
Context {TL : TokenLib} {KS : Type} {JL : JoseLib KS} {NJ : NatsJwt}.
Context (cfg : vconfig) (account : string) (cap : Z).

Lemma production_grantable secret now c token (v : vstate KS) id v' :
  deployed_verify true cfg secret now c token v = (inr id, v') →
  grantable id ∧ id_Role id ≠ RoleTrustedBackend.
Proof.
  unfold deployed_verify, chain_Verify. simpl. destruct (hmac_Verify secret false now token) as [e|id'] eqn:Hh.
  - destruct (visitor_Verify cfg c token v) as [[e'|id''] v''] eqn:Hv; [done|]. intros [= <- <-].
    unfold visitor_Verify in Hv. case_decide; [done|]. destruct (headerKID token); [|done].
    destruct (keySet cfg _ c v) as [[[e2|set] b] w]; [done|]. injection Hv as Hv _.
    destruct (jwt_parse _ _ _ _ _) as [t|]; [|done]. by eapply visitor_grantable.
  - intros [= <- <-]. apply hmac_grantable in Hh as (? & _ & Hb). split; [done|]. intros ?. by specialize (Hb ltac:(done)).
Qed.

(** The production responder fails closed and mints no backend. A request is
    answered by a signed denial without a credential, or by a credential for the
    identity a verifier accepted, with exactly that identity's grant; it is never
    a trusted backend's; a visitor's allows no publishing and no responses and
    expires no later than its token and the cap. *)
Theorem production_mints_safely secret hnow now c reqJWT (v : vstate KS) conn out :
  conn ≠ "" → (0 <= cap)%Z →
  on_auth_request account cap (λ tk, (deployed_verify true cfg secret hnow c tk v).1) conn now reqJWT = Some out →
  ∃ req, decode_request reqJWT = Some req ∧
    ((∃ e, encode_response (mkAuthResponse (rq_UserNkey req) (rq_ServerID req) "" (Some e)) = Some out) ∨
     ∃ id g uj, (deployed_verify true cfg secret hnow c (rq_Token req) v).1 = inr id ∧
       GrantsFor id conn = inr g ∧ id_Role id ≠ RoleTrustedBackend ∧
       encode_user (user_claims account cap req id g now) = Some uj ∧
       encode_response (mkAuthResponse (rq_UserNkey req) (rq_ServerID req) uj None) = Some out ∧
       (id_Role id = RoleVisitor → (∀ s, ¬ may_publish g s) ∧ AllowResponses g = false ∧
          (cappedExpiry cap now id <= unix (now + cap))%Z ∧
          ∀ e, id_ExpiresAt id = Some e → (cappedExpiry cap now id <= unix e)%Z)).
Proof.
  intros Hconn Hcap. unfold on_auth_request, handle_auth, deny.
  destruct (decode_request reqJWT) as [req|]; [|done]. cbv beta iota. intros H. exists req. split; [done|].
  destruct ((deployed_verify true cfg secret hnow c (rq_Token req) v).1) as [e|id] eqn:Hv; [left; exists e; exact H|].
  destruct (production_grantable secret hnow c (rq_Token req) v id
    (deployed_verify true cfg secret hnow c (rq_Token req) v).2) as [Hgr Hnb].
  { rewrite <-Hv. by destruct (deployed_verify _ _ _ _ _ _ _). }
  destruct (grantable_granted id conn Hgr Hconn) as [g Hg]. rewrite Hg in H.
  destruct (encode_user _) as [uj|] eqn:Hu; [|left; exists AEEncode; exact H].
  destruct (respond req uj None) as [tok'|] eqn:Hr; [|left; exists AEEncode; exact H]. injection H as ->.
  right. exists id, g, uj. split_and!; try done. intros Hvis.
  apply GrantsFor_cases in Hg as (_ & _ & [(_ & _ & ->)|[[Hr' _]|[Hr' _]]]); [|by rewrite Hr' in Hvis..].
  split_and!; [|done| |].
  - intros s [_ Hd]. specialize (Hd ">" ltac:(by left)). unfold acl_match in Hd.
    by destruct (split_on "." s) eqn:Es; [by apply split_on_nonempty in Es|].
  - unfold cappedExpiry. rewrite decide_False by (by intros ?). unfold unix. apply Z.div_le_mono; [lia|].
    destruct (id_ExpiresAt id); [|lia]. case_match eqn:Hlt; [apply Z.ltb_lt in Hlt|]; lia.
  - intros e He. unfold cappedExpiry. rewrite decide_False by (by intros ?). rewrite He. unfold unix.
    apply Z.div_le_mono; [lia|]. destruct (Z.ltb_spec e (now + cap)); lia.
Qed.
End Production.

(** * Instances the theorems apply to *)

Lemma hex_no_dot s : str_forallb is_hex_char s = true → has_char "." s = false.
Proof.
  induction s as [|c s IH]; simpl; [done|]. intros [Hc Hs]%andb_true_iff. rewrite IH by done.
  rewrite bool_decide_eq_false_2; [done|]. by intros ->.
Qed.

(** Hexadecimal for base64, framed strings for JSON, concatenation for the MAC. *)
#[local] Instance demo_tokens : TokenLib := {
  b64_encode := hex_encode;
  b64_decode := hex_decode;
  hmac secret m := secret +:+ m;
  claims_encode c := Some (pack [cl_Tenant c; cl_User c; cl_Role c; cl_Capability c; z_str (cl_ExpUnix c)]);
  claims_decode s := match unpack s with
                     | Some [a; b; c; d; e] => z ← str_z e; Some (mkClaims a b c d z)
                     | _ => None
                     end;
}.

Lemma dev_token_roundtrip_witness :
  ∃ token, MintDevToken "k" (mkIdentity "t1" "ana" "" CapabilityAgentFeed "" None) 100 60 = inr token ∧
    hmac_Verify "k" true 160 token = inr (mkIdentity "t1" "ana" "" CapabilityAgentFeed "" None).
Proof.
  eexists. split; [reflexivity|].
  apply (dev_token_roundtrip (TL := demo_tokens) hex_decode_encode (λ s, hex_no_dot _ (hex_encode_is_hex s)))
    with (now := 100%Z) (ttl := 60%Z); try reflexivity.
  - intros [] body [= <-]. unfold claims_decode, demo_tokens. by rewrite unpack_pack, str_z_str.
Defined.

(** A key set is the list of its key ids. *)
#[local] Instance demo_jose : JoseLib (list string) := {
  jws_header tk := Some ("k1", true);
  jwk_parse raw := Some [raw];
  jwk_lookup set kid := bool_decide (kid ∈ set);
  jwt_parse set iss aud now tk :=
    if decide (tk = "visit") then Some (mkVToken "v9" 7000000000 {[ "tid" := CStr "t1"; "cid" := CStr "i7" ]}) else None;
}.

Definition forged (t : Z) : string * vcall := ("forged", mkVCall t t t t t (Some "k1")).

Lemma unknown_kid_throttled_witness :
  let v := mkVState (Some ["k1"]) 0 0 in
  let calls := [forged 10; forged 11; forged 14; forged 16] in
  (serve_keys (mkVConfig 300 5) calls v).2 = [10; 16]%Z ∧
  spaced 5 0 (serve_keys (mkVConfig 300 5) calls v).2.
Proof.
  intros v calls. split; [vm_compute; reflexivity|].
  refine (proj1 (unknown_kid_throttled (mkVConfig 300 5) calls v _)).
  intros kid c Hin. repeat (apply elem_of_cons in Hin as [[= -> ->]|Hin]; [simpl; lia|]). by apply elem_of_nil in Hin.
Defined.

#[local] Instance demo_jwt : NatsJwt := {
  decode_request s := Some (mkAuthRequest s "UKEY" "SRV");
  encode_user u := Some (uc_Name u);
  encode_response r := Some (ar_Jwt r);
}.
