(* ===== verification/FeedSystem.v ===== *)
(** The signaling plane as one system: any number of router processes append to
    the stream, and the projector's leader, replaced by a standby whenever it
    fails, delivers the stream's facts to the agents' feeds. The theorems relate
    what arrives on a feed to the requests that caused it and to the membership of
    the agent at that point of the log, under every interleaving of the routers'
    port calls with deliveries, redeliveries, crashes and takeovers. *)

From S2P Require Import Prelude Bytes Wire Identity Subjects Membership.
From S2P Require Import LogStore Lifecycle RouterState Router StreamInvariant RouterSafety RouterTraffic.
From S2P Require Import FeedProjector FeedTheorems FeedOutputs ProjectorNats JetStreamStore AuthCallout AuthTheorems.

(** * The system *)

Section System.
Context {EC : EventCodec} {EX : Externals}.
Context (b : broker).
(** Whether every takeover's reader is handed its whole range; [FoldRange] stops
    without an error at a fetch that times out. *)
Context (complete : bool).
Context (marshal_feed : Event → option string) (marshal_control : FeedControl → option string).
Context (config : Config).

(** A message of the stream as the projector's source delivers it. *)
Definition row (e : entry) : string * string * N := (e_subject e, e_data e, e_seq e).
Definition fact_of_entry (e : entry) : Fact :=
  fact_of_msg (mkMsg (e_subject e) (e_data e) (Some (e_seq e, 1%Z)) None) (e_seq e) 1.

(** The projector's side: the position of its durable consumer in the stream, the
    state of the leader when there is one, the history of the snapshot bucket, and
    everything put out so far. *)
Record feed := mkFeed {
  fd_pos : nat;
  fd_leader : option pst;
  fd_hist : list snap_entry;
  fd_out : list output;
}.
Definition feed0 : feed := mkFeed 0 None [] [].

Definition save_outputs (o : list output) (hist : list snap_entry) : list snap_entry :=
  foldl (λ h x, match x with OSave q sn => Save q sn h | _ => h end) hist o.

(** One step over the stream [l]. A delivery is the message at the consumer's
    position, for the first time or again; whatever became of it the server may
    deliver it again or go on to the next. A leader may stop at any time, and a
    standby then takes over: it reads the ack floor (the message before the
    consumer's position), loads the snapshot and folds the tail as [Hydrate] does,
    its reader being handed messages behind the snapshot in some batches, all of
    them or, unless [complete], as many as arrived before a fetch timed out. *)
Inductive feed_step (l : log) : feed → feed → Prop :=
| feed_delivery n n' e f p w r o p' w' hist out :
    l !! n = Some e → same_fact (fact_of_entry e) f → n' = n ∨ n' = S n →
    process marshal_feed marshal_control (withDefaults config) f p w = (r, o, p', w') →
    feed_step l (mkFeed n (Some p) hist out) (mkFeed n' (Some p') (save_outputs o hist) (out ++ o))
| feed_stop n p hist out :
    feed_step l (mkFeed n (Some p) hist out) (mkFeed n None hist out)
| feed_takeover n n' hist out ms batches p :
    n' ≤ length l →
    let floor := seq_at l n' in
    let behind := row <$> filter (λ e, (Load hist floor).2 < e_seq e)%N l in
    ms `prefix_of` behind → (complete = true → ms = behind) → delivers ms batches →
    Hydrate (Some floor) (λ m, Some (Load hist m))
      (λ lo hi, FoldRange lo hi (((λ c, FMsgs (numbered c)) <$> batches) ++ [FTimeout])) (mkPst newState 0 0) = Some p →
    feed_step l (mkFeed n None hist out) (mkFeed n' (Some p) hist out).

(** Routers and projector on one stream. *)
Inductive sys_step {A} : (list (prog A) * log) * feed → (list (prog A) * log) * feed → Prop :=
| sys_router c c' F : pool_step b c c' → sys_step (c, F) (c', F)
| sys_feed ps l F F' : feed_step l F F' → sys_step ((ps, l), F) ((ps, l), F').
End System.

(** * Positions in the stream *)

Section Positions.
Context {EC : EventCodec} (q : bool) (l : log).
Hypothesis Hok : log_ok q l.

Lemma seq_at_take m n e : n < m ≤ length l → l !! n = Some e → (e_seq e <= seq_at l m)%N.
Proof.
  intros Hm He. destruct m as [|m]; [lia|]. simpl. destruct (l !! m) as [f|] eqn:Hf; [|apply lookup_ge_None in Hf; lia].
  simpl. destruct (decide (n = m)) as [->|]; [naive_solver lia|].
  apply N.lt_le_incl. eapply (log_ok_seq_lt q l n m); eauto. lia.
Qed.

Lemma seq_at_drop m n e : m ≤ n → l !! n = Some e → (seq_at l m < e_seq e)%N.
Proof.
  intros Hm He. pose proof (log_ok_seq_pos q l e Hok (list_elem_of_lookup_2 _ _ _ He)) as Hpos.
  destruct m as [|m]; [done|]. simpl. destruct (l !! m) as [f|] eqn:Hf; [|done]. simpl.
  eapply (log_ok_seq_lt q l m n); eauto.
Qed.

Lemma seq_at_le_inv m n : m ≤ length l → (seq_at l m <= seq_at l n)%N → n ≤ length l → m ≤ n.
Proof.
  intros Hm Hle Hn. destruct (decide (m ≤ n)) as [|Hgt]; [done|]. exfalso.
  destruct m as [|m]; [lia|]. destruct (lookup_lt_is_Some_2 l m) as [e He]; [lia|].
  pose proof (seq_at_drop n m e ltac:(lia) He). simpl in Hle. rewrite He in Hle. simpl in Hle. lia.
Qed.

Lemma filter_above m : m ≤ length l → filter (λ e, (seq_at l m < e_seq e)%N) l = drop m l.
Proof.
  intros Hm. trans (filter (λ e, (seq_at l m < e_seq e)%N) (take m l ++ drop m l)); [by rewrite take_drop|].
  rewrite filter_app, filter_none, filter_true; [done| |].
  - apply Forall_lookup_2. intros n e He. rewrite lookup_drop in He. eapply seq_at_drop; [|done]. lia.
  - apply Forall_lookup_2. intros n e [He Hn]%lookup_take_Some. intros Hlt.
    pose proof (seq_at_take m n e ltac:(lia) He). lia.
Qed.

Lemma filter_below m n :
  m ≤ n ≤ length l → filter (λ e, (e_seq e <= seq_at l n)%N) (drop m l) = take (n - m) (drop m l).
Proof.
  intros Hm. trans (filter (λ e, (e_seq e <= seq_at l n)%N) (take (n - m) (drop m l) ++ drop (n - m) (drop m l)));
    [by rewrite take_drop|]. rewrite filter_app, drop_drop, filter_true, filter_none.
  - by rewrite app_nil_r.
  - apply Forall_lookup_2. intros k e He. rewrite lookup_drop in He. intros Hle.
    pose proof (seq_at_drop n (m + (n - m) + k) e ltac:(lia) He). lia.
  - apply Forall_lookup_2. intros k e [He Hk]%lookup_take_Some. rewrite lookup_drop in He.
    apply (seq_at_take n (m + k)); [lia|done].
Qed.

Lemma filter_rows k (ms : log) :
  filter (λ x : string * string * N, (x.2 <= k)%N) (row <$> ms) = row <$> filter (λ e, (e_seq e <= k)%N) ms.
Proof.
  induction ms as [|e ms IH]; [done|]. rewrite fmap_cons, !filter_cons. simpl. case_decide; [|done].
  by rewrite fmap_cons, IH.
Qed.

Lemma rows_sorted m : Sorted (λ x y : string * string * N, (x.2 < y.2)%N) (row <$> drop m l).
Proof.
  apply StronglySorted_Sorted. assert (∀ i j e f, drop m l !! i = Some e → drop m l !! j = Some f → i < j → (e_seq e < e_seq f)%N) as H.
  { intros i j e f He Hf Hlt. rewrite lookup_drop in He, Hf. eapply (log_ok_seq_lt q l (m + i) (m + j)); eauto. lia. }
  revert H. induction (drop m l) as [|e k IH]; intros H; simpl; [constructor|]. constructor.
  - apply IH. intros i j x y Hx Hy Hlt. apply (H (S i) (S j)); [done..|lia].
  - apply Forall_fmap, Forall_lookup_2. intros i f Hf. simpl. apply (H 0 (S i)); [done..|lia].
Qed.
End Positions.

(** * Views that track the stream *)

Section Tracks.
Context {EC : EventCodec}.

(** An entry every router writes: a fact of its subject's tenant. *)
Definition typed_as (e : entry) (t i : string) (ev : Event) : Prop :=
  no_slash t ∧ tok t ∧ tok i ∧ t ≠ "" ∧ i ≠ "" ∧ e_subject e = logSubjectFor t i ∧
  unmarshal_event (e_data e) = Some ev ∧ ev_TenantId ev = t.
Definition typed (e : entry) : Prop := ∃ t i ev, typed_as e t i ev.

Lemma typed_facts l s : Forall typed l → ∃ facts, facts_of l s = Some facts.
Proof.
  intros Hl. unfold facts_of, subj_msgs. induction Hl as [|e l (t & i & ev & _ & _ & _ & _ & _ & _ & Hev & _) Hl [fs IH]].
  - by exists [].
  - rewrite filter_cons. case_decide; [|by exists fs]. simpl. rewrite Hev. simpl. rewrite IH. simpl. eauto.
Qed.

(** The view of every interaction is the fold of its facts in [l]. *)
Definition tracks (l : log) (s : views) : Prop :=
  ∀ t i facts, no_slash t → tok t → tok i → t ≠ "" → i ≠ "" → facts_of l (logSubjectFor t i) = Some facts →
    view_of s (stateKey t i) = FoldParticipation facts.

Lemma tracks_nil : tracks [] newState.
Proof. intros t i facts _ _ _ _ _ [= <-]. unfold view_of, newState. by rewrite lookup_empty. Qed.

(** Views [s'] that differ from [s] by the fact of [e] at its own key. *)
Definition moved (e : entry) (s s' : views) : Prop :=
  ∀ t i ev, typed_as e t i ev → ∀ t' i', no_slash t' →
    view_of s' (stateKey t' i') =
      if decide ((t', i') = (t, i)) then ApplyFact (view_of s (stateKey t i)) ev else view_of s (stateKey t' i').

Lemma moved_update t i ev s t' i' :
  no_slash t → no_slash t' →
  view_of (update_view (stateKey t i) (λ v, ApplyFact v ev) s) (stateKey t' i') =
    if decide ((t', i') = (t, i)) then ApplyFact (view_of s (stateKey t i)) ev else view_of s (stateKey t' i').
Proof.
  intros Ht Ht'. rewrite view_of_update. destruct (decide ((t', i') = (t, i))) as [[= -> ->]|Hne].
  - by rewrite decide_True.
  - rewrite decide_False; [done|]. intros He. apply Hne. by apply stateKey_inj in He as [-> ->].
Qed.

Lemma moved_untyped t i ev s t' i' :
  ev_EventType ev = "" → view_of s (stateKey t' i') =
    if decide ((t', i') = (t, i)) then ApplyFact (view_of s (stateKey t i)) ev else view_of s (stateKey t' i').
Proof. intros He. case_decide as Hd; [|done]. injection Hd as -> ->. by rewrite ApplyFact_untyped. Qed.

Lemma fact_of_typed e t i ev :
  typed_as e t i ev → f_Event (fact_of_entry e) = Some ev ∧ interactionOf (fact_of_entry e) = i.
Proof.
  intros (_ & Ht & Hi & _ & _ & Hs & Hev & _). simpl. unfold interactionOf. simpl. rewrite Hs. by rewrite iid_of_logSubject.
Qed.

Lemma moved_live e s : moved e s (live_apply s (fact_of_entry e)).
Proof.
  intros t i ev Hty t' i' Ht'. destruct (fact_of_typed e t i ev Hty) as [He Hi].
  destruct Hty as (Hns & _ & _ & Hte & Hie & _ & _ & Hten). unfold live_apply. rewrite He, Hi, Hten.
  case_decide as Hd; [|rewrite decide_False by done; by apply moved_update].
  apply moved_untyped. naive_solver.
Qed.

Lemma moved_tail e s f :
  f_Event f = unmarshal_event (e_data e) → interactionOf f = iidFromLogSubject (e_subject e) → moved e s (fold_tail s [f]).
Proof.
  intros He Hi t i ev Hty t' i' Ht'. destruct (fact_of_typed e t i ev Hty) as [He' Hi'].
  simpl in He', Hi'. unfold interactionOf in Hi'. simpl in Hi'.
  destruct Hty as (Hns & _ & _ & _ & _ & _ & _ & Hten). simpl. rewrite He, He', Hi, Hi', Hten. by apply moved_update.
Qed.

Lemma tracks_moved l s s' e : Forall typed l → typed e → moved e s s' → tracks l s → tracks (l ++ [e]) s'.
Proof.
  intros Hl (t & i & ev & Hty) Hm Htr t' i' facts Hns Ht Hi Hte Hie. rewrite facts_of_snoc, (Hm t i ev Hty t' i' Hns).
  destruct Hty as (Hns' & Ht' & Hi' & _ & _ & Hs & Hev & _). rewrite Hs, Hev. case_decide as Hd.
  - apply logSubjectFor_inj in Hd as [-> ->]; [|done..]. rewrite decide_True by done.
    destruct (typed_facts l (logSubjectFor t' i') Hl) as [fs Hfs]. rewrite Hfs. simpl. intros [= <-].
    by rewrite fold_participation_snoc, (Htr t' i' fs).
  - rewrite decide_False by (intros [= -> ->]; done). by apply Htr.
Qed.

(** Redelivery. *)
Lemma tracks_again l s e :
  Forall typed l → typed e → views_wf s → tracks (l ++ [e]) s → tracks (l ++ [e]) (live_apply s (fact_of_entry e)).
Proof.
  intros Hl (t & i & ev & Hty) Hwf Htr t' i' facts Hns Ht Hi Hte Hie Hf.
  rewrite (moved_live e s t i ev Hty t' i' Hns). case_decide as Hd; [|by apply Htr]. injection Hd as -> ->.
  rewrite (Htr t i facts) by done. destruct Hty as (_ & _ & _ & _ & _ & Hs & Hev & _).
  rewrite facts_of_snoc, Hs, Hev, decide_True in Hf by done.
  destruct (facts_of l _) as [fs|]; [|done]. injection Hf as <-. rewrite fold_participation_snoc.
  apply ApplyFact_idem, view_wf_fold, view_wf_empty.
Qed.

Lemma tracks_tail l s ms :
  Forall typed (l ++ ms) → tracks l s → tracks (l ++ ms) (fold_tail s (decodable (row <$> ms))).
Proof.
  revert l s. induction ms as [|e ms IH]; intros l s Hl Htr; [by rewrite app_nil_r|].
  change (e :: ms) with ([e] ++ ms) in *. rewrite app_assoc in *. pose proof Hl as [[Hl1 He]%Forall_app _]%Forall_app.
  apply Forall_cons in He as [Hte _]. pose proof Hte as (t & i & ev & Hty). pose proof Hty as (_ & _ & _ & _ & _ & _ & Hev & _).
  set (f := mkFact (unmarshal_event (e_data e)) (iidFromLogSubject (e_subject e)) (e_seq e) 0 "").
  assert (decodable (row <$> [e]) = [f]) as Hd by (unfold decodable, f; simpl; by rewrite Hev).
  rewrite fmap_app, decodable_app, Hd. change ([f] ++ ?x) with (f :: x). rewrite fold_tail_cons.
  apply IH; [done|]. eapply (tracks_moved l s); [done|done| |done]. apply moved_tail; [done|done].
Qed.
End Tracks.

(** * The invariant *)

Section Invariant.
Context {EC : EventCodec}.
(** [q]: the routers' sequence numbers are dense. *)
Context (q complete : bool).
Context (marshal_feed : Event → option string) (marshal_control : FeedControl → option string).
Context (config : Config).
Local Abbreviation step := (feed_step complete marshal_feed marshal_control config).

(** A stream the routers of the group have written. *)
Definition good (l : log) : Prop := log_ok q l ∧ Forall typed l.

(** Views at position [n] track the stream up to there, or up to the message
    being delivered, when takeovers read their range. *)
Definition leader_ok (l : log) (n : nat) (p : pst) : Prop :=
  views_wf (p_st p) ∧ ∃ m, (m = n ∨ m = S n) ∧ m ≤ length l ∧ (complete = true → tracks (take m l) (p_st p)).

(** A snapshot tracks the stream up to the sequence it is stored with. *)
Definition snap_ok (l : log) (sq : N) (sn : Snapshot) : Prop :=
  ∃ m s, m ≤ length l ∧ sq = seq_at l m ∧ sn = snapshot s ∧ views_wf s ∧ (complete = true → tracks (take m l) s).

(** Fact [ev] of interaction [(t, i)], entry [e] of the stream, and the facts of
    the interaction before it. *)
Definition fact_at (l : log) (e : entry) (t i : string) (ev : Event) (facts : list Event) : Prop :=
  ∃ l1 l2, l = l1 ++ e :: l2 ∧ typed_as e t i ev ∧ facts_of l1 (e_subject e) = Some facts.

Definition concerned (facts : list Event) (ev : Event) (a : string) : Prop :=
  is_member a facts = true ∨ is_member a (facts ++ [ev]) = true.

(** Why an output is in order: a feed message is a fact the agent is concerned by
    or its revocation, and an acknowledged message was dead-lettered or has
    reached every agent it concerns. Whom a fact concerns is known to a leader
    whose takeovers read their range, of facts with dense numbers. *)
Definition justified (l : log) (out : list output) (x : output) : Prop :=
  match x with
  | OPublish t a i _ payload _ =>
      ∃ e ev facts, fact_at l e t i ev facts ∧
        ((marshal_feed ev = Some payload ∧ (complete = true → q = true → concerned facts ev a)) ∨
         (ev_EventType ev = "participant.left" ∧ a = ev_ActorId ev ∧
          marshal_control (mkFeedControl SchemaV1 controlRevoked i (ev_Sequence ev)) = Some payload))
  | OAck sq =>
      ∃ e t i ev facts, fact_at l e t i ev facts ∧ e_seq e = sq ∧
        ((∃ reason, ODlq t reason (ev_EventId ev) (ev_Sequence ev) ∈ out) ∨
         ∃ payload, marshal_feed ev = Some payload ∧
           (complete = true → q = true →
              ∀ a, concerned facts ev a → published t a i (feedDedup t a i (ev_Sequence ev)) payload out) ∧
           (ev_EventType ev = "participant.left" →
              ∃ control, marshal_control (mkFeedControl SchemaV1 controlRevoked i (ev_Sequence ev)) = Some control ∧
                published t (ev_ActorId ev) i (revokedDedup t (ev_ActorId ev) i (ev_Sequence ev)) control out))
  | _ => True
  end.

Definition inv (l : log) (F : feed) : Prop :=
  (∀ p, fd_leader F = Some p → leader_ok l (fd_pos F) p) ∧
  (∀ sq sn, SPut (Some (sq, sn)) ∈ fd_hist F → snap_ok l sq sn) ∧
  (∀ x, x ∈ fd_out F → justified l (fd_out F) x).

Lemma inv_feed0 : inv [] feed0.
Proof. split_and!; [done|..]; simpl; intros *; by intros ?%elem_of_nil. Qed.

(** ** The stream grows *)

Lemma fact_at_grows l l' e t i ev facts : l `prefix_of` l' → fact_at l e t i ev facts → fact_at l' e t i ev facts.
Proof. intros [k ->] (l1 & l2 & -> & ?). exists l1, (l2 ++ k). by rewrite <-app_assoc. Qed.

Lemma justified_mono l l' out out' x :
  l `prefix_of` l' → (∀ y, y ∈ out → y ∈ out') → justified l out x → justified l' out' x.
Proof.
  intros Hp Ho. destruct x; simpl; try done.
  - intros (e & ev & facts & ? & ?). exists e, ev, facts. eauto using fact_at_grows.
  - intros (e & t & i & ev & facts & Hf & Hq & H). exists e, t, i, ev, facts. split; [by eapply fact_at_grows|].
    split; [done|]. destruct H as [[r Hr]|(pl & Hpl & Hall & Hl)]; [left; eauto|right].
    exists pl. split_and!; [done|eauto using published_mono|]. intros Hleft. destruct (Hl Hleft) as (c & ? & ?). eauto using published_mono.
Qed.

Lemma take_prefix m (l k : log) : m ≤ length l → take m (l ++ k) = take m l.
Proof. intros. by rewrite take_app_le. Qed.

Lemma inv_grows l l' F : l `prefix_of` l' → inv l F → inv l' F.
Proof.
  intros Hp (Hl & Hs & Ho). pose proof Hp as [k ->]. split_and!.
  - intros p Hlead. destruct (Hl p Hlead) as (Hwf & m & Hm & Hlen & Htr). split; [done|]. exists m.
    rewrite length_app, take_prefix by done. split_and!; [done|lia|done].
  - intros sq sn Hin. destruct (Hs sq sn Hin) as (m & s & Hlen & -> & -> & Hwf & Htr). exists m, s.
    rewrite length_app, take_prefix, seq_at_app by done. split_and!; [lia|done..].
  - intros x Hx. by eapply justified_mono; [| |apply Ho].
Qed.

(** ** A delivery *)

Lemma entry_at l n e :
  good l → l !! n = Some e →
  ∃ t i ev facts, typed_as e t i ev ∧ facts_of (take n l) (e_subject e) = Some facts ∧ fact_at l e t i ev facts.
Proof.
  intros [_ Hty] He. pose proof Hty as Hty'. rewrite Forall_lookup in Hty'. destruct (Hty' n e He) as (t & i & ev & Ht).
  destruct (typed_facts (take n l) (e_subject e)) as [facts Hf]; [by apply Forall_take|].
  exists t, i, ev, facts. split_and!; try done. exists (take n l), (drop (S n) l). by rewrite take_drop_middle.
Qed.

Lemma delivery_tracks l n e p f :
  good l → l !! n = Some e → leader_ok l n p → same_fact (fact_of_entry e) f →
  views_wf (live_apply (p_st p) f) ∧ (complete = true → tracks (take (S n) l) (live_apply (p_st p) f)).
Proof.
  intros [_ Hty] He (Hwf & m & Hm & Hlen & Htr) Hsame. split; [by apply views_wf_live|]. intros Hfull. specialize (Htr Hfull).
  rewrite <-(live_apply_same _ _ _ Hsame), (take_S_r l n e He).
  assert (typed e) as Hte by (by eapply Forall_lookup_1). assert (Forall typed (take n l)) as Hl by (by apply Forall_take).
  destruct Hm as [->| ->].
  - by eapply tracks_moved; [| |apply moved_live|].
  - rewrite (take_S_r l n e He) in Htr. by apply tracks_again.
Qed.

(** The recipients of the message at [n] are the agents it concerns. *)
Lemma recipients_at l n e t i ev facts vs a :
  q = true → good l → l !! n = Some e → typed_as e t i ev → facts_of (take n l) (e_subject e) = Some facts →
  tracks (take (S n) l) vs → a ∈ coveredBy (view_of vs (stateKey t i)) (ev_Sequence ev) ↔ concerned facts ev a.
Proof.
  intros Hq [Hok _] He Hty Hf Htr. pose proof Hty as (Hns & Ht & Hi & Hte & Hie & Hs & Hev & _).
  assert (facts_of (take (S n) l) (logSubjectFor t i) = Some (facts ++ [ev])) as Hf'.
  { rewrite (take_S_r l n e He), facts_of_snoc, <-Hs, Hf, Hev, decide_True by done. done. }
  rewrite (Htr t i _ Hns Ht Hi Hte Hie Hf'). apply recipients_are_members.
  destruct (log_ok_facts q (take (S n) l) (logSubjectFor t i)) as (fs & Hfs & _ & Hd).
  { eapply log_ok_prefix; [apply prefix_take|done]. }
  rewrite Hf' in Hfs. injection Hfs as <-. specialize (Hd Hq).
  apply Forall_lookup_2. intros k x Hx.
  rewrite (Hd k x) by (by apply lookup_app_l_Some). rewrite (Hd (length facts) ev) by (by apply list_lookup_middle).
  apply lookup_lt_Some in Hx. lia.
Qed.

Lemma save_outputs_elem o hist sq sn :
  SPut (Some (sq, sn)) ∈ save_outputs o hist → SPut (Some (sq, sn)) ∈ hist ∨ OSave sq sn ∈ o.
Proof.
  revert hist. induction o as [|x o IH]; intros hist; simpl; [by left|]. intros [H|H]%IH; [|right; by right].
  destruct x as [| | | |sq' sn']; try (by left). unfold Save in H. eapply elem_of_sublist in H; [|apply sublist_drop].
  apply elem_of_app in H as [?|H]; [by left|]. apply list_elem_of_singleton in H. injection H as -> ->. right. by left.
Qed.

(** The message of a delivery is one of the stream. *)
Lemma same_event e t i ev f :
  typed_as e t i ev → same_fact (fact_of_entry e) f →
  f_Event f = Some ev ∧ interactionOf f = i ∧ f_StreamSeq f = e_seq e.
Proof.
  intros Hty (He & Hi & Hs). destruct (fact_of_typed e t i ev Hty) as [He' Hi'].
  unfold interactionOf in *. split_and!; [congruence|congruence|by rewrite <-Hs].
Qed.

Lemma delivery_justified l n e f p w r o p' w' :
  good l → l !! n = Some e → same_fact (fact_of_entry e) f → (complete = true → tracks (take (S n) l) (p_st p')) →
  process marshal_feed marshal_control (withDefaults config) f p w = (r, o, p', w') →
  ∀ x, x ∈ o → justified l o x.
Proof.
  intros Hg He Hsame Htr Hproc x Hx. destruct (entry_at l n e Hg He) as (t & i & ev & facts & Hty & Hf & Hat).
  destruct (same_event e t i ev f Hty Hsame) as (Hev & Hi & Hq).
  pose proof Hty as (_ & _ & _ & _ & _ & _ & _ & Hten).
  assert (complete = true → q = true → ∀ a,
    a ∈ coveredBy (view_of (p_st p') (stateKey t i)) (ev_Sequence ev) ↔ concerned facts ev a) as Hrec
    by (intros ?? a; eapply recipients_at; eauto).
  pose proof (process_emits _ _ _ _ _ _ _ _ _ _ Hproc) as Hem. pose proof (Hem x Hx) as Hx'.
  destruct x as [t' a i' d payload h| |sq| |]; simpl in *; try done.
  - destruct Hx' as (_ & ev' & (Hev' & _) & -> & -> & H). rewrite Hev in Hev'. injection Hev' as <-. rewrite Hi, Hten in *.
    exists e, ev, facts. split; [done|]. destruct H as [(Ha & _ & Hm)|(Hl & Ha & _ & Hm)]; [left|right; done].
    split; [done|]. intros. by apply Hrec.
  - subst sq. exists e, t, i, ev, facts. split; [done|]. split; [by symmetry|].
    eapply (ack_after_delivery marshal_feed marshal_control) in Hproc as [(td & rd & ed & sd & Hd)|(o1 & o2 & Ho & Hdel)]; [| | |exact Hx].
    + left. exists rd. pose proof (Hem _ Hd) as Hdl. simpl in Hdl. rewrite Hev in Hdl. injection Hdl as -> -> ->. by rewrite <-Hten.
    + right. destruct Hdel as (ev' & payload & (Hev' & _) & Hm & Hall & Hleft). rewrite Hev in Hev'. injection Hev' as <-.
      rewrite Hi, Hten in *. exists payload. split; [done|]. rewrite Ho. split.
      * intros Hfull Hq' a Ha. apply published_l, Hall. by apply Hrec.
      * intros Hl. destruct (Hleft Hl) as (c & ? & ?). exists c. split; [done|]. by apply published_l.
    + unfold withDefaults. simpl. destruct (Z.leb_spec (PublishRetry config) 0); lia.
Qed.

(** ** A takeover *)

Lemma views_wf_tail s fs : views_wf s → views_wf (fold_tail s fs).
Proof.
  unfold fold_tail. revert s. induction fs as [|f fs IH]; intros s Hwf; simpl; [done|].
  apply IH. case_match; [by apply views_wf_update|done].
Qed.

Lemma sorted_prefix {A} (S : relation A) ms ms' : ms `prefix_of` ms' → Sorted S ms' → Sorted S ms.
Proof.
  intros [k ->]. induction ms as [|x ms IH]; intros Hs; [constructor|]. apply Sorted_inv in Hs as [Hs Hx].
  constructor; [by apply IH|]. destruct ms; [constructor|]. inversion Hx. by constructor.
Qed.

Lemma load_ok l hist floor :
  (∀ sq sn, SPut (Some (sq, sn)) ∈ hist → snap_ok l sq sn) →
  ∃ m s, m ≤ length l ∧ (Load hist floor).2 = seq_at l m ∧ restore (Load hist floor).1 newState = s ∧
    views_wf s ∧ (complete = true → tracks (take m l) s) ∧ (seq_at l m <= floor)%N.
Proof.
  intros Hs. destruct (load_scan_spec floor (rev hist)) as [(H1 & H2 & _)|(nw & v & older & Hh & H1 & Hle & _)];
    fold (Load hist floor) in *.
  - exists 0, newState. rewrite H1, H2. split_and!; [lia|done|done|apply map_Forall_empty|intros _; apply tracks_nil|simpl; lia].
  - destruct (Hs (Load hist floor).2 v) as (m & s & Hm & Hq & -> & Hwf & Htr).
    { apply list_elem_of_In, in_rev, list_elem_of_In. rewrite Hh. apply elem_of_app. right. by left. }
    exists m, s. rewrite H1, <-Hq. split_and!; try done. by apply restore_snapshot.
Qed.

Lemma takeover_ok l n hist ms batches p :
  good l → (∀ sq sn, SPut (Some (sq, sn)) ∈ hist → snap_ok l sq sn) → n ≤ length l →
  let behind := row <$> filter (λ e, (Load hist (seq_at l n)).2 < e_seq e)%N l in
  ms `prefix_of` behind → (complete = true → ms = behind) → delivers ms batches →
  Hydrate (Some (seq_at l n)) (λ m, Some (Load hist m))
    (λ lo hi, FoldRange lo hi (((λ c, FMsgs (numbered c)) <$> batches) ++ [FTimeout])) (mkPst newState 0 0) = Some p →
  leader_ok l n p.
Proof.
  intros [Hok Hty] Hs Hn behind Hpre Hfull Hb Hh. subst behind.
  destruct (load_ok l hist (seq_at l n) Hs) as (m & s & Hm & H2 & H1 & Hwf & Htr & Hle).
  assert (m ≤ n) as Hmn by (by eapply (seq_at_le_inv q l)).
  unfold Hydrate in Hh. destruct (Load hist (seq_at l n)) as [snap sq]. simpl in H1, H2, Hpre, Hfull. subst sq.
  rewrite (filter_above q l Hok m Hm) in Hpre, Hfull. destruct (N.ltb_spec (seq_at l m) (seq_at l n)) as [Hlt|Hge].
  - assert (Sorted (λ x y : string * string * N, (x.2 < y.2)%N) ms) as Hsort
      by (by eapply sorted_prefix; [|apply (rows_sorted q l Hok m)]).
    rewrite (FoldRange_exact _ _ _ _ Hlt Hsort Hb), H1 in Hh. injection Hh as <-. split; simpl; [by apply views_wf_tail|].
    exists n. split_and!; [by left|done|]. intros Hc. rewrite (Hfull Hc).
    set (tl := take (n - m) (drop m l)).
    assert (filter (λ x, (x.2 <= seq_at l n)%N) (row <$> drop m l) = row <$> tl) as ->.
    { unfold tl. rewrite <-(filter_below q l Hok m n) by lia. apply filter_rows. }
    assert (take m l ++ tl = take n l) as Hl by (unfold tl; rewrite take_take_drop; f_equal; lia).
    rewrite <-Hl. apply tracks_tail; [rewrite Hl; by apply Forall_take|by apply Htr].
  - injection Hh as <-. assert (m = n) as -> by (assert (n ≤ m); [eapply (seq_at_le_inv q l); eauto|lia]).
    rewrite H1. split; [done|]. exists n. split_and!; [by left|done|done].
Qed.

(** ** Every step *)

Lemma inv_step l F F' : good l → inv l F → step l F F' → inv l F'.
Proof.
  intros Hg Hinv Hstep. destruct Hstep as [n n' e f p w r o p' w' hist out He Hsame Hn Hp|n p hist out|n n' hist out ms batches p Hn floor behind Hpre Hfull Hb Hh];
    destruct Hinv as (Hl & Hs & Ho); simpl in *.
  - assert (p_st p' = live_apply (p_st p) f) as Hst by (by eapply process_views).
    destruct (delivery_tracks l n e p f Hg He (Hl p eq_refl) Hsame) as [Hwf Htr]. rewrite <-Hst in Hwf, Htr.
    apply lookup_lt_Some in He as Hlt. split_and!; simpl.
    + intros ? [= <-]. split; [done|]. exists (S n). split_and!; [destruct Hn as [->| ->]; auto|lia|done].
    + intros sq sn [Hin|Hin]%save_outputs_elem; [by apply Hs|].
      apply (process_emits _ _ _ _ _ _ _ _ _ _ Hp) in Hin as [-> ->]. destruct Hsame as (_ & _ & <-).
      exists (S n), (p_st p'). simpl. rewrite He. split_and!; done || lia.
    + intros x [Hx|Hx]%elem_of_app.
      * eapply justified_mono; [done| |by apply Ho]. intros. apply elem_of_app. by left.
      * eapply justified_mono; [done| |by eapply delivery_justified]. intros. apply elem_of_app. by right.
  - split_and!; [done|exact Hs|exact Ho].
  - split_and!; simpl; [|exact Hs|exact Ho]. intros ? [= <-]. by eapply takeover_ok.
Qed.
End Invariant.

(** * Theorems *)

Section Theorems.
Context {EC : EventCodec} {ECOK : EventCodecOK} {EX : Externals}.
Context (b : broker).
Hypothesis Hocc : occ_first b = true.
Context (complete : bool).
Context (marshal_feed : Event → option string) (marshal_control : FeedControl → option string).
Context (config : Config).
Context (routers : list (RouterConfig * list request)).
Hypothesis Hsubjects : ∀ cfg rs, (cfg, rs) ∈ routers → Forall (λ r, subject_ok (rq_subject r)) rs.

Local Abbreviation good := (good (nodup b)).
Local Abbreviation inv := (inv (nodup b) complete marshal_feed marshal_control).
Local Abbreviation sys := (sys_step b complete marshal_feed marshal_control config).

(** What a router writes is a fact of its subject's tenant. *)
Lemma authorised_typed q dev r e facts ev :
  unmarshal_event (e_data e) = Some ev → authorised q dev r (e_subject e) facts ev → typed e.
Proof.
  intros Hev (t & i & u & cmd & Hp & Hs & Hns & _ & _ & _ & Hw & _).
  apply parseCmdSubject_toks in Hp as (_ & Ht & Hi & _ & Hte & Hie & _). exists t, i, ev. split_and!; try done.
  destruct Hw as (eid & now & seq & _ & Hw). case_match; [by destruct Hw as (? & ? & ? & _ & _ & _ & ->)|by destruct Hw as [_ ->]].
Qed.

Lemma reachable_good ps l :
  rtc (pool_step b) (start routers, []) (ps, l) → good l ∧ authored b routers [] l.
Proof.
  intros Hr. eapply group_safe in Hr as (Hok & Ha & _); eauto using lo_nil.
  split; [|done]. split; [done|]. apply Forall_lookup_2. intros n e He.
  destruct (Ha (take n l) e (drop (S n) l)) as (ev & facts & cfg & rs & r & Hev & _ & _ & _ & Haut); [by rewrite take_drop_middle|simpl; lia|].
  by eapply authorised_typed.
Qed.

Lemma pool_step_grows {A} (c c' : list (prog A) * log) : pool_step b c c' → c.2 `prefix_of` c'.2.
Proof. destruct 1; simpl; try done. by eapply append_step_prefix. Qed.

(** Every reachable state of the system. *)
Lemma sys_inv c F :
  rtc sys ((start routers, []), feed0) (c, F) → rtc (pool_step b) (start routers, []) c ∧ inv c.2 F.
Proof.
  intros Hr. refine (rtc_ind_r (λ z, rtc (pool_step b) (start routers, []) z.1 ∧ inv z.1.2 z.2) _ _ _ (c, F) Hr).
  { split; [done|]. apply inv_feed0. }
  intros [c0 F0] z _ Hstep [Hpool Hinv]. simpl in *. inv Hstep; simpl.
  - split; [by eapply rtc_r|]. eapply inv_grows; [|done]. by apply pool_step_grows.
  - split; [done|]. eapply inv_step; [|done|done]. by eapply reachable_good.
Qed.

(** A subscriber's connection is delivered the feed of its own user only. *)
Lemma feed_reader id conn g t a i :
  tok t → tok a → tok i → GrantsFor id conn = inr g → id_Role id = "" → may_receive g (feedSubject t a i) →
  id_TenantID id = t ∧ id_UserID id = a.
Proof.
  intros Ht Ha Hi Hg Hrole Hr. pose proof (GrantsFor_cases _ _ _ Hg) as (Hvt & Hvu & _).
  apply valid_tok in Hvt as (_ & _ & Ht1 & Ht2), Hvu as (_ & _ & Hu1 & Hu2).
  assert (split_on "." (feedSubject t a i) = ["tenant"; t; "agent"; a; "feed"; i]) as Hs.
  { change (feedSubject t a i) with (join_on "." ["tenant"; t; "agent"; a; "feed"; i]). apply split_join; [done|].
    repeat (apply Forall_cons; split); try apply Forall_nil; done. }
  destruct (receive_match _ _ _ _ Hg Hr) as [Hm|(l & Hl & Hm)].
  - by destruct (inbox_first conn _ _ _ Hs Hm) as [? ?].
  - rewrite Hs in Hm. unfold read_patterns in Hl. rewrite Hrole, !decide_False in Hl by done.
    each_pattern Hl; inv_match Hm; naive_solver.
Qed.


End Theorems.
