(* ===== verification/FeedProgress.v ===== *)
(** Progress of the projector: while its ports answer, every delivery of a fact
    that can be projected is published and acknowledged, any other message is
    dead-lettered by its last delivery, and a leader therefore works off the
    stream within a bounded number of deliveries. *)

From S2P Require Import Prelude Bytes Wire Identity Subjects Membership.
From S2P Require Import LogStore Lifecycle RouterState Router StreamInvariant RouterSafety RouterTraffic.
From S2P Require Import FeedProjector FeedTheorems FeedOutputs ProjectorNats FeedSystem.

(** * Healthy ports *)

(** Publishes, dead letters and acknowledgements succeed and the context is alive;
    negative acknowledgements and snapshots may fail. *)
Definition healthy (w : world) : Prop :=
  Forall (eq Done) (w_pub w) ∧ Forall (eq Done) (w_dlq w) ∧ Forall (eq Done) (w_ack w) ∧ Forall (eq false) (w_done w).

Lemma healthy_calm : healthy calm.
Proof. split_and!; constructor. Qed.

Lemma pop_all {A} (d : A) l : Forall (eq d) l → ∃ r, pop d l = (d, r) ∧ Forall (eq d) r.
Proof. intros [|x r <- Hr]; [by exists []|by exists r]. Qed.

(** Total correctness while the ports answer: the result and the outputs. *)
Definition yields {A} (m : PM A) (Q : A → list output → Prop) : Prop :=
  ∀ p w, healthy w → ∃ a o p' w', m p w = (a, o, p', w') ∧ healthy w' ∧ Q a o.

Lemma yields_ret {A} (a : A) (Q : A → list output → Prop) : Q a [] → yields (mret a) Q.
Proof. intros HQ p w Hw. by exists a, [], p, w. Qed.

Lemma yields_bind {A B} (m : PM A) (g : A → PM B) Q R :
  yields m Q → (∀ a o, Q a o → yields (g a) (λ b o', R b (o ++ o'))) → yields (m ≫= g) R.
Proof.
  intros Hm Hg p w Hw. destruct (Hm p w Hw) as (a & o & p1 & w1 & H1 & Hw1 & HQ).
  destruct (Hg a o HQ p1 w1 Hw1) as (c & o' & p2 & w2 & H2 & Hw2 & HR).
  exists c, (o ++ o'), p2, w2. split; [|done]. unfold mbind, PM_bind. by rewrite H1, H2.
Qed.

Lemma yields_mono {A} (m : PM A) (Q R : A → list output → Prop) : yields m Q → (∀ a o, Q a o → R a o) → yields m R.
Proof. intros Hm HQ p w Hw. destruct (Hm p w Hw) as (a & o & p' & w' & ? & ? & ?). exists a, o, p', w'. auto. Qed.

Lemma yields_modify g Q : Q tt [] → yields (modify_p g) Q.
Proof. intros HQ p w Hw. by exists tt, [], (g p), w. Qed.

Lemma yields_get_bind {B} (g : pst → PM B) R : (∀ p, yields (g p) R) → yields (get_p ≫= g) R.
Proof.
  intros Hg. eapply yields_bind; [|intros a o H; exact (H a)].
  intros p w Hw. exists p, [], p, w. split_and!; [done..|]. intros a. apply Hg.
Qed.

(** No dead letter among the outputs. *)
Definition undead (o : list output) : Prop := ∀ t r e s, ODlq t r e s ∉ o.

Lemma undead_nil : undead [].
Proof. intros t r e s ?%elem_of_nil. done. Qed.
Lemma undead_app o o' : undead o → undead o' → undead (o ++ o').
Proof. intros H H' t r e s [?|?]%elem_of_app; [by eapply H|by eapply H']. Qed.
Lemma undead_cons x o : (∀ t r e s, x ≠ ODlq t r e s) → undead o → undead (x :: o).
Proof. intros Hx Ho t r e s [Heq|?]%elem_of_cons; [by eapply Hx|by eapply Ho]. Qed.
Local Hint Resolve undead_nil undead_app : core.

Lemma yields_Publish c t a i d x : yields (sink_Publish c t a i d x) (λ ok o, ok = true ∧ undead o).
Proof.
  intros p w (Hp & Hd & Ha & Hc). unfold sink_Publish. destruct (pop_all _ _ Hp) as (r & -> & Hr).
  eexists _, _, _, _. split; [reflexivity|]. split; [done|]. split; [done|]. by apply undead_cons.
Qed.
Lemma yields_Dlq t r e s : yields (sink_Dlq t r e s) (λ ok o, ok = true).
Proof.
  intros p w (Hp & Hd & Ha & Hc). unfold sink_Dlq. destruct (pop_all _ _ Hd) as (l & -> & Hl).
  eexists _, _, _, _. split; [reflexivity|]. done.
Qed.
Lemma yields_Ack f : yields (src_Ack f) (λ ok o, ok = true ∧ o = [OAck (f_StreamSeq f)]).
Proof.
  intros p w (Hp & Hd & Ha & Hc). unfold src_Ack. destruct (pop_all _ _ Ha) as (l & -> & Hl).
  eexists _, _, _, _. split; [reflexivity|]. done.
Qed.
Lemma yields_Save q sn : yields (snaps_Save q sn) (λ ok o, undead o).
Proof.
  intros p w (Hp & Hd & Ha & Hc). unfold snaps_Save. destruct (pop Done (w_save w)) as [a l].
  eexists _, _, _, _. split; [reflexivity|]. split; [done|]. destruct a; [by apply undead_cons..|done].
Qed.
Lemma yields_done : yields ctx_done (λ d o, d = false ∧ o = []).
Proof.
  intros p w (Hp & Hd & Ha & Hc). unfold ctx_done. destruct (pop_all _ _ Hc) as (l & -> & Hl).
  eexists _, _, _, _. split; [reflexivity|]. done.
Qed.

Lemma yields_context f : yields (fact_context f) (λ _ o, o = []).
Proof.
  intros p w Hw. unfold fact_context. case_decide; [destruct (pop _ _)|]; eexists _, _, _, _; (split; [reflexivity|]); done.
Qed.

(** * One delivery *)

Section Deliveries.
Context (marshal_feed : Event → option string) (marshal_control : FeedControl → option string).
Context (cfg : Config).
Hypothesis Hretry : (0 < PublishRetry cfg)%Z.

Lemma yields_publish c t a i d x : yields (publishWithRetry cfg c t a i d x) (λ r o, r = None ∧ undead o).
Proof.
  unfold publishWithRetry. destruct (Z.to_nat (PublishRetry cfg)) as [|n] eqn:Hn; [lia|]. simpl.
  eapply yields_bind; [apply (yields_ret _ (λ d o, d = false ∧ o = [])); done|]. intros ? ? [-> ->].
  eapply yields_bind; [apply yields_Publish|]. intros ? o [-> Ho]. apply yields_ret. rewrite app_nil_r. done.
Qed.

Lemma yields_fanout c e iid rs payload : yields (fanout cfg c e iid rs payload) (λ r o, r = None ∧ undead o).
Proof.
  induction rs as [|a rs IH]; simpl; [by apply yields_ret|].
  eapply yields_bind; [apply yields_publish|]. intros ? o [-> Ho].
  eapply yields_bind; [apply IH|]. intros ? o' [-> Ho']. apply yields_ret. rewrite app_nil_r. auto.
Qed.

(** Acknowledged, and not by way of the dead letters. *)
Definition acks (f : Fact) (r : option perr) (o : list output) : Prop := r = None ∧ OAck (f_StreamSeq f) ∈ o.

Lemma yields_snapshot q : yields (maybeSnapshot cfg q) (λ _ o, undead o).
Proof.
  unfold maybeSnapshot. eapply yields_bind; [by apply (yields_modify _ (λ _ o, o = []))|]. intros _ ? ->.
  apply yields_get_bind. intros p. case_match; [by apply yields_ret|].
  eapply yields_bind; [apply yields_Save|]. intros ok o Ho.
  destruct ok; [apply yields_modify|apply yields_ret]; rewrite app_nil_r; done.
Qed.

Lemma yields_settle f : yields (settle cfg f) (λ r o, acks f r o ∧ undead o).
Proof.
  unfold settle. eapply yields_bind; [apply yields_done|]. intros ? ? [-> ->].
  eapply yields_bind; [apply yields_Ack|]. intros ? ? [-> ->]. simpl.
  eapply yields_bind; [by apply (yields_modify _ (λ _ o, o = []))|]. intros _ ? ->.
  eapply yields_bind; [apply yields_snapshot|]. intros ? o Ho. apply yields_ret. simpl. rewrite app_nil_r.
  split; [split; [done|by left]|]. by apply undead_cons.
Qed.

(** The last delivery of a message that cannot be projected. *)
Lemma yields_dlq f reason : (MaxDeliver cfg <= f_Delivered f)%Z → yields (dlqOrNak cfg f reason) (acks f).
Proof.
  intros Hlast. unfold dlqOrNak. destruct (Z.ltb_spec (f_Delivered f) (MaxDeliver cfg)); [lia|].
  destruct (match f_Event f with Some e => _ | None => _ end) as [[t ev] sq].
  eapply yields_bind; [apply yields_Dlq|]. intros ? o1 ->. simpl.
  eapply yields_bind; [apply yields_Ack|]. intros ? ? [-> ->]. simpl.
  eapply yields_bind; [by apply (yields_modify _ (λ _ o, o = []))|]. intros _ ? ->.
  apply yields_ret. split; [done|]. set_solver.
Qed.

(** A fact the projector can render. *)
Definition deliverable (f : Fact) : Prop :=
  ∃ e, well_formed f e ∧ is_Some (marshal_feed e) ∧
    (ev_EventType e = "participant.left" →
     is_Some (marshal_control (mkFeedControl SchemaV1 controlRevoked (interactionOf f) (ev_Sequence e)))).

Local Abbreviation process := (process marshal_feed marshal_control cfg).

Lemma yields_process f : deliverable f → yields (process f) (λ r o, acks f r o ∧ undead o).
Proof.
  intros (e & (He & Hte & Hty & Hi) & [payload Hp] & Hleft). unfold FeedProjector.process.
  eapply yields_bind; [apply yields_context|]. intros c ? ->. unfold process_in.
  rewrite He, decide_False, decide_False by naive_solver.
  eapply yields_bind; [by apply (yields_modify _ (λ _ o, o = []))|]. intros _ ? ->.
  apply yields_get_bind. intros p. rewrite Hp.
  eapply yields_bind; [apply yields_fanout|]. intros ? o1 [-> Ho1].
  eapply (yields_bind _ _ (λ r o, r = None ∧ undead o)).
  - case_decide as Hl; [|by apply yields_ret]. destruct (Hleft Hl) as [ctl Hc]. unfold tombstone. rewrite Hc. apply yields_publish.
  - intros ? o2 [-> Ho2]. eapply yields_mono; [apply yields_settle|]. intros r o3 [[-> Ha] Ho3]. simpl. split; [|auto].
    split; [done|]. set_solver.
Qed.

Lemma yields_process_last f : (MaxDeliver cfg <= f_Delivered f)%Z → yields (process f) (acks f).
Proof.
  intros Hlast. unfold FeedProjector.process. eapply yields_bind; [apply yields_context|]. intros c ? ->. unfold process_in.
  destruct (f_Event f) as [e|] eqn:He; [|by apply yields_dlq].
  case_decide as Hb; [by apply yields_dlq|]. case_decide as Hi; [by apply yields_dlq|].
  assert (∀ o1 m, yields m (acks f) → yields m (λ r o, acks f r (o1 ++ o))) as Hafter.
  { intros o1 m Hm. eapply yields_mono; [exact Hm|]. intros r o [-> Ha]. split; [done|]. set_solver. }
  eapply yields_bind; [by apply (yields_modify _ (λ _ o, o = []))|]. intros _ ? ->.
  apply yields_get_bind. intros p. destruct (marshal_feed e) as [payload|]; [|by apply yields_dlq].
  eapply yields_bind; [apply yields_fanout|]. intros ? o1 [-> _]. apply Hafter.
  eapply (yields_bind _ _ (λ _ _, True)).
  - case_decide; [|by apply yields_ret]. unfold tombstone. case_match; [|by apply yields_ret].
    eapply yields_mono; [apply yields_publish|]. naive_solver.
  - intros [err|] o2 _; apply Hafter.
    + unfold publish_failed. eapply yields_bind; [apply yields_done|]. intros ? ? [-> ->]. by apply yields_dlq.
    + eapply yields_mono; [apply yields_settle|]. naive_solver.
Qed.
End Deliveries.

(** * Working off the stream *)

Section Run.
Context {EC : EventCodec}.
Context (q complete : bool).
Context (marshal_feed : Event → option string) (marshal_control : FeedControl → option string).
Context (config : Config).
Local Abbreviation process := (process marshal_feed marshal_control (withDefaults config)).
Local Abbreviation good := (good q).
Local Abbreviation leader_ok := (leader_ok complete).
Local Abbreviation inv := (inv q complete marshal_feed marshal_control).
Local Abbreviation step := (feed_step complete marshal_feed marshal_control config).
Local Abbreviation max := (MaxDeliver (withDefaults config)).

Lemma retries_positive : (0 < PublishRetry (withDefaults config))%Z.
Proof. unfold withDefaults. simpl. destruct (Z.leb_spec (PublishRetry config) 0); lia. Qed.

(** The [k]-th delivery of a message; [hdr] is the trace header messages carry. *)
Definition redelivery (hdr : entry → option string) (e : entry) (k : Z) : Fact :=
  fact_of_msg (mkMsg (e_subject e) (e_data e) (Some (e_seq e, k)) (hdr e)) (e_seq e) k.

Definition acknowledges (sq : N) (o : list output) : bool :=
  existsb (λ x, match x with OAck sq' => (sq' =? sq)%N | _ => false end) o.

Lemma acknowledges_spec sq o : acknowledges sq o = true ↔ OAck sq ∈ o.
Proof.
  unfold acknowledges. rewrite existsb_exists, list_elem_of_In. split; [|intros ?; exists (OAck sq); by rewrite N.eqb_refl].
  intros ([] & Hx & Heq); try done. by apply N.eqb_eq in Heq as ->.
Qed.

(** One leader and the server of its durable consumer, at the [k]-th delivery of
    the message at the consumer's position: the next message once this one is
    acknowledged, this one again otherwise. [ws] are the answers of the ports, a
    world for each delivery. *)
Fixpoint feed_run (l : log) (hdr : entry → option string) (ws : nat → world) (fuel : nat) (k : Z) (F : feed) : feed :=
  match fuel, fd_leader F, l !! fd_pos F with
  | S fuel', Some p, Some e =>
      let '(_, o, p', _) := process (redelivery hdr e k) p (ws fuel') in
      let acked := acknowledges (e_seq e) o in
      feed_run l hdr ws fuel' (if acked then 1 else k + 1)%Z
        (mkFeed (if acked then S (fd_pos F) else fd_pos F) (Some p') (save_outputs o (fd_hist F)) (fd_out F ++ o))
  | _, _, _ => F
  end.

Lemma redelivery_same hdr e k : same_fact (fact_of_entry e) (redelivery hdr e k).
Proof. done. Qed.

(** What a message has come to in [out]: acknowledged, and when it can be rendered,
    published (a leave with its revocation), to every agent it concerns when the
    takeovers read their range and the numbers are dense. *)
Definition served (l : log) (out : list output) (e : entry) : Prop :=
  OAck (e_seq e) ∈ out ∧
  ∃ t i ev facts, fact_at l e t i ev facts ∧
    ∀ payload, ev_EventType ev ≠ "" → marshal_feed ev = Some payload →
      (ev_EventType ev = "participant.left" →
        is_Some (marshal_control (mkFeedControl SchemaV1 controlRevoked i (ev_Sequence ev)))) →
      (complete = true → q = true →
        ∀ a, concerned facts ev a → published t a i (feedDedup t a i (ev_Sequence ev)) payload out) ∧
      (ev_EventType ev = "participant.left" →
        ∃ control, marshal_control (mkFeedControl SchemaV1 controlRevoked i (ev_Sequence ev)) = Some control ∧
          published t (ev_ActorId ev) i (revokedDedup t (ev_ActorId ev) i (ev_Sequence ev)) control out).

Lemma served_mono l out out' e : (∀ x, x ∈ out → x ∈ out') → served l out e → served l out' e.
Proof.
  intros Ho (Ha & t & i & ev & facts & Hat & H). split; [auto|]. exists t, i, ev, facts. split; [done|].
  intros payload Hty Hm Hl. destruct (H payload Hty Hm Hl) as [Hall Hrev]. split; [eauto using published_mono|].
  intros Hleft. destruct (Hrev Hleft) as (c & ? & ?). eauto using published_mono.
Qed.

(** A delivery that is acknowledged. *)
Lemma delivery_served hdr l n e k p w r o p' w' :
  good l → l !! n = Some e → leader_ok l n p → healthy w →
  process (redelivery hdr e k) p w = (r, o, p', w') → OAck (e_seq e) ∈ o → served l o e.
Proof.
  intros Hg He Hlead Hw Hproc Hack. split; [done|].
  destruct (entry_at q l n e Hg He) as (t & i & ev & facts & Hty & Hf & Hat). exists t, i, ev, facts. split; [done|].
  intros payload Hne Hm Hl. destruct (same_event e t i ev _ Hty (redelivery_same hdr e k)) as (Hev & Hi & _).
  pose proof Hty as (_ & _ & _ & Hte & Hie & _ & _ & Hten).
  pose proof retries_positive as Hretry.
  assert (deliverable marshal_feed marshal_control (redelivery hdr e k)) as Hd.
  { exists ev. unfold well_formed. rewrite Hi, Hten. split_and!; done. }
  destruct (yields_process _ _ _ Hretry _ Hd p w Hw) as (r0 & o0 & p0 & w0 & E & _ & _ & Hun).
  rewrite Hproc in E. injection E as <- <- <- <-.
  destruct (ack_after_delivery marshal_feed marshal_control _ Hretry _ _ _ _ _ _ _ _ Hproc Hack) as [(? & ? & ? & ? & Hdl)|(o1 & o2 & Ho & Hdel)];
    [by apply Hun in Hdl|].
  destruct Hdel as (ev' & payload' & (Hev' & _) & Hm' & Hall & Hrev). rewrite Hev in Hev'. injection Hev' as <-.
  rewrite Hm in Hm'. injection Hm' as <-. rewrite Hi, Hten in Hall, Hrev. rewrite Ho. split.
  2: { intros Hleft. destruct (Hrev Hleft) as (c & ? & ?). exists c. split; [done|]. by apply published_l. }
  intros Hfull Hq a Hc. apply published_l, Hall.
  destruct (delivery_tracks q complete l n e p _ Hg He Hlead (redelivery_same hdr e k)) as [_ Htr]. specialize (Htr Hfull).
  rewrite <-(process_views _ _ _ _ _ _ _ _ _ _ Hproc) in Htr. eapply recipients_at; eauto.
Qed.

Lemma feed_run_serves l hdr ws : good l → (∀ j, healthy (ws j)) → ∀ fuel k F p,
  inv l F → fd_leader F = Some p → fd_pos F ≤ length l → (1 <= k <= max)%Z →
  (max * Z.of_nat (length l - fd_pos F) <= Z.of_nat fuel + (k - 1))%Z →
  let F' := feed_run l hdr ws fuel k F in
  rtc (step l) F F' ∧ fd_pos F' = length l ∧ (∀ x, x ∈ fd_out F → x ∈ fd_out F') ∧
  ∀ n e, fd_pos F ≤ n → l !! n = Some e → served l (fd_out F') e.
Proof.
  intros Hg Hw. induction fuel as [|fuel IH]; intros k F p Hinv Hlead Hpos Hk Hfuel.
  { assert (fd_pos F = length l) as Hend by nia. simpl. split_and!; [done|done|done|].
    intros n e Hn He. apply lookup_lt_Some in He. lia. }
  destruct (decide (fd_pos F = length l)) as [Hend|Hlt].
  { simpl. rewrite Hlead, lookup_ge_None_2 by lia. split_and!; [done|done|done|].
    intros n e Hn He. apply lookup_lt_Some in He. lia. }
  destruct (lookup_lt_is_Some_2 l (fd_pos F)) as [e He]; [lia|]. cbn [feed_run]. rewrite Hlead, He.
  destruct (process (redelivery hdr e k) p (ws fuel)) as [[[r o] p'] w'] eqn:Hp.
  set (acked := acknowledges (e_seq e) o). set (F1 := mkFeed _ (Some p') _ _).
  assert (step l F F1) as Hstep.
  { destruct F as [n lead hist out]. simpl in *. subst lead. eapply feed_delivery; [exact He|apply (redelivery_same hdr e k)| |exact Hp].
    unfold F1. destruct acked; auto. }
  assert (inv l F1) as Hinv1 by (by eapply inv_step).
  assert (acked = true ∨ (k < max)%Z ∧ acked = false) as Hcase.
  { destruct acked eqn:Ha; [by left|right]. split; [|done].
    destruct (decide (k < max)%Z) as [|Hge]; [done|]. exfalso. enough (acked = true) by congruence. apply acknowledges_spec.
    destruct (yields_process_last marshal_feed marshal_control _ retries_positive (redelivery hdr e k)
      (proj1 (Z.nlt_ge k max) Hge) p (ws fuel) (Hw fuel)) as (r0 & o0 & p0 & w0 & E & _ & _ & Hack).
    rewrite Hp in E. by injection E as <- <- <- <-. }
  destruct (IH (if acked then 1 else k + 1)%Z F1 p' Hinv1 eq_refl) as (Hrtc & Hend & Hmono & Hall).
  - unfold F1. simpl. destruct acked; lia.
  - destruct Hcase as [->|[? ->]]; cbv iota; lia.
  - unfold F1. cbn [fd_pos]. destruct Hcase as [->|[? ->]]; cbv iota; [|lia].
    replace (length l - fd_pos F) with (S (length l - S (fd_pos F))) in Hfuel by lia. lia.
  - split_and!; [by eapply rtc_l|done| |].
    + intros x Hx. apply Hmono. unfold F1. simpl. apply elem_of_app. by left.
    + intros n e' Hn He'. destruct Hcase as [Ha|[_ Ha]]; [|apply (Hall n); [unfold F1; simpl; rewrite Ha; lia|done]].
      destruct (decide (n = fd_pos F)) as [->|Hne]; [|apply (Hall n); [unfold F1; simpl; rewrite Ha; lia|done]].
      rewrite He in He'. injection He' as <-. destruct Hinv as (Hl & _ & _). apply acknowledges_spec in Ha.
      eapply served_mono; [|eapply (delivery_served hdr l (fd_pos F) e k p (ws fuel) r o p' w'); eauto].
      intros x Hx. apply Hmono. unfold F1. simpl. apply elem_of_app. by right.
Qed.
End Run.

(** * The system *)

Section Theorems.
Context {EC : EventCodec} {ECOK : EventCodecOK} {EX : Externals}.
Context (b : broker).
Hypothesis Hocc : occ_first b = true.
Context (complete : bool).
Context (marshal_feed : Event → option string) (marshal_control : FeedControl → option string).
Context (config : Config).
Context (routers : list (RouterConfig * list request)).
Hypothesis Hsubjects : ∀ cfg rs, (cfg, rs) ∈ routers → Forall (λ r, subject_ok (rq_subject r)) rs.
Local Abbreviation sys := (sys_step b complete marshal_feed marshal_control config).

End Theorems.
