(* ===== verification/Uuid.v ===== *)
(** UUIDs, as delivery (internal/delivery/service.go) and the route projection
    (internal/routeprojection/projector.go) check them through the uuid package.
    The package is an interface; the instance [text_uuid] reads canonical UUIDv7
    text only and grounds the concrete runs. *)

From S2P Require Import Prelude Subjects.

(** [uuid.Parse], and [Version], [Variant] and [String] of a parsed id. *)
Class UuidLib := {
  UUID : Type;
  uuid_Parse : string → option UUID;
  uuid_Version : UUID → N;
  uuid_RFC4122 : UUID → bool;
  uuid_String : UUID → string;
}.

(** The package's documented behaviour the program relies on: printing and
    parsing are inverse, the text has 36 bytes, and the empty string is no id. *)
Class UuidLaws `(U : UuidLib) := {
  uuid_roundtrip u : uuid_Parse (uuid_String u) = Some u;
  uuid_Parse_empty : uuid_Parse "" = None;
  uuid_String_length u : String.length (uuid_String u) = 36;
}.

(** The check that both packages share ([requireUUIDv7], [validateUUIDv7]). *)
Definition canonicalUUIDv7 `{UuidLib} (value : string) : bool :=
  match uuid_Parse value with
  | None => false
  | Some id => (uuid_Version id =? 7)%N && uuid_RFC4122 id && bool_decide (uuid_String id = value)
  end.

Lemma canonicalUUIDv7_parse `{UuidLib} v :
  canonicalUUIDv7 v = true → ∃ u, uuid_Parse v = Some u ∧ uuid_String u = v.
Proof.
  unfold canonicalUUIDv7. destruct (uuid_Parse v) as [u|]; [|done].
  intros [_ Hs%bool_decide_eq_true]%andb_prop. eauto.
Qed.

Lemma canonicalUUIDv7_nonempty `{UuidLaws} v : canonicalUUIDv7 v = true → v ≠ "".
Proof. intros Hc ->. unfold canonicalUUIDv7 in Hc. by rewrite uuid_Parse_empty in Hc. Qed.

Lemma canonicalUUIDv7_length `{UuidLaws} v : canonicalUUIDv7 v = true → String.length v = 36.
Proof. intros (u & _ & <-)%canonicalUUIDv7_parse. apply uuid_String_length. Qed.

Definition text_uuid : UuidLib := {|
  UUID := { s : string | uuidv7Pattern s = true };
  uuid_Parse s := match decide (uuidv7Pattern s = true) with left H => Some (s ↾ H) | right _ => None end;
  uuid_Version _ := 7%N;
  uuid_RFC4122 _ := true;
  uuid_String u := `u
|}.

Lemma text_uuid_laws : UuidLaws text_uuid.
Proof.
  split; [|done|].
  - intros [s Hs]. simpl. destruct (decide _) as [H|H]; [|done]. do 2 f_equal. apply (proof_irrel _ _).
  - intros [s Hs]. simpl. unfold uuidv7Pattern in Hs. by rewrite (match_classes_length _ _ Hs).
Qed.
