(* ===== verification/Delivery.v ===== *)
(** Delivery intents (internal/delivery/service.go and worker.go): a producer
    hands over the authorization to show an interaction to a subscriber; the
    service stores it once and answers with a receipt; a worker acknowledges the
    receipt to the router of reservations. The gRPC server of
    internal/deliverygrpc/server.go is the entry. *)

From S2P Require Import Prelude Bytes Subjects Uuid.

(** * Data *)

(** [timestamppb.Timestamp]: seconds, nanoseconds, unknown fields. *)
Record Timestamp := mkTs { ts_Seconds : Z; ts_Nanos : Z; ts_unknown : string }.

(** [Timestamp.IsValid]: years 1 to 9999. *)
Definition ts_IsValid (t : Timestamp) : bool :=
  ((-62135596800 <=? ts_Seconds t) && (ts_Seconds t <=? 253402300799)
   && (0 <=? ts_Nanos t) && (ts_Nanos t <=? 999999999))%Z.

(** [timestamppb.New] of an instant in microseconds, the database's precision. *)
Definition ts_of_micros (us : Z) : Timestamp := mkTs (us / 1000000)%Z ((us mod 1000000) * 1000)%Z "".
(** [AsTime] of a timestamp as a timestamptz column keeps it, the rest of the
    nanoseconds cut off; a nil timestamp is the epoch. *)
Definition ts_micros (t : option Timestamp) : Z :=
  match t with Some t => (ts_Seconds t * 1000000 + ts_Nanos t / 1000)%Z | None => 0%Z end.

Record DeliveryAuthorization := mkAuthorization {
  da_DeliveryAuthorizationId : string;
  da_EventId : string;
  da_TenantId : string;
  da_ReservationId : string;
  da_InteractionId : string;
  da_TargetSubscriberId : string;
  da_FencingToken : string;
  da_RouteVersion : N;
  da_DeliveryDeadline : option Timestamp;
  da_Traceparent : string;
  da_unknown : string;
}.

Inductive DeliveryVisibility := VISIBILITY_UNSPECIFIED | PENDING_NOT_VISIBLE.

Record DeliveryReceipt := mkReceipt {
  dr_ReceiptId : string;
  dr_DeliveryAuthorizationId : string;
  dr_EventId : string;
  dr_TenantId : string;
  dr_ReservationId : string;
  dr_InteractionId : string;
  dr_TargetSubscriberId : string;
  dr_AcceptedAt : option Timestamp;
  dr_DeliveryDeadline : option Timestamp;
  dr_LogSequence : N;
  dr_IssuerServiceId : string;
  dr_Visibility : DeliveryVisibility;
}.

Record Principal := mkPrincipal { pr_ServiceID : string; pr_TenantID : string; pr_Capabilities : list string }.

Record AppendInput := mkAppendInput {
  ai_Authorization : DeliveryAuthorization;
  ai_ReceiptID : string;
  ai_IssuerService : string;
  ai_RequestHash : string;
  ai_RequestBody : string;
}.

(** [AcceptedAt] in microseconds. *)
Record AppendResult := mkAppendResult { ar_ReceiptID : string; ar_AcceptedAt : Z; ar_LogSequence : N }.

#[export] Instance Timestamp_eq_dec : EqDecision Timestamp.
Proof. solve_decision. Defined.
#[export] Instance DeliveryAuthorization_eq_dec : EqDecision DeliveryAuthorization.
Proof. solve_decision. Defined.
#[export] Instance DeliveryVisibility_eq_dec : EqDecision DeliveryVisibility.
Proof. solve_decision. Defined.
#[export] Instance DeliveryReceipt_eq_dec : EqDecision DeliveryReceipt.
Proof. solve_decision. Defined.

(** The package's errors; [ErrNoRows] is pgx's, [ErrDatabase] any other error of
    the database, [ErrOther] an error of a codec or of the router's client, with
    its text. *)
Inductive derr :=
| ErrUnauthenticated | ErrPermissionDenied | ErrInvalidAuthorization | ErrIdempotencyConflict
| ErrUnknownAcknowledgement | ErrAcknowledgementHash | ErrNoRows | ErrDatabase
| ErrOther (text : string).
#[export] Instance derr_eq_dec : EqDecision derr.
Proof. solve_decision. Defined.

Definition CapabilityDeliveryWrite : string := "corex-delivery-write".
Definition acceptDeliveryMethod : string := "/relaypoint.delivery.v1.DeliveryService/AcceptDelivery".
Definition acknowledgeDeliveryMethod : string := "/kafaconnect.routing.v1.ReservationService/AcknowledgeDelivery".
Definition issuerServiceID : string := "relaypoint".

(** [^00-[0-9a-f]{32}-[0-9a-f]{16}-0[01]$]. *)
Definition traceparentPattern (s : string) : bool :=
  match_classes ([isc "0"; isc "0"; isc "-"] ++ replicate 32 hexc ++ [isc "-"] ++ replicate 16 hexc
                 ++ [isc "-"; isc "0"; λ c, isc "0" c || isc "1" c]) s.

(** * Validation, normal form and hash *)

(** Deterministic protobuf encoding of the two messages, and SHA-256. *)
Class DeliveryLib := {
  marshal_authorization : DeliveryAuthorization → option string;
  marshal_receipt : DeliveryReceipt → option string;
  unmarshal_receipt : string → option DeliveryReceipt;
  sha256 : string → string;
}.

Section Service.
Context `{UuidLib, DeliveryLib}.

Definition requireUUIDv7 (value : string) : option derr :=
  if canonicalUUIDv7 value then None else Some ErrInvalidAuthorization.

(** The checked fields; the loop over the Go map stops at some failing field. *)
Definition uuid_fields (a : DeliveryAuthorization) : list string :=
  [da_DeliveryAuthorizationId a; da_EventId a; da_TenantId a; da_ReservationId a; da_InteractionId a;
   da_TargetSubscriberId a; da_FencingToken a].

Definition validateAuthorization (authorization : option DeliveryAuthorization) : option derr :=
  match authorization with
  | None => Some ErrInvalidAuthorization
  | Some a =>
      if negb (forallb canonicalUUIDv7 (uuid_fields a)) then Some ErrInvalidAuthorization
      else if (da_RouteVersion a =? 0)%N then Some ErrInvalidAuthorization
      else if match da_DeliveryDeadline a with None => true | Some t => negb (ts_IsValid t) end
      then Some ErrInvalidAuthorization
      else if negb (traceparentPattern (da_Traceparent a)) then Some ErrInvalidAuthorization
      else None
  end.

(** [discardUnknown]: the message's unknown fields and those of its messages. *)
Definition discardUnknown (a : DeliveryAuthorization) : DeliveryAuthorization :=
  mkAuthorization (da_DeliveryAuthorizationId a) (da_EventId a) (da_TenantId a) (da_ReservationId a)
    (da_InteractionId a) (da_TargetSubscriberId a) (da_FencingToken a) (da_RouteVersion a)
    ((λ t, mkTs (ts_Seconds t) (ts_Nanos t) "") <$> da_DeliveryDeadline a) (da_Traceparent a) "".

Definition normalize_id (value : string) : string :=
  match uuid_Parse value with Some id => uuid_String id | None => value end.

(** Every string field whose name ends in _id is rewritten. *)
Definition normalizeAuthorization (authorization : DeliveryAuthorization) : DeliveryAuthorization :=
  let a := discardUnknown authorization in
  mkAuthorization (normalize_id (da_DeliveryAuthorizationId a)) (normalize_id (da_EventId a))
    (normalize_id (da_TenantId a)) (normalize_id (da_ReservationId a)) (normalize_id (da_InteractionId a))
    (normalize_id (da_TargetSubscriberId a)) (da_FencingToken a) (da_RouteVersion a)
    (da_DeliveryDeadline a) (da_Traceparent a) (da_unknown a).

Definition authorizationHashAndBody (a : DeliveryAuthorization) : derr + (string * string) :=
  match marshal_authorization a with
  | None => inl (ErrOther "marshal authorization")
  | Some body => inr (sha256 (put_parts [acceptDeliveryMethod; da_TenantId a; body]), body)
  end.

Definition HashAuthorization (authorization : option DeliveryAuthorization) : derr + string :=
  match validateAuthorization authorization, authorization with
  | Some e, _ => inl e
  | None, None => inl ErrInvalidAuthorization
  | None, Some a => match authorizationHashAndBody (normalizeAuthorization a) with
                    | inl e => inl e
                    | inr (hash, _) => inr hash
                    end
  end.

(** * Acceptance *)

Fixpoint hasCapability (capabilities : list string) (wanted : string) : bool :=
  match capabilities with
  | [] => false
  | c :: cs => if decide (c = wanted) then true else hasCapability cs wanted
  end.

(** The store of authorizations, over a state. *)
Class AuthorizationStore (S : Type) := as_Append : AppendInput → S → (derr + AppendResult) * S.

(** [AcceptDelivery]; [newID] is the id the service draws. *)
Definition AcceptDelivery {S} `{!AuthorizationStore S} (principal : Principal)
    (authorization : option DeliveryAuthorization) (newID : string) (s : S) :
    (derr + DeliveryReceipt) * S :=
  if decide (pr_ServiceID principal ≠ "corex") then (inl ErrUnauthenticated, s)
  else if negb (hasCapability (pr_Capabilities principal) CapabilityDeliveryWrite) then (inl ErrPermissionDenied, s)
  else match authorization with
  | None => (inl ErrPermissionDenied, s)
  | Some a =>
      if decide (pr_TenantID principal = "" ∨ pr_TenantID principal ≠ da_TenantId a)
      then (inl ErrPermissionDenied, s)
      else match validateAuthorization authorization with
      | Some e => (inl e, s)
      | None =>
          let normalized := normalizeAuthorization a in
          match authorizationHashAndBody normalized with
          | inl e => (inl e, s)
          | inr (hash, body) =>
              match requireUUIDv7 newID with
              | Some e => (inl e, s)
              | None =>
                  match as_Append (mkAppendInput normalized newID issuerServiceID hash body) s with
                  | (inl e, s') => (inl e, s')
                  | (inr result, s') =>
                      (inr (mkReceipt (ar_ReceiptID result) (da_DeliveryAuthorizationId normalized)
                              (da_EventId normalized) (da_TenantId normalized) (da_ReservationId normalized)
                              (da_InteractionId normalized) (da_TargetSubscriberId normalized)
                              (Some (ts_of_micros (ar_AcceptedAt result))) (da_DeliveryDeadline normalized)
                              (ar_LogSequence result) issuerServiceID PENDING_NOT_VISIBLE), s')
                  end
              end
          end
      end
  end.
End Service.

(** * The gRPC server *)

Inductive Code := Unauthenticated | PermissionDenied | InvalidArgument | AlreadyExists | Internal.
#[export] Instance Code_eq_dec : EqDecision Code.
Proof. solve_decision. Defined.

Definition grpc_code (e : derr) : Code :=
  match e with
  | ErrUnauthenticated => Unauthenticated
  | ErrPermissionDenied => PermissionDenied
  | ErrInvalidAuthorization => InvalidArgument
  | ErrIdempotencyConflict => AlreadyExists
  | _ => Internal
  end.

(** [Server.AcceptDelivery]; [resolved] is what the principal resolver answers. *)
Definition server_AcceptDelivery `{UuidLib, DeliveryLib} {S} `{!AuthorizationStore S}
    (resolved : option Principal) (authorization : option DeliveryAuthorization) (newID : string) (s : S) :
    (Code + DeliveryReceipt) * S :=
  match resolved with
  | None => (inl Unauthenticated, s)
  | Some principal =>
      match AcceptDelivery principal authorization newID s with
      | (inr receipt, s') => (inr receipt, s')
      | (inl e, s') => (inl (grpc_code e), s')
      end
  end.

(** * The acknowledgement worker *)

(** [AckDisposition] is a uint8. *)
Definition AckApplied : N := 1.
Definition AckAlreadyApplied : N := 2.
Definition AckTerminalExpired : N := 3.

Record AckResult := mkAckResult { rs_Disposition : N; rs_RouteVersion : N; rs_EventID : string }.

Record AckClaim := mkAckClaim {
  cl_Receipt : DeliveryReceipt;
  cl_ClaimToken : string;
  cl_ExpectedRouteVersion : N;
  cl_FencingToken : string;
  cl_RequestHash : string;
}.

Record AcknowledgeRequest := mkAckRequest {
  rq_RequestID : string;
  rq_TenantID : string;
  rq_ReservationID : string;
  rq_InteractionID : string;
  rq_ExpectedRouteVersion : N;
  rq_FencingToken : string;
  rq_Receipt : DeliveryReceipt;
}.

Definition request_Equal (r other : AcknowledgeRequest) : bool :=
  bool_decide (rq_RequestID r = rq_RequestID other) && bool_decide (rq_TenantID r = rq_TenantID other)
  && bool_decide (rq_ReservationID r = rq_ReservationID other)
  && bool_decide (rq_InteractionID r = rq_InteractionID other)
  && (rq_ExpectedRouteVersion r =? rq_ExpectedRouteVersion other)%N
  && bool_decide (rq_FencingToken r = rq_FencingToken other)
  && bool_decide (rq_Receipt r = rq_Receipt other).

(** The parts the hash covers, the receipt's encoding last. *)
Definition request_parts (r : AcknowledgeRequest) (receipt : string) : list string :=
  [acknowledgeDeliveryMethod; rq_TenantID r; rq_RequestID r; rq_ReservationID r; rq_InteractionID r;
   be64 (rq_ExpectedRouteVersion r); rq_FencingToken r; receipt].

Definition request_Hash `{DeliveryLib} (r : AcknowledgeRequest) : derr + string :=
  match marshal_receipt (rq_Receipt r) with
  | None => inl (ErrOther "marshal receipt")
  | Some receipt => inr (sha256 (put_parts (request_parts r receipt)))
  end.

(** The outbox of acknowledgements; [Retry] gets the error to record. *)
Class AckStore (S : Type) := {
  ak_Claim : string → S → (derr + option AckClaim) * S;
  ak_Complete : string → string → string → AckResult → S → (derr + unit) * S;
  ak_Retry : string → string → string → derr → S → (derr + unit) * S;
}.

Section Worker.
Context `{DeliveryLib} {S : Type} `{!AckStore S}.

(** [Retry], then the error itself. *)
Definition give_back (tenantID requestID token : string) (e : derr) (s : S) : (derr + unit) * S :=
  match ak_Retry tenantID requestID token e s with
  | (inl retryErr, s') => (inl retryErr, s')
  | (inr _, s') => (inl e, s')
  end.

Definition claim_request (claim : AckClaim) : AcknowledgeRequest :=
  let r := cl_Receipt claim in
  mkAckRequest (dr_ReceiptId r) (dr_TenantId r) (dr_ReservationId r) (dr_InteractionId r)
    (cl_ExpectedRouteVersion claim) (cl_FencingToken claim) r.

(** What [ProcessOne] does with a claim: the error or success, the requests sent,
    the state. [router] is the answer of the router to a request. *)
Definition process_claim (tenantID : string) (router : AcknowledgeRequest → derr + AckResult)
    (claim : AckClaim) (s : S) : (derr + unit) * list AcknowledgeRequest * S :=
  let request := claim_request claim in
  let back e sent s := let '(r, s') := give_back tenantID (rq_RequestID request) (cl_ClaimToken claim) e s in
                       (r, sent, s') in
  match request_Hash request with
  | inl e => back e [] s
  | inr hash =>
      if decide (hash ≠ cl_RequestHash claim) then back ErrAcknowledgementHash [] s
      else match router request with
      | inl e => back e [request] s
      | inr result =>
          if negb (rs_Disposition result =? AckApplied)%N && negb (rs_Disposition result =? AckAlreadyApplied)%N
             && negb (rs_Disposition result =? AckTerminalExpired)%N
          then back ErrUnknownAcknowledgement [request] s
          else let '(r, s') := ak_Complete tenantID (rq_RequestID request) (cl_ClaimToken claim) result s in
               (r, [request], s')
      end
  end.

Definition ProcessOne (tenantID : string) (router : AcknowledgeRequest → derr + AckResult) (s : S) :
    (derr + unit) * list AcknowledgeRequest * S :=
  match ak_Claim tenantID s with
  | (inl e, s') => (inl e, [], s')
  | (inr None, s') => (inr (), [], s')
  | (inr (Some claim), s') => process_claim tenantID router claim s'
  end.
End Worker.
