(* ===== verification/DeliveryPg.v ===== *)
(** The PostgreSQL store of delivery intents and acknowledgements
    (internal/deliverypg/store.go) over the tables of
    db/migrations/000001_baseline.up.sql; the tables of the route projection
    (internal/deliverypg/projection.go) are part of the same database.

    A table is a finite map from its primary key to a row, without the timestamps
    that nothing reads. A statement checks the key, UNIQUE and range constraints
    and the tenant of the session. Columns of type uuid receive ids that the
    callers have checked, except the event id of a router's answer; the 32-byte
    hashes are not checked again. [clock_timestamp()] is read once per statement,
    in microseconds. *)

From S2P Require Import Prelude Bytes Subjects Uuid PgTx Delivery.

(** * Tables *)

(** delivery_authorizations *)
Record AuthorizationRow := mkAuthorizationRow {
  az_event : string; az_reservation : string; az_interaction : string; az_target : string;
  az_fencing : string; az_version : N; az_deadline : Z; az_traceparent : string;
  az_hash : string; az_body : string; az_receipt : string; az_accepted : Z; az_sequence : N;
  az_issuer : string; az_visibility : string }.

(** interaction_delivery_log *)
Record LogRow := mkLogRow {
  lg_interaction : string; lg_authorization : string; lg_receipt : string; lg_hash : string;
  lg_body : string; lg_accepted : Z }.

(** delivery_ack_outbox *)
Inductive ack_status := ack_pending | ack_claimed | ack_completed.
#[export] Instance ack_status_eq_dec : EqDecision ack_status.
Proof. solve_decision. Defined.

Record OutboxRow := mkOutboxRow {
  ob_authorization : string; ob_reservation : string; ob_interaction : string; ob_target : string;
  ob_version : N; ob_fencing : string; ob_body : string; ob_hash : string;
  ob_status : ack_status; ob_token : option string; ob_until : option Z; ob_attempts : Z; ob_next : Z;
  ob_disposition : option string; ob_result_version : option N; ob_result_event : option string;
  ob_error : option string; ob_completed : option Z }.

(** route_projection_heads *)
Record RouteHeadRow := mkRouteHeadRow {
  rh_version : N; rh_event : option string; rh_hash : option string; rh_visibility : string;
  rh_authorization : option string; rh_receipt : option string; rh_generation : N;
  rh_lease : option Z; rh_floor : option N; rh_provenance : option string }.

(** route_fact_version_ledger and route_fact_event_ledger *)
Record RouteVersionRow := mkRouteVersionRow { rv_event : string; rv_hash : string; rv_body : string }.
Record RouteEventRow := mkRouteEventRow { re_interaction : string; re_version : N; re_hash : string }.

(** projection_reconcile_intents *)
Record RouteIntentRow := mkRouteIntentRow {
  rn_interaction : string; rn_observed : N; rn_from : N; rn_to : N;
  rn_held_event : string; rn_held_hash : string; rn_status : string }.

(** route_projection_dlq and projection_invariant_alert_outbox *)
Record RouteDlqRow := mkRouteDlqRow {
  rd_token : option string; rd_interaction : string; rd_event : string; rd_version : N;
  rd_hash : string; rd_reason : string; rd_body : string }.
Record RouteAlertRow := mkRouteAlertRow { rl_token : string; rl_interaction : string; rl_payload : string }.

(** The database. A key is the tenant and the rest of the primary key. *)
Record DPg := mkDPg {
  d_authorizations : gmap (string * string) AuthorizationRow;
  d_log : gmap (string * N) LogRow;
  d_outbox : gmap (string * string) OutboxRow;
  d_heads : gmap (string * string) RouteHeadRow;
  d_versions : gmap (string * string * N) RouteVersionRow;
  d_events : gmap (string * string) RouteEventRow;
  d_intents : gmap (string * string) RouteIntentRow;
  d_dlq : gmap (string * string) RouteDlqRow;
  d_alerts : gmap (string * string) RouteAlertRow;
}.

Definition dpg_empty : DPg := mkDPg ∅ ∅ ∅ ∅ ∅ ∅ ∅ ∅ ∅.

Definition set_authorizations m (d : DPg) : DPg :=
  mkDPg m (d_log d) (d_outbox d) (d_heads d) (d_versions d) (d_events d) (d_intents d) (d_dlq d) (d_alerts d).
Definition set_log m (d : DPg) : DPg :=
  mkDPg (d_authorizations d) m (d_outbox d) (d_heads d) (d_versions d) (d_events d) (d_intents d) (d_dlq d) (d_alerts d).
Definition set_outbox m (d : DPg) : DPg :=
  mkDPg (d_authorizations d) (d_log d) m (d_heads d) (d_versions d) (d_events d) (d_intents d) (d_dlq d) (d_alerts d).
Definition set_heads m (d : DPg) : DPg :=
  mkDPg (d_authorizations d) (d_log d) (d_outbox d) m (d_versions d) (d_events d) (d_intents d) (d_dlq d) (d_alerts d).
Definition set_versions m (d : DPg) : DPg :=
  mkDPg (d_authorizations d) (d_log d) (d_outbox d) (d_heads d) m (d_events d) (d_intents d) (d_dlq d) (d_alerts d).
Definition set_events m (d : DPg) : DPg :=
  mkDPg (d_authorizations d) (d_log d) (d_outbox d) (d_heads d) (d_versions d) m (d_intents d) (d_dlq d) (d_alerts d).
Definition set_intents m (d : DPg) : DPg :=
  mkDPg (d_authorizations d) (d_log d) (d_outbox d) (d_heads d) (d_versions d) (d_events d) m (d_dlq d) (d_alerts d).
Definition set_dlq m (d : DPg) : DPg :=
  mkDPg (d_authorizations d) (d_log d) (d_outbox d) (d_heads d) (d_versions d) (d_events d) (d_intents d) m (d_alerts d).
Definition set_alerts m (d : DPg) : DPg :=
  mkDPg (d_authorizations d) (d_log d) (d_outbox d) (d_heads d) (d_versions d) (d_events d) (d_intents d) (d_dlq d) m.

#[export] Instance derr_tx : TxErr derr := ErrDatabase.
Abbreviation DState := (DbState DPg).
Abbreviation DTx := (PgTx.Tx DPg derr).

(** * Text *)

Definition byte_in (lo hi : N) (c : ascii) : bool := ((lo <=? N_of_ascii c) && (N_of_ascii c <=? hi))%N.

(** Well-formed UTF-8. *)
Fixpoint utf8_valid (s : string) : bool :=
  match s with
  | EmptyString => true
  | String a s1 =>
      if byte_in 0 127 a then utf8_valid s1
      else if byte_in 194 223 a then
        match s1 with String b s2 => byte_in 128 191 b && utf8_valid s2 | _ => false end
      else if byte_in 224 239 a then
        match s1 with
        | String b (String c s3) =>
            byte_in (if byte_in 224 224 a then 160 else 128) (if byte_in 237 237 a then 159 else 191) b
            && byte_in 128 191 c && utf8_valid s3
        | _ => false
        end
      else if byte_in 240 244 a then
        match s1 with
        | String b (String c (String e s4)) =>
            byte_in (if byte_in 240 240 a then 144 else 128) (if byte_in 244 244 a then 143 else 191) b
            && byte_in 128 191 c && byte_in 128 191 e && utf8_valid s4
        | _ => false
        end
      else false
  end.

(** What a text column accepts. *)
Definition text_ok (s : string) : bool := utf8_valid s && negb (has_char "000" s).

(** [err.Error()] of the errors a worker gives back. *)
Definition error_text (e : derr) : string :=
  match e with
  | ErrUnauthenticated => "delivery: unauthenticated"
  | ErrPermissionDenied => "delivery: permission denied"
  | ErrInvalidAuthorization => "delivery: invalid authorization"
  | ErrIdempotencyConflict => "delivery: idempotency conflict"
  | ErrUnknownAcknowledgement => "delivery: unknown acknowledgement disposition"
  | ErrAcknowledgementHash => "delivery: acknowledgement hash mismatch"
  | ErrNoRows => "no rows in result set"
  | ErrDatabase => "database error"
  | ErrOther text => text
  end.

(** * The store *)

Section Store.
#[local] Open Scope tx_scope.
Context `{DeliveryLib}.
(** What happens to the n-th statement; the clock, the identity column and the id
    generator at that tick; the cast of a text to uuid. *)
Context (faults : nat → fault) (now : nat → Z) (nextval : nat → N) (new_id : nat → string)
        (uuid_cast : string → option string).

#[local] Abbreviation stmt := (PgTx.stmt faults).
#[local] Abbreviation stmt_at := (PgTx.stmt_at faults).
#[local] Abbreviation query := (PgTx.query faults).
#[local] Abbreviation write := (PgTx.write faults).

Definition withTenantTx {A} (tenantID : string) (operation : DTx A) (s : DState) : (derr + A) * DState :=
  run_tx faults tenantID operation s.

Definition receiptFromAppend (input : AppendInput) (result : AppendResult) : DeliveryReceipt :=
  let a := ai_Authorization input in
  mkReceipt (ar_ReceiptID result) (da_DeliveryAuthorizationId a) (da_EventId a) (da_TenantId a)
    (da_ReservationId a) (da_InteractionId a) (da_TargetSubscriberId a)
    (Some (ts_of_micros (ar_AcceptedAt result))) (da_DeliveryDeadline a) (ar_LogSequence result)
    (ai_IssuerService input) PENDING_NOT_VISIBLE.

(** The rows of an authorization. *)
Definition log_row (input : AppendInput) (accepted : Z) : LogRow :=
  let a := ai_Authorization input in
  mkLogRow (da_InteractionId a) (da_DeliveryAuthorizationId a) (ai_ReceiptID input) (ai_RequestHash input)
    (ai_RequestBody input) accepted.

Definition authorization_row (input : AppendInput) (result : AppendResult) : AuthorizationRow :=
  let a := ai_Authorization input in
  mkAuthorizationRow (da_EventId a) (da_ReservationId a) (da_InteractionId a) (da_TargetSubscriberId a)
    (da_FencingToken a) (da_RouteVersion a) (ts_micros (da_DeliveryDeadline a)) (da_Traceparent a)
    (ai_RequestHash input) (ai_RequestBody input) (ar_ReceiptID result) (ar_AcceptedAt result)
    (ar_LogSequence result) (ai_IssuerService input) "PENDING_NOT_VISIBLE".

(** The columns without a value take their defaults. *)
Definition outbox_row (input : AppendInput) (body hash : string) (created : Z) : OutboxRow :=
  let a := ai_Authorization input in
  mkOutboxRow (da_DeliveryAuthorizationId a) (da_ReservationId a) (da_InteractionId a)
    (da_TargetSubscriberId a) (da_RouteVersion a) (da_FencingToken a) body hash
    ack_pending None None 0 created None None None None None.

(** INSERT INTO interaction_delivery_log ... RETURNING log_sequence, accepted_at. *)
Definition insert_log (input : AppendInput) : DTx AppendResult :=
  let a := ai_Authorization input in
  let tenant := da_TenantId a in
  stmt_at (λ n t d,
    let sequence := nextval n in
    if bool_decide (t = tenant) && bool_decide (d_log d !! (tenant, sequence) = None)
       && negb (bool_decide (map_Exists (λ k r, k.1 = tenant ∧
                 (lg_authorization r = da_DeliveryAuthorizationId a ∨ lg_receipt r = ai_ReceiptID input)) (d_log d)))
    then (inr (mkAppendResult (ai_ReceiptID input) (now n) sequence),
          set_log (<[(tenant, sequence) := log_row input (now n)]> (d_log d)) d)
    else (inl ErrDatabase, d)).

(** INSERT INTO delivery_authorizations. *)
Definition insert_authorization (input : AppendInput) (result : AppendResult) : DTx unit :=
  let a := ai_Authorization input in
  let tenant := da_TenantId a in
  write tenant
    (λ d, bigint (da_RouteVersion a) && (0 <? da_RouteVersion a)%N
          && bool_decide (d_authorizations d !! (tenant, da_DeliveryAuthorizationId a) = None)
          && negb (bool_decide (map_Exists (λ k r, k.1 = tenant ∧
                     (az_event r = da_EventId a ∨ az_receipt r = ar_ReceiptID result)) (d_authorizations d))))
    (λ d, set_authorizations (<[(tenant, da_DeliveryAuthorizationId a) := authorization_row input result]>
            (d_authorizations d)) d).

(** INSERT INTO delivery_ack_outbox. *)
Definition insert_outbox (input : AppendInput) (result : AppendResult) (body hash : string) : DTx unit :=
  let a := ai_Authorization input in
  let tenant := da_TenantId a in
  stmt_at (λ n t d,
    if bool_decide (t = tenant) && bigint (da_RouteVersion a) && (0 <? da_RouteVersion a)%N
       && bool_decide (d_outbox d !! (tenant, ar_ReceiptID result) = None)
    then (inr (), set_outbox (<[(tenant, ar_ReceiptID result) := outbox_row input body hash (now n)]> (d_outbox d)) d)
    else (inl ErrDatabase, d)).

(** The acknowledgement request of an appended authorization. *)
Definition append_request (input : AppendInput) (result : AppendResult) : AcknowledgeRequest :=
  let a := ai_Authorization input in
  mkAckRequest (ar_ReceiptID result) (da_TenantId a) (da_ReservationId a) (da_InteractionId a)
    (da_RouteVersion a) (da_FencingToken a) (receiptFromAppend input result).

Definition append_tx (input : AppendInput) : DTx AppendResult :=
  let a := ai_Authorization input in
  query (λ _, tt) ;;;
  row <- query (λ d, d_authorizations d !! (da_TenantId a, da_DeliveryAuthorizationId a)) ;;
  match row with
  | Some r =>
      if decide (az_hash r ≠ ai_RequestHash input) then tx_fail ErrIdempotencyConflict
      else tx_ret (mkAppendResult (az_receipt r) (az_accepted r) (az_sequence r))
  | None =>
      result <- insert_log input ;;
      match marshal_receipt (receiptFromAppend input result) with
      | None => tx_fail (ErrOther "marshal receipt")
      | Some receiptBody =>
          match request_Hash (append_request input result) with
          | inl e => tx_fail e
          | inr ackHash =>
              insert_authorization input result ;;;
              insert_outbox input result receiptBody ackHash ;;;
              tx_ret result
          end
      end
  end.

Definition Append (input : AppendInput) : DState → (derr + AppendResult) * DState :=
  withTenantTx (da_TenantId (ai_Authorization input)) (append_tx input).

(** ** Acknowledgements *)

Definition defaultClaimTTL : Z := 30000000.

(** A row that may be claimed at [at_]. *)
Definition ack_due (at_ : Z) (r : OutboxRow) : bool :=
  (ob_next r <=? at_)%Z
  && match ob_status r with
     | ack_pending => true
     | ack_claimed => match ob_until r with Some u => (u <=? at_)%Z | None => false end
     | ack_completed => false
     end.

(** ORDER BY next_attempt_at, receipt_id. *)
Definition earlier (x y : string * OutboxRow) : bool :=
  (ob_next x.2 <? ob_next y.2)%Z || ((ob_next x.2 =? ob_next y.2)%Z && String.leb x.1 y.1).

Fixpoint first_row (l : list (string * OutboxRow)) : option (string * OutboxRow) :=
  match l with
  | [] => None
  | x :: l' => match first_row l' with
               | None => Some x
               | Some y => if earlier x y then Some x else Some y
               end
  end.

(** The rows of a tenant that are due, and the candidate of a claim. *)
Definition due_rows (tenant : string) (at_ : Z) (d : DPg) : list (string * OutboxRow) :=
  omap (λ kr : (string * string) * OutboxRow,
          if bool_decide (kr.1.1 = tenant) && ack_due at_ kr.2 then Some (kr.1.2, kr.2) else None)
       (map_to_list (d_outbox d)).

Definition candidate (tenant : string) (at_ : Z) (d : DPg) : option (string * OutboxRow) :=
  first_row (due_rows tenant at_ d).

(** SET status = 'claimed', claim_token, claim_until. *)
Definition claim_row (token : string) (until : Z) (r : OutboxRow) : OutboxRow :=
  mkOutboxRow (ob_authorization r) (ob_reservation r) (ob_interaction r) (ob_target r) (ob_version r)
    (ob_fencing r) (ob_body r) (ob_hash r) ack_claimed (Some token) (Some until) (ob_attempts r) (ob_next r)
    (ob_disposition r) (ob_result_version r) (ob_result_event r) (ob_error r) (ob_completed r).

Definition claim_tx (tenant token : string) : DTx OutboxRow :=
  stmt_at (λ n _ d,
    match candidate tenant (now n) d with
    | None => (inl ErrNoRows, d)
    | Some (receipt, r) =>
        (inr r, set_outbox (<[(tenant, receipt) := claim_row token (now n + defaultClaimTTL)%Z r]> (d_outbox d)) d)
    end).

Definition Claim (tenantID : string) (s : DState) : (derr + option AckClaim) * DState :=
  let claimToken := new_id (st_clock s) in
  match withTenantTx tenantID (claim_tx tenantID claimToken) s with
  | (inl ErrNoRows, s') => (inr None, s')
  | (inl e, s') => (inl e, s')
  | (inr r, s') =>
      match unmarshal_receipt (ob_body r) with
      | None => (inl (ErrOther "decode delivery receipt"), s')
      | Some receipt => (inr (Some (mkAckClaim receipt claimToken (ob_version r) (ob_fencing r) (ob_hash r))), s')
      end
  end.

Definition ackDisposition (disposition : N) : string :=
  if (disposition =? AckApplied)%N then "APPLIED"
  else if (disposition =? AckAlreadyApplied)%N then "ALREADY_APPLIED"
  else if (disposition =? AckTerminalExpired)%N then "TERMINAL_EXPIRED"
  else "UNKNOWN".

(** WHERE ... claim_token = $3 AND status = 'claimed'. *)
Definition holds_claim (token : string) (r : OutboxRow) : bool :=
  bool_decide (ob_token r = Some token) && bool_decide (ob_status r = ack_claimed).

(** NULLIF($6, '')::uuid with the CHECK of the column: [None] is an error. *)
Definition uuid_column (event : string) : option (option string) :=
  if decide (event = "") then Some None
  else match uuid_cast event with
       | Some u => if bool_decide (String.get 14 u = Some "7"%char) then Some (Some u) else None
       | None => None
       end.

(** An UPDATE of the claimed row: the statement's arguments are checked before
    any row, [f] is [None] when the new row breaks a constraint. *)
Definition update_claimed (tenant receipt token : string) (args_ok : bool) (f : Z → OutboxRow → option OutboxRow) :
    DTx unit :=
  stmt_at (λ n _ d,
    if negb args_ok then (inl ErrDatabase, d)
    else match d_outbox d !! (tenant, receipt) with
    | Some r =>
        if holds_claim token r then
          match f (now n) r with
          | Some r' => (inr (), set_outbox (<[(tenant, receipt) := r']> (d_outbox d)) d)
          | None => (inl ErrDatabase, d)
          end
        else (inl ErrNoRows, d)
    | None => (inl ErrNoRows, d)
    end).

(** SET status = 'completed' ...; the event column has its CHECK. *)
Definition complete_row (result : AckResult) (at_ : Z) (r : OutboxRow) : option OutboxRow :=
  event ← uuid_column (rs_EventID result);
  Some (mkOutboxRow (ob_authorization r) (ob_reservation r) (ob_interaction r) (ob_target r) (ob_version r)
          (ob_fencing r) (ob_body r) (ob_hash r) ack_completed None None (ob_attempts r) (ob_next r)
          (Some (ackDisposition (rs_Disposition result))) (Some (rs_RouteVersion result)) event (ob_error r)
          (Some at_)).

Definition Complete (tenantID receiptID claimToken : string) (result : AckResult) :
    DState → (derr + unit) * DState :=
  withTenantTx tenantID
    (update_claimed tenantID receiptID claimToken (bigint (rs_RouteVersion result)) (complete_row result)).

(** [message[:512]] when it is longer. *)
Definition truncate (message : string) : string :=
  if 512 <? String.length message then String.substring 0 512 message else message.

(** SET status = 'pending', attempts = attempts + 1 ...; attempts is an integer. *)
Definition retry_row (message : string) (at_ : Z) (r : OutboxRow) : option OutboxRow :=
  if (ob_attempts r + 1 <? 2147483648)%Z then
    Some (mkOutboxRow (ob_authorization r) (ob_reservation r) (ob_interaction r) (ob_target r) (ob_version r)
            (ob_fencing r) (ob_body r) (ob_hash r) ack_pending None None (ob_attempts r + 1) at_
            (ob_disposition r) (ob_result_version r) (ob_result_event r) (Some message) (ob_completed r))
  else None.

Definition Retry (tenantID receiptID claimToken : string) (cause : derr) : DState → (derr + unit) * DState :=
  let message := truncate (error_text cause) in
  withTenantTx tenantID
    (update_claimed tenantID receiptID claimToken (text_ok message) (retry_row message)).

#[export] Instance pg_authorizations : AuthorizationStore DState := Append.
#[export] Instance pg_acks : AckStore DState := {
  ak_Claim := Claim;
  ak_Complete := Complete;
  ak_Retry := Retry;
}.
End Store.
