(* ===== verification/DeliveryTheorems.v ===== *)
(** What acceptance and acknowledgement of deliveries guarantee over the
    PostgreSQL store, for any sequence of calls of any number of servers and
    workers, with failing statements and commits: an authorization is accepted
    once, its acknowledgement is the one request it determines, and it is
    completed at most once, by the holder of the claim. *)

From S2P Require Import Prelude Bytes Subjects Uuid PgTx Delivery DeliveryPg.

(** * Laws of the libraries *)

Definition ts_plain (t : option Timestamp) : Prop := match t with Some t => ts_unknown t = "" | None => True end.

(** Messages without unknown fields. *)
Definition authorization_plain (a : DeliveryAuthorization) : Prop :=
  da_unknown a = "" ∧ ts_plain (da_DeliveryDeadline a).
Definition receipt_plain (r : DeliveryReceipt) : Prop :=
  ts_plain (dr_AcceptedAt r) ∧ ts_plain (dr_DeliveryDeadline r).

(** Protobuf encodings of messages without unknown fields can be decoded; an
    encoding is a byte slice, so its length is an int. *)
Class DeliveryLaws `(L : DeliveryLib) := {
  marshal_receipt_roundtrip r b :
    receipt_plain r → marshal_receipt r = Some b → unmarshal_receipt b = Some r;
  marshal_authorization_inj a a' b :
    authorization_plain a → authorization_plain a' →
    marshal_authorization a = Some b → marshal_authorization a' = Some b → a = a';
  marshal_authorization_len a b : marshal_authorization a = Some b → len_ok b;
}.

(** A digest without collisions. *)
Definition collision_free `{DeliveryLib} : Prop := ∀ x y, sha256 x = sha256 y → x = y.

(** * Normal forms *)

Section Normal.
Context `{UuidLaws, DeliveryLaws}.

Lemma normalize_id_canonical v : canonicalUUIDv7 v = true → normalize_id v = v.
Proof. intros (u & Hp & Hs)%canonicalUUIDv7_parse. unfold normalize_id. by rewrite Hp. Qed.

Lemma normalize_plain a : authorization_plain (normalizeAuthorization a).
Proof. split; [done|]. simpl. by destruct (da_DeliveryDeadline a). Qed.

Lemma validate_fields a :
  validateAuthorization (Some a) = None →
  Forall (λ v, canonicalUUIDv7 v = true) (uuid_fields a) ∧ (0 < da_RouteVersion a)%N ∧
  (∃ t, da_DeliveryDeadline a = Some t ∧ ts_IsValid t = true) ∧ traceparentPattern (da_Traceparent a) = true.
Proof.
  unfold validateAuthorization. intros Hv.
  destruct (forallb _ _) eqn:Ef; [|done]. cbn [negb] in Hv.
  destruct (_ =? 0)%N eqn:Ev; [done|]. apply N.eqb_neq in Ev.
  destruct (da_DeliveryDeadline a) as [t|] eqn:Et; [|done].
  destruct (ts_IsValid t) eqn:Evt; [|done]. cbn [negb] in Hv.
  destruct (traceparentPattern _); [|done]. split_and!; [|lia|eauto|done].
  apply Forall_forall. intros v Hin. by eapply forallb_forall in Ef; [|by apply list_elem_of_In].
Qed.

Lemma validate_tenant a :
  validateAuthorization (Some a) = None → canonicalUUIDv7 (da_TenantId a) = true.
Proof. intros [Hf _]%validate_fields. rewrite Forall_forall in Hf. apply Hf. do 2 right. left. Qed.

(** On a valid authorization the normal form only drops unknown fields. *)
Lemma normalize_validated a :
  validateAuthorization (Some a) = None → normalizeAuthorization a = discardUnknown a.
Proof.
  intros (Hf & _)%validate_fields. unfold uuid_fields in Hf. decompose_Forall_hyps.
  unfold normalizeAuthorization. simpl. by rewrite !normalize_id_canonical.
Qed.

Lemma normalize_tenant a :
  validateAuthorization (Some a) = None → da_TenantId (normalizeAuthorization a) = da_TenantId a.
Proof. intros Hv. by rewrite normalize_validated. Qed.

Lemma normalize_auth_id a :
  validateAuthorization (Some a) = None →
  da_DeliveryAuthorizationId (normalizeAuthorization a) = da_DeliveryAuthorizationId a.
Proof. intros Hv. by rewrite normalize_validated. Qed.

(** The hash of a valid authorization determines its normal form. *)
Lemma authorization_hash_binds a a' h b b' :
  collision_free → validateAuthorization (Some a) = None → validateAuthorization (Some a') = None →
  authorizationHashAndBody (normalizeAuthorization a) = inr (h, b) →
  authorizationHashAndBody (normalizeAuthorization a') = inr (h, b') →
  normalizeAuthorization a = normalizeAuthorization a'.
Proof.
  intros Hsha Hv Hv' Ha Ha'. unfold authorizationHashAndBody in *.
  destruct (marshal_authorization (normalizeAuthorization a)) as [body|] eqn:Eb; [|done].
  destruct (marshal_authorization (normalizeAuthorization a')) as [body'|] eqn:Eb'; [|done].
  rewrite normalize_tenant in Ha, Ha' by done.
  assert (sha256 (put_parts [acceptDeliveryMethod; da_TenantId a; body])
          = sha256 (put_parts [acceptDeliveryMethod; da_TenantId a'; body'])) as Hs by congruence. clear Ha Ha'.
  assert (∀ x y, validateAuthorization (Some x) = None → len_ok y →
            Forall len_ok [acceptDeliveryMethod; da_TenantId x; y]) as Hlen.
  { intros x y Hx%validate_tenant%canonicalUUIDv7_length Hy. repeat constructor; [|done]. unfold len_ok. by rewrite Hx. }
  apply Hsha, put_parts_inj in Hs; [|eapply Hlen, marshal_authorization_len; eauto..].
  injection Hs as _ ->. eapply marshal_authorization_inj; eauto using normalize_plain.
Qed.
End Normal.

(** * The invariant of the delivery tables *)

Lemma fresh_insert {K A} `{Countable K} (m : gmap K A) k v k' v' :
  m !! k = None → m !! k' = Some v' → <[k := v]> m !! k' = Some v'.
Proof. intros Hk Hk'. by rewrite lookup_insert_ne by congruence. Qed.
#[local] Hint Resolve fresh_insert : core.

Section Invariant.
Context `{UuidLaws, DeliveryLaws}.

(** An input the service makes of a valid authorization. *)
Definition from_service (input : AppendInput) : Prop :=
  ∃ a, validateAuthorization (Some a) = None ∧ ai_Authorization input = normalizeAuthorization a ∧
    authorizationHashAndBody (normalizeAuthorization a) = inr (ai_RequestHash input, ai_RequestBody input) ∧
    ai_IssuerService input = issuerServiceID.

(** An outbox row that carries the acknowledgement of an accepted authorization;
    a token is there exactly while the row is claimed. *)
Definition outbox_for (input : AppendInput) (result : AppendResult) (o : OutboxRow) : Prop :=
  let a := ai_Authorization input in
  ob_authorization o = da_DeliveryAuthorizationId a ∧ ob_version o = da_RouteVersion a ∧
  ob_fencing o = da_FencingToken a ∧
  marshal_receipt (receiptFromAppend input result) = Some (ob_body o) ∧
  request_Hash (append_request input result) = inr (ob_hash o) ∧
  (ob_status o = ack_claimed ↔ is_Some (ob_token o)).

(** An accepted authorization: its row, its log entry and its outbox row. *)
Definition accepted_as (d : DPg) (t aid : string) (row : AuthorizationRow) (input : AppendInput)
    (result : AppendResult) : Prop :=
  from_service input ∧ da_TenantId (ai_Authorization input) = t ∧
  da_DeliveryAuthorizationId (ai_Authorization input) = aid ∧
  row = authorization_row input result ∧ ai_ReceiptID input = ar_ReceiptID result ∧
  d_log d !! (t, ar_LogSequence result) = Some (log_row input (ar_AcceptedAt result)) ∧
  ∃ o, d_outbox d !! (t, ar_ReceiptID result) = Some o ∧ outbox_for input result o.

Record delivered (d : DPg) : Prop := mkDelivered {
  dv_authorization t aid row :
    d_authorizations d !! (t, aid) = Some row → ∃ input result, accepted_as d t aid row input result;
  dv_log t q lr :
    d_log d !! (t, q) = Some lr → ∃ row, d_authorizations d !! (t, lg_authorization lr) = Some row ∧ az_sequence row = q;
  dv_outbox t rid o :
    d_outbox d !! (t, rid) = Some o →
    ∃ row, d_authorizations d !! (t, ob_authorization o) = Some row ∧ az_receipt row = rid;
}.

(** The columns an update of the outbox keeps. *)
Definition same_payload (o o' : OutboxRow) : Prop :=
  ob_authorization o' = ob_authorization o ∧ ob_version o' = ob_version o ∧ ob_fencing o' = ob_fencing o ∧
  ob_body o' = ob_body o ∧ ob_hash o' = ob_hash o.

(** What any call may do: authorizations stay as they are, outbox rows keep their
    payload, and a completed row is final. *)
Definition grows (d d' : DPg) : Prop :=
  d_authorizations d ⊆ d_authorizations d' ∧ d_log d ⊆ d_log d' ∧
  ∀ k o, d_outbox d !! k = Some o →
    ∃ o', d_outbox d' !! k = Some o' ∧ same_payload o o' ∧ (ob_status o = ack_completed → o' = o).

#[export] Instance grows_preorder : PreOrder grows.
Proof.
  split.
  - intros d. split_and!; [done..|]. intros k o Ho. by exists o.
  - intros d1 d2 d3 (Ha & Hl & Ho) (Ha' & Hl' & Ho').
    split_and!; [by etrans..|]. intros k o Hk.
    apply Ho in Hk as (o2 & Hk & (?&?&?&?&?) & Hc). apply Ho' in Hk as (o3 & Hk & (?&?&?&?&?) & Hc').
    exists o3. split_and!; [done|split_and!; congruence|]. intros Hs. rewrite <-(Hc Hs). apply Hc'. by rewrite (Hc Hs).
Qed.

Lemma delivered_empty : delivered dpg_empty.
Proof. split; simpl; intros *; by rewrite lookup_empty. Qed.

(** Changes of other tables. *)
Lemma delivered_same d d' :
  d_authorizations d' = d_authorizations d → d_log d' = d_log d → d_outbox d' = d_outbox d →
  delivered d → delivered d' ∧ grows d d'.
Proof.
  intros Ha Hl Ho [Hd1 Hd2 Hd3]. split.
  - split; rewrite ?Ha, ?Hl, ?Ho; [|done..].
    intros t aid row Hrow. destruct (Hd1 t aid row Hrow) as (input & result & Hacc). exists input, result.
    unfold accepted_as in *. by rewrite Hl, Ho.
  - split_and!; [by rewrite Ha|by rewrite Hl|]. rewrite Ho. intros k o Hk. exists o. by split_and!.
Qed.

(** The acknowledgement a stored row stands for. *)
Lemma outbox_accepted d t rid o :
  delivered d → d_outbox d !! (t, rid) = Some o →
  ∃ row input result, d_authorizations d !! (t, ob_authorization o) = Some row ∧
    accepted_as d t (ob_authorization o) row input result ∧ rid = ar_ReceiptID result ∧ outbox_for input result o.
Proof.
  intros Hd Ho. destruct (dv_outbox d Hd t rid o Ho) as (row & Hrow & Hr).
  destruct (dv_authorization d Hd t _ row Hrow) as (input & result & Hacc).
  exists row, input, result. pose proof Hacc as (_ & _ & _ & -> & _ & _ & o' & Ho' & Hf).
  simpl in Hr. rewrite Hr in Ho'. rewrite Ho in Ho'. injection Ho' as <-. by split_and!.
Qed.

(** An update of one outbox row. *)
Lemma delivered_update d t rid o o' :
  delivered d → d_outbox d !! (t, rid) = Some o → same_payload o o' →
  (ob_status o' = ack_claimed ↔ is_Some (ob_token o')) →
  delivered (set_outbox (<[(t, rid) := o']> (d_outbox d)) d).
Proof.
  intros Hd Ho (Hsa & Hsv & Hsf & Hsb & Hsh) Hst. split; simpl.
  - intros t' aid row Hrow. destruct (dv_authorization d Hd t' aid row Hrow)
      as (input & result & Hs & Ht & Haid & Hr & Hid & Hlog & o0 & Ho0 & Hf).
    exists input, result. unfold accepted_as. split_and!; [done..|].
    destruct (decide ((t, rid) = (t', ar_ReceiptID result))) as [[= <- ->]|Hne].
    + exists o'. simpl. rewrite lookup_insert_eq. split; [done|]. rewrite Ho in Ho0. injection Ho0 as <-.
      destruct Hf as (?&?&?&?&?&?). unfold outbox_for. rewrite Hsa, Hsv, Hsf, Hsb, Hsh. by split_and!.
    + exists o0. simpl. by rewrite lookup_insert_ne.
  - apply (dv_log d Hd).
  - intros t' rid' o1. rewrite lookup_insert_Some. intros [[[= <- <-] <-]|[_ Ho1]].
    + rewrite Hsa. by apply (dv_outbox d Hd).
    + by apply (dv_outbox d Hd).
Qed.

Lemma grows_update d t rid o o' :
  d_outbox d !! (t, rid) = Some o → same_payload o o' → ob_status o ≠ ack_completed →
  grows d (set_outbox (<[(t, rid) := o']> (d_outbox d)) d).
Proof.
  intros Ho Hs Hst. split_and!; [done..|]. intros k o1 Hk. simpl.
  destruct (decide ((t, rid) = k)) as [<-|Hne].
  - rewrite Ho in Hk. injection Hk as <-. exists o'. rewrite lookup_insert_eq. by split_and!.
  - exists o1. rewrite lookup_insert_ne by done. by split_and!.
Qed.

(** A new authorization with its three rows. *)
Definition add_delivery (input : AppendInput) (result : AppendResult) (o : OutboxRow) (d : DPg) : DPg :=
  let t := da_TenantId (ai_Authorization input) in
  set_outbox (<[(t, ar_ReceiptID result) := o]> (d_outbox d))
    (set_authorizations (<[(t, da_DeliveryAuthorizationId (ai_Authorization input)) := authorization_row input result]>
                           (d_authorizations d))
      (set_log (<[(t, ar_LogSequence result) := log_row input (ar_AcceptedAt result)]> (d_log d)) d)).

Lemma delivered_add d input result o :
  let t := da_TenantId (ai_Authorization input) in
  delivered d → from_service input → ai_ReceiptID input = ar_ReceiptID result → outbox_for input result o →
  d_authorizations d !! (t, da_DeliveryAuthorizationId (ai_Authorization input)) = None →
  d_log d !! (t, ar_LogSequence result) = None → d_outbox d !! (t, ar_ReceiptID result) = None →
  delivered (add_delivery input result o d).
Proof.
  intros t Hd Hs Hid Hf Ha Hl Ho. split; simpl.
  - intros t' aid row. rewrite lookup_insert_Some. intros [[[= <- <-] <-]|[_ Hrow]].
    + exists input, result. unfold accepted_as, add_delivery. simpl. rewrite !lookup_insert_eq.
      split_and!; eauto.
    + destruct (dv_authorization d Hd t' aid row Hrow)
        as (input' & result' & Hs' & Ht & Haid & Hr & Hid' & Hlog & o0 & Ho0 & Hf').
      exists input', result'. unfold accepted_as, add_delivery. simpl. split_and!; eauto 10.
  - intros t' q lr. rewrite lookup_insert_Some. intros [[[= <- <-] <-]|[_ Hlr]].
    + exists (authorization_row input result). simpl. by rewrite lookup_insert_eq.
    + destruct (dv_log d Hd t' q lr Hlr) as (row & Hrow & Hq). eauto.
  - intros t' rid o1. rewrite lookup_insert_Some. intros [[[= <- <-] <-]|[_ Ho1]].
    + exists (authorization_row input result). destruct Hf as [-> _]. by rewrite lookup_insert_eq.
    + destruct (dv_outbox d Hd t' rid o1 Ho1) as (row & Hrow & Hr). eauto.
Qed.

Lemma grows_add d input result o :
  let t := da_TenantId (ai_Authorization input) in
  d_authorizations d !! (t, da_DeliveryAuthorizationId (ai_Authorization input)) = None →
  d_log d !! (t, ar_LogSequence result) = None → d_outbox d !! (t, ar_ReceiptID result) = None →
  grows d (add_delivery input result o d).
Proof.
  intros t Ha Hl Ho. split_and!; simpl; [by apply insert_subseteq..|].
  intros k o1 Hk. exists o1. split_and!; eauto. by split_and!.
Qed.
End Invariant.

(** * The order of claims *)

Lemma earlier_total x y : earlier x y = true ∨ earlier y x = true.
Proof.
  unfold earlier. destruct (Z.lt_total (ob_next x.2) (ob_next y.2)) as [?|[?|?]].
  - left. by rewrite (proj2 (Z.ltb_lt _ _)).
  - rewrite !(proj2 (Z.eqb_eq _ _)) by done. rewrite !orb_true_iff.
    destruct (String.leb_total x.1 y.1) as [->| ->]; auto.
  - right. by rewrite (proj2 (Z.ltb_lt _ _)).
Qed.

Lemma earlier_trans x y z : earlier x y = true → earlier y z = true → earlier x z = true.
Proof.
  unfold earlier. rewrite !orb_true_iff, !andb_true_iff, !Z.ltb_lt, !Z.eqb_eq.
  intros [?|[? Hs]] [?|[? Hs']]; try (left; lia). right. split; [lia|].
  apply Is_true_true in Hs, Hs'. apply Is_true_true. by transitivity y.1.
Qed.

Lemma first_row_spec l :
  match first_row l with
  | None => l = []
  | Some x => x ∈ l ∧ ∀ y, y ∈ l → earlier x y = true
  end.
Proof.
  induction l as [|x l IH]; [done|]. simpl. destruct (first_row l) as [y|].
  - destruct IH as [Hy Hmin]. destruct (earlier x y) eqn:E.
    + split; [set_solver|]. intros z [->|Hz]%elem_of_cons.
      * by destruct (earlier_total x x).
      * eapply earlier_trans; eauto.
    + split; [set_solver|]. intros z [->|Hz]%elem_of_cons; [|by apply Hmin].
      destruct (earlier_total x y); congruence.
  - subst l. split; [set_solver|]. intros y Hy. apply list_elem_of_singleton in Hy as ->. by destruct (earlier_total x x).
Qed.

Lemma elem_of_due_rows tenant at_ d rid o :
  (rid, o) ∈ due_rows tenant at_ d ↔ d_outbox d !! (tenant, rid) = Some o ∧ ack_due at_ o = true.
Proof.
  unfold due_rows. rewrite list_elem_of_omap. split.
  - intros ([[t r] o'] & Hin & He). simpl in He. apply elem_of_map_to_list in Hin.
    destruct (bool_decide (t = tenant)) eqn:Et; [|done]. apply bool_decide_eq_true in Et as ->.
    destruct (ack_due at_ o') eqn:Ed; [|done]. by injection He as -> ->.
  - intros [Ho Hd]. exists ((tenant, rid), o). rewrite elem_of_map_to_list. split; [done|]. simpl.
    by rewrite bool_decide_eq_true_2, Hd.
Qed.

(** The candidate is due and no due row of the tenant precedes it. *)
Lemma candidate_spec tenant at_ d :
  match candidate tenant at_ d with
  | None => ∀ rid o, d_outbox d !! (tenant, rid) = Some o → ack_due at_ o = false
  | Some (rid, o) =>
      d_outbox d !! (tenant, rid) = Some o ∧ ack_due at_ o = true ∧
      ∀ rid' o', d_outbox d !! (tenant, rid') = Some o' → ack_due at_ o' = true → earlier (rid, o) (rid', o') = true
  end.
Proof.
  unfold candidate. pose proof (first_row_spec (due_rows tenant at_ d)) as Hf.
  destruct (first_row _) as [[rid o]|].
  - destruct Hf as [[Ho Hd]%elem_of_due_rows Hmin]. split_and!; [done..|].
    intros rid' o' Ho' Hd'. apply Hmin. by apply elem_of_due_rows.
  - intros rid o Ho. destruct (ack_due at_ o) eqn:Ed; [|done].
    assert ((rid, o) ∈ due_rows tenant at_ d) as Hin by (by apply elem_of_due_rows). rewrite Hf in Hin. set_solver.
Qed.

(** * Operations of the store *)

Section Operations.
Context `{UuidLaws, DeliveryLaws}.
Context (faults : nat → fault) (now : nat → Z) (nextval : nat → N) (new_id : nat → string)
        (uuid_cast : string → option string).

#[local] Abbreviation Append := (DeliveryPg.Append faults now nextval).
#[local] Abbreviation Claim := (DeliveryPg.Claim faults now new_id).
#[local] Abbreviation Complete := (DeliveryPg.Complete faults now uuid_cast).
#[local] Abbreviation Retry := (DeliveryPg.Retry faults now).

Definition row_result (row : AuthorizationRow) : AppendResult :=
  mkAppendResult (az_receipt row) (az_accepted row) (az_sequence row).

(** What a successful append leaves: the row of the authorization is there, with
    the request's hash; the row was there before and nothing changed, or all three
    rows are new. *)
Definition appended (input : AppendInput) (d : DPg) (result : AppendResult) (d' : DPg) : Prop :=
  let k := (da_TenantId (ai_Authorization input), da_DeliveryAuthorizationId (ai_Authorization input)) in
  ∃ row, d_authorizations d' !! k = Some row ∧ az_hash row = ai_RequestHash input ∧ result = row_result row ∧
    match d_authorizations d !! k with
    | Some row0 => row0 = row ∧ d' = d
    | None => ∃ o, row = authorization_row input result ∧ d_outbox d !! (k.1, ar_ReceiptID result) = None ∧
                d' = add_delivery input result o d
    end.

Lemma append_tx_ok input d :
  delivered d → from_service input →
  tx_ok (da_TenantId (ai_Authorization input)) (append_tx faults now nextval input) d
    (λ result d', appended input d result d' ∧ delivered d' ∧ grows d d').
Proof.
  intros Hd Hs. unfold append_tx. tx_step. tx_step. tx_step. tx_step.
  destruct (d_authorizations d !! _) as [row|] eqn:Erow.
  - case_decide as Hh; [apply tx_ok_fail|]. apply tx_ok_ret.
    split_and!; [|done|done]. exists row. rewrite Erow. by split_and!.
  - tx_step. apply tx_ok_stmt_at. intros n.
    cbv beta zeta.
    match goal with |- context [if ?b then _ else _] => destruct b eqn:Elog end; [|done].
    apply andb_prop in Elog as [[_ Hseq%bool_decide_eq_true]%andb_prop _].
    destruct (marshal_receipt _) as [body|] eqn:Ebody; [|apply tx_ok_fail].
    destruct (request_Hash _) as [e|hash] eqn:Ehash; [apply tx_ok_fail|].
    tx_step. apply tx_ok_write. intros _ Hauth. tx_step. apply tx_ok_stmt_at. intros m. simpl.
    cbv beta zeta.
    match goal with |- context [if ?b then _ else _] => destruct b eqn:Eout end; [|done]. apply andb_prop in Eout as [_ Hfresh%bool_decide_eq_true].
    apply tx_ok_ret. set (result := mkAppendResult (ai_ReceiptID input) (now n) (nextval n)) in *.
    assert (outbox_for input result (outbox_row input body hash (now m))) as Hf.
    { unfold outbox_for. simpl. split_and!; try done; by intros []. }
    change (appended input d result (add_delivery input result (outbox_row input body hash (now m)) d)
            ∧ delivered (add_delivery input result (outbox_row input body hash (now m)) d)
            ∧ grows d (add_delivery input result (outbox_row input body hash (now m)) d)).
    split_and!; [|by apply delivered_add|by apply grows_add].
    exists (authorization_row input result). rewrite Erow. simpl. rewrite lookup_insert_eq. split_and!; try done.
    exists (outbox_row input body hash (now m)). by split_and!.
Qed.

Lemma Append_cases input s r s' :
  delivered (st_db s) → from_service input → Append input s = (r, s') →
  (delivered (st_db s') ∧ grows (st_db s) (st_db s')) ∧
  ((∃ e, r = inl e ∧ st_db s' = st_db s) ∨
   ∃ result, appended input (st_db s) result (st_db s') ∧ (r = inr result ∨ ∃ e, r = inl e)).
Proof.
  intros Hd Hs Hr. eapply run_tx_ok in Hr; [|by apply append_tx_ok].
  destruct Hr as [(e & -> & ->)|(result & (Ha & Hd' & Hg) & Hr)].
  - split; [done|]. left. eauto.
  - split; [done|]. right. eauto.
Qed.

(** ** Claims *)

Definition claimed_db (tenant rid token : string) (at_ : Z) (o : OutboxRow) (d : DPg) : DPg :=
  set_outbox (<[(tenant, rid) := claim_row token (at_ + defaultClaimTTL)%Z o]> (d_outbox d)) d.

Definition claim_of (receipt : DeliveryReceipt) (token : string) (o : OutboxRow) : AckClaim :=
  mkAckClaim receipt token (ob_version o) (ob_fencing o) (ob_hash o).

Lemma Claim_cases tenant s x s' :
  Claim tenant s = (x, s') →
  let at_ := now (S (S (st_clock s))) in
  match x with
  | inr None => st_db s' = st_db s ∧ candidate tenant at_ (st_db s) = None
  | inr (Some c) => ∃ rid o receipt, candidate tenant at_ (st_db s) = Some (rid, o) ∧
      unmarshal_receipt (ob_body o) = Some receipt ∧ c = claim_of receipt (new_id (st_clock s)) o ∧
      st_db s' = claimed_db tenant rid (new_id (st_clock s)) at_ o (st_db s)
  | inl e => st_db s' = st_db s ∨ ∃ rid o, candidate tenant at_ (st_db s) = Some (rid, o) ∧
      st_db s' = claimed_db tenant rid (new_id (st_clock s)) at_ o (st_db s)
  end.
Proof.
  intros Hx at_. unfold DeliveryPg.Claim, withTenantTx, claim_tx in Hx.
  destruct (run_tx faults tenant _ s) as [r s1] eqn:Er. apply run_stmt_cases in Er. cbv beta in Er. fold at_ in Er.
  destruct Er as [[Hdb ->]|Er]; [simpl in Hx; injection Hx as <- <-; auto|].
  destruct (candidate tenant at_ (st_db s)) as [[rid o]|] eqn:Ec.
  - destruct Er as [Hdb [->| ->]].
    + destruct (unmarshal_receipt _) as [receipt|] eqn:Eu; injection Hx as <- <-; [|by right; eauto].
      by exists rid, o, receipt.
    + injection Hx as <- <-. right. eauto.
  - destruct Er as [-> Hdb]. by injection Hx as <- <-.
Qed.

(** ** Completion and retry *)

Lemma update_claimed_cases tenant rid token args_ok f s r s' :
  run_tx faults tenant (update_claimed faults now tenant rid token args_ok f) s = (r, s') →
  (st_db s' = st_db s ∧ ∃ e, r = inl e) ∨
  ∃ o o', d_outbox (st_db s) !! (tenant, rid) = Some o ∧ holds_claim token o = true ∧
    f (now (S (S (st_clock s)))) o = Some o' ∧
    st_db s' = set_outbox (<[(tenant, rid) := o']> (d_outbox (st_db s))) (st_db s) ∧
    (r = inr tt ∨ r = inl ErrDatabase).
Proof.
  intros Hr. apply run_stmt_cases in Hr. destruct Hr as [[? ->]|Hr]; [by left; eauto|].
  destruct (negb args_ok); [destruct Hr as [-> ?]; by left; eauto|].
  destruct (d_outbox (st_db s) !! _) as [o|] eqn:Eo; [|destruct Hr as [-> ?]; by left; eauto].
  destruct (holds_claim token o) eqn:Eh; [|destruct Hr as [-> ?]; by left; eauto].
  destruct (f _ o) as [o'|] eqn:Ef; [|destruct Hr as [-> ?]; by left; eauto].
  destruct Hr as [Hdb Hr]. right. exists o, o'. by split_and!.
Qed.

Lemma complete_row_spec result at_ o o' :
  complete_row uuid_cast result at_ o = Some o' →
  same_payload o o' ∧ ob_status o' = ack_completed ∧ ob_token o' = None ∧
  ob_disposition o' = Some (ackDisposition (rs_Disposition result)).
Proof.
  unfold complete_row. destruct (uuid_column _ _) as [ev|]; [|done]. simpl. intros [= <-]. done.
Qed.

Lemma retry_row_spec message at_ o o' :
  retry_row message at_ o = Some o' →
  same_payload o o' ∧ ob_status o' = ack_pending ∧ ob_token o' = None ∧ ob_next o' = at_.
Proof. unfold retry_row. case_match; [|done]. by intros [= <-]. Qed.

Lemma holds_claim_spec token o : holds_claim token o = true → ob_token o = Some token ∧ ob_status o = ack_claimed.
Proof. unfold holds_claim. by intros [?%bool_decide_eq_true ?%bool_decide_eq_true]%andb_prop. Qed.

(** An update that takes a held claim from its row. *)
Lemma release_ok d tenant rid token o o' :
  delivered d → d_outbox d !! (tenant, rid) = Some o → holds_claim token o = true →
  same_payload o o' → ob_status o' ≠ ack_claimed → ob_token o' = None →
  delivered (set_outbox (<[(tenant, rid) := o']> (d_outbox d)) d) ∧
  grows d (set_outbox (<[(tenant, rid) := o']> (d_outbox d)) d).
Proof.
  intros Hd Ho [_ Hst]%holds_claim_spec Hp Hns Hnt. split.
  - eapply delivered_update; [done..|]. rewrite Hnt. split; [done|by intros []].
  - eapply grows_update; [done..|]. by rewrite Hst.
Qed.

Lemma claim_ok d tenant rid token at_ o :
  delivered d → candidate tenant at_ d = Some (rid, o) →
  delivered (claimed_db tenant rid token at_ o d) ∧ grows d (claimed_db tenant rid token at_ o d).
Proof.
  intros Hd Hc. pose proof (candidate_spec tenant at_ d) as Hs. rewrite Hc in Hs. destruct Hs as (Ho & Hdue & _).
  split; [eapply delivered_update|eapply grows_update]; try done.
  intros Hst. unfold ack_due in Hdue. rewrite Hst, andb_false_r in Hdue. done.
Qed.
End Operations.
