(* ===== verification/DeliveryCorrect.v ===== *)
(** Guarantees of delivery over the PostgreSQL store, for every history of calls
    of any number of servers and workers. A history interleaves the calls of the
    service and of the stores in any order and with any arguments, so it contains
    every interleaving of workers, crashed ones included; the transactions of the
    route projection on its own tables may come in between. *)

From S2P Require Import Prelude Bytes Subjects Uuid PgTx Delivery DeliveryPg DeliveryTheorems.

Section History.
Context `{UuidLaws, DeliveryLaws}.
Context (faults : nat → fault) (now : nat → Z) (nextval : nat → N) (new_id : nat → string)
        (uuid_cast : string → option string).

#[local] Instance accept_store : AuthorizationStore DState := pg_authorizations faults now nextval.
#[local] Instance ack_store : AckStore DState := pg_acks faults now new_id uuid_cast.

(** One call on the database. *)
Inductive dstep : DState → DState → Prop :=
| step_accept p a id s r s' : AcceptDelivery p a id s = (r, s') → dstep s s'
| step_claim t s r s' : ak_Claim t s = (r, s') → dstep s s'
| step_complete t rid token result s r s' : ak_Complete t rid token result s = (r, s') → dstep s s'
| step_retry t rid token cause s r s' : ak_Retry t rid token cause s = (r, s') → dstep s s'
| step_route s s' :
    d_authorizations (st_db s') = d_authorizations (st_db s) → d_log (st_db s') = d_log (st_db s) →
    d_outbox (st_db s') = d_outbox (st_db s) → st_clock s ≤ st_clock s' → dstep s s'.

(** Databases that calls can lead to, from empty tables. *)
Definition reachable (s : DState) : Prop := rtc dstep (mkDbState dpg_empty 0) s.

(** A database that answers from now on. *)
Definition healthy (s : DState) : Prop := ∀ n, st_clock s ≤ n → faults n = NoFault.

(** * Acceptance *)

(** Who may deliver for whom. *)
Definition permitted (p : Principal) (a : DeliveryAuthorization) : Prop :=
  pr_ServiceID p = "corex" ∧ hasCapability (pr_Capabilities p) CapabilityDeliveryWrite = true ∧
  pr_TenantID p ≠ "" ∧ pr_TenantID p = da_TenantId a.

(** The receipt of an authorization and of what the store answered for it. *)
Definition receipt_of (a : DeliveryAuthorization) (result : AppendResult) : DeliveryReceipt :=
  receiptFromAppend (mkAppendInput (normalizeAuthorization a) (ar_ReceiptID result) issuerServiceID "" "") result.

Definition answer_of (a : DeliveryAuthorization) (r : derr + AppendResult) : derr + DeliveryReceipt :=
  match r with inl e => inl e | inr result => inr (receipt_of a result) end.

Lemma accept_cases p a id s r s' :
  AcceptDelivery p a id s = (r, s') →
  (s' = s ∧ ∃ e, r = inl e) ∨
  ∃ a0 h b r0, a = Some a0 ∧ permitted p a0 ∧ validateAuthorization (Some a0) = None ∧
    authorizationHashAndBody (normalizeAuthorization a0) = inr (h, b) ∧
    Append faults now nextval (mkAppendInput (normalizeAuthorization a0) id issuerServiceID h b) s = (r0, s') ∧
    r = answer_of a0 r0.
Proof.
  unfold AcceptDelivery. intros Hr.
  case_decide as Hsv; [simplify_eq; eauto|].
  destruct (hasCapability _ _) eqn:Hcap; cbn [negb] in Hr; [|simplify_eq; eauto].
  destruct a as [a|]; [|simplify_eq; eauto].
  case_decide as Ht; [simplify_eq; eauto|].
  destruct (validateAuthorization (Some a)) as [e|] eqn:Hv; [simplify_eq; eauto|].
  destruct (authorizationHashAndBody _) as [e|[h b]] eqn:Hh; [simplify_eq; eauto|].
  destruct (requireUUIDv7 id) as [e|]; [simplify_eq; eauto|].
  destruct (as_Append _ s) as [r0 s1] eqn:Ha.
  right. exists a, h, b, r0. apply Decidable.not_or in Ht as [Hne Heq%dec_stable].
  split_and!; [done|by split_and!|done..| |].
  - destruct r0; simplify_eq; exact Ha.
  - destruct r0; by simplify_eq.
Qed.

(** The call on an authorization that passes the checks. *)
Lemma accept_permitted p a id s h b :
  permitted p a → validateAuthorization (Some a) = None → canonicalUUIDv7 id = true →
  authorizationHashAndBody (normalizeAuthorization a) = inr (h, b) →
  AcceptDelivery p (Some a) id s =
    match Append faults now nextval (mkAppendInput (normalizeAuthorization a) id issuerServiceID h b) s with
    | (inl e, s') => (inl e, s')
    | (inr result, s') => (inr (receipt_of a result), s')
    end.
Proof.
  intros (Hs & Hc & Hne & Ht) Hv Hid Hh. unfold AcceptDelivery.
  rewrite decide_False by (by intros []). rewrite Hc. cbn [negb].
  rewrite decide_False by (intros [?|Hn]; [done|by destruct Hn]).
  rewrite Hv, Hh. unfold requireUUIDv7. by rewrite Hid.
Qed.

Lemma service_input a id h b :
  validateAuthorization (Some a) = None → authorizationHashAndBody (normalizeAuthorization a) = inr (h, b) →
  from_service (mkAppendInput (normalizeAuthorization a) id issuerServiceID h b).
Proof. intros Hv Hh. by exists a. Qed.

(** * Histories keep the invariant *)

Lemma dstep_ok s s' :
  dstep s s' → delivered (st_db s) → delivered (st_db s') ∧ grows (st_db s) (st_db s').
Proof.
  intros Hst Hd. destruct Hst as [p a id s r s' Hr|t s r s' Hr|t rid token result s r s' Hr
                                 |t rid token cause s r s' Hr|s s' Ha Hl Ho _].
  - apply accept_cases in Hr as [[-> _]|(a0 & h & b & r0 & _ & _ & Hv & Hh & Hap & _)]; [done|].
    by apply Append_cases in Hap as [? _]; [|done|by apply service_input].
  - apply Claim_cases in Hr. destruct r as [e|[c|]].
    + destruct Hr as [-> |(rid & o & Hc & ->)]; [done|]. by apply claim_ok.
    + destruct Hr as (rid & o & receipt & Hc & _ & _ & ->). by apply claim_ok.
    + by destruct Hr as [-> _].
  - apply update_claimed_cases in Hr as [[-> _]|(o & o' & Ho & Hh & Hf & -> & _)]; [done|].
    apply complete_row_spec in Hf as (Hp & Hs & Ht & _). eapply release_ok; eauto. by rewrite Hs.
  - apply update_claimed_cases in Hr as [[-> _]|(o & o' & Ho & Hh & Hf & -> & _)]; [done|].
    apply retry_row_spec in Hf as (Hp & Hs & Ht & _). eapply release_ok; eauto. by rewrite Hs.
  - by apply delivered_same.
Qed.

Lemma history_ok s s' :
  rtc dstep s s' → delivered (st_db s) → delivered (st_db s') ∧ grows (st_db s) (st_db s').
Proof.
  induction 1 as [s|s s1 s2 Hst _ IH]; [done|]. intros Hd.
  apply dstep_ok in Hst as [Hd1 Hg1]; [|done]. destruct (IH Hd1) as [? ?]. split; [done|]. by etrans.
Qed.

Lemma reachable_delivered s : reachable s → delivered (st_db s).
Proof. intros Hr. apply history_ok in Hr as [? _]; [done|]. apply delivered_empty. Qed.

Lemma reachable_start : reachable (mkDbState dpg_empty 0).
Proof. apply rtc_refl. Qed.

Lemma reachable_accept p a id s : reachable s → reachable (AcceptDelivery p a id s).2.
Proof. intros Hs. eapply rtc_r; [exact Hs|]. eapply step_accept, surjective_pairing. Qed.

Lemma reachable_claim t s : reachable s → reachable (ak_Claim t s).2.
Proof. intros Hs. eapply rtc_r; [exact Hs|]. eapply step_claim, surjective_pairing. Qed.

(** ** An authorization is accepted once *)

(** The answer to an authorization that is stored. *)
Definition stored_answer (row : AuthorizationRow) (hash : string) : derr + AppendResult :=
  if decide (az_hash row = hash) then inr (row_result row) else inl ErrIdempotencyConflict.

Lemma Append_existing input row s r s' :
  d_authorizations (st_db s) !! (da_TenantId (ai_Authorization input), da_DeliveryAuthorizationId (ai_Authorization input))
    = Some row →
  Append faults now nextval input s = (r, s') →
  st_db s' = st_db s ∧ (r = stored_answer row (ai_RequestHash input) ∨ r = inl ErrDatabase) ∧
  (healthy s → r = stored_answer row (ai_RequestHash input)).
Proof.
  intros Hrow. unfold Append, withTenantTx, run_tx, append_tx, tx_bind, query, stmt, stmt_at, healthy, stored_answer.
  assert (∀ n, st_clock s ≤ st_clock s + n) as Hle by lia. intros Hr.
  destruct (faults (st_clock s)) eqn:F0; cbn [fst snd] in Hr;
    [|injection Hr as <- <-; split_and!; auto; intros Hh; by rewrite Hh in F0 by lia..].
  destruct (faults (S (st_clock s))) eqn:F1; cbn [fst snd] in Hr;
    [|injection Hr as <- <-; split_and!; auto; intros Hh; by rewrite Hh in F1 by lia..].
  destruct (faults (S (S (st_clock s)))) eqn:F2; cbn [fst snd] in Hr;
    [|injection Hr as <- <-; split_and!; auto; intros Hh; by rewrite Hh in F2 by lia..].
  destruct (faults (S (S (S (st_clock s))))) eqn:F3; cbn [fst snd] in Hr;
    [|injection Hr as <- <-; split_and!; auto; intros Hh; by rewrite Hh in F3 by lia..].
  rewrite Hrow in Hr. destruct (decide (az_hash row ≠ _)) as [Hne|He]; cbn [tx_fail tx_ret] in Hr.
  - injection Hr as <- <-. rewrite decide_False by done. auto.
  - apply dec_stable in He. rewrite decide_True by done.
    destruct (faults (S (S (S (S (st_clock s)))))) eqn:F4; injection Hr as <- <-; split_and!; auto;
      intros Hh; by rewrite Hh in F4 by lia.
Qed.

(** What an acceptance leaves. *)
Lemma accept_row p a id s receipt s' :
  delivered (st_db s) → AcceptDelivery p (Some a) id s = (inr receipt, s') →
  ∃ h b row, authorizationHashAndBody (normalizeAuthorization a) = inr (h, b) ∧
    validateAuthorization (Some a) = None ∧ az_hash row = h ∧ receipt = receipt_of a (row_result row) ∧
    d_authorizations (st_db s') !! (da_TenantId a, da_DeliveryAuthorizationId a) = Some row.
Proof.
  intros Hd Hr. apply accept_cases in Hr as [[_ [e [=]]]|(a0 & h & b & r0 & [= <-] & _ & Hv & Hh & Hap & Hr)].
  destruct r0 as [e|result]; [done|]. injection Hr as ->.
  apply Append_cases in Hap as [_ [(e & [=] & _)|(res & Happ & [[= <-]|(e & [=])])]];
    [|done|by apply service_input].
  destruct Happ as (row & Hrow & Hhash & -> & _). cbn [ai_Authorization ai_RequestHash] in Hrow, Hhash.
  rewrite normalize_tenant, normalize_auth_id in Hrow by done. by exists h, b, row.
Qed.

(** C10: An authorization is accepted once. After it was accepted, and whatever
    calls came in between, offering its id again changes nothing: the same content
    (unknown fields aside) gets the same receipt, another content the idempotency
    conflict; only a failing database can answer otherwise. *)
Theorem acceptance_idempotent p a id s receipt s1 s2 p' a' id' r s3 :
  collision_free → reachable s →
  AcceptDelivery p (Some a) id s = (inr receipt, s1) → rtc dstep s1 s2 →
  permitted p' a' → validateAuthorization (Some a') = None → canonicalUUIDv7 id' = true →
  is_Some (marshal_authorization (normalizeAuthorization a')) →
  da_DeliveryAuthorizationId a' = da_DeliveryAuthorizationId a → da_TenantId a' = da_TenantId a →
  AcceptDelivery p' (Some a') id' s2 = (r, s3) →
  let answer := if decide (discardUnknown a' = discardUnknown a) then inr receipt else inl ErrIdempotencyConflict in
  st_db s3 = st_db s2 ∧ (r = answer ∨ r = inl ErrDatabase) ∧ (healthy s2 → r = answer).
Proof.
  intros Hsha Hs Hacc Hhist Hp Hv' Hid [b' Hb'] Haid Ht Hr.
  pose proof (reachable_delivered s Hs) as Hd.
  destruct (accept_row _ _ _ _ _ _ Hd Hacc) as (h & b & row & Hh & Hv & Hhash & -> & Hrow).
  assert (delivered (st_db s1)) as Hd1 by (apply (dstep_ok s); [by econstructor|done]).
  apply (history_ok _ _ Hhist) in Hd1 as [_ (Hsub & _)].
  eapply lookup_weaken in Hrow; [|exact Hsub].
  assert (authorizationHashAndBody (normalizeAuthorization a') =
            inr (sha256 (put_parts [acceptDeliveryMethod; da_TenantId (normalizeAuthorization a'); b']), b')) as Hh'
    by (unfold authorizationHashAndBody; by rewrite Hb').
  set (h' := sha256 _) in Hh'. clearbody h'.
  rewrite (accept_permitted _ _ _ _ _ _ Hp Hv' Hid Hh') in Hr.
  destruct (Append _ _ _ _ s2) as [r0 s4] eqn:Hap.
  apply (Append_existing _ row) in Hap;
    [|cbn [ai_Authorization]; by rewrite normalize_tenant, normalize_auth_id, Haid, Ht].
  cbn [ai_RequestHash] in Hap. destruct Hap as (Hdb & Hr0 & Hok).
  assert (answer_of a' (stored_answer row h') =
            if decide (discardUnknown a' = discardUnknown a) then inr (receipt_of a (row_result row))
            else inl ErrIdempotencyConflict) as Hans.
  { rewrite <-(normalize_validated a), <-(normalize_validated a') by done. unfold stored_answer.
    case_decide as E; rewrite Hhash in E.
    - subst h'. assert (normalizeAuthorization a' = normalizeAuthorization a) as En
        by (by eapply authorization_hash_binds).
      rewrite decide_True by done. simpl. unfold receipt_of. by rewrite En.
    - rewrite decide_False; [done|]. intros En. apply E. rewrite En, Hh in Hh'. congruence. }
  assert (r = answer_of a' r0 ∧ s3 = s4) as [-> ->] by (destruct r0; by injection Hr as <- <-).
  rewrite <-Hans. split_and!; [done| |by intros Hhl; rewrite Hok].
  destruct Hr0 as [-> | ->]; auto.
Qed.

(** * Acknowledgement *)

(** The receipt and the acknowledgement request that an accepted authorization and
    its row determine. *)
Definition row_receipt (a : DeliveryAuthorization) (row : AuthorizationRow) : DeliveryReceipt :=
  mkReceipt (az_receipt row) (da_DeliveryAuthorizationId a) (da_EventId a) (da_TenantId a) (da_ReservationId a)
    (da_InteractionId a) (da_TargetSubscriberId a) (Some (ts_of_micros (az_accepted row))) (da_DeliveryDeadline a)
    (az_sequence row) issuerServiceID PENDING_NOT_VISIBLE.

Definition row_request (a : DeliveryAuthorization) (row : AuthorizationRow) : AcknowledgeRequest :=
  mkAckRequest (az_receipt row) (da_TenantId a) (da_ReservationId a) (da_InteractionId a) (da_RouteVersion a)
    (da_FencingToken a) (row_receipt a row).

(** [row] is the stored form of authorization [a]: its body is [a] to the last bit,
    the columns its fields, the deadline in microseconds. *)
Definition stored_as (a : DeliveryAuthorization) (row : AuthorizationRow) : Prop :=
  marshal_authorization a = Some (az_body row) ∧
  (az_event row, az_reservation row, az_interaction row, az_target row, az_fencing row, az_version row, az_traceparent row) =
  (da_EventId a, da_ReservationId a, da_InteractionId a, da_TargetSubscriberId a, da_FencingToken a, da_RouteVersion a,
   da_Traceparent a) ∧
  az_deadline row = ts_micros (da_DeliveryDeadline a).

Lemma accepted_stored input result :
  from_service input → stored_as (ai_Authorization input) (authorization_row input result).
Proof.
  intros (a & _ & Ha & Hh & _). split; [|done]. rewrite Ha. simpl. unfold authorizationHashAndBody in Hh.
  destruct (marshal_authorization _); [|done]. by injection Hh as _ <-.
Qed.

(** What is claimed is the acknowledgement of an accepted authorization, and its
    hash is the stored one. *)
Lemma claimed_request t s c s' :
  delivered (st_db s) → ak_Claim t s = (inr (Some c), s') →
  ∃ o row a, candidate t (now (S (S (st_clock s)))) (st_db s) = Some (dr_ReceiptId (cl_Receipt c), o) ∧
    st_db s' = claimed_db t (dr_ReceiptId (cl_Receipt c)) (new_id (st_clock s)) (now (S (S (st_clock s)))) o (st_db s) ∧
    cl_ClaimToken c = new_id (st_clock s) ∧
    d_authorizations (st_db s) !! (t, ob_authorization o) = Some row ∧
    (da_TenantId a, da_DeliveryAuthorizationId a) = (t, ob_authorization o) ∧ stored_as a row ∧
    claim_request c = row_request a row ∧
    request_Hash (claim_request c) = inr (cl_RequestHash c).
Proof.
  intros Hd Hc. apply Claim_cases in Hc as (rid & o & receipt & Hcand & Hu & -> & Hdb).
  pose proof (candidate_spec t (now (S (S (st_clock s)))) (st_db s)) as Ho. rewrite Hcand in Ho. destruct Ho as (Ho & _ & _).
  destruct (outbox_accepted _ _ _ _ Hd Ho) as (row & input & result & Hrow & Hacc & -> & Hf).
  destruct Hf as (_ & Hver & Hfen & Hm & Hh & _).
  assert (receipt = receiptFromAppend input result) as ->.
  { destruct Hacc as ((a & _ & Ha & _) & _). apply marshal_receipt_roundtrip in Hm; [congruence|].
    split; [done|]. simpl. rewrite Ha. apply normalize_plain. }
  destruct Hacc as (Hfrom & Ht & Haid & -> & _). exists o, (authorization_row input result), (ai_Authorization input).
  assert (claim_request (claim_of (receiptFromAppend input result) (new_id (st_clock s)) o) = append_request input result) as Hreq.
  { unfold claim_request, append_request, claim_of. simpl. by rewrite Hver, Hfen. }
  split_and!; [done..|by rewrite Ht, Haid|by apply accepted_stored| |].
  - rewrite Hreq. destruct Hfrom as (_ & _ & _ & _ & Hiss). unfold row_request, row_receipt, append_request, receiptFromAppend.
    simpl. by rewrite Hiss.
  - by rewrite Hreq.
Qed.

Lemma process_claim_sends t router c s :
  request_Hash (claim_request c) = inr (cl_RequestHash c) →
  (process_claim t router c s).1.2 = [claim_request c].
Proof.
  intros Hh. unfold process_claim. rewrite Hh, decide_False by (by intros []).
  destruct (router _) as [e|result]; [by destruct (give_back _ _ _ _ _)|].
  destruct (_ && _ && _); [by destruct (give_back _ _ _ _ _)|]. by destruct (ak_Complete _ _ _ _ _).
Qed.

(** A request whose hash is not the claim's is not sent. *)
Lemma process_claim_guards t router c s req :
  req ∈ (process_claim t router c s).1.2 → request_Hash req = inr (cl_RequestHash c).
Proof.
  unfold process_claim. destruct (request_Hash (claim_request c)) as [e|h] eqn:Hh.
  { destruct (give_back _ _ _ _ _). by intros ?%elem_of_nil. }
  case_decide as Hd; [destruct (give_back _ _ _ _ _); by intros ?%elem_of_nil|]. rewrite <-Hd. clear Hd.
  assert (∀ x, x ∈ [claim_request c] → request_Hash x = inr h) as Hone by (intros ? ->%list_elem_of_singleton; done).
  destruct (router _) as [e|result]; [destruct (give_back _ _ _ _ _); apply Hone|].
  destruct (_ && _ && _); [destruct (give_back _ _ _ _ _); apply Hone|]. destruct (ak_Complete _ _ _ _ _); apply Hone.
Qed.

(** C16: What a worker sends to the router. On any database, rows that other hands
    altered included, a request it sends hashes to the hash stored in the row it
    claimed; and on a database that calls led to, a worker that gets a claim sends
    exactly one request, with the fields of the accepted authorization (the
    deadline to the nanosecond, although its column keeps microseconds) and the
    receipt the producer was given; without a claim it sends none. *)
Theorem acknowledgement_matches_acceptance t router s r sent s' :
  ProcessOne t router s = (r, sent, s') →
  (∀ req, req ∈ sent → ∃ rid o, candidate t (now (S (S (st_clock s)))) (st_db s) = Some (rid, o) ∧
     request_Hash req = inr (ob_hash o)) ∧
  (reachable s →
   match (ak_Claim t s).1 with
   | inr (Some c) => ∃ aid row a, sent = [row_request a row] ∧
       d_authorizations (st_db s) !! (t, aid) = Some row ∧ (da_TenantId a, da_DeliveryAuthorizationId a) = (t, aid) ∧
       stored_as a row ∧ request_Hash (row_request a row) = inr (cl_RequestHash c)
   | _ => sent = []
   end).
Proof.
  unfold ProcessOne. destruct (ak_Claim t s) as [[e|[c|]] s1] eqn:Hc; intros Hp.
  1, 3: simplify_eq; split; [by intros ? ?%elem_of_nil|done].
  split.
  - intros req Hin. pose proof (process_claim_guards t router c s1 req) as Hg. rewrite Hp in Hg. specialize (Hg Hin).
    apply Claim_cases in Hc as (rid & o & receipt & Hcand & _ & -> & _). eauto.
  - intros Hs%reachable_delivered.
    destruct (claimed_request _ _ _ _ Hs Hc) as (o & row & a & _ & _ & _ & Hrow & Hid & Hst & Hreq & Hh).
    exists (ob_authorization o), row, a. pose proof (process_claim_sends t router c s1 Hh) as Hsent.
    rewrite Hp in Hsent. simpl in Hsent. rewrite Hsent, <-Hreq. by split_and!.
Qed.

(** ** Claims are fenced by their tokens *)

Lemma append_ticks t input : tx_ticks t (append_tx faults now nextval input).
Proof.
  unfold append_tx, insert_log, insert_authorization, insert_outbox.
  repeat first [ apply tx_ticks_bind; [by eauto with tx|intros ?] | progress eauto with tx | case_match ].
Qed.

Lemma settle_row t rid token args_ok f s r s' k o :
  (∀ at_ o o', f at_ o = Some o' → ob_token o' = None) →
  run_tx faults t (update_claimed faults now t rid token args_ok f) s = (r, s') →
  d_outbox (st_db s) !! k = Some o →
  st_clock s ≤ st_clock s' ∧
  ∃ o', d_outbox (st_db s') !! k = Some o' ∧
    (o' = o ∨ ob_token o' = None ∨ ob_token o' = Some (new_id (st_clock s))).
Proof.
  intros Hf Hr Hk. split.
  { assert (st_clock s < st_clock (run_tx faults t (update_claimed faults now t rid token args_ok f) s).2) as Hlt
      by (apply run_tx_ticks; eauto with tx). rewrite Hr in Hlt. simpl in Hlt. lia. }
  apply update_claimed_cases in Hr as [[-> _]|(o1 & o2 & Ho & _ & He & -> & _)]; [by eauto|]. simpl.
  destruct (decide ((t, rid) = k)) as [<-|Hne].
  - exists o2. rewrite lookup_insert_eq. eauto.
  - exists o. rewrite lookup_insert_ne by done. auto.
Qed.

Lemma claim_ticks t s r s' : ak_Claim t s = (r, s') → st_clock s < st_clock s'.
Proof.
  unfold ak_Claim. simpl. unfold Claim, withTenantTx. intros Hr.
  assert (st_clock s < st_clock (run_tx faults t (claim_tx faults now t (new_id (st_clock s))) s).2) as Hlt
    by (apply run_tx_ticks; eauto with tx).
  destruct (run_tx _ _ _ s) as [x s1]. simpl in Hlt. repeat case_match; simplify_eq; lia.
Qed.

(** What one call may do to the token of an outbox row. *)
Lemma dstep_row s s' k o :
  dstep s s' → delivered (st_db s) → d_outbox (st_db s) !! k = Some o →
  st_clock s ≤ st_clock s' ∧
  ∃ o', d_outbox (st_db s') !! k = Some o' ∧
    (o' = o ∨ ob_token o' = None ∨ ob_token o' = Some (new_id (st_clock s))).
Proof.
  intros Hst Hd Hk. destruct Hst as [p a id s r s' Hr|t s r s' Hr|t rid token result s r s' Hr
                                    |t rid token cause s r s' Hr|s s' Ha Hl Ho Hc].
  - apply accept_cases in Hr as [[-> _]|(a0 & h & b & r0 & _ & _ & Hv & Hh & Hap & _)]; [by eauto|]. split.
    + assert (st_clock s < st_clock (Append faults now nextval
        (mkAppendInput (normalizeAuthorization a0) id issuerServiceID h b) s).2) as Hlt.
      { apply run_tx_ticks, append_ticks. }
      rewrite Hap in Hlt. simpl in Hlt. lia.
    + apply Append_cases in Hap as [_ [(e & _ & ->)|(res & Happ & _)]]; [by eauto| |done|by apply service_input].
      destruct Happ as (row & _ & _ & _ & Happ). destruct (d_authorizations (st_db s) !! _); [destruct Happ as [_ ->]; eauto|].
      destruct Happ as (o1 & _ & Hfr & ->). exists o. split; [|auto]. by eapply fresh_insert.
  - split.
    { apply claim_ticks in Hr. lia. }
    assert (st_db s' = st_db s ∨ ∃ rid o1, st_db s' =
      claimed_db t rid (new_id (st_clock s)) (now (S (S (st_clock s)))) o1 (st_db s)) as [->|(rid & o1 & ->)].
    { apply Claim_cases in Hr. destruct r as [e|[c|]]; naive_solver. }
    + eauto.
    + simpl. destruct (decide ((t, rid) = k)) as [<-|Hne].
      * eexists. rewrite lookup_insert_eq. split; [done|]. by right; right.
      * exists o. rewrite lookup_insert_ne by done. auto.
  - eapply settle_row; [|exact Hr|exact Hk]. intros at_ o1 o2 (_ & _ & ? & _)%complete_row_spec. done.
  - eapply settle_row; [|exact Hr|exact Hk]. intros at_ o1 o2 (_ & _ & ? & _)%retry_row_spec. done.
  - rewrite Ho. eauto.
Qed.

(** A row that still carries the token of a claim is as that claim left it. *)
Lemma token_fences t s c s1 s2 o2 :
  Inj (=) (=) new_id → reachable s → ak_Claim t s = (inr (Some c), s1) → rtc dstep s1 s2 →
  let rid := dr_ReceiptId (cl_Receipt c) in
  d_outbox (st_db s2) !! (t, rid) = Some o2 → ob_token o2 = Some (cl_ClaimToken c) →
  d_outbox (st_db s1) !! (t, rid) = Some o2.
Proof.
  intros Hinj Hs%reachable_delivered Hc Hhist rid Ho2 Htok2.
  destruct (claimed_request _ _ _ _ Hs Hc) as (o & row & a & Hcand & Hdb & Htok & _). fold rid in Hcand, Hdb.
  set (o1 := claim_row (new_id (st_clock s)) (now (S (S (st_clock s))) + defaultClaimTTL)%Z o).
  assert (d_outbox (st_db s1) !! (t, rid) = Some o1) as Ho1 by (rewrite Hdb; apply lookup_insert_eq).
  assert (st_clock s < st_clock s1) as Hlt by (by eapply claim_ticks).
  assert (delivered (st_db s1)) as Hd1 by (by eapply dstep_ok; [eapply step_claim|]).
  assert (∃ o', d_outbox (st_db s1) !! (t, rid) = Some o' ∧ (o' = o1 ∨ ob_token o' ≠ Some (new_id (st_clock s))))
    as Hinv by eauto. rewrite Ho1. clear Ho1 Hc Hdb. rewrite Htok in Htok2.
  induction Hhist as [s1|s1 s1' s2 Hst _ IH].
  - destruct Hinv as (o' & Ho' & [->|Hn]); congruence.
  - destruct Hinv as (o' & Ho' & Hor). destruct (dstep_row _ _ _ _ Hst Hd1 Ho') as (Hle & o3 & Ho3 & Hcase).
    destruct (dstep_ok _ _ Hst Hd1) as [Hd2 _]. apply IH; [done|lia|done|]. exists o3. split; [done|].
    destruct Hcase as [->|[Hn|Hn]]; [done|right; congruence|right]. rewrite Hn. intros [= He%Hinj]. lia.
Qed.

(** C15: A claim token fences its row. If a worker completes or gives back a row
    with the token of its claim, then no call since the claim touched the row; a
    worker whose claim ran out and was taken over can no longer settle it, and
    its attempt changes nothing. *)
Theorem claim_token_fences t s c s1 s2 r s3 :
  Inj (=) (=) new_id → reachable s → ak_Claim t s = (inr (Some c), s1) → rtc dstep s1 s2 →
  let rid := dr_ReceiptId (cl_Receipt c) in
  (∃ result, ak_Complete t rid (cl_ClaimToken c) result s2 = (r, s3)) ∨
  (∃ cause, ak_Retry t rid (cl_ClaimToken c) cause s2 = (r, s3)) →
  d_outbox (st_db s2) !! (t, rid) = d_outbox (st_db s1) !! (t, rid) ∨
  (∃ e, r = inl e) ∧ st_db s3 = st_db s2.
Proof.
  intros Hinj Hs Hc Hhist rid Hset.
  assert (∃ args_ok f, withTenantTx faults t (update_claimed faults now t rid (cl_ClaimToken c) args_ok f) s2 = (r, s3))
    as (args_ok & f & Hu) by (destruct Hset as [[x Hx]|[x Hx]]; do 2 eexists; exact Hx).
  apply update_claimed_cases in Hu as [[-> ?]|(o & o' & Ho & Hh & _)]; [by right|left].
  rewrite Ho. apply holds_claim_spec in Hh as [Hh _]. symmetry. by eapply token_fences.
Qed.

(** C18: An acknowledgement is completed at most once and the recorded outcome is
    final: after a completion, no later call of any worker changes the row, a
    second completion fails, and the row is never claimed again. *)
Theorem completed_once t rid token result s s1 s2 :
  reachable s → ak_Complete t rid token result s = (inr tt, s1) → rtc dstep s1 s2 →
  ∃ o, d_outbox (st_db s2) !! (t, rid) = Some o ∧ d_outbox (st_db s1) !! (t, rid) = Some o ∧
    ob_status o = ack_completed ∧ ob_disposition o = Some (ackDisposition (rs_Disposition result)) ∧
    (∀ token' result' r s3, ak_Complete t rid token' result' s2 = (r, s3) →
       (∃ e, r = inl e) ∧ st_db s3 = st_db s2) ∧
    (∀ c s3, ak_Claim t s2 = (inr (Some c), s3) → dr_ReceiptId (cl_Receipt c) ≠ rid).
Proof.
  intros Hs%reachable_delivered Hc Hhist. pose proof Hc as Hc'.
  apply update_claimed_cases in Hc as [[_ [e [=]]]|(o & o1 & Ho & Hh & Hf & Hdb & _)].
  apply complete_row_spec in Hf as (Hp & Hst & Hnt & Hdisp).
  assert (d_outbox (st_db s1) !! (t, rid) = Some o1) as Ho1 by (rewrite Hdb; apply lookup_insert_eq).
  assert (delivered (st_db s1)) as Hd1 by (eapply dstep_ok; [by eapply step_complete|done]).
  destruct (history_ok _ _ Hhist Hd1) as [Hd2 (_ & _ & Hout)].
  destruct (Hout _ _ Ho1) as (o2 & Ho2 & _ & Hfin). rewrite (Hfin Hst) in Ho2.
  exists o1. split_and!; [done..| |].
  - intros token' result' r s3 Hr.
    apply update_claimed_cases in Hr as [[-> ?]|(o3 & o4 & Ho3 & Hh3 & _)]; [by eauto|].
    rewrite Ho2 in Ho3. injection Ho3 as <-. apply holds_claim_spec in Hh3 as [_ Hh3]. congruence.
  - intros c s3 Hcl <-. destruct (claimed_request _ _ _ _ Hd2 Hcl) as (o3 & row & a & Hcand & _).
    pose proof (candidate_spec t (now (S (S (st_clock s2)))) (st_db s2)) as Hspec. rewrite Hcand in Hspec.
    destruct Hspec as (Ho3 & Hdue & _). rewrite Ho2 in Ho3. injection Ho3 as <-.
    unfold ack_due in Hdue. by rewrite Hst, andb_false_r in Hdue.
Qed.

(** ** Due acknowledgements are completed *)

(** An answer the outbox can record. *)
Definition settles (result : AckResult) : Prop :=
  rs_Disposition result ∈ [AckApplied; AckAlreadyApplied; AckTerminalExpired] ∧
  bigint (rs_RouteVersion result) = true ∧ is_Some (uuid_column uuid_cast (rs_EventID result)).

Lemma Claim_healthy t s :
  delivered (st_db s) → healthy s →
  match candidate t (now (S (S (st_clock s)))) (st_db s) with
  | None => ∃ s', ak_Claim t s = (inr None, s')
  | Some (rid, o) => ∃ c, ak_Claim t s = (inr (Some c),
      mkDbState (claimed_db t rid (new_id (st_clock s)) (now (S (S (st_clock s)))) o (st_db s)) (S (S (S (S (st_clock s))))))
  end.
Proof.
  intros Hd Hh. pose proof (candidate_spec t (now (S (S (st_clock s)))) (st_db s)) as Hspec.
  unfold ak_Claim. simpl. unfold Claim, withTenantTx, claim_tx. rewrite run_stmt_healthy by done.
  destruct (candidate _ _ _) as [[rid o]|]; [|by eauto].
  destruct Hspec as (Ho & _). destruct (outbox_accepted _ _ _ _ Hd Ho) as (row & input & result & _ & Hacc & _ & Hf).
  destruct Hf as (_ & _ & _ & Hm & _). apply marshal_receipt_roundtrip in Hm.
  - rewrite Hm. by eexists.
  - destruct Hacc as ((a & _ & Ha & _) & _). split; [done|]. simpl. rewrite Ha. apply normalize_plain.
Qed.

(** One round of a worker while the database answers and the router settles what it
    is asked: the due row that comes first is completed, and nothing else in the
    outbox changes. *)
Lemma round_completes t router s rid0 o0 :
  reachable s → healthy s →
  d_outbox (st_db s) !! (t, rid0) = Some o0 → ack_due (now (S (S (st_clock s)))) o0 = true →
  (∀ request, ∃ result, router request = inr result ∧ settles result) →
  ∃ rid o o' request s', ProcessOne t router s = (inr tt, [request], s') ∧ rq_RequestID request = rid ∧
    d_outbox (st_db s) !! (t, rid) = Some o ∧ ob_status o ≠ ack_completed ∧ earlier (rid, o) (rid0, o0) = true ∧
    d_outbox (st_db s') = <[(t, rid) := o']> (d_outbox (st_db s)) ∧ ob_status o' = ack_completed ∧
    rtc dstep s s' ∧ st_clock s ≤ st_clock s'.
Proof.
  intros Hs%reachable_delivered Hh Ho0 Hdue Hrouter.
  pose proof (Claim_healthy t s Hs Hh) as Hc. pose proof (candidate_spec t (now (S (S (st_clock s)))) (st_db s)) as Hspec.
  destruct (candidate _ _ _) as [[rid o]|] eqn:Ec; [|by rewrite (Hspec rid0 o0) in Hdue].
  destruct Hspec as (Ho & Hdo & Hmin). destruct Hc as [c Hc].
  destruct (claimed_request _ _ _ _ Hs Hc) as (o2 & row & a & Hcand & _ & Htok & _ & _ & _ & _ & Hhash).
  rewrite Ec in Hcand. injection Hcand as Hrid <-.
  destruct (Hrouter (claim_request c)) as (result & Hr & Hdisp & Hbig & ev & Hev).
  assert (negb (rs_Disposition result =? AckApplied)%N && negb (rs_Disposition result =? AckAlreadyApplied)%N
          && negb (rs_Disposition result =? AckTerminalExpired)%N = false) as Hknown
    by (set_unfold in Hdisp; destruct Hdisp as [->|[->|[->|[]]]]; done).
  unfold ProcessOne. rewrite Hc. unfold process_claim. rewrite Hhash, decide_False by (by intros []).
  rewrite Hr, Hknown. set (s1 := mkDbState _ _) in Hc |- *.
  destruct (ak_Complete t _ (cl_ClaimToken c) result s1) as [r s2] eqn:Hcomp. pose proof Hcomp as Hstep.
  unfold ak_Complete in Hcomp. simpl in Hcomp. unfold Complete, withTenantTx, update_claimed in Hcomp.
  rewrite run_stmt_healthy in Hcomp by (intros n Hn; apply Hh; simpl in Hn; lia). rewrite Hbig in Hcomp. simpl in Hcomp.
  rewrite <-Hrid, lookup_insert_eq in Hcomp. unfold holds_claim in Hcomp. simpl in Hcomp.
  rewrite Htok, !bool_decide_eq_true_2 in Hcomp by done. simpl in Hcomp. unfold complete_row in Hcomp. rewrite Hev in Hcomp.
  simpl in Hcomp. injection Hcomp as <- <-. do 5 eexists.
  split_and!; [done|done|done| |by apply Hmin|simpl; by rewrite insert_insert_eq|done| |simpl; lia].
  - intros Hst. unfold ack_due in Hdo. by rewrite Hst, andb_false_r in Hdo.
  - eapply rtc_l; [by eapply step_claim|]. apply rtc_once. by eapply step_complete.
Qed.

(** A round with nothing due. *)
Lemma round_idle t router s :
  reachable s → healthy s →
  (∀ rid o, d_outbox (st_db s) !! (t, rid) = Some o → ack_due (now (S (S (st_clock s)))) o = false) →
  ∃ s', ProcessOne t router s = (inr tt, [], s') ∧ st_db s' = st_db s ∧ rtc dstep s s' ∧ st_clock s ≤ st_clock s'.
Proof.
  intros Hs%reachable_delivered Hh Hnone. pose proof (Claim_healthy t s Hs Hh) as Hc.
  pose proof (candidate_spec t (now (S (S (st_clock s)))) (st_db s)) as Hspec.
  destruct (candidate _ _ _) as [[rid o]|]; [destruct Hspec as (Ho & Hd & _); by rewrite (Hnone rid o Ho) in Hd|].
  destruct Hc as [s' Hc]. unfold ProcessOne. rewrite Hc. exists s'. split; [done|]. pose proof Hc as Hc'.
  apply Claim_cases in Hc' as [Hdb _]. split; [done|]. split; [by eapply rtc_once, step_claim|].
  apply claim_ticks in Hc. lia.
Qed.

(** ** The outbox drains *)

(** [n] rounds of a worker: their results, what was sent, the database after them. *)
Fixpoint rounds (t : string) (router : AcknowledgeRequest → derr + AckResult) (n : nat) (s : DState) :
    list (derr + unit) * list AcknowledgeRequest * DState :=
  match n with
  | O => ([], [], s)
  | S n' =>
      let '(r, sent, s1) := ProcessOne t router s in
      let '(rs, sent', s2) := rounds t router n' s1 in (r :: rs, sent ++ sent', s2)
  end.

(** The acknowledgements of a tenant that are not completed. *)
Definition open_acks (t : string) (d : DPg) : gmap (string * string) OutboxRow :=
  filter (λ kr : (string * string) * OutboxRow, kr.1.1 = t ∧ ob_status kr.2 ≠ ack_completed) (d_outbox d).

Lemma open_acks_complete t rid o o' d d' :
  d_outbox d !! (t, rid) = Some o → ob_status o ≠ ack_completed → ob_status o' = ack_completed →
  d_outbox d' = <[(t, rid) := o']> (d_outbox d) → size (open_acks t d) = S (size (open_acks t d')).
Proof.
  intros Ho Hst Hst' Hd. assert (open_acks t d' = delete (t, rid) (open_acks t d)) as ->.
  { unfold open_acks. rewrite Hd, map_filter_insert, decide_False by (simpl; naive_solver). by rewrite map_filter_delete. }
  assert (open_acks t d !! (t, rid) = Some o) as Hin by (by apply map_lookup_filter_Some).
  rewrite map_size_delete, Hin. assert (size (open_acks t d) ≠ 0); [|lia].
  intros Hz%map_size_empty_iff. rewrite Hz in Hin. by rewrite lookup_empty in Hin.
Qed.

Lemma ack_due_later i j o : (now i <= now j)%Z → ack_due (now i) o = true → ack_due (now j) o = true.
Proof.
  unfold ack_due. intros Hle [Hn Hs]%andb_prop. apply Z.leb_le in Hn. rewrite (proj2 (Z.leb_le _ _)) by lia. simpl.
  destruct (ob_status o); [done| |done]. destruct (ob_until o) as [u|]; [|done]. apply Z.leb_le in Hs. apply Z.leb_le. lia.
Qed.

Lemma reachable_steps s s' : reachable s → rtc dstep s s' → reachable s'.
Proof. unfold reachable. by etrans. Qed.

(** One round, whatever is due. *)
Lemma round_ok t router s :
  reachable s → healthy s → (∀ request, ∃ result, router request = inr result ∧ settles result) →
  ∃ sent s', ProcessOne t router s = (inr tt, sent, s') ∧ reachable s' ∧ healthy s' ∧ rtc dstep s s'.
Proof.
  intros Hs Hh Hrouter. pose proof (candidate_spec t (now (S (S (st_clock s)))) (st_db s)) as Hspec.
  assert (∃ sent s', ProcessOne t router s = (inr tt, sent, s') ∧ rtc dstep s s' ∧ st_clock s ≤ st_clock s') as (sent & s' & ? & ? & ?).
  { destruct (candidate _ _ _) as [[rid0 o0]|].
    - destruct Hspec as (Ho0 & Hdue0 & _).
      destruct (round_completes t router s rid0 o0 Hs Hh Ho0 Hdue0 Hrouter) as (? & ? & ? & ? & ? & ? & _ & _ & _ & _ & _ & _ & ? & ?). eauto.
    - destruct (round_idle t router s Hs Hh Hspec) as (? & ? & _ & ? & ?). eauto. }
  exists sent, s'. split_and!; [done|by eapply reachable_steps| |done]. intros k Hk. apply Hh. lia.
Qed.

Lemma rounds_ok t router n s rs sent s' :
  reachable s → healthy s → (∀ request, ∃ result, router request = inr result ∧ settles result) →
  rounds t router n s = (rs, sent, s') → Forall (λ r, r = inr tt) rs ∧ rtc dstep s s'.
Proof.
  intros Hs Hh Hrouter. revert s rs sent s' Hs Hh. induction n as [|n IH]; intros s rs sent s' Hs Hh; simpl.
  { intros [= <- <- <-]. done. }
  destruct (round_ok t router s Hs Hh Hrouter) as (sent1 & s1 & -> & Hs1 & Hh1 & Hsteps).
  destruct (rounds t router n s1) as [[rs1 sent2] s2] eqn:E. intros [= <- <- <-].
  destruct (IH _ _ _ _ Hs1 Hh1 E) as [Hrs Hrest]. split; [by constructor|by etrans].
Qed.

(** C19: The outbox drains. While the database answers, its clock does not run back
    and the router answers every request with a result the table can hold (a known
    disposition, a route version within bigint, an event id that is empty or that
    the database casts to a uuid), as many rounds of a worker as its tenant has open
    acknowledgements succeed and leave every acknowledgement that was due when they
    began completed. *)
Theorem outbox_drains t router n s rs sent s' :
  reachable s → healthy s → (∀ i j, i ≤ j → (now i <= now j)%Z) →
  (∀ request, ∃ result, router request = inr result ∧ settles result) →
  size (open_acks t (st_db s)) ≤ n → rounds t router n s = (rs, sent, s') →
  Forall (λ r, r = inr tt) rs ∧
  ∀ rid o, d_outbox (st_db s) !! (t, rid) = Some o → ack_due (now (S (S (st_clock s)))) o = true →
    ∃ o', d_outbox (st_db s') !! (t, rid) = Some o' ∧ ob_status o' = ack_completed.
Proof.
  intros Hs Hh Hnow Hrouter Hopen Hrun. split; [by eapply rounds_ok|]. intros rid0 o0 Ho0 Hdue.
  revert s rs sent s' Hs Hh Hopen Hrun Ho0 Hdue. induction n as [|n IH]; intros s rs sent s' Hs Hh Hopen Hrun Ho0 Hdue.
  { exfalso. assert (open_acks t (st_db s) !! (t, rid0) = Some o0) as Hin.
    { apply map_lookup_filter_Some. split; [done|]. split; [done|]. simpl. intros Hst. unfold ack_due in Hdue.
      by rewrite Hst, andb_false_r in Hdue. }
    assert (open_acks t (st_db s) = ∅) as He by (apply map_size_empty_iff; lia). by rewrite He, lookup_empty in Hin. }
  destruct (round_completes t router s rid0 o0 Hs Hh Ho0 Hdue Hrouter)
    as (rid & o & o' & request & s1 & Hround & _ & Ho & Hst & _ & Hdb & Hst' & Hsteps & Hclk).
  simpl in Hrun. rewrite Hround in Hrun. destruct (rounds t router n s1) as [[rs1 sent1] s2] eqn:E. injection Hrun as <- <- <-.
  pose proof (open_acks_complete _ _ _ _ _ _ Ho Hst Hst' Hdb) as Hsize. assert (reachable s1) as Hs1 by (by eapply reachable_steps).
  assert (healthy s1) as Hh1 by (intros k Hk; apply Hh; lia).
  destruct (decide (rid0 = rid)) as [->|Hne].
  - destruct (rounds_ok _ _ _ _ _ _ _ Hs1 Hh1 Hrouter E) as [_ Hrest].
    destruct (history_ok _ _ Hrest (reachable_delivered _ Hs1)) as [_ (_ & _ & Hg)].
    destruct (Hg (t, rid) o') as (o3 & Ho3 & _ & Hfin); [rewrite Hdb; apply lookup_insert_eq|].
    exists o3. split; [done|]. by rewrite (Hfin Hst').
  - apply (IH s1 rs1 sent1 s2); try done; [lia|by rewrite Hdb, lookup_insert_ne by congruence|].
    eapply ack_due_later; [|exact Hdue]. apply Hnow. lia.
Qed.
End History.
