(* ===== verification/DeliveryRuns.v ===== *)
(** Concrete deliveries: a codec that can be run, a database that answers, one
    authorization accepted, acknowledged and offered again; and two runs in which
    the code does something else than it means to. *)

From S2P Require Import Prelude Bytes Subjects Uuid PgTx Delivery DeliveryPg DeliveryTheorems DeliveryCorrect.

(** * A codec *)

Fixpoint bits (p : positive) : string :=
  match p with
  | xH => ""
  | xO p' => String "0" (bits p')
  | xI p' => String "1" (bits p')
  end.

Fixpoint of_bits (s : string) : positive :=
  match s with
  | EmptyString => xH
  | String c s' => if decide (c = "1"%char) then xI (of_bits s') else xO (of_bits s')
  end.

Lemma of_bits_bits p : of_bits (bits p) = p.
Proof. induction p as [p IH|p IH|]; simpl; [by rewrite IH..|done]. Qed.

#[local] Instance Timestamp_countable : Countable Timestamp.
Proof.
  refine (inj_countable' (λ t, (ts_Seconds t, ts_Nanos t, ts_unknown t)) (λ '(a, b, c), mkTs a b c) _). by intros [].
Defined.

#[local] Instance Visibility_countable : Countable DeliveryVisibility.
Proof.
  refine (inj_countable' (λ v, bool_decide (v = PENDING_NOT_VISIBLE))
            (λ b : bool, if b then PENDING_NOT_VISIBLE else VISIBILITY_UNSPECIFIED) _). by intros [].
Defined.

#[local] Instance Authorization_countable : Countable DeliveryAuthorization.
Proof.
  refine (inj_countable'
    (λ a, ((((da_DeliveryAuthorizationId a, da_EventId a), (da_TenantId a, da_ReservationId a)),
            ((da_InteractionId a, da_TargetSubscriberId a), (da_FencingToken a, da_RouteVersion a))),
           ((da_DeliveryDeadline a, da_Traceparent a), da_unknown a)))
    (λ '((((a, b), (c, d)), ((e, f), (g, h))), ((i, j), k)), mkAuthorization a b c d e f g h i j k) _). by intros [].
Defined.

#[local] Instance Receipt_countable : Countable DeliveryReceipt.
Proof.
  refine (inj_countable'
    (λ r, ((((dr_ReceiptId r, dr_DeliveryAuthorizationId r), (dr_EventId r, dr_TenantId r)),
            ((dr_ReservationId r, dr_InteractionId r), (dr_TargetSubscriberId r, dr_AcceptedAt r))),
           ((dr_DeliveryDeadline r, dr_LogSequence r), (dr_IssuerServiceId r, dr_Visibility r))))
    (λ '((((a, b), (c, d)), ((e, f), (g, h))), ((i, j), (k, l))), mkReceipt a b c d e f g h i j k l) _). by intros [].
Defined.

Definition bounded (s : string) : option string :=
  if (N.of_nat (String.length s) <? 18446744073709551616)%N then Some s else None.

#[local] Instance bit_codec : DeliveryLib := {
  marshal_authorization a := bounded (bits (encode a));
  marshal_receipt r := Some (bits (encode r));
  unmarshal_receipt b := decode (of_bits b);
  sha256 x := x;
}.

#[local] Instance bit_codec_laws : DeliveryLaws bit_codec.
Proof.
  assert (∀ a b, marshal_authorization a = Some b → b = bits (encode a) ∧ len_ok b) as Hm.
  { intros a b. simpl. unfold bounded, len_ok. case_match eqn:E; [|done]. intros [= <-]. by apply N.ltb_lt in E. }
  split.
  - intros r b _ [= <-]. simpl. by rewrite of_bits_bits, decode_encode.
  - intros a a' b _ _ [-> _]%Hm [He _]%Hm. apply (f_equal of_bits) in He. rewrite !of_bits_bits in He.
    by apply (inj encode).
  - intros a b [_ Hl]%Hm. done.
Qed.

#[local] Existing Instance text_uuid.
#[local] Existing Instance text_uuid_laws.

(** * A database that answers *)

Definition no_faults (n : nat) : fault := NoFault.
(** Ten seconds per statement. *)
Definition clock (n : nat) : Z := (Z.of_nat n * 10000000)%Z.
Definition sequence (n : nat) : N := N.of_nat (S n).
Definition ids (n : nat) : string := pretty n.
Definition no_cast (s : string) : option string := None.

#[local] Hint Extern 0 (AuthorizationStore DState) => exact (accept_store no_faults clock sequence) : typeclass_instances.
#[local] Hint Extern 0 (AckStore DState) => exact (ack_store no_faults clock ids no_cast) : typeclass_instances.

Abbreviation start := (mkDbState dpg_empty 0).
Definition tenant : string := "00000000-0000-7000-8000-000000000001".
Definition uuid_n (c : ascii) : string := "00000000-0000-7000-8000-00000000010" +:+ String c "".

Definition producer : Principal := mkPrincipal "corex" tenant ["other"; "corex-delivery-write"].

(** The authorization, with [extra] as unknown fields and a target. *)
Definition sample (extra : string) (target : ascii) (version : N) : DeliveryAuthorization :=
  mkAuthorization (uuid_n "1") (uuid_n "2") tenant (uuid_n "3") (uuid_n "4") (uuid_n target) (uuid_n "6")
    version (Some (mkTs 1700000000 5 extra))
    "00-4bf92f3577b34da6a3ce929d0e0e4736-00f067aa0ba902b7-01" extra.

Abbreviation accept1 := (AcceptDelivery producer (Some (sample "" "5" 1)) (uuid_n "a") start).
Definition receipt1 : DeliveryReceipt :=
  mkReceipt (uuid_n "a") (uuid_n "1") (uuid_n "2") tenant (uuid_n "3") (uuid_n "4") (uuid_n "5")
    (Some (mkTs 40 0 "")) (Some (mkTs 1700000000 5 "")) 5 "relaypoint" PENDING_NOT_VISIBLE.

Example accept1_run : accept1.1 = inr receipt1.
Proof. vm_compute. reflexivity. Qed.

(** * Runs *)

Lemma pair_run {A B} (x : A * B) a : x.1 = a → x = (a, x.2).
Proof. destruct x. simpl. by intros ->. Qed.

Abbreviation s1 := (accept1.2).

Lemma accept1_eq : AcceptDelivery producer (Some (sample "" "5" 1)) (uuid_n "a") start = (inr receipt1, s1).
Proof. apply pair_run, accept1_run. Qed.

Lemma s1_reachable : reachable no_faults clock sequence ids no_cast s1.
Proof. apply reachable_accept, reachable_start. Qed.

Lemma runs_healthy s : healthy no_faults s.
Proof. done. Qed.

Lemma ids_inj : Inj (=) (=) ids.
Proof. intros n m Hnm. by apply (inj pretty). Qed.

Lemma bit_codec_collision_free : collision_free.
Proof. by intros x y. Qed.

Lemma acceptance_idempotent_witness :
  (AcceptDelivery producer (Some (sample "x" "5" 1)) (uuid_n "b") s1).1 = inr receipt1 ∧
  (AcceptDelivery producer (Some (sample "" "7" 1)) (uuid_n "b") s1).1 = inl ErrIdempotencyConflict.
Proof.
  assert (∀ a', permitted producer a' → validateAuthorization (Some a') = None →
            is_Some (marshal_authorization (normalizeAuthorization a')) →
            da_DeliveryAuthorizationId a' = uuid_n "1" → da_TenantId a' = tenant →
            (AcceptDelivery producer (Some a') (uuid_n "b") s1).1 =
              if decide (discardUnknown a' = discardUnknown (sample "" "5" 1)) then inr receipt1
              else inl ErrIdempotencyConflict) as Hall.
  { intros a' Hp Hv Hm Haid Ht.
    refine (proj2 (proj2 (acceptance_idempotent no_faults clock sequence ids no_cast producer (sample "" "5" 1)
      (uuid_n "a") start receipt1 s1 s1 producer a' (uuid_n "b") _ _ bit_codec_collision_free
      (reachable_start _ _ _ _ _) accept1_eq (rtc_refl _ _) Hp Hv _ Hm Haid Ht (surjective_pairing _))) _);
      [vm_compute; reflexivity|apply runs_healthy]. }
  assert (permitted producer (sample "x" "5" 1) ∧ permitted producer (sample "" "7" 1)) as [Hp1 Hp2] by (by split_and!).
  assert (is_Some (marshal_authorization (normalizeAuthorization (sample "x" "5" 1)))) as Hm1
    by (apply (bool_decide_unpack _); vm_compute; exact I).
  assert (is_Some (marshal_authorization (normalizeAuthorization (sample "" "7" 1)))) as Hm2
    by (apply (bool_decide_unpack _); vm_compute; exact I).
  split; [rewrite (Hall _ Hp1); [|vm_compute; reflexivity|exact Hm1|reflexivity|reflexivity]
         |rewrite (Hall _ Hp2); [|vm_compute; reflexivity|exact Hm2|reflexivity|reflexivity]];
    vm_compute; reflexivity.
Defined.

(** The worker's router answers that the acknowledgement was applied. *)
Definition applied : AckResult := mkAckResult AckApplied 2 "".
Definition router_ok (request : AcknowledgeRequest) : derr + AckResult := inr applied.

Abbreviation claim1 := (ak_Claim tenant s1).
Abbreviation s2 := (claim1.2).
Definition c1 : AckClaim := match claim1.1 with inr (Some c) => c | _ => mkAckClaim receipt1 "" 0 "" "" end.

Lemma claim_found (x : derr + option AckClaim) d :
  match x with inr (Some _) => true | _ => false end = true → x = inr (Some (match x with inr (Some c) => c | _ => d end)).
Proof. by destruct x as [|[]]. Qed.

Lemma claim1_run : claim1.1 = inr (Some c1).
Proof. apply claim_found. vm_compute. reflexivity. Qed.

Lemma c1_receipt : dr_ReceiptId (cl_Receipt c1) = uuid_n "a".
Proof. vm_compute. reflexivity. Qed.

Lemma claim1_eq : ak_Claim tenant s1 = (inr (Some c1), s2).
Proof. apply pair_run, claim1_run. Qed.

Lemma acknowledgement_matches_acceptance_witness :
  (ProcessOne tenant router_ok s1).1 = (inr tt, [mkAckRequest (uuid_n "a") tenant (uuid_n "3") (uuid_n "4") 1 (uuid_n "6") receipt1])
  ∧ ∃ aid row a, (ProcessOne tenant router_ok s1).1.2 = [row_request a row] ∧
      d_authorizations (st_db s1) !! (tenant, aid) = Some row ∧
      (da_TenantId a, da_DeliveryAuthorizationId a) = (tenant, aid) ∧ stored_as a row ∧
      request_Hash (row_request a row) = inr (cl_RequestHash c1).
Proof.
  split; [vm_compute; reflexivity|].
  assert (∀ p, ProcessOne tenant router_ok s1 = p → ProcessOne tenant router_ok s1 = (p.1.1, p.1.2, p.2)) as Hp
    by (intros [[??]?] ->; reflexivity).
  pose proof (proj2 (acknowledgement_matches_acceptance no_faults clock sequence ids no_cast tenant router_ok s1 _ _ _
                (Hp _ eq_refl)) s1_reachable) as Hw.
  rewrite claim1_eq in Hw. exact Hw.
Defined.

Lemma s2_reachable : reachable no_faults clock sequence ids no_cast s2.
Proof. apply reachable_claim, s1_reachable. Qed.

Abbreviation complete1 := (ak_Complete tenant (uuid_n "a") (cl_ClaimToken c1) applied s2).

Example complete1_run : complete1.1 = inr tt.
Proof. vm_compute. reflexivity. Qed.

(** Another worker takes over the claim that ran out; the first one comes late. *)
Abbreviation s3 := ((ak_Claim tenant s2).2).
Abbreviation late := (ak_Complete tenant (dr_ReceiptId (cl_Receipt c1)) (cl_ClaimToken c1) applied s3).

Lemma s2_s3 : rtc (dstep no_faults clock sequence ids no_cast) s2 s3.
Proof. apply rtc_once. eapply step_claim, surjective_pairing. Qed.

Lemma claim_token_fences_witness :
  let rid := dr_ReceiptId (cl_Receipt c1) in
  late.1 = inl ErrNoRows ∧
  (d_outbox (st_db s3) !! (tenant, rid) = d_outbox (st_db s2) !! (tenant, rid) ∨
   (∃ e, late.1 = inl e) ∧ st_db late.2 = st_db s3).
Proof.
  split; [vm_compute; reflexivity|].
  apply (claim_token_fences no_faults clock sequence ids no_cast tenant s1 c1 s2 s3 _ _
           ids_inj s1_reachable claim1_eq s2_s3).
  left. exists applied. apply surjective_pairing.
Defined.

Lemma completed_once_witness :
  ∃ o, d_outbox (st_db complete1.2) !! (tenant, uuid_n "a") = Some o ∧ ob_status o = ack_completed ∧
    ob_disposition o = Some "APPLIED" ∧ ∀ c s3, ak_Claim tenant complete1.2 = (inr (Some c), s3) → dr_ReceiptId (cl_Receipt c) ≠ uuid_n "a".
Proof.
  destruct (completed_once no_faults clock sequence ids no_cast tenant (uuid_n "a") (cl_ClaimToken c1) applied s2 complete1.2
              complete1.2 s2_reachable) as (o & Ho & _ & Hs & Hd & _ & Hc).
  - apply pair_run, complete1_run.
  - apply rtc_refl.
  - exists o. by split_and!.
Defined.

Lemma found {A} (x : option A) d : bool_decide (is_Some x) = true → x = Some (default d x).
Proof. by intros [y ->]%bool_decide_eq_true. Qed.

Lemma clock_monotone i j : i ≤ j → (clock i <= clock j)%Z.
Proof. unfold clock. lia. Qed.

Lemma outbox_drains_witness :
  ∃ o', d_outbox (st_db (rounds no_faults clock ids no_cast tenant router_ok 1 s1).2) !! (tenant, uuid_n "a") = Some o' ∧
    ob_status o' = ack_completed.
Proof.
  destruct (outbox_drains no_faults clock sequence ids no_cast tenant router_ok 1 s1
              (rounds no_faults clock ids no_cast tenant router_ok 1 s1).1.1
              (rounds no_faults clock ids no_cast tenant router_ok 1 s1).1.2
              (rounds no_faults clock ids no_cast tenant router_ok 1 s1).2) as [_ H].
  - apply s1_reachable.
  - apply runs_healthy.
  - apply clock_monotone.
  - intros request. exists applied. split; [done|]. split_and!; [set_solver|done|by eexists].
  - vm_compute. lia.
  - by destruct (rounds _ _ _ _ _ _ _ _) as [[??]?].
  - apply (H _ (default (outbox_row (mkAppendInput (sample "" "5" 1) "" "" "" "") "" "" 0)
                 (d_outbox (st_db s1) !! (tenant, uuid_n "a")))).
    + apply found. vm_compute. reflexivity.
    + vm_compute. reflexivity.
Defined.

(** * Where the code departs from its intent *)

(** An error text whose 512th byte is the first of a two-byte character. *)
Fixpoint repeat_char (n : nat) (c : ascii) (s : string) : string :=
  match n with O => s | S n' => String c (repeat_char n' c s) end.

Definition long_text : string := repeat_char 511 "x" (String "195" (String "169" " refused")).

(** The text of an error that is cut at 512 bytes may end inside a character:
    a valid error text then makes the update fail, so the worker's error is lost
    and the row stays claimed until the claim runs out. *)
Theorem truncation_splits_character :
  text_ok long_text = true ∧ (ak_Retry tenant (uuid_n "a") (cl_ClaimToken c1) (ErrOther long_text) s2).1 = inl ErrDatabase ∧
  (ob_status <$> d_outbox (st_db (ak_Retry tenant (uuid_n "a") (cl_ClaimToken c1) (ErrOther long_text) s2).2) !! (tenant, uuid_n "a"))
    = Some ack_claimed.
Proof. split_and!; vm_compute; reflexivity. Qed.

(** A route version that does not fit the database's bigint passes validation and
    is answered as an internal error. *)
Example large_version_is_internal :
  validateAuthorization (Some (sample "" "5" 9223372036854775808)) = None ∧
  (server_AcceptDelivery (Some producer) (Some (sample "" "5" 9223372036854775808)) (uuid_n "a") start).1 = inl Internal.
Proof. split; vm_compute; reflexivity. Qed.
