(* ===== verification/RouteProjection.v ===== *)
(** The route projection (internal/routeprojection/projector.go): it folds the
    versioned facts of a router of reservations into the visibility of each
    interaction, with the store's compare-and-set on the version, and reconciles
    gaps by replay or by snapshot. A call of the projector is a tree of calls on
    its store and on the router ([rprog]); between two calls any other process may
    act. Versions are uint64; a time is its count of nanoseconds from the Unix
    epoch. *)

From S2P Require Import Prelude Bytes Uuid.

(** * Data *)

(** [FactKind] is a uint8. *)
Definition FactReserved : N := 1.
Definition FactRinging : N := 2.
Definition FactTerminal : N := 3.

(** [Visibility] is a uint8. *)
Definition Hidden : N := 0.
Definition Visible : N := 1.

(** The zero [time.Time], the first instant of year 1, and [Time.IsZero]. *)
Definition zero_time : Z := (-62135596800 * 1000000000)%Z.
Definition time_IsZero (t : Z) : bool := (t =? zero_time)%Z.

(** The zero [[32]byte]. *)
Definition zero_hash : string := be_bytes 32 0.

Record RouteFact := mkRouteFact {
  rf_TenantID : string;
  rf_InteractionID : string;
  rf_EventID : string;
  rf_Version : N;
  rf_Kind : N;
  rf_DeliveryAuthorizationID : string;
  rf_ReceiptID : string;
  rf_VisibilityGeneration : N;
  rf_LeaseUntil : Z;
}.

Record FactIdentity := mkFactIdentity { fi_EventID : string; fi_Hash : string }.

Record FoldedState := mkFolded {
  fs_Version : N;
  fs_EventID : string;
  fs_Hash : string;
  fs_Visibility : N;
  fs_DeliveryAuthorizationID : string;
  fs_ReceiptID : string;
  fs_VisibilityGeneration : N;
  fs_LeaseUntil : Z;
}.

(** [Projection]: the folded state of an interaction, and the database's clock. *)
Record Projection := mkProjection {
  pj_TenantID : string;
  pj_InteractionID : string;
  pj_State : FoldedState;
  pj_DatabaseNow : Z;
}.

Record ReconcileIntent := mkReconcile {
  rc_Token : string;
  rc_TenantID : string;
  rc_InteractionID : string;
  rc_ObservedVersion : N;
  rc_RequestedFrom : N;
  rc_RequestedTo : N;
  rc_HeldEventID : string;
  rc_HeldHash : string;
}.

Record ProjectionPrincipal := mkProjectionPrincipal { pp_ServiceID : string; pp_TenantID : string; pp_Capability : string }.
Record ReplayRequest := mkReplayRequest { rp_TenantID : string; rp_InteractionID : string; rp_From : N; rp_To : N }.
Record ReplayResult := mkReplayResult { rp_Facts : list RouteFact; rp_RouterHead : N }.
Record SnapshotRequest := mkSnapshotRequest { sq_TenantID : string; sq_InteractionID : string }.
Record Snapshot := mkSnapshot { ss_Projection : Projection; ss_HistoryFloor : N; ss_Provenance : string }.
Record AuthorizationBinding := mkBinding { bd_InteractionID : string; bd_ReceiptID : string }.

#[export] Instance RouteFact_eq_dec : EqDecision RouteFact.
Proof. solve_decision. Defined.
#[export] Instance FoldedState_eq_dec : EqDecision FoldedState.
Proof. solve_decision. Defined.

(** The package's errors, and those of the store and of the router's client. *)
Inductive rerr :=
| ErrDivergentHistory | ErrUnknownHistory | ErrInvalidFact | ErrInvalidReplay | ErrAuthorizationPending
| ErrRouteStore | ErrRouteRouter.
#[export] Instance rerr_eq_dec : EqDecision rerr.
Proof. solve_decision. Defined.

(** [NoResult] is the 0 that comes with an error. *)
Inductive ApplyResult := NoResult | Applied | Duplicate | CompareAndSetLost | Poisoned | AuditedUnknownHistory.
#[export] Instance ApplyResult_eq_dec : EqDecision ApplyResult.
Proof. solve_decision. Defined.

Definition CapabilityProjectionRead : string := "router.projection.read".

(** uint64 increment. *)
Definition inc64 (v : N) : N := ((v + 1) mod 18446744073709551616)%N.

(** * Facts *)

Section Facts.
Context `{UuidLib} (sha256 : string → string).

Definition validateUUIDv7 (value : string) : bool := canonicalUUIDv7 value.

Definition validateFact (fact : RouteFact) : option rerr :=
  if negb (forallb validateUUIDv7 [rf_TenantID fact; rf_InteractionID fact; rf_EventID fact]) then Some ErrInvalidFact
  else if (rf_Version fact =? 0)%N || (rf_Kind fact <? FactReserved)%N || (FactTerminal <? rf_Kind fact)%N
  then Some ErrInvalidFact
  else if (rf_Kind fact =? FactRinging)%N
          && (negb (validateUUIDv7 (rf_DeliveryAuthorizationID fact)) || negb (validateUUIDv7 (rf_ReceiptID fact))
              || negb (rf_VisibilityGeneration fact =? rf_Version fact)%N || time_IsZero (rf_LeaseUntil fact))
  then Some ErrInvalidFact
  else if (rf_Kind fact =? FactTerminal)%N
          && ((rf_VisibilityGeneration fact =? 0)%N || (rf_Version fact <=? rf_VisibilityGeneration fact)%N)
  then Some ErrInvalidFact
  else None.

(** [uint64(t.UnixNano())]: wraps outside the years 1678 to 2262. *)
Definition unix_nano (t : Z) : N := Z.to_N (u64 t).

Definition fact_parts (fact : RouteFact) : list string :=
  [rf_TenantID fact; rf_InteractionID fact; rf_EventID fact; be64 (rf_Version fact);
   String (ascii_of_N (rf_Kind fact)) ""; rf_DeliveryAuthorizationID fact; rf_ReceiptID fact;
   be64 (rf_VisibilityGeneration fact); be64 (unix_nano (rf_LeaseUntil fact))].

Definition HashRouteFact (fact : RouteFact) : string := sha256 (put_parts (fact_parts fact)).

(** One iteration of the loop of [FoldBatch], after its checks. *)
Definition fold_fact (state : FoldedState) (fact : RouteFact) : FoldedState :=
  let hash := HashRouteFact fact in
  if (rf_Kind fact =? FactRinging)%N then
    mkFolded (rf_Version fact) (rf_EventID fact) hash Visible (rf_DeliveryAuthorizationID fact)
      (rf_ReceiptID fact) (rf_VisibilityGeneration fact) (rf_LeaseUntil fact)
  else if (rf_Kind fact =? FactReserved)%N || (rf_Kind fact =? FactTerminal)%N then
    mkFolded (rf_Version fact) (rf_EventID fact) hash Hidden (fs_DeliveryAuthorizationID state)
      (fs_ReceiptID state) (fs_VisibilityGeneration state)
      (if (rf_Kind fact =? FactTerminal)%N then zero_time else fs_LeaseUntil state)
  else
    mkFolded (rf_Version fact) (rf_EventID fact) hash (fs_Visibility state) (fs_DeliveryAuthorizationID state)
      (fs_ReceiptID state) (fs_VisibilityGeneration state) (fs_LeaseUntil state).

(** The loop of [FoldBatch]; [None] is [ErrInvalidReplay]. *)
Fixpoint fold_facts (tenantID interactionID : string) (state : FoldedState) (facts : list RouteFact) :
    option FoldedState :=
  match facts with
  | [] => Some state
  | fact :: rest =>
      if bool_decide (is_Some (validateFact fact)) || negb (rf_Version fact =? inc64 (fs_Version state))%N then None
      else if negb (bool_decide (rf_TenantID fact = tenantID)) || negb (bool_decide (rf_InteractionID fact = interactionID))
      then None
      else fold_facts tenantID interactionID (fold_fact state fact) rest
  end.

Definition FoldBatch (projection : Projection) (facts : list RouteFact) : option FoldedState :=
  let '(tenantID, interactionID) :=
    match facts with
    | fact :: _ => if decide (pj_TenantID projection = "") then (rf_TenantID fact, rf_InteractionID fact)
                   else (pj_TenantID projection, pj_InteractionID projection)
    | [] => (pj_TenantID projection, pj_InteractionID projection)
    end in
  fold_facts tenantID interactionID (pj_State projection) facts.

(** [None] is success, as the nil error. *)
Definition validateSnapshot (snapshot : Snapshot) (intent : ReconcileIntent) (held : RouteFact) : option rerr :=
  let p := ss_Projection snapshot in
  let st := pj_State p in
  if negb (bool_decide (pj_TenantID p = rf_TenantID held)) || negb (bool_decide (pj_InteractionID p = rf_InteractionID held))
     || (fs_Version st =? 0)%N || (fs_Version st <? rc_ObservedVersion intent)%N
  then Some ErrInvalidReplay
  else if (ss_HistoryFloor snapshot =? 0)%N || (fs_Version st <? ss_HistoryFloor snapshot)%N
          || bool_decide (ss_Provenance snapshot = "")
  then Some ErrInvalidReplay
  else if negb (validateUUIDv7 (fs_EventID st)) || bool_decide (fs_Hash st = zero_hash) then Some ErrInvalidReplay
  else if negb (fs_Visibility st =? Hidden)%N && negb (fs_Visibility st =? Visible)%N then Some ErrInvalidReplay
  else if (fs_Visibility st =? Visible)%N
          && (negb (validateUUIDv7 (fs_DeliveryAuthorizationID st)) || negb (validateUUIDv7 (fs_ReceiptID st))
              || negb (fs_VisibilityGeneration st =? fs_Version st)%N || time_IsZero (fs_LeaseUntil st))
  then Some ErrInvalidReplay
  else None.
End Facts.

(** * Programs *)

(** The store's operations with the types of their answers. *)
Inductive rcall : Type → Type :=
| CLoad (tenantID interactionID : string) (version : N) : rcall (rerr + (Projection * option FactIdentity))
| CAuthorization (tenantID authorizationID : string) : rcall (rerr + option AuthorizationBinding)
| CInstallBatch (expected : N) (facts : list RouteFact) (final : FoldedState) : rcall (rerr + bool)
| CBeginReconcile (intent : ReconcileIntent) : rcall (rerr + (ReconcileIntent * bool))
| CInstallReconcileBatch (intent : ReconcileIntent) (facts : list RouteFact) (final : FoldedState) : rcall (rerr + bool)
| CInstallHistoricalIdentity (intent : ReconcileIntent) (fact : RouteFact) : rcall (rerr + bool)
| CInstallSnapshotAndAudit (intent : ReconcileIntent) (snapshot : Snapshot) (held : RouteFact) : rcall (rerr + bool)
| CRecordPoison (fact : RouteFact) (reason : rerr) : rcall (rerr + unit).

(** A store call, a call of the router, a new id, or the end. *)
Inductive rprog (A : Type) : Type :=
| RRet (a : A)
| RCall {B : Type} (c : rcall B) (k : B → rprog A)
| RReplay (principal : ProjectionPrincipal) (request : ReplayRequest) (k : rerr + ReplayResult → rprog A)
| RSnapshot (principal : ProjectionPrincipal) (request : SnapshotRequest) (k : rerr + Snapshot → rprog A)
| RNewID (k : string → rprog A).
Arguments RRet {A} a.
Arguments RCall {A B} c k.
Arguments RReplay {A} principal request k.
Arguments RSnapshot {A} principal request k.
Arguments RNewID {A} k.

Fixpoint rbind {A B} (p : rprog A) (f : A → rprog B) : rprog B :=
  match p with
  | RRet a => f a
  | RCall c k => RCall c (λ x, rbind (k x) f)
  | RReplay pr q k => RReplay pr q (λ x, rbind (k x) f)
  | RSnapshot pr q k => RSnapshot pr q (λ x, rbind (k x) f)
  | RNewID k => RNewID (λ x, rbind (k x) f)
  end.

Section Projector.
Context `{UuidLib} (sha256 : string → string).
#[local] Abbreviation Hash := (HashRouteFact sha256).

Abbreviation outcome := (ApplyResult * option rerr)%type.

(** The answers of the three installs: an error, a lost compare-and-set or [ok]. *)
Definition after_install (ok : ApplyResult) (r : rerr + bool) : rprog outcome :=
  match r with
  | inl e => RRet (NoResult, Some e)
  | inr false => RRet (CompareAndSetLost, None)
  | inr true => RRet (ok, None)
  end.

Fixpoint validateAuthorizationBindings (facts : list RouteFact) : rprog (option rerr) :=
  match facts with
  | [] => RRet None
  | fact :: rest =>
      if negb (rf_Kind fact =? FactRinging)%N then validateAuthorizationBindings rest
      else RCall (CAuthorization (rf_TenantID fact) (rf_DeliveryAuthorizationID fact)) (λ r,
        match r with
        | inl e => RRet (Some e)
        | inr None => RRet (Some ErrAuthorizationPending)
        | inr (Some binding) =>
            if decide (bd_InteractionID binding ≠ rf_InteractionID fact ∨ bd_ReceiptID binding ≠ rf_ReceiptID fact)
            then RRet (Some ErrAuthorizationPending)
            else validateAuthorizationBindings rest
        end)
  end.

(** [RecordPoison], then [ErrDivergentHistory]. *)
Definition poison (fact : RouteFact) : rprog outcome :=
  RCall (CRecordPoison fact ErrDivergentHistory) (λ r,
    match r with
    | inl e => RRet (Poisoned, Some e)
    | inr _ => RRet (Poisoned, Some ErrDivergentHistory)
    end).

(** The fact whose binding a visible snapshot stands for. *)
Definition snapshot_fact (p : Projection) : RouteFact :=
  mkRouteFact (pj_TenantID p) (pj_InteractionID p) "" 0 FactRinging (fs_DeliveryAuthorizationID (pj_State p))
    (fs_ReceiptID (pj_State p)) 0 zero_time.

Definition snapshotUnknown (principal : ProjectionPrincipal) (intent : ReconcileIntent) (held : RouteFact) :
    rprog outcome :=
  RSnapshot principal (mkSnapshotRequest (rf_TenantID held) (rf_InteractionID held)) (λ r,
    match r with
    | inl e => RRet (NoResult, Some e)
    | inr snapshot =>
        match validateSnapshot snapshot intent held with
        | Some _ => RRet (Poisoned, Some ErrInvalidReplay)
        | None =>
            rbind (if (fs_Visibility (pj_State (ss_Projection snapshot)) =? Visible)%N
                   then validateAuthorizationBindings [snapshot_fact (ss_Projection snapshot)]
                   else RRet None) (λ e,
              match e with
              | Some e => RRet (NoResult, Some e)
              | None => RCall (CInstallSnapshotAndAudit intent snapshot held) (after_install AuditedUnknownHistory)
              end)
        end
    end).

(** The replay of one version that was overwritten by a snapshot. *)
Definition reconcile_historical (intent : ReconcileIntent) (held : RouteFact) (facts : list RouteFact) : rprog outcome :=
  match facts with
  | [replayed] =>
      if negb (rf_Version replayed =? rf_Version held)%N then RRet (Poisoned, Some ErrInvalidReplay)
      else if decide (rf_EventID replayed ≠ rf_EventID held ∨ Hash replayed ≠ Hash held) then poison held
      else rbind (validateAuthorizationBindings facts) (λ e,
        match e with
        | Some e => RRet (NoResult, Some e)
        | None => RCall (CInstallHistoricalIdentity intent replayed) (after_install Duplicate)
        end)
  | _ => RRet (Poisoned, Some ErrInvalidReplay)
  end.

(** The fact that is held is part of the replay. *)
Definition held_found (held : RouteFact) (facts : list RouteFact) : bool :=
  existsb (λ fact, (rf_Version fact =? rf_Version held)%N && bool_decide (rf_EventID fact = rf_EventID held)
                   && bool_decide (Hash fact = Hash held)) facts.

(** The replay of a gap. *)
Definition reconcile_gap (projection : Projection) (intent : ReconcileIntent) (held : RouteFact) (replay : ReplayResult) :
    rprog outcome :=
  let facts := rp_Facts replay in
  if negb (forallb (λ fact, bool_decide (rf_TenantID fact = rf_TenantID held)
                            && bool_decide (rf_InteractionID fact = rf_InteractionID held)) facts)
  then RRet (Poisoned, Some ErrInvalidReplay)
  else rbind (validateAuthorizationBindings facts) (λ e,
    match e with
    | Some e => RRet (NoResult, Some e)
    | None =>
        match FoldBatch sha256 projection facts, last facts with
        | Some final, Some lst =>
            if (rf_Version lst <? rf_Version held)%N || (rp_RouterHead replay <? rf_Version lst)%N
            then RRet (Poisoned, Some ErrInvalidReplay)
            else if negb (held_found held facts) then RRet (Poisoned, Some ErrInvalidReplay)
            else RCall (CInstallReconcileBatch intent facts final) (after_install Applied)
        | _, _ => RRet (Poisoned, Some ErrInvalidReplay)
        end
    end).

Definition reconcile (projection : Projection) (held : RouteFact) (historical : bool) : rprog outcome :=
  RNewID (λ token,
    if negb (validateUUIDv7 token) then RRet (NoResult, Some ErrInvalidFact)
    else
      let observed := fs_Version (pj_State projection) in
      let from := if historical then rf_Version held else inc64 observed in
      let to := rf_Version held in
      RCall (CBeginReconcile (mkReconcile token (rf_TenantID held) (rf_InteractionID held) observed from to
                                (rf_EventID held) (Hash held))) (λ r,
        match r with
        | inl e => RRet (NoResult, Some e)
        | inr (_, false) => RRet (CompareAndSetLost, None)
        | inr (intent, true) =>
            let principal := mkProjectionPrincipal "relaypoint" (rf_TenantID held) CapabilityProjectionRead in
            RReplay principal (mkReplayRequest (rf_TenantID held) (rf_InteractionID held) from to) (λ rep,
              match rep with
              | inl e => if decide (e = ErrUnknownHistory) then snapshotUnknown principal intent held
                         else RRet (NoResult, Some e)
              | inr replay => if historical then reconcile_historical intent held (rp_Facts replay)
                              else reconcile_gap projection intent held replay
              end)
        end)).

Definition Apply (fact : RouteFact) : rprog outcome :=
  match validateFact fact with
  | Some e => RRet (Poisoned, Some e)
  | None =>
      RCall (CLoad (rf_TenantID fact) (rf_InteractionID fact) (rf_Version fact)) (λ r,
        match r with
        | inl e => RRet (NoResult, Some e)
        | inr (projection, retained) =>
            let current := fs_Version (pj_State projection) in
            if (rf_Version fact <=? current)%N then
              match retained with
              | None => reconcile projection fact true
              | Some known =>
                  if decide (fi_EventID known = rf_EventID fact ∧ fi_Hash known = Hash fact)
                  then RRet (Duplicate, None)
                  else poison fact
              end
            else if (inc64 current <? rf_Version fact)%N then reconcile projection fact false
            else
              rbind (validateAuthorizationBindings [fact]) (λ e,
                match e with
                | Some e => RRet (NoResult, Some e)
                | None =>
                    match FoldBatch sha256 projection [fact] with
                    | None => RRet (Poisoned, Some ErrInvalidReplay)
                    | Some final => RCall (CInstallBatch current [fact] final) (after_install Applied)
                    end
                end)
        end)
  end.

(** [Projector.Visible]. *)
Definition is_visible (tenantID interactionID : string) : rprog (rerr + bool) :=
  RCall (CLoad tenantID interactionID 0) (λ r,
    match r with
    | inl e => RRet (inl e)
    | inr (projection, _) =>
        if negb (fs_Visibility (pj_State projection) =? Visible)%N || time_IsZero (pj_DatabaseNow projection)
        then RRet (inr false)
        else RRet (inr (pj_DatabaseNow projection <? fs_LeaseUntil (pj_State projection))%Z)
    end).
End Projector.
