(* ===== verification/RouteProjectionPg.v ===== *)
(** The PostgreSQL store of the route projection (internal/deliverypg/projection.go),
    on the tables of [DeliveryPg]. *)

From S2P Require Import Prelude Bytes Subjects Uuid PgTx Delivery DeliveryPg RouteProjection.

#[export] Instance rerr_tx : TxErr rerr := ErrRouteStore.
Abbreviation RTx := (PgTx.Tx DPg rerr).

(** A timestamptz keeps microseconds; [nullableTime]. *)
Definition to_micros (t : Z) : Z := (t / 1000)%Z.
Definition of_micros (us : Z) : Z := (us * 1000)%Z.
Definition nullableTime (value : Z) : option Z := if time_IsZero value then None else Some (to_micros value).

Definition visibilityName (visibility : N) : string := if (visibility =? Visible)%N then "visible" else "hidden".

(** JSON of facts, snapshots and alerts. *)
Class RouteJson := {
  marshalFact : RouteFact → option string;
  marshal_snapshot : Snapshot → option string;
  jsonMarshalAlert : Snapshot → RouteFact → option string;
}.

Section Store.
#[local] Open Scope tx_scope.
Context `{RouteJson} (sha256 : string → string).
(** What happens to the n-th statement, the clock and the id generator at that
    tick, the cast of a text to uuid. *)
Context (faults : nat → fault) (now : nat → Z) (new_id : nat → string) (uuid_cast : string → option string).

#[local] Abbreviation stmt := (PgTx.stmt faults).
#[local] Abbreviation stmt_at := (PgTx.stmt_at faults).
#[local] Abbreviation query := (PgTx.query faults).
#[local] Abbreviation write := (PgTx.write faults).
#[local] Abbreviation tx := (run_tx faults).
#[local] Abbreviation Hash := (HashRouteFact sha256).

(** A query whose uint64 argument must fit a bigint. *)
Definition query_version {A} (v : N) (f : DPg → A) : RTx A :=
  stmt (λ _ d, if bigint v then (inr (f d), d) else (inl ErrRouteStore, d)).

(** * Reading *)

(** The folded state a head row holds; no row reads as the zero state. *)
Definition head_state (row : option RouteHeadRow) : FoldedState :=
  match row with
  | None => mkFolded 0 "" zero_hash Hidden "" "" 0 zero_time
  | Some h =>
      mkFolded (rh_version h) (default "" (rh_event h)) (default zero_hash (rh_hash h))
        (if decide (rh_visibility h = "visible") then Visible else Hidden)
        (default "" (rh_authorization h)) (default "" (rh_receipt h)) (rh_generation h)
        (match rh_lease h with Some us => of_micros us | None => zero_time end)
  end.

Definition Load (tenantID interactionID : string) (version : N) :
    DState → (rerr + (Projection * option FactIdentity)) * DState :=
  tx tenantID
    (clock <- stmt_at (λ n _ d, (inr (now n), d)) ;;
     row <- query (λ d, d_heads d !! (tenantID, interactionID)) ;;
     let projection := mkProjection tenantID interactionID (head_state row) (of_micros clock) in
     if (version =? 0)%N then tx_ret (projection, None)
     else
       known <- query_version version (λ d, d_versions d !! (tenantID, interactionID, version)) ;;
       tx_ret (projection, (λ r, mkFactIdentity (rv_event r) (rv_hash r)) <$> known)).

Definition Authorization (tenantID authorizationID : string) : DState → (rerr + option AuthorizationBinding) * DState :=
  tx tenantID
    (stmt (λ _ d,
       match uuid_cast authorizationID with
       | None => (inl ErrRouteStore, d)
       | Some aid =>
           (inr (r ← d_authorizations d !! (tenantID, aid);
                 if decide (az_visibility r = "PENDING_NOT_VISIBLE")
                 then Some (mkBinding (az_interaction r) (az_receipt r)) else None), d)
       end)).

(** * Statements *)

Definition no_route_head : RouteHeadRow := mkRouteHeadRow 0 None None "hidden" None None 0 None None None.

Definition ensureProjectionHead (tenantID interactionID : string) : RTx unit :=
  write tenantID (λ _, true)
    (λ d, match d_heads d !! (tenantID, interactionID) with
          | Some _ => d
          | None => set_heads (<[(tenantID, interactionID) := no_route_head]> (d_heads d)) d
          end).

(** SELECT route_version ... FOR UPDATE. *)
Definition lock_head (tenantID interactionID : string) : RTx N :=
  ensureProjectionHead tenantID interactionID ;;;
  row <- query (λ d, d_heads d !! (tenantID, interactionID)) ;;
  match row with Some h => tx_ret (rh_version h) | None => tx_fail ErrRouteStore end.

Definition pendingIntentMatches (tenantID token interactionID : string) (observed : N) : RTx bool :=
  query_version observed (λ d,
    match d_intents d !! (tenantID, token) with
    | Some r => bool_decide (rn_interaction r = interactionID) && (rn_observed r =? observed)%N
                && bool_decide (rn_status r = "pending")
    | None => false
    end).

Definition insert_route_version (t i : string) (v : N) (row : RouteVersionRow) : RTx unit :=
  write t (λ d, bigint v && (0 <? v)%N && bool_decide (d_versions d !! (t, i, v) = None))
    (λ d, set_versions (<[(t, i, v) := row]> (d_versions d)) d).

(** PRIMARY KEY (tenant_id, event_id), UNIQUE (tenant_id, interaction_id, route_version). *)
Definition insert_route_event (t i event : string) (v : N) (hash : string) : RTx unit :=
  write t
    (λ d, bigint v && (0 <? v)%N && bool_decide (d_events d !! (t, event) = None)
          && negb (bool_decide (map_Exists (λ k r, k.1 = t ∧ re_interaction r = i ∧ re_version r = v) (d_events d))))
    (λ d, set_events (<[(t, event) := mkRouteEventRow i v hash]> (d_events d)) d).

Definition insertFactLedgers (fact : RouteFact) : RTx unit :=
  match marshalFact fact with
  | None => tx_fail ErrRouteStore
  | Some body =>
      let hash := Hash fact in
      insert_route_version (rf_TenantID fact) (rf_InteractionID fact) (rf_Version fact)
        (mkRouteVersionRow (rf_EventID fact) hash body) ;;;
      insert_route_event (rf_TenantID fact) (rf_InteractionID fact) (rf_EventID fact) (rf_Version fact) hash
  end.

Fixpoint insert_facts (facts : list RouteFact) : RTx unit :=
  match facts with
  | [] => tx_ret tt
  | fact :: rest => insertFactLedgers fact ;;; insert_facts rest
  end.

(** The head row of a folded state; [None] when a column refuses its value. *)
Definition head_row (st : FoldedState) (floor : option N) (provenance : option string) : option RouteHeadRow :=
  if bigint (fs_Version st) && bigint (fs_VisibilityGeneration st) then
    event ← uuid_cast (fs_EventID st);
    authorization ← uuid_column uuid_cast (fs_DeliveryAuthorizationID st);
    receipt ← uuid_column uuid_cast (fs_ReceiptID st);
    Some (mkRouteHeadRow (fs_Version st) (Some event) (Some (fs_Hash st)) (visibilityName (fs_Visibility st))
            authorization receipt (fs_VisibilityGeneration st) (nullableTime (fs_LeaseUntil st)) floor provenance)
  else None.

(** UPDATE route_projection_heads; [f] makes the row from the row it replaces. *)
Definition update_head (t i : string) (f : RouteHeadRow → option RouteHeadRow) : RTx unit :=
  stmt (λ _ d,
    match d_heads d !! (t, i) with
    | None => (inr (), d)
    | Some h => match f h with
                | Some h' => (inr (), set_heads (<[(t, i) := h']> (d_heads d)) d)
                | None => (inl ErrRouteStore, d)
                end
    end).

Definition set_intent_status (status : string) (r : RouteIntentRow) : RouteIntentRow :=
  mkRouteIntentRow (rn_interaction r) (rn_observed r) (rn_from r) (rn_to r) (rn_held_event r) (rn_held_hash r) status.

(** UPDATE projection_reconcile_intents ... AND status = 'pending'. *)
Definition finish_intent (t token status : string) : RTx unit :=
  write t (λ _, true)
    (λ d, set_intents (alter (λ r, if decide (rn_status r = "pending") then set_intent_status status r else r)
                         (t, token) (d_intents d)) d).

(** * Operations *)

Definition installBatchTx (tenantID interactionID : string) (expected : N) (facts : list RouteFact)
    (final : FoldedState) (reconcileToken : string) : RTx bool :=
  current <- lock_head tenantID interactionID ;;
  if negb (current =? expected)%N then tx_ret false
  else
    ok <- (if decide (reconcileToken = "") then tx_ret true
           else pendingIntentMatches tenantID reconcileToken interactionID expected) ;;
    if negb ok then tx_ret false
    else
      insert_facts facts ;;;
      update_head tenantID interactionID (λ h, head_row final (rh_floor h) (rh_provenance h)) ;;;
      (if decide (reconcileToken = "") then tx_ret tt else finish_intent tenantID reconcileToken "installed") ;;;
      tx_ret true.

Definition InstallBatch (expected : N) (facts : list RouteFact) (final : FoldedState) (s : DState) : (rerr + bool) * DState :=
  match facts with
  | [] => (inl ErrInvalidReplay, s)
  | fact :: _ => tx (rf_TenantID fact)
      (installBatchTx (rf_TenantID fact) (rf_InteractionID fact) expected facts final "") s
  end.

Definition InstallReconcileBatch (intent : ReconcileIntent) (facts : list RouteFact) (final : FoldedState) (s : DState) :
    (rerr + bool) * DState :=
  match facts with
  | [] => (inl ErrInvalidReplay, s)
  | _ :: _ => tx (rc_TenantID intent)
      (installBatchTx (rc_TenantID intent) (rc_InteractionID intent) (rc_ObservedVersion intent) facts final
         (rc_Token intent)) s
  end.

(** The pending intent of an interaction; a partial unique index allows one. *)
Definition pending_route_intent (d : DPg) (t i : string) : option ((string * string) * RouteIntentRow) :=
  head (filter (λ p : (string * string) * RouteIntentRow,
                  p.1.1 = t ∧ rn_interaction p.2 = i ∧ rn_status p.2 = "pending") (map_to_list (d_intents d))).

Definition insert_route_intent (p : ReconcileIntent) : RTx unit :=
  write (rc_TenantID p)
    (λ d, bigint (rc_ObservedVersion p) && bigint (rc_RequestedFrom p) && bigint (rc_RequestedTo p)
          && (0 <? rc_RequestedFrom p)%N && (rc_RequestedFrom p <=? rc_RequestedTo p)%N
          && bool_decide (d_intents d !! (rc_TenantID p, rc_Token p) = None)
          && bool_decide (pending_route_intent d (rc_TenantID p) (rc_InteractionID p) = None))
    (λ d, set_intents (<[(rc_TenantID p, rc_Token p) :=
            mkRouteIntentRow (rc_InteractionID p) (rc_ObservedVersion p) (rc_RequestedFrom p) (rc_RequestedTo p)
              (rc_HeldEventID p) (rc_HeldHash p) "pending"]> (d_intents d)) d).

Definition BeginReconcile (proposed : ReconcileIntent) : DState → (rerr + (ReconcileIntent * bool)) * DState :=
  tx (rc_TenantID proposed)
    (current <- lock_head (rc_TenantID proposed) (rc_InteractionID proposed) ;;
     if negb (current =? rc_ObservedVersion proposed)%N then tx_ret (proposed, false)
     else
       row <- query (λ d, pending_route_intent d (rc_TenantID proposed) (rc_InteractionID proposed)) ;;
       match row with
       | Some (id, r) =>
           let retained := mkReconcile id.2 (rc_TenantID proposed) (rc_InteractionID proposed) (rn_observed r)
                             (rn_from r) (rn_to r) (rn_held_event r) (rn_held_hash r) in
           tx_ret (retained,
                   (rn_observed r =? rc_ObservedVersion proposed)%N && (rn_from r =? rc_RequestedFrom proposed)%N
                   && (rn_to r =? rc_RequestedTo proposed)%N && bool_decide (rn_held_event r = rc_HeldEventID proposed)
                   && bool_decide (rn_held_hash r = rc_HeldHash proposed))
       | None => insert_route_intent proposed ;;; tx_ret (proposed, true)
       end).

(** The head is locked at the intent's version and the intent is pending. *)
Definition lock_intent (intent : ReconcileIntent) : RTx bool :=
  current <- lock_head (rc_TenantID intent) (rc_InteractionID intent) ;;
  if negb (current =? rc_ObservedVersion intent)%N then tx_ret false
  else pendingIntentMatches (rc_TenantID intent) (rc_Token intent) (rc_InteractionID intent) (rc_ObservedVersion intent).

Definition InstallHistoricalIdentity (intent : ReconcileIntent) (fact : RouteFact) : DState → (rerr + bool) * DState :=
  tx (rc_TenantID intent)
    (ok <- lock_intent intent ;;
     if negb ok then tx_ret false
     else
       insertFactLedgers fact ;;;
       write (rc_TenantID intent) (λ _, true)
         (λ d, set_intents (alter (set_intent_status "installed") (rc_TenantID intent, rc_Token intent) (d_intents d)) d) ;;;
       tx_ret true).

(** INSERT INTO route_projection_dlq ... ON CONFLICT DO NOTHING; a clash of the
    generated key is an error. *)
Definition insert_dlq (t : string) (row : RouteDlqRow) : RTx unit :=
  stmt_at (λ n s d,
    let id := (t, new_id n) in
    let dup := bool_decide (map_Exists (λ k r, k.1 = t ∧ rd_interaction r = rd_interaction row ∧
                 rd_event r = rd_event row ∧ rd_reason r = rd_reason row) (d_dlq d)) in
    if bool_decide (s = t) && bigint (rd_version row) && (0 <? rd_version row)%N
       && (dup || bool_decide (d_dlq d !! id = None))
    then (inr (), if dup then d else set_dlq (<[id := row]> (d_dlq d)) d)
    else (inl ErrRouteStore, d)).

(** INSERT INTO projection_invariant_alert_outbox ... ON CONFLICT (tenant_id,
    reconcile_token) DO NOTHING. *)
Definition insert_alert (t : string) (row : RouteAlertRow) : RTx unit :=
  stmt_at (λ n s d,
    let id := (t, new_id n) in
    let dup := bool_decide (map_Exists (λ k r, k.1 = t ∧ rl_token r = rl_token row) (d_alerts d)) in
    if bool_decide (s = t) && (dup || bool_decide (d_alerts d !! id = None))
    then (inr (), if dup then d else set_alerts (<[id := row]> (d_alerts d)) d)
    else (inl ErrRouteStore, d)).

Definition InstallSnapshotAndAudit (intent : ReconcileIntent) (snapshot : Snapshot) (held : RouteFact) :
    DState → (rerr + bool) * DState :=
  let t := rc_TenantID intent in
  let i := rc_InteractionID intent in
  let st := pj_State (ss_Projection snapshot) in
  tx t
    (ok <- lock_intent intent ;;
     if negb ok then tx_ret false
     else
       update_head t i (λ _, if bigint (ss_HistoryFloor snapshot) && text_ok (ss_Provenance snapshot)
                             then head_row st (Some (ss_HistoryFloor snapshot)) (Some (ss_Provenance snapshot))
                             else None) ;;;
       match marshal_snapshot snapshot with
       | None => tx_fail ErrRouteStore
       | Some snapshotBody =>
           insert_route_version t i (fs_Version st) (mkRouteVersionRow (fs_EventID st) (fs_Hash st) snapshotBody) ;;;
           insert_route_event t i (fs_EventID st) (fs_Version st) (fs_Hash st) ;;;
           match marshalFact held, jsonMarshalAlert snapshot held with
           | Some heldBody, Some alertBody =>
               insert_dlq t (mkRouteDlqRow (Some (rc_Token intent)) i (rf_EventID held) (rf_Version held) (Hash held)
                               "UNKNOWN_STALE_HISTORY" heldBody) ;;;
               insert_alert t (mkRouteAlertRow (rc_Token intent) i alertBody) ;;;
               finish_intent t (rc_Token intent) "audited" ;;;
               tx_ret true
           | _, _ => tx_fail ErrRouteStore
           end
       end).

(** The reason that is passed is not used. *)
Definition RecordPoison (fact : RouteFact) (reason : rerr) (s : DState) : (rerr + unit) * DState :=
  match marshalFact fact with
  | None => (inl ErrRouteStore, s)
  | Some body =>
      tx (rf_TenantID fact)
        (insert_dlq (rf_TenantID fact) (mkRouteDlqRow None (rf_InteractionID fact) (rf_EventID fact) (rf_Version fact)
                                          (Hash fact) "DIVERGENT_HISTORY" body)) s
  end.

(** * Running programs *)

Definition exec_call {B} (c : rcall B) : DState → B * DState :=
  match c in rcall B return DState → B * DState with
  | CLoad t i v => Load t i v
  | CAuthorization t a => Authorization t a
  | CInstallBatch e fs final => InstallBatch e fs final
  | CBeginReconcile intent => BeginReconcile intent
  | CInstallReconcileBatch intent fs final => InstallReconcileBatch intent fs final
  | CInstallHistoricalIdentity intent fact => InstallHistoricalIdentity intent fact
  | CInstallSnapshotAndAudit intent sn held => InstallSnapshotAndAudit intent sn held
  | CRecordPoison fact reason => RecordPoison fact reason
  end.

(** One projector alone, with the answers of its router. *)
Fixpoint exec {A} (replay : ReplayRequest → rerr + ReplayResult) (snap : SnapshotRequest → rerr + Snapshot)
    (p : rprog A) (s : DState) : A * DState :=
  match p with
  | RRet a => (a, s)
  | RCall c k => let '(x, s') := exec_call c s in exec replay snap (k x) s'
  | RReplay _ q k => exec replay snap (k (replay q)) s
  | RSnapshot _ q k => exec replay snap (k (snap q)) s
  | RNewID k => exec replay snap (k (new_id (st_clock s))) s
  end.
End Store.
