(* ===== verification/RouteTheorems.v ===== *)
(** The invariant of the route projection's tables and the proof that every
    operation of its PostgreSQL store keeps it: heads are their ledger entries,
    a visible head has an accepted delivery, ledgers agree and only grow. *)

From S2P Require Import Prelude Bytes Subjects Uuid PgTx Delivery DeliveryPg RouteProjection RouteProjectionPg.

(** * Folds *)

Section Folds.
Context `{UuidLib} (sha256 : string → string).
#[local] Abbreviation Hash := (HashRouteFact sha256).

(** What a folded state says of the last fact. *)
Definition shows (st : FoldedState) (f : RouteFact) : Prop :=
  fs_Version st = rf_Version f ∧ fs_EventID st = rf_EventID f ∧ fs_Hash st = Hash f ∧
  if decide (rf_Kind f = FactRinging) then
    fs_Visibility st = Visible ∧ fs_DeliveryAuthorizationID st = rf_DeliveryAuthorizationID f ∧
    fs_ReceiptID st = rf_ReceiptID f ∧ fs_VisibilityGeneration st = rf_Version f ∧ fs_LeaseUntil st = rf_LeaseUntil f
  else fs_Visibility st = Hidden.

Lemma validateFact_spec f :
  validateFact f = None →
  (0 < rf_Version f)%N ∧ canonicalUUIDv7 (rf_TenantID f) = true ∧ canonicalUUIDv7 (rf_InteractionID f) = true ∧
  canonicalUUIDv7 (rf_EventID f) = true ∧
  (rf_Kind f = FactReserved ∨ rf_Kind f = FactTerminal ∨
   rf_Kind f = FactRinging ∧ canonicalUUIDv7 (rf_DeliveryAuthorizationID f) = true ∧
     canonicalUUIDv7 (rf_ReceiptID f) = true ∧ rf_VisibilityGeneration f = rf_Version f ∧
     time_IsZero (rf_LeaseUntil f) = false).
Proof.
  unfold validateFact. intros Hv. destruct (forallb _ _) eqn:Ef; [|done]. cbn [negb] in Hv.
  cbn [forallb] in Ef. apply andb_prop in Ef as [Ht [Hi [He _]%andb_prop]%andb_prop].
  destruct (_ || _ || _) eqn:Ek; [done|]. apply orb_false_iff in Ek as [[E0%N.eqb_neq E1%N.ltb_ge]%orb_false_iff E2%N.ltb_ge].
  split_and!; [lia|done..|]. unfold FactReserved, FactTerminal, FactRinging in *.
  assert (rf_Kind f = 1 ∨ rf_Kind f = 2 ∨ rf_Kind f = 3)%N as [Hk|[Hk|Hk]] by lia; [by left| |by right; left].
  right. right. rewrite Hk in Hv. cbn [N.eqb Pos.eqb andb] in Hv.
  destruct (_ || _) eqn:Er; [done|].
  apply orb_false_iff in Er as [[[Ha Hr]%orb_false_iff Hg]%orb_false_iff Hz].
  apply negb_false_iff in Ha, Hr, Hg. apply N.eqb_eq in Hg. by split_and!.
Qed.

Lemma fold_fact_shows st f : validateFact f = None → shows (fold_fact sha256 st f) f.
Proof.
  intros (_ & _ & _ & _ & Hk)%validateFact_spec. unfold fold_fact, shows.
  destruct Hk as [Hk|[Hk|(Hk & _ & _ & Hg & _)]]; rewrite Hk; cbn; by split_and!.
Qed.

Lemma inc64_id v : (v < 18446744073709551615)%N → inc64 v = (v + 1)%N.
Proof. intros ?. unfold inc64. apply N.mod_small. lia. Qed.

(** The version after a valid fact is the next one: it does not wrap. *)
Lemma inc64_valid v w : (v < 18446744073709551616)%N → w = inc64 v → (0 < w)%N → w = (v + 1)%N ∧ (w < 18446744073709551616)%N.
Proof.
  unfold inc64. intros Hv -> Hw. destruct (decide (v = 18446744073709551615)%N) as [->|?]; [done|].
  rewrite N.mod_small by lia. lia.
Qed.

(** A fold that succeeds: its facts are valid, of one interaction and of
    consecutive versions. *)
Lemma fold_facts_spec t i st facts final :
  (fs_Version st < 18446744073709551616)%N → fold_facts sha256 t i st facts = Some final →
  (fs_Version st ≤ fs_Version final)%N ∧
  Forall (λ f, validateFact f = None ∧ rf_TenantID f = t ∧ rf_InteractionID f = i ∧
               (fs_Version st < rf_Version f ≤ fs_Version final)%N) facts ∧
  (∀ v, (fs_Version st < v ≤ fs_Version final)%N → ∃ f, f ∈ facts ∧ rf_Version f = v) ∧
  match last facts with None => final = st | Some f => shows final f end.
Proof.
  revert st. induction facts as [|f facts IH]; intros st Hst Hf; cbn [fold_facts] in Hf.
  - injection Hf as <-. split_and!; [lia|done| |done]. intros v Hv. lia.
  - destruct (validateFact f) as [e|] eqn:Ev; [done|]. rewrite bool_decide_eq_false_2 in Hf by (by intros []).
    destruct (rf_Version f =? _)%N eqn:En; [|done]. apply N.eqb_eq in En. cbn [negb orb] in Hf.
    destruct (bool_decide (rf_TenantID f = t)) eqn:Et; [|done]. apply bool_decide_eq_true in Et.
    destruct (bool_decide (rf_InteractionID f = i)) eqn:Ei; [|done]. apply bool_decide_eq_true in Ei. cbn in Hf.
    destruct (validateFact_spec f Ev) as (Hpos & _). destruct (inc64_valid _ _ Hst En Hpos) as [Hnext Hlt].
    pose proof (fold_fact_shows st f Ev) as Hsh. pose proof Hsh as (Hver & _).
    rewrite <-Hver in Hlt. destruct (IH _ Hlt Hf) as (Hle & Hall & Hcov & Hlast). rewrite Hver in *.
    split_and!; [lia| | |].
    + constructor; [split_and!; [done..|lia|lia]|]. eapply Forall_impl; [exact Hall|].
      intros g (?&?&?&?). split_and!; [done..|lia|lia].
    + intros v Hv. destruct (decide (v = rf_Version f)) as [->|Hne].
      * exists f. set_solver.
      * destruct (Hcov v) as (g & Hg & Hgv); [lia|]. exists g. set_solver.
    + rewrite last_cons. destruct (last facts) as [g|]; [done|]. by subst final.
Qed.
End Folds.

(** * The invariant *)

Section Invariant.
Context `{UuidLib, RouteJson} (sha256 : string → string).
Context (uuid_cast : string → option string).
#[local] Abbreviation Hash := (HashRouteFact sha256).

(** An accepted delivery of an interaction: its authorization and its receipt. *)
Definition bound (d : DPg) (t i aid rid : string) : Prop :=
  ∃ row, d_authorizations d !! (t, aid) = Some row ∧ az_interaction row = i ∧ az_receipt row = rid.

(** What the columns of a head say about visibility. *)
Definition head_shows (d : DPg) (t i : string) (h : RouteHeadRow) (visible : bool) (aid rid : string) (lease : Z) : Prop :=
  if visible then
    rh_visibility h = "visible" ∧ rh_authorization h = Some aid ∧ rh_receipt h = Some rid ∧
    rh_generation h = rh_version h ∧ rh_lease h = Some (to_micros lease) ∧ bound d t i aid rid
  else rh_visibility h = "hidden".

(** A head is the row of version 0, or the state after the fact of its version,
    or a snapshot. *)
Inductive head_ok (d : DPg) (t i : string) (h : RouteHeadRow) : Prop :=
| head_initial : h = no_route_head → head_ok d t i h
| head_fact f body :
    validateFact f = None → rf_TenantID f = t → rf_InteractionID f = i → marshalFact f = Some body →
    rh_version h = rf_Version f → rh_event h = Some (rf_EventID f) → rh_hash h = Some (Hash f) →
    d_versions d !! (t, i, rf_Version f) = Some (mkRouteVersionRow (rf_EventID f) (Hash f) body) →
    head_shows d t i h (bool_decide (rf_Kind f = FactRinging)) (rf_DeliveryAuthorizationID f) (rf_ReceiptID f) (rf_LeaseUntil f) →
    head_ok d t i h
| head_snapshot sn body :
    let st := pj_State (ss_Projection sn) in
    marshal_snapshot sn = Some body → (0 < fs_Version st)%N →
    rh_version h = fs_Version st → rh_event h = Some (fs_EventID st) → rh_hash h = Some (fs_Hash st) →
    rh_provenance h = Some (ss_Provenance sn) →
    d_versions d !! (t, i, fs_Version st) = Some (mkRouteVersionRow (fs_EventID st) (fs_Hash st) body) →
    head_shows d t i h (bool_decide (fs_Visibility st = Visible)) (fs_DeliveryAuthorizationID st) (fs_ReceiptID st)
      (fs_LeaseUntil st) →
    head_ok d t i h.

(** The two ledgers hold the same entries. *)
Definition ledgers_agree (d : DPg) : Prop :=
  (∀ t e er, d_events d !! (t, e) = Some er →
     ∃ r, d_versions d !! (t, re_interaction er, re_version er) = Some r ∧ rv_event r = e ∧ rv_hash r = re_hash er) ∧
  (∀ t i v r, d_versions d !! (t, i, v) = Some r →
     d_events d !! (t, rv_event r) = Some (mkRouteEventRow i v (rv_hash r))).

(** The columns of a head hold what the database accepts again. *)
Definition column_ok (c : option string) : Prop :=
  ∀ u, c = Some u → (∃ v, uuid_cast v = Some u) ∧ String.get 14 u = Some "7"%char.

Definition cols_ok (h : RouteHeadRow) : Prop :=
  bigint (rh_version h) = true ∧ bigint (rh_generation h) = true ∧
  column_ok (rh_authorization h) ∧ column_ok (rh_receipt h).

Record route_inv (d : DPg) : Prop := mkRouteInv {
  ri_head t i h : d_heads d !! (t, i) = Some h → head_ok d t i h ∧ cols_ok h;
  ri_entry t i v r : d_versions d !! (t, i, v) = Some r → ∃ h, d_heads d !! (t, i) = Some h ∧ (0 < v ≤ rh_version h)%N;
  ri_dense t i h v : d_heads d !! (t, i) = Some h → rh_provenance h = None → (0 < v ≤ rh_version h)%N →
    is_Some (d_versions d !! (t, i, v));
  ri_ledgers : ledgers_agree d;
}.

Definition head_version (d : DPg) (t i : string) : N := default 0%N (rh_version <$> d_heads d !! (t, i)).

(** What any call may do: accepted deliveries and ledger entries stay, heads never
    move back. *)
Definition evolves (d d' : DPg) : Prop :=
  d_authorizations d ⊆ d_authorizations d' ∧ d_versions d ⊆ d_versions d' ∧ d_events d ⊆ d_events d' ∧
  ∀ t i, (head_version d t i ≤ head_version d' t i)%N.

#[export] Instance evolves_preorder : PreOrder evolves.
Proof.
  split.
  - intros d. split_and!; try done.
  - intros d1 d2 d3 (H1 & H2 & H3 & H4) (H5 & H6 & H7 & H8). split_and!; [by etrans..|].
    intros t i. specialize (H4 t i). specialize (H8 t i). lia.
Qed.

Lemma route_inv_empty : route_inv dpg_empty.
Proof. split; [..|split]; simpl; intros *; by rewrite lookup_empty. Qed.

Lemma bound_evolves d d' t i aid rid : d_authorizations d ⊆ d_authorizations d' → bound d t i aid rid → bound d' t i aid rid.
Proof. intros Hs (row & Hr & ?). exists row. split; [|done]. by eapply lookup_weaken. Qed.

Lemma head_shows_evolves d d' t i h b aid rid lease :
  d_authorizations d ⊆ d_authorizations d' → head_shows d t i h b aid rid lease → head_shows d' t i h b aid rid lease.
Proof. intros Hs. destruct b; [|done]. intros (?&?&?&?&?&?). split_and!; eauto using bound_evolves. Qed.

Lemma head_ok_evolves d d' t i h :
  d_authorizations d ⊆ d_authorizations d' → d_versions d ⊆ d_versions d' → head_ok d t i h → head_ok d' t i h.
Proof.
  intros Ha Hv [?|f body|sn body].
  - by apply head_initial.
  - eapply head_fact; eauto using lookup_weaken, head_shows_evolves.
  - eapply head_snapshot; eauto using lookup_weaken, head_shows_evolves.
Qed.

(** Changes of other tables. *)
Lemma route_inv_same d d' :
  d_authorizations d ⊆ d_authorizations d' → d_heads d' = d_heads d → d_versions d' = d_versions d →
  d_events d' = d_events d → route_inv d → route_inv d' ∧ evolves d d'.
Proof.
  intros Ha Hh Hv He [H1 H2 H3 H4]. split.
  - split; rewrite ?Hh, ?Hv; [|done..|].
    + intros t i h Hk. destruct (H1 t i h Hk). split; [|done]. eapply head_ok_evolves; [done| |done]. by rewrite Hv.
    + unfold ledgers_agree. by rewrite Hv, He.
  - split_and!; [done|by rewrite Hv|by rewrite He|]. intros t i. unfold head_version. by rewrite Hh.
Qed.

(** An ensured head. *)
Lemma head_version_ensure d t i t' i' :
  head_version (match d_heads d !! (t, i) with
                | Some _ => d
                | None => set_heads (<[(t, i) := no_route_head]> (d_heads d)) d
                end) t' i' = head_version d t' i'.
Proof.
  destruct (d_heads d !! (t, i)) eqn:E; [done|]. unfold head_version. simpl.
  destruct (decide ((t, i) = (t', i'))) as [[= <- <-]|Hne]; [by rewrite lookup_insert_eq, E|by rewrite lookup_insert_ne].
Qed.

Lemma route_inv_ensure d t i :
  route_inv d → d_heads d !! (t, i) = None →
  route_inv (set_heads (<[(t, i) := no_route_head]> (d_heads d)) d).
Proof.
  intros [H1 H2 H3 H4] Hn. split; simpl.
  - intros t' i' h. rewrite lookup_insert_Some. intros [[[= <- <-] <-]|[_ Hh]].
    + split; [by apply head_initial|]. by split_and!.
    + destruct (H1 t' i' h Hh). split; [|done]. by eapply head_ok_evolves; [..|done].
  - intros t' i' v r Hr. destruct (H2 t' i' v r Hr) as (h & Hh & Hv). exists h. split; [|done].
    rewrite lookup_insert_ne; [done|congruence].
  - intros t' i' h v. rewrite lookup_insert_Some. intros [[_ <-]|[_ Hh]]; [simpl; lia|by eapply H3].
  - done.
Qed.
End Invariant.

(** * Transactions keep the invariant *)

Section Transactions.
Context {U : UuidLib} `{RouteJson} (sha256 : string → string).
Context (faults : nat → fault) (now : nat → Z) (new_id : nat → string) (uuid_cast : string → option string).
#[local] Abbreviation Hash := (HashRouteFact sha256).
#[local] Abbreviation route_inv := (route_inv sha256 uuid_cast).

(** The tables after the head of an interaction is there and locked. *)
Definition locked (d : DPg) (t i : string) (v : N) (d' : DPg) : Prop :=
  route_inv d' ∧ evolves d d' ∧ d_authorizations d' = d_authorizations d ∧
  ∃ h, d_heads d' !! (t, i) = Some h ∧ rh_version h = v.

Lemma lock_head_ok d t i : route_inv d → tx_ok t (lock_head faults t i) d (locked d t i).
Proof.
  intros Hd. unfold lock_head, ensureProjectionHead. tx_step. apply tx_ok_write. intros _ _. tx_step. apply tx_ok_query.
  destruct (d_heads d !! (t, i)) as [h|] eqn:Eh.
  - rewrite Eh. apply tx_ok_ret. split_and!; [done..|]. eauto.
  - simpl. rewrite lookup_insert_eq. apply tx_ok_ret. split_and!; [by apply route_inv_ensure| |done|].
    + split_and!; [done..|]. intros t' i'. pose proof (head_version_ensure d t i t' i') as He. rewrite Eh in He. by rewrite He.
    + exists no_route_head. simpl. by rewrite lookup_insert_eq.
Qed.

Lemma pendingIntentMatches_ok d t token i v (Q : bool → DPg → Prop) :
  (∀ b, Q b d) → tx_ok t (pendingIntentMatches faults t token i v) d Q.
Proof. intros HQ. apply tx_ok_stmt. by destruct (bigint v). Qed.

Lemma lock_intent_ok d intent :
  route_inv d →
  tx_ok (rc_TenantID intent) (lock_intent faults intent) d
    (λ ok d', route_inv d' ∧ evolves d d' ∧
       (ok = true → locked d (rc_TenantID intent) (rc_InteractionID intent) (rc_ObservedVersion intent) d')).
Proof.
  intros Hd. unfold lock_intent. tx_step. eapply tx_ok_mono; [by apply lock_head_ok|].
  intros v d1 Hl. pose proof Hl as (Hd1 & He1 & _). destruct (v =? _)%N eqn:Ev; cbn [negb].
  - apply N.eqb_eq in Ev as ->. by apply pendingIntentMatches_ok.
  - by apply tx_ok_ret.
Qed.

(** ** Ledger entries *)

Definition fact_key (f : RouteFact) : string * string * N := (rf_TenantID f, rf_InteractionID f, rf_Version f).

(** Every table but the ledgers. *)
Definition same_but_ledgers (d d' : DPg) : Prop :=
  d_authorizations d' = d_authorizations d ∧ d_log d' = d_log d ∧ d_outbox d' = d_outbox d ∧ d_heads d' = d_heads d.

(** Ledger entries with keys in [ks] were added. *)
Definition ledgers_grow (d d' : DPg) (ks : list (string * string * N)) : Prop :=
  same_but_ledgers d d' ∧ d_versions d ⊆ d_versions d' ∧ d_events d ⊆ d_events d' ∧
  (ledgers_agree d → ledgers_agree d') ∧
  (∀ k r, d_versions d' !! k = Some r → d_versions d !! k = Some r ∨ k ∈ ks ∧ d_versions d !! k = None) ∧
  (∀ k, k ∈ ks → is_Some (d_versions d' !! k) ∧ (0 < k.2)%N ∧ bigint k.2 = true).

Lemma ledger_entry_ok d t i v event hash body :
  tx_ok t (tx_bind (insert_route_version faults t i v (mkRouteVersionRow event hash body))
             (λ _, insert_route_event faults t i event v hash)) d
    (λ _ d', ledgers_grow d d' [(t, i, v)] ∧ d_versions d' !! (t, i, v) = Some (mkRouteVersionRow event hash body)).
Proof.
  unfold insert_route_version, insert_route_event. tx_step. apply tx_ok_write. intros _ Hv.
  apply tx_ok_write. intros _ He. apply andb_prop in Hv as [[Hb Hp%N.ltb_lt]%andb_prop Hn%bool_decide_eq_true].
  apply andb_prop in He as [[_ He%bool_decide_eq_true]%andb_prop Hu%negb_true_iff%bool_decide_eq_false]. simpl in *.
  split; [|by rewrite lookup_insert_eq].
  split_and!; simpl; [by split_and!|by apply insert_subseteq|by apply insert_subseteq| | |].
  - intros [H1 H2]. split; simpl.
    + intros t' e er. rewrite lookup_insert_Some. intros [[[= <- <-] <-]|[_ Her]].
      * eexists. simpl. by rewrite lookup_insert_eq.
      * destruct (H1 t' e er Her) as (r & Hr & ?). exists r. split; [|done]. rewrite lookup_insert_ne; [done|congruence].
    + intros t' i' v' r. rewrite lookup_insert_Some. intros [[[= <- <- <-] <-]|[_ Hr]].
      * by rewrite lookup_insert_eq.
      * rewrite lookup_insert_ne; [by apply H2|]. apply H2 in Hr. congruence.
  - intros k r. rewrite lookup_insert_Some. intros [[<- _]|[_ ?]]; [right; set_solver|by left].
  - intros k Hk. apply list_elem_of_singleton in Hk as ->. rewrite lookup_insert_eq. split_and!; eauto.
Qed.

Lemma ledgers_grow_trans d d1 d2 ks1 ks2 :
  ledgers_grow d d1 ks1 → ledgers_grow d1 d2 ks2 → ledgers_grow d d2 (ks1 ++ ks2).
Proof.
  intros ((?&?&?&?) & Hv & He & Hl & Hnew & Hks) ((?&?&?&?) & Hv' & He' & Hl' & Hnew' & Hks').
  split_and!; [split_and!; congruence|by etrans|by etrans|by eauto| |].
  - intros k r Hk. apply Hnew' in Hk as [Hk|[Hk Hnone]].
    + apply Hnew in Hk as [?|[? ?]]; [by left|]. right. set_solver.
    + right. split; [set_solver|]. destruct (d_versions d !! k) eqn:E; [|done].
      eapply lookup_weaken in E; [|exact Hv]. congruence.
  - intros k [Hk|Hk]%elem_of_app; [|by apply Hks'].
    destruct (Hks k Hk) as ([r Hr] & ? & ?). split_and!; [|done..]. exists r. by eapply lookup_weaken.
Qed.

(** The rows of a list of facts. *)
Lemma insert_facts_ok d t facts :
  Forall (λ f, rf_TenantID f = t) facts →
  tx_ok t (insert_facts sha256 faults facts) d
    (λ _ d', ledgers_grow d d' (fact_key <$> facts) ∧
       ∀ f, f ∈ facts → ∃ body, marshalFact f = Some body ∧
         d_versions d' !! fact_key f = Some (mkRouteVersionRow (rf_EventID f) (Hash f) body)).
Proof.
  intros Ht. revert d. induction Ht as [|f facts Hf Ht IH]; intros d; cbn [insert_facts].
  - apply tx_ok_ret. split; [|set_solver]. split_and!; try done; set_solver.
  - unfold insertFactLedgers at 1. tx_step. destruct (marshalFact f) as [body|] eqn:Eb; [|apply tx_ok_fail].
    rewrite Hf. eapply tx_ok_mono; [apply ledger_entry_ok|]. intros _ d1 [Hg1 Hr1].
    eapply tx_ok_mono; [apply IH|]. intros _ d2 [Hg2 Hr2]. split.
    + cbn [fmap list_fmap]. unfold fact_key at 1. rewrite Hf. exact (ledgers_grow_trans _ _ _ [_] _ Hg1 Hg2).
    + intros g [->|Hg]%elem_of_cons; [|by apply Hr2]. exists body. split; [done|].
      unfold fact_key. rewrite Hf. destruct Hg2 as (_ & Hv & _). by eapply lookup_weaken.
Qed.

(** ** Installs *)

Lemma install_inv d1 d2 t i h h' ks :
  route_inv d1 → d_heads d1 !! (t, i) = Some h → ledgers_grow d1 d2 ks → (∀ k, k ∈ ks → k.1 = (t, i)) →
  (rh_version h ≤ rh_version h')%N → cols_ok uuid_cast h' → (∀ v, (t, i, v) ∈ ks → (v ≤ rh_version h')%N) →
  (rh_provenance h' = None → rh_provenance h = None ∧ ∀ v, (rh_version h < v ≤ rh_version h')%N → (t, i, v) ∈ ks) →
  head_ok sha256 d2 t i h' →
  let d3 := set_heads (<[(t, i) := h']> (d_heads d2)) d2 in route_inv d3 ∧ evolves d1 d3.
Proof.
  intros [H1 H2 H3 H4] Hh ((Ha & _ & _ & Hhd) & Hv & He & Hl & Hnew & Hks) Hti Hle Hbig Hkv Hprov Hok d3. split.
  - split; subst d3; simpl; rewrite ?Hhd.
    + intros t' i' h0. rewrite lookup_insert_Some. intros [[[= <- <-] <-]|[_ Hh0]].
      * split; [|done]. by eapply head_ok_evolves; [..|exact Hok].
      * destruct (H1 t' i' h0 Hh0) as [Hok0 Hb0]. split; [|done].
        eapply head_ok_evolves; [..|exact Hok0]; simpl; [by rewrite Ha|exact Hv].
    + intros t' i' v r Hr. apply Hnew in Hr as [Hr|[Hk _]].
      * destruct (H2 t' i' v r Hr) as (h0 & Hh0 & Hv0).
        destruct (decide ((t, i) = (t', i'))) as [[= <- <-]|Hne].
        -- exists h'. rewrite lookup_insert_eq. split; [done|]. rewrite Hh in Hh0. injection Hh0 as <-. lia.
        -- exists h0. by rewrite lookup_insert_ne.
      * pose proof (Hti _ Hk) as [= -> ->]. destruct (Hks _ Hk) as (_ & Hpos & _). exists h'.
        rewrite lookup_insert_eq. split; [done|]. apply Hkv in Hk. simpl in Hpos. lia.
    + intros t' i' h0 v. rewrite lookup_insert_Some. intros [[[= <- <-] <-]|[_ Hh0]] Hp Hv0.
      * destruct (Hprov Hp) as [Hp' Hcov]. destruct (decide (v ≤ rh_version h)%N) as [Hvl|Hvl].
        -- destruct (H3 t i h v Hh Hp') as [r Hr]; [lia|]. exists r. by eapply lookup_weaken.
        -- apply Hks, Hcov. lia.
      * destruct (H3 t' i' h0 v Hh0 Hp Hv0) as [r Hr]. exists r. by eapply lookup_weaken.
    + by apply Hl.
  - split_and!; subst d3; simpl; [by rewrite Ha|done..|]. intros t' i'. unfold head_version. simpl. rewrite Hhd.
    destruct (decide ((t, i) = (t', i'))) as [[= <- <-]|Hne].
    + rewrite lookup_insert_eq, Hh. exact Hle.
    + by rewrite lookup_insert_ne.
Qed.

(** The cast of a canonical id is the id. *)
Context (cast_canonical : ∀ v, canonicalUUIDv7 v = true → uuid_cast v = Some v).
Context {UL : UuidLaws U}.

Lemma uuid_column_canonical v c : canonicalUUIDv7 v = true → uuid_column uuid_cast v = Some c → c = Some v.
Proof.
  intros Hc. unfold uuid_column. rewrite decide_False by (by apply canonicalUUIDv7_nonempty).
  rewrite cast_canonical by done. case_bool_decide; congruence.
Qed.

Lemma uuid_column_ok v c : uuid_column uuid_cast v = Some c → column_ok uuid_cast c.
Proof.
  unfold uuid_column. case_decide; [intros [= <-]; by intros u|].
  destruct (uuid_cast v) as [u'|] eqn:E; [|done]. case_bool_decide; [|done]. intros [= <-] u [= <-]. eauto.
Qed.

Lemma head_row_spec st floor prov h :
  head_row uuid_cast st floor prov = Some h → canonicalUUIDv7 (fs_EventID st) = true →
  rh_version h = fs_Version st ∧ cols_ok uuid_cast h ∧ rh_event h = Some (fs_EventID st) ∧
  rh_hash h = Some (fs_Hash st) ∧ rh_visibility h = visibilityName (fs_Visibility st) ∧
  rh_generation h = fs_VisibilityGeneration st ∧ rh_lease h = nullableTime (fs_LeaseUntil st) ∧ rh_provenance h = prov ∧
  (canonicalUUIDv7 (fs_DeliveryAuthorizationID st) = true → rh_authorization h = Some (fs_DeliveryAuthorizationID st)) ∧
  (canonicalUUIDv7 (fs_ReceiptID st) = true → rh_receipt h = Some (fs_ReceiptID st)).
Proof.
  unfold head_row. destruct (bigint (fs_Version st) && _) eqn:Eb; [|done]. apply andb_prop in Eb as [Eb Eg].
  intros Hh Hev. rewrite cast_canonical in Hh by done. simpl in Hh.
  destruct (uuid_column _ (fs_DeliveryAuthorizationID st)) as [ca|] eqn:Ea; [|done]. simpl in Hh.
  destruct (uuid_column _ (fs_ReceiptID st)) as [cr|] eqn:Er; [|done]. simpl in Hh. injection Hh as <-. simpl.
  split_and!; try done; [|intros Hc; eapply uuid_column_canonical in Hc; eauto..].
  split_and!; eauto using uuid_column_ok.
Qed.

Lemma update_head_ok d t i f (Q : unit → DPg → Prop) h :
  d_heads d !! (t, i) = Some h →
  (∀ h', f h = Some h' → Q tt (set_heads (<[(t, i) := h']> (d_heads d)) d)) → tx_ok t (update_head faults t i f) d Q.
Proof. intros Hh HQ. apply tx_ok_stmt. rewrite Hh. destruct (f h) as [h'|]; [by apply HQ|done]. Qed.

(** The facts of a batch have their deliveries. *)
Definition facts_bound (d : DPg) (facts : list RouteFact) : Prop :=
  Forall (λ f, rf_Kind f = FactRinging →
               bound d (rf_TenantID f) (rf_InteractionID f) (rf_DeliveryAuthorizationID f) (rf_ReceiptID f)) facts.

Lemma facts_bound_evolves d d' facts : d_authorizations d ⊆ d_authorizations d' → facts_bound d facts → facts_bound d' facts.
Proof. intros Hs Hb. eapply Forall_impl; [exact Hb|]. eauto using bound_evolves. Qed.

(** The state after a batch shows its last fact. *)
Lemma head_after_fact d t i st f floor prov h body :
  validateFact f = None → rf_TenantID f = t → rf_InteractionID f = i → shows sha256 st f →
  head_row uuid_cast st floor prov = Some h →
  marshalFact f = Some body → d_versions d !! fact_key f = Some (mkRouteVersionRow (rf_EventID f) (Hash f) body) →
  (rf_Kind f = FactRinging → bound d t i (rf_DeliveryAuthorizationID f) (rf_ReceiptID f)) →
  head_ok sha256 d t i h.
Proof.
  intros Hv Ht Hi (Hver & Hev & Hha & Hvis) Hrow Hb Hr Hbd.
  destruct (validateFact_spec f Hv) as (_ & _ & _ & Hce & Hk).
  destruct (head_row_spec _ _ _ _ Hrow) as (H1 & _ & H2 & H3 & H4 & H5 & H6 & _ & H7 & H8); [by rewrite Hev|].
  unfold fact_key in Hr. rewrite Ht, Hi in Hr.
  eapply head_fact; [done..|congruence|congruence|congruence|done|]. unfold head_shows.
  destruct (decide (rf_Kind f = FactRinging)) as [Hr'|Hr'].
  - rewrite bool_decide_eq_true_2 by done. destruct Hvis as (Hv1 & Hv2 & Hv3 & Hv4 & Hv5).
    destruct Hk as [Hk|[Hk|(_ & Hca & Hcr & _ & Hz)]]; [by rewrite Hr' in Hk..|].
    rewrite Hv2, Hv3, Hv4, Hv5 in *. split_and!; [by rewrite H4, Hv1|auto..|congruence| |by apply Hbd].
    rewrite H6. unfold nullableTime. by rewrite Hz.
  - rewrite bool_decide_eq_false_2 by done. by rewrite H4, Hvis.
Qed.

Lemma installBatchTx_ok d t i expected facts final token st0 :
  route_inv d → fs_Version st0 = expected → facts ≠ [] →
  fold_facts sha256 t i st0 facts = Some final → facts_bound d facts →
  tx_ok t (installBatchTx sha256 faults uuid_cast t i expected facts final token) d
    (λ _ d', route_inv d' ∧ evolves d d').
Proof.
  intros Hd Hst Hne Hfold Hbd. unfold installBatchTx. tx_step. eapply tx_ok_mono; [by apply lock_head_ok|].
  intros v d1 (Hd1 & He1 & Ha1 & h & Hh & Hv). destruct (v =? expected)%N eqn:Ev; cbn [negb]; [|by apply tx_ok_ret].
  apply N.eqb_eq in Ev. subst v. tx_step.
  assert (∀ b, tx_ok t (if negb b then tx_ret false else
      tx_bind (insert_facts sha256 faults facts) (λ _, tx_bind
        (update_head faults t i (λ h, head_row uuid_cast final (rh_floor h) (rh_provenance h))) (λ _, tx_bind
        (if decide (token = "") then tx_ret tt else finish_intent faults t token "installed") (λ _, tx_ret true))))
      d1 (λ _ d', route_inv d' ∧ evolves d d')) as Hrest.
  { intros [|]; cbn [negb]; [|by apply tx_ok_ret].
    destruct (ri_head _ _ _ Hd1 t i h Hh) as [_ (Hbig & _)].
    apply N.ltb_lt in Hbig. destruct (fold_facts_spec sha256 t i st0 facts final) as (Hle & Hall & Hcov & Hlast);
      [lia|done|]. rewrite Hst, <-Ev in Hle, Hall, Hcov.
    tx_step. eapply tx_ok_mono; [apply (insert_facts_ok _ t)|].
    { eapply Forall_impl; [exact Hall|]. naive_solver. }
    intros _ d2 [Hg Hrows]. tx_step. eapply update_head_ok; [by destruct Hg as ((_&_&_& ->) & _)|].
    intros h' Hrow. destruct (last facts) as [f|] eqn:El; [|by apply last_None in El].
    assert (f ∈ facts) as Hin by (by apply last_Some_elem_of).
    rewrite Forall_forall in Hall. destruct (Hall f Hin) as (Hvf & Htf & Hif & _).
    destruct (Hrows f Hin) as (body & Hbody & Hrf). pose proof Hlast as (Hver & Hevt & _).
    destruct (validateFact_spec f Hvf) as (_ & _ & _ & Hce & _).
    destruct (head_row_spec _ _ _ _ Hrow) as (Hv' & Hb' & _ & _ & _ & _ & _ & Hp' & _); [by rewrite Hevt|].
    assert (route_inv (set_heads (<[(t, i):=h']> (d_heads d2)) d2) ∧ evolves d1 (set_heads (<[(t, i):=h']> (d_heads d2)) d2))
      as [Hd3 He3].
    { eapply install_inv; [exact Hd1|exact Hh|exact Hg|..]; try done.
      - intros k (g & -> & Hg')%list_elem_of_fmap. destruct (Hall g Hg') as (_ & <- & <- & _). done.
      - rewrite Hv'. done.
      - intros w (g & Hkg & Hg')%list_elem_of_fmap. destruct (Hall g Hg') as (_ & _ & _ & Hb). injection Hkg as _ _ ->. lia.
      - rewrite Hp'. intros Hpn. split; [done|]. intros w Hw. rewrite Hv' in Hw. destruct (Hcov w Hw) as (g & Hg' & <-).
        apply list_elem_of_fmap. exists g. split; [|done]. destruct (Hall g Hg') as (_ & <- & <- & _). done.
      - eapply head_after_fact; eauto. intros Hk. destruct Hg as ((Ha & _) & _).
        unfold facts_bound in Hbd. rewrite Forall_forall in Hbd. eapply bound_evolves; [|rewrite <-Htf, <-Hif; by apply Hbd]. by rewrite Ha, Ha1. }
    tx_step. assert (evolves d (set_heads (<[(t, i):=h']> (d_heads d2)) d2)) as He by (by etrans).
    case_decide.
    - apply tx_ok_ret. by apply tx_ok_ret.
    - apply tx_ok_write. intros _ _. apply tx_ok_ret.
      edestruct (route_inv_same sha256 uuid_cast (set_heads (<[(t, i):=h']> (d_heads d2)) d2)) as [H1 H2]; [..|exact Hd3|];
        [| | | |split; [exact H1|etrans; [exact He|exact H2]]]; done. }
  case_decide; [apply tx_ok_ret, Hrest|]. apply pendingIntentMatches_ok. intros b. apply Hrest.
Qed.

(** A change of the intents, the dead letters or the alerts. *)
Lemma quiet_ok d d1 d2 :
  evolves d d1 → route_inv d1 → d_authorizations d2 = d_authorizations d1 → d_heads d2 = d_heads d1 →
  d_versions d2 = d_versions d1 → d_events d2 = d_events d1 → route_inv d2 ∧ evolves d d2.
Proof.
  intros He Hd Ha Hh Hv Hev. destruct (route_inv_same sha256 uuid_cast d1 d2) as [H1 H2]; [by rewrite Ha|done..|].
  split; [done|by etrans].
Qed.

Lemma InstallHistorical_ok d intent fact :
  route_inv d → rf_TenantID fact = rc_TenantID intent → rf_InteractionID fact = rc_InteractionID intent →
  (rf_Version fact ≤ rc_ObservedVersion intent)%N →
  tx_ok (rc_TenantID intent)
    (tx_bind (lock_intent faults intent) (λ ok, if negb ok then tx_ret false else
       tx_bind (insertFactLedgers sha256 faults fact) (λ _, tx_bind
         (write faults (rc_TenantID intent) (λ _, true)
            (λ d, set_intents (alter (set_intent_status "installed") (rc_TenantID intent, rc_Token intent) (d_intents d)) d))
         (λ _, tx_ret true)))) d
    (λ _ d', route_inv d' ∧ evolves d d').
Proof.
  intros Hd Ht Hi Hle. tx_step. eapply tx_ok_mono; [by apply lock_intent_ok|].
  intros [|] d1 (Hd1 & He1 & Hl); cbn [negb]; [|by apply tx_ok_ret].
  destruct (Hl eq_refl) as (_ & _ & _ & h & Hh & Hv). unfold insertFactLedgers. tx_step.
  destruct (marshalFact fact) as [body|]; [|apply tx_ok_fail]. rewrite Ht, Hi.
  eapply tx_ok_mono; [apply ledger_entry_ok|]. intros _ d2 [Hg _].
  assert (route_inv d2 ∧ evolves d1 d2) as [Hd2 He2].
  { destruct (ri_head _ _ _ Hd1 _ _ _ Hh) as [Hok Hb]. pose proof Hg as ((Ha & _ & _ & Hhd) & Hvs & _).
    rewrite <-Hhd in Hh. assert (d2 = set_heads (<[(rc_TenantID intent, rc_InteractionID intent) := h]> (d_heads d2)) d2) as Heq.
    { rewrite insert_id by done. by destruct d2. }
    rewrite Heq. rewrite Hhd in Hh. eapply install_inv; [done|done|exact Hg|..]; try done.
    - intros k Hk. by apply list_elem_of_singleton in Hk as ->.
    - intros v Hk. apply list_elem_of_singleton in Hk as [= ->]. by rewrite Hv.
    - intros Hp. split; [done|]. intros v Hvv. lia.
    - eapply head_ok_evolves; [..|exact Hok]; [by rewrite Ha|exact Hvs]. }
  tx_step. apply tx_ok_write. intros _ _. apply tx_ok_ret. eapply (quiet_ok d d2); try done. by etrans.
Qed.

Lemma insert_dlq_ok d t row (Q : unit → DPg → Prop) :
  (∀ m, Q tt (set_dlq m d)) → tx_ok t (insert_dlq faults new_id t row) d Q.
Proof.
  intros HQ. apply tx_ok_stmt_at. intros n. cbv beta zeta.
  match goal with |- context [if ?b then (inr (), _) else _] => destruct b; [|done] end.
  case_bool_decide; [|apply HQ]. specialize (HQ (d_dlq d)). by destruct d.
Qed.

Lemma insert_alert_ok d t row (Q : unit → DPg → Prop) :
  (∀ m, Q tt (set_alerts m d)) → tx_ok t (insert_alert faults new_id t row) d Q.
Proof.
  intros HQ. apply tx_ok_stmt_at. intros n. cbv beta zeta.
  match goal with |- context [if ?b then (inr (), _) else _] => destruct b; [|done] end.
  case_bool_decide; [|apply HQ]. specialize (HQ (d_alerts d)). by destruct d.
Qed.

(** A snapshot that passed validation. *)
Lemma valid_snapshot_spec sn intent held :
  validateSnapshot sn intent held = None →
  let p := ss_Projection sn in let st := pj_State p in
  pj_TenantID p = rf_TenantID held ∧ pj_InteractionID p = rf_InteractionID held ∧ (0 < fs_Version st)%N ∧
  (rc_ObservedVersion intent ≤ fs_Version st)%N ∧ canonicalUUIDv7 (fs_EventID st) = true ∧
  (fs_Visibility st = Hidden ∨
   fs_Visibility st = Visible ∧ canonicalUUIDv7 (fs_DeliveryAuthorizationID st) = true ∧
     canonicalUUIDv7 (fs_ReceiptID st) = true ∧ fs_VisibilityGeneration st = fs_Version st ∧
     time_IsZero (fs_LeaseUntil st) = false).
Proof.
  unfold validateSnapshot. intros Hv.
  repeat match type of Hv with (if ?b then _ else _) = None => destruct b eqn:?; [done|] end. clear Hv.
  repeat match goal with E : _ || _ = false |- _ => apply orb_false_iff in E as [? ?] end.
  repeat match goal with E : negb _ = false |- _ => apply negb_false_iff in E end.
  repeat match goal with E : bool_decide _ = true |- _ => apply bool_decide_eq_true in E end.
  repeat match goal with E : (_ =? _)%N = false |- _ => apply N.eqb_neq in E | E : (_ <? _)%N = false |- _ => apply N.ltb_ge in E end.
  split_and!; [done|done|lia|done|done|].
  destruct (fs_Visibility _ =? Hidden)%N eqn:Eh; [left; by apply N.eqb_eq in Eh|right]. cbn [negb andb] in *.
  destruct (fs_Visibility _ =? Visible)%N eqn:Ev; [|done]. cbn [andb] in *.
  repeat match goal with E : _ || _ = false |- _ => apply orb_false_iff in E as [? ?] end.
  repeat match goal with E : negb _ = false |- _ => apply negb_false_iff in E end.
  apply N.eqb_eq in Ev. split_and!; try done. by apply N.eqb_eq.
Qed.

(** The head a valid snapshot makes. *)
Lemma head_after_snapshot d t i sn intent held floor h body :
  validateSnapshot sn intent held = None →
  let st := pj_State (ss_Projection sn) in
  head_row uuid_cast st floor (Some (ss_Provenance sn)) = Some h → marshal_snapshot sn = Some body →
  d_versions d !! (t, i, fs_Version st) = Some (mkRouteVersionRow (fs_EventID st) (fs_Hash st) body) →
  (fs_Visibility st = Visible → bound d t i (fs_DeliveryAuthorizationID st) (fs_ReceiptID st)) →
  head_ok sha256 d t i h.
Proof.
  intros (_ & _ & Hpos & _ & Hce & Hvis)%valid_snapshot_spec st Hrow Hb Hr Hbd.
  destruct (head_row_spec _ _ _ _ Hrow) as (H1 & _ & H2 & H3 & H4 & H5 & H6 & H7 & H8 & H9); [done|].
  eapply head_snapshot; [done|exact Hpos|done..|]. unfold head_shows.
  destruct Hvis as [Hh|(Hv & Hca & Hcr & Hg & Hz)].
  - rewrite bool_decide_eq_false_2 by (unfold st; by rewrite Hh). unfold st in *. by rewrite H4, Hh.
  - rewrite bool_decide_eq_true_2 by done. unfold st in *. split_and!; auto; [by rewrite H4, Hv|congruence|].
    rewrite H6. unfold nullableTime. by rewrite Hz.
Qed.

(** A head that is written before its ledger entry. *)
Lemma ledgers_grow_heads d1 d2 m ks :
  ledgers_grow (set_heads m d1) d2 ks → ledgers_grow d1 (set_heads (d_heads d1) d2) ks ∧
  d2 = set_heads m (set_heads (d_heads d1) d2).
Proof.
  intros ((Ha & Hl & Ho & Hh) & Hv & He & Hag & Hn & Hk). simpl in *. split.
  - split_and!; try done.
  - destruct d2. simpl in *. by subst.
Qed.

Lemma InstallSnapshot_ok d intent sn held :
  route_inv d → validateSnapshot sn intent held = None → rf_TenantID held = rc_TenantID intent →
  rf_InteractionID held = rc_InteractionID intent →
  (fs_Visibility (pj_State (ss_Projection sn)) = Visible →
     bound d (rc_TenantID intent) (rc_InteractionID intent) (fs_DeliveryAuthorizationID (pj_State (ss_Projection sn)))
       (fs_ReceiptID (pj_State (ss_Projection sn)))) →
  ∀ s r s', st_db s = d → InstallSnapshotAndAudit sha256 faults new_id uuid_cast intent sn held s = (r, s') →
  route_inv (st_db s') ∧ evolves d (st_db s').
Proof.
  intros Hd Hval Ht Hi Hbd s r s' <- Hr. set (t := rc_TenantID intent) in *. set (i := rc_InteractionID intent) in *.
  set (st := pj_State (ss_Projection sn)) in *.
  eapply (run_tx_ok faults t _ s r s' (λ _ d', route_inv d' ∧ evolves (st_db s) d')) in Hr;
    [destruct Hr as [(e & _ & ->)|(a & Ha & _)]; done|]. clear Hr.
  tx_step. eapply tx_ok_mono; [by apply lock_intent_ok|].
  intros [|] d1 (Hd1 & He1 & Hl); cbn [negb]; [|by apply tx_ok_ret].
  destruct (Hl eq_refl) as (_ & _ & Ha1 & h & Hh & Hv). fold t i in Hh.
  tx_step. eapply update_head_ok; [exact Hh|]. intros h' Hrow.
  destruct (bigint (ss_HistoryFloor sn) && _); [|done].
  destruct (marshal_snapshot sn) as [body|] eqn:Eb; [|apply tx_ok_fail].
  apply tx_ok_assoc. tx_step. eapply tx_ok_mono; [apply ledger_entry_ok|]. intros _ d2 [Hg Hentry].
  pose proof (ledgers_grow_heads _ _ _ _ Hg) as [Hg' Heq].
  destruct (valid_snapshot_spec _ _ _ Hval) as (_ & _ & Hpos & Hobs & Hce & _).
  destruct (head_row_spec _ _ _ _ Hrow Hce) as (Hv' & Hb' & _ & _ & _ & _ & _ & Hp' & _).
  assert (route_inv d2 ∧ evolves d1 d2) as [Hd2 He2].
  { rewrite Heq. eapply (install_inv d1 (set_heads (d_heads d1) d2)); [done|exact Hh|exact Hg'|..].
    - intros k Hk. by apply list_elem_of_singleton in Hk as ->.
    - rewrite Hv', Hv. exact Hobs.
    - done.
    - intros v Hk. apply list_elem_of_singleton in Hk as [= ->]. by rewrite Hv'.
    - by rewrite Hp'.
    - eapply head_after_snapshot; [exact Hval|exact Hrow|exact Eb|exact Hentry|]. intros Hvis.
      destruct Hg as ((Ha & _) & _). eapply bound_evolves; [|by apply Hbd]. simpl in Ha |- *. by rewrite Ha, Ha1. }
  assert (evolves (st_db s) d2) as He by (by etrans).
  destruct (marshalFact held) as [hb|]; [|apply tx_ok_fail].
  destruct (jsonMarshalAlert sn held) as [ab|]; [|apply tx_ok_fail].
  tx_step. apply insert_dlq_ok. intros m1. tx_step. apply insert_alert_ok. intros m2. tx_step. apply tx_ok_write. intros _ _.
  apply tx_ok_ret. by eapply (quiet_ok (st_db s) d2).
Qed.

(** The other calls. *)
Lemma BeginReconcile_ok p s r s' :
  route_inv (st_db s) → BeginReconcile faults p s = (r, s') →
  route_inv (st_db s') ∧ evolves (st_db s) (st_db s') ∧
  ∀ intent, r = inr (intent, true) →
    rc_TenantID intent = rc_TenantID p ∧ rc_InteractionID intent = rc_InteractionID p ∧
    rc_ObservedVersion intent = rc_ObservedVersion p.
Proof.
  intros Hd Hr.
  eapply (run_tx_ok faults _ _ s r s' (λ x d', route_inv d' ∧ evolves (st_db s) d' ∧
    (x.2 = true → rc_TenantID x.1 = rc_TenantID p ∧ rc_InteractionID x.1 = rc_InteractionID p ∧
       rc_ObservedVersion x.1 = rc_ObservedVersion p))) in Hr.
  { destruct Hr as [(e & -> & ->)|(a & (H1 & H2 & H3) & [->|(e & ->)])]; split_and!; try done.
    intros intent [= ->]. by apply H3. }
  clear Hr. tx_step. eapply tx_ok_mono; [by apply lock_head_ok|]. intros v d1 (Hd1 & He1 & _).
  destruct (negb _); [by apply tx_ok_ret|]. tx_step. apply tx_ok_query.
  destruct (pending_route_intent d1 _ _) as [[id row]|].
  - apply tx_ok_ret. split_and!; [done..|]. simpl. intros Hs. split_and!; [done..|].
    repeat (apply andb_prop in Hs as [Hs _]). by apply N.eqb_eq in Hs.
  - unfold insert_route_intent. tx_step. apply tx_ok_write. intros _ _. apply tx_ok_ret.
    edestruct (quiet_ok (st_db s) d1) as [H1 H2]; [done|done|..]; [| | | |split_and!; [exact H1|exact H2|done]]; done.
Qed.

Lemma RecordPoison_ok f e s r s' :
  route_inv (st_db s) → RecordPoison sha256 faults new_id f e s = (r, s') →
  route_inv (st_db s') ∧ evolves (st_db s) (st_db s').
Proof.
  unfold RecordPoison. intros Hd Hr. destruct (marshalFact f) as [body|]; [|by injection Hr as <- <-].
  eapply (run_tx_ok faults _ _ s r s' (λ _ d', route_inv d' ∧ evolves (st_db s) d')) in Hr;
    [destruct Hr as [(? & _ & ->)|(a & Ha & _)]; done|].
  apply insert_dlq_ok. intros m. by eapply (quiet_ok (st_db s) (st_db s)).
Qed.

Lemma Load_ok t i v s r s' :
  Load faults now t i v s = (r, s') →
  st_db s' = st_db s ∧ ∀ p known, r = inr (p, known) → pj_TenantID p = t ∧ pj_InteractionID p = i ∧
    pj_State p = head_state (d_heads (st_db s) !! (t, i)) ∧
    (v ≠ 0%N → known = (λ r, mkFactIdentity (rv_event r) (rv_hash r)) <$> d_versions (st_db s) !! (t, i, v)).
Proof.
  intros Hr. eapply (run_tx_ok faults _ _ s r s' (λ x d', d' = st_db s ∧ pj_TenantID x.1 = t ∧ pj_InteractionID x.1 = i ∧
    pj_State x.1 = head_state (d_heads (st_db s) !! (t, i)) ∧
    (v ≠ 0%N → x.2 = (λ r, mkFactIdentity (rv_event r) (rv_hash r)) <$> d_versions (st_db s) !! (t, i, v)))) in Hr.
  { destruct Hr as [(e & -> & ->)|(a & (-> & H2) & [->|(e & ->)])]; split; try done. by intros p known [= ->]. }
  clear Hr. tx_step. apply tx_ok_stmt_at. intros n. tx_step. apply tx_ok_query.
  destruct (v =? 0)%N eqn:Ev.
  - apply tx_ok_ret. apply N.eqb_eq in Ev. by split_and!.
  - tx_step. apply tx_ok_stmt. destruct (bigint v); [|done]. by apply tx_ok_ret.
Qed.

(** The clock a load reads. *)
Lemma Load_clock t i v s p known s' :
  Load faults now t i v s = (inr (p, known), s') → pj_DatabaseNow p = of_micros (now (S (S (st_clock s)))).
Proof.
  unfold Load, run_tx, query_version, tx_bind, query, stmt, stmt_at. intros Hl.
  do 4 (destruct (faults _); try done).
  destruct (v =? 0)%N; simpl in Hl.
  - destruct (faults _); [|done..]. by injection Hl as <- _ _.
  - destruct (faults _); [|done..]. destruct (bigint v); [|done]. simpl in Hl. destruct (faults _); [|done..].
    by injection Hl as <- _ _.
Qed.

Lemma Authorization_ok t aid s r s' :
  Authorization faults uuid_cast t aid s = (r, s') →
  st_db s' = st_db s ∧ ∀ b, r = inr (Some b) → canonicalUUIDv7 aid = true → bound (st_db s) t (bd_InteractionID b) aid (bd_ReceiptID b).
Proof.
  intros Hr. apply run_stmt_cases in Hr as [[-> ->]|Hr]; [done|].
  destruct (uuid_cast aid) as [u|] eqn:Eu; [|by destruct Hr as [-> ->]].
  destruct Hr as [-> Hr]. split; [done|]. intros b -> Hc. destruct Hr as [[= Hb]|[=]].
  rewrite cast_canonical in Eu by done. injection Eu as <-.
  destruct (d_authorizations (st_db s) !! (t, aid)) as [row|] eqn:Er; [|done]. simpl in Hb.
  case_decide; [|done]. simplify_eq. by exists row.
Qed.
End Transactions.
