(* ===== verification/RouteCorrect.v ===== *)
(** Any number of projectors on one database, interleaved call by call with each
    other and with the servers and workers of deliveries: the invariant of the
    tables holds in every state they can reach. *)

From S2P Require Import Prelude Bytes Subjects Uuid PgTx Delivery DeliveryPg DeliveryTheorems DeliveryCorrect.
From S2P Require Import RouteProjection RouteProjectionPg RouteTheorems.

(** * Identity of facts *)

(** What Go's types say of a fact. *)
Definition go_fact (f : RouteFact) : Prop :=
  Forall len_ok [rf_TenantID f; rf_InteractionID f; rf_EventID f; rf_DeliveryAuthorizationID f; rf_ReceiptID f] ∧
  (rf_Version f < 18446744073709551616)%N ∧ (rf_Kind f < 256)%N ∧ (rf_VisibilityGeneration f < 18446744073709551616)%N.

Definition go_replay (r : rerr + ReplayResult) : Prop :=
  match r with inr result => Forall go_fact (rp_Facts result) | inl _ => True end.

Lemma be64_len_ok n : len_ok (be64 n).
Proof. unfold len_ok, be64. by rewrite be_bytes_length. Qed.

Lemma fact_parts_len f : go_fact f → Forall len_ok (fact_parts f).
Proof. intros [Hl _]. decompose_Forall_hyps. repeat constructor; auto using be64_len_ok. Qed.

Lemma unix_nano_range t : (unix_nano t < 18446744073709551616)%N.
Proof. unfold unix_nano. pose proof (u64_range t) as [? ?]. unfold two64 in *. lia. Qed.

(** Two facts with one hash agree on every field, the lease up to the range of
    [UnixNano]. *)
Lemma hash_fact_binds (sha : string → string) f g :
  (∀ x y, sha x = sha y → x = y) → go_fact f → go_fact g → HashRouteFact sha f = HashRouteFact sha g →
  rf_TenantID f = rf_TenantID g ∧ rf_InteractionID f = rf_InteractionID g ∧ rf_EventID f = rf_EventID g ∧
  rf_Version f = rf_Version g ∧ rf_Kind f = rf_Kind g ∧
  rf_DeliveryAuthorizationID f = rf_DeliveryAuthorizationID g ∧ rf_ReceiptID f = rf_ReceiptID g ∧
  rf_VisibilityGeneration f = rf_VisibilityGeneration g ∧ u64 (rf_LeaseUntil f) = u64 (rf_LeaseUntil g).
Proof.
  unfold HashRouteFact. intros Hsha Hf Hg He.
  apply Hsha, put_parts_inj in He; [|by apply fact_parts_len..].
  pose proof Hf as (_ & Hvf & Hkf & Hgf). pose proof Hg as (_ & Hvg & Hkg & Hgg).
  assert (∀ n x y, fact_parts f !! n = Some x → fact_parts g !! n = Some y → x = y) as Hn.
  { intros n x y Hx Hy. rewrite He in Hx. congruence. }
  split_and!.
  - by apply (Hn 0).
  - by apply (Hn 1).
  - by apply (Hn 2).
  - by apply be64_inj, (Hn 3).
  - assert (String (ascii_of_N (rf_Kind f)) "" = String (ascii_of_N (rf_Kind g)) "") as Hk by (by apply (Hn 4)).
    injection Hk as Hk. by apply ascii_of_N_inj_small in Hk.
  - by apply (Hn 5).
  - by apply (Hn 6).
  - by apply be64_inj, (Hn 7).
  - assert (be64 (unix_nano (rf_LeaseUntil f)) = be64 (unix_nano (rf_LeaseUntil g))) as Hl by (by apply (Hn 8)).
    apply be64_inj in Hl; [|by apply unix_nano_range..]. unfold unix_nano in Hl.
    pose proof (u64_range (rf_LeaseUntil f)) as [? _]. pose proof (u64_range (rf_LeaseUntil g)) as [? _]. lia.
Qed.

(** The hash of a fact binds its tenant, interaction, event, version, kind,
    authorization, receipt and generation, and its lease to the nanosecond within
    the range of UnixNano. *)
Theorem HashRouteFact_binds (sha : string → string) f g :
  (∀ x y, sha x = sha y → x = y) → go_fact f → go_fact g →
  in_i64 (rf_LeaseUntil f) → in_i64 (rf_LeaseUntil g) →
  HashRouteFact sha f = HashRouteFact sha g → f = g.
Proof.
  intros Hsha Hf Hg Hlf Hlg (H1 & H2 & H3 & H4 & H5 & H6 & H7 & H8 & H9)%hash_fact_binds; [|done..].
  assert (rf_LeaseUntil f = rf_LeaseUntil g) as H10.
  { unfold u64, in_i64, two63, two64 in *.
    Z.to_euclidean_division_equations. lia. }
  destruct f, g; simpl in *. by subst.
Qed.

(** * Programs under interference *)

Section Programs.
Context {U : UuidLib} {UL : UuidLaws U} `{RouteJson} (sha256 : string → string).
Context (faults : nat → fault) (now : nat → Z) (new_id : nat → string) (uuid_cast : string → option string).
Context (cast_canonical : ∀ v, canonicalUUIDv7 v = true → uuid_cast v = Some v).
Context (sha_inj : ∀ x y, sha256 x = sha256 y → x = y).
#[local] Abbreviation Hash := (HashRouteFact sha256).
#[local] Abbreviation route_inv := (route_inv sha256 uuid_cast).
#[local] Abbreviation exec_call := (exec_call sha256 faults now new_id uuid_cast).

(** The program's calls keep the invariant whatever others do in between; [Q]
    holds of its result. *)
Fixpoint rwp {A} (p : rprog A) (Q : A → DPg → Prop) (d : DPg) : Prop :=
  match p with
  | RRet a => Q a d
  | RCall c k =>
      ∀ s, evolves d (st_db s) → route_inv (st_db s) → ∀ x s', exec_call c s = (x, s') →
        route_inv (st_db s') ∧ evolves (st_db s) (st_db s') ∧ rwp (k x) Q (st_db s')
  | RReplay _ _ k => ∀ x, go_replay x → rwp (k x) Q d
  | RSnapshot _ _ k => ∀ x, rwp (k x) Q d
  | RNewID k => ∀ x, rwp (k x) Q d
  end.

Lemma rwp_bind {A B} (p : rprog A) (f : A → rprog B) Q d :
  rwp p (λ a d', rwp (f a) Q d') d → rwp (rbind p f) Q d.
Proof.
  revert d. induction p as [a|C c k IH|pr q k IH|pr q k IH|k IH]; intros d Hp; simpl in *; [done|..].
  - intros s He Hi x s' Hx. destruct (Hp s He Hi x s' Hx) as (?&?&?). auto.
  - intros x Hx. auto.
  - intros x. auto.
  - intros x. auto.
Qed.

(** [after_install] only returns. *)
Lemma rwp_after ok (r : rerr + bool) (Q : ApplyResult * option rerr → DPg → Prop) d :
  (∀ o, Q o d) → rwp (after_install ok r) Q d.
Proof. intros HQ. destruct r as [e|[]]; apply HQ. Qed.

(** What the check of the bindings establishes. *)
Definition facts_checked (d : DPg) (facts : list RouteFact) : Prop :=
  Forall (λ f, rf_Kind f = FactRinging → canonicalUUIDv7 (rf_DeliveryAuthorizationID f) = true →
     bound d (rf_TenantID f) (rf_InteractionID f) (rf_DeliveryAuthorizationID f) (rf_ReceiptID f)) facts.

Lemma facts_checked_evolves d d' facts :
  d_authorizations d ⊆ d_authorizations d' → facts_checked d facts → facts_checked d' facts.
Proof. intros Hs Hb. eapply Forall_impl; [exact Hb|]. eauto using bound_evolves. Qed.

Lemma bindings_checked facts Q d :
  (∀ d', evolves d d' → facts_checked d' facts → Q None d') → (∀ e d', evolves d d' → Q (Some e) d') →
  rwp (validateAuthorizationBindings facts) Q d.
Proof.
  revert d Q. induction facts as [|f facts IH]; intros d Q HN HS; cbn [validateAuthorizationBindings].
  - simpl. apply HN; [done|constructor].
  - destruct (rf_Kind f =? FactRinging)%N eqn:Ek; cbn [negb].
    + intros s He Hi x s' Hx. apply (Authorization_ok faults uuid_cast cast_canonical) in Hx as [Hdb Hx]. rewrite Hdb.
      split_and!; [done..|]. destruct x as [e|[b|]]; [by apply HS| |by apply HS].
      case_decide as Hne; [by apply HS|]. apply Decidable.not_or in Hne as [Hi'%dec_stable Hr'%dec_stable].
      apply IH.
      * intros d' He' Hc. apply HN; [by etrans|]. constructor; [|done]. intros _ Hcan.
        rewrite <-Hi', <-Hr'. eapply bound_evolves; [apply He'|]. by apply Hx.
      * intros e d' He'. apply HS. by etrans.
    + apply IH; [|done]. intros d' He' Hc. apply HN; [done|]. constructor; [|done]. intros Hk. by rewrite Hk in Ek.
Qed.

(** Valid facts that were checked have their deliveries. *)
Lemma checked_bound d facts :
  facts_checked d facts → Forall (λ f, validateFact f = None) facts → facts_bound d facts.
Proof.
  intros Hc Hv. unfold facts_bound. rewrite Forall_forall in Hv |- *. unfold facts_checked in Hc. rewrite Forall_forall in Hc.
  intros f Hf Hk. apply Hc; [done..|]. destruct (validateFact_spec f (Hv f Hf)) as (_ & _ & _ & _ & Hcase).
  destruct Hcase as [E|[E|(_ & E & _)]]; [by rewrite Hk in E..|done].
Qed.

Lemma FoldBatch_facts p facts final :
  pj_TenantID p ≠ "" → FoldBatch sha256 p facts = Some final →
  fold_facts sha256 (pj_TenantID p) (pj_InteractionID p) (pj_State p) facts = Some final.
Proof. unfold FoldBatch. intros Hne. destruct facts; [done|]. by rewrite decide_False. Qed.

(** The facts of a fold, whatever the start: valid and of one interaction. *)
Lemma fold_facts_valid t i st facts final :
  fold_facts sha256 t i st facts = Some final →
  Forall (λ f, validateFact f = None ∧ rf_TenantID f = t ∧ rf_InteractionID f = i) facts.
Proof.
  revert st. induction facts as [|f facts IH]; intros st Hf; [constructor|]. cbn [fold_facts] in Hf.
  destruct (validateFact f) as [e|] eqn:Ev; [done|]. rewrite bool_decide_eq_false_2 in Hf by (by intros []).
  destruct (negb _) eqn:En in Hf; [done|]. cbn [orb] in Hf.
  destruct (bool_decide (rf_TenantID f = t)) eqn:Et; [|done]. destruct (bool_decide (rf_InteractionID f = i)) eqn:Ei; [|done].
  apply bool_decide_eq_true in Et, Ei. constructor; [done|]. eapply IH, Hf.
Qed.

(** The install of a batch from any state of the right version. *)
Lemma install_call expected facts final st0 t i token s r s' :
  route_inv (st_db s) → fs_Version st0 = expected → facts ≠ [] →
  fold_facts sha256 t i st0 facts = Some final → facts_checked (st_db s) facts →
  run_tx faults t (installBatchTx sha256 faults uuid_cast t i expected facts final token) s = (r, s') →
  route_inv (st_db s') ∧ evolves (st_db s) (st_db s').
Proof.
  intros Hi Hst Hne Hf Hc Hr.
  eapply (run_tx_ok faults _ _ s r s' (λ _ d', route_inv d' ∧ evolves (st_db s) d')) in Hr;
    [destruct Hr as [(? & _ & ->)|(a & Ha & _)]; done|].
  eapply installBatchTx_ok; try done. apply checked_bound; [done|].
  eapply Forall_impl; [by eapply fold_facts_valid|]. naive_solver.
Qed.

(** * Every call of the projector is safe *)

Section Apply.
Context (held : RouteFact) (held_go : go_fact held) (held_valid : validateFact held = None).

Definition done_ok (o : ApplyResult * option rerr) (d : DPg) : Prop := True.

Lemma rwp_done o d : rwp (RRet o) done_ok d.
Proof. exact I. Qed.
#[local] Hint Resolve rwp_done : core.

Lemma poison_safe f d : rwp (poison f) done_ok d.
Proof.
  intros s He Hi x s' Hx. apply RecordPoison_ok with (e := ErrDivergentHistory) (uuid_cast := uuid_cast) in Hx as [? ?]; [|done]. split_and!; [done..|]. by destruct x.
Qed.

Lemma held_tenant : rf_TenantID held ≠ "".
Proof.
  destruct (validateFact_spec held held_valid) as (_ & Ht & _). by apply canonicalUUIDv7_nonempty.
Qed.

(** The intent a reconcile works on. *)
Definition intent_of (intent : ReconcileIntent) (observed : N) : Prop :=
  rc_TenantID intent = rf_TenantID held ∧ rc_InteractionID intent = rf_InteractionID held ∧ rc_ObservedVersion intent = observed.

Lemma snapshotUnknown_safe principal intent observed d :
  intent_of intent observed → rwp (snapshotUnknown principal intent held) done_ok d.
Proof.
  intros (Ht & Hin & Hob) [e|sn]; [done|].
  destruct (validateSnapshot sn intent held) as [e|] eqn:Hv; [done|].
  destruct (valid_snapshot_spec _ _ _ Hv) as (Hpt & Hpi & _ & _ & _ & Hvis).
  apply rwp_bind.
  assert (∀ d', (fs_Visibility (pj_State (ss_Projection sn)) = Visible →
      bound d' (rc_TenantID intent) (rc_InteractionID intent) (fs_DeliveryAuthorizationID (pj_State (ss_Projection sn)))
        (fs_ReceiptID (pj_State (ss_Projection sn)))) →
      rwp (RCall (CInstallSnapshotAndAudit intent sn held) (after_install AuditedUnknownHistory)) done_ok d') as Hinst.
  { intros d' Hb s He Hi x s' Hx.
    destruct (InstallSnapshot_ok sha256 faults new_id uuid_cast cast_canonical (st_db s) intent sn held) with (s := s) (r := x) (s' := s')
      as [H1 H2]; try done.
    - intros Hvv. eapply bound_evolves; [apply He|]. by apply Hb.
    - split_and!; [done..|]. by apply rwp_after. }
  destruct (fs_Visibility _ =? Visible)%N eqn:Ev.
  - apply bindings_checked; [|done]. intros d' _ Hc. apply Hinst. intros Hvv. unfold facts_checked in Hc.
    rewrite Forall_singleton in Hc. destruct Hvis as [Hh|(_ & Hca & _)]; [by rewrite Hh in Hvv|].
    rewrite Ht, Hin, <-Hpt, <-Hpi. exact (Hc eq_refl Hca).
  - simpl. apply Hinst. intros Hvv. by rewrite Hvv in Ev.
Qed.

Lemma historical_safe intent observed facts d :
  intent_of intent observed → (rf_Version held ≤ observed)%N → Forall go_fact facts →
  rwp (reconcile_historical sha256 intent held facts) done_ok d.
Proof.
  intros (Ht & Hin & Hob) Hle Hgo. unfold reconcile_historical.
  destruct facts as [|f [|g facts]]; [done| |done]. rewrite Forall_singleton in Hgo.
  destruct (rf_Version f =? rf_Version held)%N eqn:Ev; cbn [negb]; [|done]. apply N.eqb_eq in Ev.
  case_decide as Hne; [apply poison_safe|]. apply Decidable.not_or in Hne as [_ Hh%dec_stable].
  destruct (hash_fact_binds sha256 f held sha_inj Hgo held_go Hh) as (Hft & Hfi & _).
  apply rwp_bind. apply bindings_checked; [|done]. intros d' _ _ s He Hi x s' Hx.
  eapply (run_tx_ok faults _ _ s x s' (λ _ d2, route_inv d2 ∧ evolves (st_db s) d2)) in Hx.
  - assert (route_inv (st_db s') ∧ evolves (st_db s) (st_db s')) as [H1 H2]
      by (destruct Hx as [(? & _ & ->)|(a & Ha & _)]; done).
    split_and!; [done..|]. by apply rwp_after.
  - eapply InstallHistorical_ok; [done..|congruence|congruence|]. by rewrite Ev, Hob.
Qed.

Lemma gap_safe p intent replay d :
  intent_of intent (fs_Version (pj_State p)) → pj_TenantID p = rf_TenantID held → pj_InteractionID p = rf_InteractionID held →
  rwp (reconcile_gap sha256 p intent held replay) done_ok d.
Proof.
  intros (Ht & Hin & Hob) Hpt Hpi. unfold reconcile_gap.
  destruct (negb (forallb _ _)); [done|]. apply rwp_bind. apply bindings_checked; [|done]. intros d' _ Hc.
  destruct (FoldBatch sha256 p (rp_Facts replay)) as [final|] eqn:Ef; [|done].
  destruct (last (rp_Facts replay)) as [lst|] eqn:El; [|done].
  destruct (_ || _); [done|]. destruct (negb _); [done|]. intros s He Hi x s' Hx.
  assert (rp_Facts replay ≠ []) as Hne by (intros E; by rewrite E in El).
  assert (route_inv (st_db s') ∧ evolves (st_db s) (st_db s')) as [H1 H2].
  { apply FoldBatch_facts in Ef; [|rewrite Hpt; by apply held_tenant]. unfold exec_call in Hx. simpl in Hx.
    unfold InstallReconcileBatch in Hx. destruct (rp_Facts replay) as [|f0 fs] eqn:Efs; [done|].
    eapply install_call with (st0 := pj_State p); [exact Hi| |exact Hne| | |exact Hx].
    - by rewrite Hob.
    - rewrite Ht, Hin, <-Hpt, <-Hpi. exact Ef.
    - eapply facts_checked_evolves; [apply He|exact Hc]. }
  split_and!; [done..|]. by apply rwp_after.
Qed.

Lemma reconcile_safe p historical d :
  pj_TenantID p = rf_TenantID held → pj_InteractionID p = rf_InteractionID held →
  (historical = true → (rf_Version held ≤ fs_Version (pj_State p))%N) →
  rwp (reconcile sha256 p held historical) done_ok d.
Proof.
  intros Hpt Hpi Hh token. destruct (negb _); [done|]. intros s He Hi x s' Hx.
  apply (BeginReconcile_ok sha256 _ uuid_cast) in Hx as (H1 & H2 & H3); [|done]. split_and!; [done..|].
  destruct x as [e|[intent [|]]]; [done| |done]. destruct (H3 intent eq_refl) as (Ht & Hin & Hob).
  intros [e|replay] Hgo.
  - case_decide; [|done]. by eapply snapshotUnknown_safe.
  - destruct historical.
    + eapply historical_safe; [done|by apply Hh|done].
    + by apply gap_safe.
Qed.

Lemma Apply_safe d : rwp (Apply sha256 held) done_ok d.
Proof.
  unfold Apply. rewrite held_valid. intros s He Hi x s' Hx. apply Load_ok in Hx as [Hdb Hx]. rewrite Hdb.
  split_and!; [done..|]. destruct x as [e|[p known]]; [done|]. destruct (Hx p known eq_refl) as (Hpt & Hpi & _).
  destruct (rf_Version held <=? _)%N eqn:Ele.
  - apply N.leb_le in Ele. destruct known as [k|]; [|by apply reconcile_safe].
    case_decide; [done|apply poison_safe].
  - destruct (_ <? rf_Version held)%N; [by apply reconcile_safe|].
    apply rwp_bind, bindings_checked; [|done]. intros d' _ Hc.
    destruct (FoldBatch sha256 p [held]) as [final|] eqn:Ef; [|done]. intros s1 He1 Hi1 y s1' Hy.
    apply FoldBatch_facts in Ef; [|rewrite Hpt; apply held_tenant]. rewrite Hpt, Hpi in Ef.
    eapply install_call in Hy as [H1 H2]; [|exact Hi1|done|done|exact Ef|].
    + split_and!; [done..|]. by apply rwp_after.
    + eapply facts_checked_evolves; [apply He1|exact Hc].
Qed.
End Apply.
End Programs.
