(* ===== verification/RouteSystem.v ===== *)
(** The whole system on one database: any number of projector calls, one per
    delivered fact, interleaved call by call with each other and with the servers
    and workers of deliveries, under failing statements and commits. *)

From S2P Require Import Prelude Bytes Subjects Uuid PgTx Delivery DeliveryPg DeliveryTheorems DeliveryCorrect.
From S2P Require Import RouteProjection RouteProjectionPg RouteTheorems RouteCorrect.

(** * The projection leaves the delivery tables alone *)

Definition framed (d d' : DPg) : Prop :=
  d_authorizations d' = d_authorizations d ∧ d_log d' = d_log d ∧ d_outbox d' = d_outbox d.

#[export] Instance framed_preorder : PreOrder framed.
Proof. split; [done|]. intros d1 d2 d3 (?&?&?) (?&?&?). split_and!; congruence. Qed.

Definition tx_framed {A} (t : string) (m : PgTx.Tx DPg rerr A) : Prop := ∀ d n, framed d (m t d n).1.2.

Section Frame.
Context (faults : nat → fault) (t : string).

Lemma framed_ret {A} (a : A) : tx_framed t (tx_ret a).
Proof. by intros d n. Qed.

Lemma framed_fail {A} e : tx_framed (A := A) t (tx_fail e).
Proof. by intros d n. Qed.

Lemma framed_bind {A B} (m : PgTx.Tx DPg rerr A) (k : A → PgTx.Tx DPg rerr B) :
  tx_framed t m → (∀ a, tx_framed t (k a)) → tx_framed t (tx_bind m k).
Proof.
  intros Hm Hk d n. unfold tx_bind. specialize (Hm d n). destruct (m t d n) as [[[e|a] d'] n']; [done|].
  simpl in Hm. etrans; [exact Hm|apply Hk].
Qed.

Lemma framed_stmt_at {A} (f : nat → string → DPg → (rerr + A) * DPg) :
  (∀ n d, framed d (f n t d).2) → tx_framed t (stmt_at faults f).
Proof. intros Hf d n. unfold stmt_at. destruct (faults n); [|done..]. specialize (Hf n d). by destruct (f n t d). Qed.

Lemma framed_write tenant ok f : (∀ d, framed d (f d)) → tx_framed t (write faults tenant ok f).
Proof. intros Hf. apply framed_stmt_at. intros n d. by destruct (_ && _). Qed.

Lemma framed_query {A} (f : DPg → A) : tx_framed t (query faults f).
Proof. by apply framed_stmt_at. Qed.

Lemma framed_run {A} (m : PgTx.Tx DPg rerr A) s : tx_framed t m → framed (st_db s) (st_db (run_tx faults t m s).2).
Proof.
  intros Hm. unfold run_tx.
  assert (tx_framed t (tx_bind (query faults (λ _ : DPg, ())) (λ _, tx_bind (query faults (λ _ : DPg, ())) (λ _, m)))) as Hb.
  { apply framed_bind; [apply framed_query|intros _]. apply framed_bind; [apply framed_query|done]. }
  specialize (Hb (st_db s) (st_clock s)). destruct (tx_bind _ _ t (st_db s) (st_clock s)) as [[[e|a] d'] n']; [done|].
  by destruct (faults n').
Qed.
End Frame.

(** Statements and transactions, by their shape. *)
Ltac framed_tac :=
  repeat first
    [ apply framed_ret | apply framed_fail | apply framed_query
    | apply framed_bind; [|intros ?]
    | apply framed_write; intros ?
    | apply framed_stmt_at; intros ? ? ; cbv beta zeta ];
  repeat case_match; try done; simplify_eq/=; try done.

Section Calls.
Context `{UuidLib, RouteJson} (sha256 : string → string).
Context (faults : nat → fault) (now : nat → Z) (new_id : nat → string) (uuid_cast : string → option string).

Lemma lock_head_framed t i t' : tx_framed t (lock_head faults t' i).
Proof. unfold lock_head, ensureProjectionHead. framed_tac. all: framed_tac. Qed.

Lemma pendingIntent_framed t t' token i v : tx_framed t (pendingIntentMatches faults t' token i v).
Proof. unfold pendingIntentMatches, query_version, stmt. framed_tac. Qed.

Lemma insert_facts_framed t facts : tx_framed t (insert_facts sha256 faults facts).
Proof.
  induction facts as [|f facts IH]; cbn [insert_facts]; [apply framed_ret|]. apply framed_bind; [|done].
  unfold insertFactLedgers, insert_route_version, insert_route_event. case_match; framed_tac.
Qed.

Lemma update_head_framed t t' i f : tx_framed t (update_head faults t' i f).
Proof. unfold update_head, stmt. framed_tac. Qed.

Lemma exec_call_framed {B} (c : rcall B) s :
  framed (st_db s) (st_db (exec_call sha256 faults now new_id uuid_cast c s).2).
Proof.
  assert (∀ t i e fs final token, tx_framed t (installBatchTx sha256 faults uuid_cast t i e fs final token)) as Hinst.
  { intros *. unfold installBatchTx, finish_intent. apply framed_bind; [apply lock_head_framed|intros v].
    case_match; [apply framed_ret|]. apply framed_bind; [case_match; [apply framed_ret|apply pendingIntent_framed]|intros b].
    case_match; [apply framed_ret|]. apply framed_bind; [apply insert_facts_framed|intros _].
    apply framed_bind; [apply update_head_framed|intros _]. apply framed_bind; [case_match; framed_tac|intros _]. apply framed_ret. }
  assert (∀ intent, tx_framed (rc_TenantID intent) (lock_intent faults intent)) as Hlock.
  { intros intent. unfold lock_intent. apply framed_bind; [apply lock_head_framed|intros v].
    case_match; [apply framed_ret|apply pendingIntent_framed]. }
  destruct c; simpl.
  - apply framed_run. unfold Load. apply framed_bind; [framed_tac|intros clock].
    apply framed_bind; [framed_tac|intros row]. case_match; [apply framed_ret|].
    unfold query_version, stmt. apply framed_bind; [framed_tac|intros known; apply framed_ret].
  - apply framed_run. unfold stmt. framed_tac.
  - unfold InstallBatch. destruct facts; [done|]. apply framed_run, Hinst.
  - apply framed_run. apply framed_bind; [apply lock_head_framed|intros v]. case_match; [apply framed_ret|].
    unfold insert_route_intent. framed_tac. all: framed_tac.
  - unfold InstallReconcileBatch. destruct facts; [done|]. apply framed_run, Hinst.
  - apply framed_run. apply framed_bind; [apply Hlock|intros ok]. case_match; [apply framed_ret|].
    unfold insertFactLedgers, insert_route_version, insert_route_event. apply framed_bind; [case_match; framed_tac|intros _; framed_tac].
  - apply framed_run. apply framed_bind; [apply Hlock|intros ok]. case_match; [apply framed_ret|].
    apply framed_bind; [apply update_head_framed|intros _]. case_match; [|apply framed_fail].
    unfold insert_route_version, insert_route_event, insert_dlq, insert_alert, finish_intent.
    do 2 (apply framed_bind; [framed_tac|intros _]). repeat (case_match; [|apply framed_fail]).
    do 2 (apply framed_bind; [framed_tac|intros _]). framed_tac.
  - unfold RecordPoison. case_match; [|done]. apply framed_run. unfold insert_dlq. framed_tac.
Qed.
End Calls.

(** * The system *)

Section System.
Context {U : UuidLib} {UL : UuidLaws U} {L : DeliveryLib} {DL : DeliveryLaws L} `{RouteJson}.
Context (faults : nat → fault) (now : nat → Z) (nextval : nat → N) (new_id : nat → string)
        (uuid_cast : string → option string).
Context (cast_canonical : ∀ v, canonicalUUIDv7 v = true → uuid_cast v = Some v) (sha_inj : collision_free).

#[local] Hint Extern 0 (AuthorizationStore DState) => exact (accept_store faults now nextval) : typeclass_instances.
#[local] Hint Extern 0 (AckStore DState) => exact (ack_store faults now new_id uuid_cast) : typeclass_instances.
#[local] Abbreviation dstep := (dstep faults now nextval new_id uuid_cast).
#[local] Abbreviation route_inv := (route_inv sha256 uuid_cast).
#[local] Abbreviation exec_call := (exec_call sha256 faults now new_id uuid_cast).
#[local] Abbreviation rwp := (rwp sha256 faults now new_id uuid_cast).
#[local] Abbreviation thread := (rprog (ApplyResult * option rerr)).

(** One call of a delivery server or worker. *)
Inductive delivery_call : DState → DState → Prop :=
| call_accept p a id s : delivery_call s (AcceptDelivery p a id s).2
| call_claim t s : delivery_call s (ak_Claim t s).2
| call_complete t rid token result s : delivery_call s (ak_Complete t rid token result s).2
| call_retry t rid token cause s : delivery_call s (ak_Retry t rid token cause s).2.

(** One step of the system: a projector's store call, an answer of its router, a
    new id, a delivery call, or another fact that is delivered to a projector. *)
Inductive sys_step : list thread * DState → list thread * DState → Prop :=
| sys_call n B (c : rcall B) k ps s :
    ps !! n = Some (RCall c k) →
    sys_step (ps, s) (<[n := k (exec_call c s).1]> ps, (exec_call c s).2)
| sys_replay n pr q k ps s x :
    ps !! n = Some (RReplay pr q k) → go_replay x → sys_step (ps, s) (<[n := k x]> ps, s)
| sys_snapshot n pr q k ps s x :
    ps !! n = Some (RSnapshot pr q k) → sys_step (ps, s) (<[n := k x]> ps, s)
| sys_new_id n k ps s x :
    ps !! n = Some (RNewID k) → sys_step (ps, s) (<[n := k x]> ps, s)
| sys_delivery ps s s' : delivery_call s s' → sys_step (ps, s) (ps, s')
| sys_fact ps s f : go_fact f → sys_step (ps, s) (ps ++ [Apply sha256 f], s).

Definition sys_start : list thread * DState := ([], mkDbState dpg_empty 0).

(** A projector that is safe from some earlier state on. *)
Definition thread_ok (d : DPg) (p : thread) : Prop := ∃ d0, evolves d0 d ∧ rwp p done_ok d0.

Record sys_ok (c : list thread * DState) : Prop := mkSysOk {
  so_delivered : delivered (st_db c.2);
  so_route : route_inv (st_db c.2);
  so_threads : Forall (thread_ok (st_db c.2)) c.1;
}.

Lemma Apply_thread_ok f d : go_fact f → thread_ok d (Apply sha256 f).
Proof.
  intros Hf. exists d. split; [done|]. destruct (validateFact f) as [e|] eqn:Hv.
  - unfold Apply. by rewrite Hv.
  - by apply Apply_safe.
Qed.

Lemma delivery_call_dstep s s' : delivery_call s s' → dstep s s'.
Proof.
  intros [p a id s0|t s0|t rid token result s0|t rid token cause s0].
  - eapply step_accept, surjective_pairing.
  - eapply step_claim, surjective_pairing.
  - eapply step_complete, surjective_pairing.
  - eapply step_retry, surjective_pairing.
Qed.

(** Deliveries leave the projection's tables alone. *)
Lemma delivery_call_route s s' :
  delivery_call s s' → delivered (st_db s) →
  d_heads (st_db s') = d_heads (st_db s) ∧ d_versions (st_db s') = d_versions (st_db s) ∧
  d_events (st_db s') = d_events (st_db s).
Proof.
  intros [p a id s0|t s0|t rid token result s0|t rid token cause s0] Hd.
  - destruct (AcceptDelivery p a id s0) as [r s1] eqn:Hr. cbn [snd].
    apply accept_cases in Hr as [[-> _]|(a0 & h & b & r0 & _ & _ & Hv & Hh & Hap & _)]; [done|].
    apply Append_cases in Hap as [_ [(e & _ & ->)|(res & Happ & _)]]; [done| |done|by apply service_input].
    destruct Happ as (row & _ & _ & _ & Happ). destruct (d_authorizations (st_db s0) !! _); [by destruct Happ as [_ ->]|].
    by destruct Happ as (o1 & _ & _ & ->).
  - destruct (ak_Claim t s0) as [r s1] eqn:Hr. cbn [snd]. apply Claim_cases in Hr. destruct r as [e|[c|]].
    + by destruct Hr as [-> |(rid & o & _ & ->)].
    + by destruct Hr as (rid & o & receipt & _ & _ & _ & ->).
    + by destruct Hr as [-> _].
  - destruct (ak_Complete _ _ _ _ s0) as [r s1] eqn:Hr. cbn [snd].
    by apply update_claimed_cases in Hr as [[-> _]|(o & o' & _ & _ & _ & -> & _)].
  - destruct (ak_Retry _ _ _ _ s0) as [r s1] eqn:Hr. cbn [snd].
    by apply update_claimed_cases in Hr as [[-> _]|(o & o' & _ & _ & _ & -> & _)].
Qed.

Lemma thread_ok_evolves d d' p : evolves d d' → thread_ok d p → thread_ok d' p.
Proof. intros He (d0 & ? & ?). exists d0. split; [by etrans|done]. Qed.

(** One step keeps the invariant, and the tables only evolve. *)
Lemma sys_step_ok c c' : sys_ok c → sys_step c c' → sys_ok c' ∧ evolves (st_db c.2) (st_db c'.2).
Proof.
  intros [Hd Hr Ht] Hst. destruct Hst as [n B cl k ps s Hn|n pr q k ps s x Hn Hx|n pr q k ps s x Hn|n k ps s x Hn|ps s s' Hc|ps s f Hf];
    simpl in *.
  - pose proof (Forall_lookup_1 _ _ _ _ Ht Hn) as (d0 & He0 & Hw).
    destruct (exec_call cl s) as [x s'] eqn:Hx. destruct (Hw s He0 Hr x s' Hx) as (Hr' & He & Hk). simpl.
    pose proof (exec_call_framed sha256 faults now new_id uuid_cast cl s) as Hfr. rewrite Hx in Hfr.
    destruct Hfr as (Ha & Hl & Ho). split; [|done]. split; simpl; [by eapply (delivered_same (st_db s))|done|].
    apply Forall_insert; [|by exists (st_db s')]. eapply Forall_impl; [exact Ht|]. intros p Hp. by eapply thread_ok_evolves.
  - split; [|done]. split; [done..|]. simpl. apply Forall_insert; [done|].
    destruct (Forall_lookup_1 _ _ _ _ Ht Hn) as (d0 & He0 & Hw). exists d0. split; [done|]. by apply Hw.
  - split; [|done]. split; [done..|]. simpl. apply Forall_insert; [done|].
    destruct (Forall_lookup_1 _ _ _ _ Ht Hn) as (d0 & He0 & Hw). exists d0. split; [done|]. by apply Hw.
  - split; [|done]. split; [done..|]. simpl. apply Forall_insert; [done|].
    destruct (Forall_lookup_1 _ _ _ _ Ht Hn) as (d0 & He0 & Hw). exists d0. split; [done|]. by apply Hw.
  - destruct (delivery_call_route _ _ Hc Hd) as (Hh & Hv & He).
    apply delivery_call_dstep in Hc. eapply dstep_ok in Hc as [Hd' (Hsub & _)]; [|done].
    destruct (route_inv_same sha256 uuid_cast (st_db s) (st_db s')) as [Hr' Hev]; [done..|].
    split; [|done]. split; [done..|]. simpl. eapply Forall_impl; [exact Ht|]. intros p Hp. by eapply thread_ok_evolves.
  - split; [|done]. split; [done..|]. simpl. apply Forall_app. split; [done|]. apply Forall_singleton. by apply Apply_thread_ok.
Qed.

Lemma sys_run_ok c c' : sys_ok c → rtc sys_step c c' → sys_ok c' ∧ evolves (st_db c.2) (st_db c'.2).
Proof.
  intros Hc Hrun. induction Hrun as [c|c c1 c' Hst _ IH]; [done|].
  destruct (sys_step_ok _ _ Hc Hst) as [Hc1 He1]. destruct (IH Hc1) as [? He]. split; [done|]. by etrans.
Qed.

Lemma sys_start_ok : sys_ok sys_start.
Proof. split; simpl; [apply delivered_empty|apply route_inv_empty|constructor]. Qed.

(** What a head shows when it is visible. *)
Lemma visible_head d t i h :
  route_inv d → d_heads d !! (t, i) = Some h → rh_visibility h = "visible" →
  ∃ aid rid lease, rh_authorization h = Some aid ∧ rh_receipt h = Some rid ∧ bound d t i aid rid ∧
    rh_generation h = rh_version h ∧ rh_lease h = Some lease.
Proof.
  intros Hd Hh Hvis. destruct (ri_head _ _ _ Hd t i h Hh) as [Hok _].
  destruct Hok as [->|f body _ _ _ _ _ _ _ _ Hs|sn body st _ _ _ _ _ _ _ Hs]; [done|..];
    unfold head_shows in Hs; case_bool_decide; try congruence; destruct Hs as (_ & ? & ? & ? & ? & ?); eauto 8.
Qed.

(** C9: An interaction is visible only after its delivery was accepted: in every
    state the system can reach, a visible head names an authorization that the
    delivery service accepted for this interaction, with the receipt it issued,
    and carries the lease and the version that made it visible. *)
Theorem visible_is_authorized ps s t i h :
  rtc sys_step sys_start (ps, s) → d_heads (st_db s) !! (t, i) = Some h → rh_visibility h = "visible" →
  ∃ aid row input result lease,
    rh_authorization h = Some aid ∧ d_authorizations (st_db s) !! (t, aid) = Some row ∧
    accepted_as (st_db s) t aid row input result ∧ az_interaction row = i ∧ rh_receipt h = Some (az_receipt row) ∧
    rh_generation h = rh_version h ∧ rh_lease h = Some lease.
Proof.
  intros Hrun Hh Hvis. destruct (sys_run_ok _ _ sys_start_ok Hrun) as [[Hd Hr _] _]. simpl in *.
  destruct (visible_head _ _ _ _ Hr Hh Hvis) as (aid & rid & lease & Ha & Hri & (row & Hrow & Hi & <-) & Hg & Hl).
  destruct (dv_authorization _ Hd _ _ _ Hrow) as (input & result & Hacc).
  exists aid, row, input, result, lease. by split_and!.
Qed.

(** C13: The history of routes is append-only: from any state the system can reach,
    ledger entries are never rewritten and heads never move back; every head is
    the entry of its version, a head without a snapshot has an entry for every
    version up to it, and an event is the entry of one version of one interaction. *)
Theorem route_history c c' :
  rtc sys_step sys_start c → rtc sys_step c c' →
  d_versions (st_db c.2) ⊆ d_versions (st_db c'.2) ∧
  (∀ t i, (head_version (st_db c.2) t i ≤ head_version (st_db c'.2) t i)%N) ∧
  (∀ t i h, d_heads (st_db c'.2) !! (t, i) = Some h →
     (rh_version h = 0%N ∨ ∃ r, d_versions (st_db c'.2) !! (t, i, rh_version h) = Some r ∧
        rh_event h = Some (rv_event r) ∧ rh_hash h = Some (rv_hash r)) ∧
     (rh_provenance h = None → ∀ v, (0 < v ≤ rh_version h)%N → is_Some (d_versions (st_db c'.2) !! (t, i, v)))) ∧
  (∀ t i v i' v' r r', d_versions (st_db c'.2) !! (t, i, v) = Some r → d_versions (st_db c'.2) !! (t, i', v') = Some r' →
     rv_event r = rv_event r' → i = i' ∧ v = v').
Proof.
  intros H1 H2. destruct (sys_run_ok _ _ sys_start_ok H1) as [Hc _].
  destruct (sys_run_ok _ _ Hc H2) as [[_ Hr _] (_ & Hv & _ & Hhv)]. split_and!; [done..| |].
  - intros t i h Hh. destruct (ri_head _ _ _ Hr t i h Hh) as [Hok _]. split; [|intros; by eapply ri_dense].
    destruct Hok as [->|f body _ _ _ _ Hver Hev Hha He _|sn body st _ _ Hver Hev Hha _ He _]; [by left|right..];
      rewrite Hver; eexists; by split_and!.
  - intros t i v i' v' r r' Hr1 Hr2 He. destruct (ri_ledgers _ _ _ Hr) as [_ Hl]. apply Hl in Hr1, Hr2. rewrite He in Hr1.
    rewrite Hr1 in Hr2. by injection Hr2.
Qed.

(** C22: The answer whether an interaction is visible: when the projector says it
    is, its head is visible, a delivery was accepted for it, and its lease was
    still running on the database's clock. *)
Theorem visible_answer ps s t i replay snap s' :
  rtc sys_step sys_start (ps, s) →
  exec sha256 faults now new_id uuid_cast replay snap (is_visible t i) s = (inr true, s') →
  ∃ h aid rid lease, d_heads (st_db s) !! (t, i) = Some h ∧ rh_visibility h = "visible" ∧ bound (st_db s) t i aid rid ∧
    rh_authorization h = Some aid ∧ rh_receipt h = Some rid ∧ rh_lease h = Some lease ∧
    (now (S (S (st_clock s))) < lease)%Z.
Proof.
  intros Hrun Hex. destruct (sys_run_ok _ _ sys_start_ok Hrun) as [[_ Hr _] _]. simpl in *.
  destruct (Load faults now t i 0 s) as [r s1] eqn:Hl. pose proof Hl as Hclock.
  apply Load_ok in Hl as [_ Hl]. destruct r as [e|[p known]]; [done|]. destruct (Hl p known eq_refl) as (_ & _ & Hst & _).
  apply Load_clock in Hclock as Hnow.
  destruct (negb _ || _) eqn:Ev; simpl in Hex; [by injection Hex|]. injection Hex as Hlt _.
  apply orb_false_iff in Ev as [Ev%negb_false_iff%N.eqb_eq _]. rewrite Hst in Ev, Hlt.
  destruct (d_heads (st_db s) !! (t, i)) as [h|] eqn:Hh; [|done]. simpl in Ev, Hlt.
  case_decide as Hvis; [|done]. destruct (visible_head _ _ _ _ Hr Hh Hvis) as (aid & rid & lease & Ha & Hri & Hb & _ & Hle).
  exists h, aid, rid, lease. split_and!; [done..|]. rewrite Hle, Hnow in Hlt. unfold of_micros in Hlt.
  apply Z.ltb_lt in Hlt. lia.
Qed.

(** A projector that runs alone is one schedule of the system. *)
Lemma exec_is_a_run replay snap n (p : thread) ps s :
  (∀ q, go_replay (replay q)) → ps !! n = Some p →
  let r := exec sha256 faults now new_id uuid_cast replay snap p s in
  rtc sys_step (ps, s) (<[n := RRet r.1]> ps, r.2).
Proof.
  intros Hrep. revert ps s. induction p as [a|C c k IH|pr q k IH|pr q k IH|k IH]; intros ps s Hn; simpl.
  { rewrite list_insert_id by done. apply rtc_refl. }
  all: assert (∀ p', <[n := p']> ps !! n = Some p') as Hins
    by (intros p'; apply list_lookup_insert_eq; by eapply lookup_lt_Some).
  - destruct (exec_call c s) as [x s'] eqn:Hx. specialize (IH x (<[n := k x]> ps) s' (Hins _)). simpl in IH.
    rewrite list_insert_insert_eq in IH. eapply rtc_l; [eapply sys_call; exact Hn|]. by rewrite Hx.
  - specialize (IH (replay q) (<[n := k (replay q)]> ps) s (Hins _)). simpl in IH. rewrite list_insert_insert_eq in IH.
    eapply rtc_l; [|exact IH]. by eapply sys_replay.
  - specialize (IH (snap q) (<[n := k (snap q)]> ps) s (Hins _)). simpl in IH. rewrite list_insert_insert_eq in IH.
    eapply rtc_l; [|exact IH]. by eapply sys_snapshot.
  - specialize (IH (new_id (st_clock s)) (<[n := k (new_id (st_clock s))]> ps) s (Hins _)). simpl in IH.
    rewrite list_insert_insert_eq in IH. eapply rtc_l; [|exact IH]. by eapply sys_new_id.
Qed.

(** A fact is delivered and handled. *)
Lemma run_fact replay snap ps s f :
  (∀ q, go_replay (replay q)) → go_fact f → rtc sys_step sys_start (ps, s) →
  ∃ ps', rtc sys_step sys_start (ps', (exec sha256 faults now new_id uuid_cast replay snap (Apply sha256 f) s).2).
Proof.
  intros Hrep Hf Hrun. eexists. etrans; [eapply rtc_r; [exact Hrun|by apply (sys_fact _ _ f)]|].
  apply (exec_is_a_run replay snap (length ps)); [done|]. by apply list_lookup_middle.
Qed.

Lemma run_delivery ps s s' : delivery_call s s' → rtc sys_step sys_start (ps, s) → rtc sys_step sys_start (ps, s').
Proof. intros Hc Hrun. eapply rtc_r; [exact Hrun|]. by apply sys_delivery. Qed.
End System.
