(* ===== verification/RouteProgress.v ===== *)
(** Progress of the route projection while the database answers: the next fact is
    applied, a fact that is applied is settled for good, and a different fact for
    its version is recorded as poison without changing anything else. *)

From S2P Require Import Prelude Bytes Subjects Uuid PgTx Delivery DeliveryPg DeliveryTheorems DeliveryCorrect.
From S2P Require Import RouteProjection RouteProjectionPg RouteTheorems RouteCorrect RouteSystem.

Section Progress.
Context {U : UuidLib} {UL : UuidLaws U} {L : DeliveryLib} {DL : DeliveryLaws L} `{RouteJson}.
Context (faults : nat → fault) (now : nat → Z) (nextval : nat → N) (new_id : nat → string)
        (uuid_cast : string → option string).
Context (cast_canonical : ∀ v, canonicalUUIDv7 v = true → uuid_cast v = Some v) (sha_inj : collision_free).
(** Casting the text of an id gives it back; a canonical UUIDv7 has its version
    digit in the fifteenth place. *)
Context (cast_idem : ∀ v u, uuid_cast v = Some u → uuid_cast u = Some u)
        (version_digit : ∀ v, canonicalUUIDv7 v = true → String.get 14 v = Some "7"%char).

#[local] Abbreviation route_inv := (route_inv sha256 uuid_cast).
#[local] Abbreviation Hash := (HashRouteFact sha256).
#[local] Abbreviation exec := (exec sha256 faults now new_id uuid_cast).
#[local] Abbreviation sys_step := (sys_step faults now nextval new_id uuid_cast).
#[local] Abbreviation must := (tx_must (E:=rerr) faults).

(** ** Columns *)

Lemma column_canonical v : canonicalUUIDv7 v = true → uuid_column uuid_cast v = Some (Some v).
Proof.
  intros Hc. unfold uuid_column. rewrite decide_False by (by apply canonicalUUIDv7_nonempty).
  rewrite cast_canonical by done. rewrite bool_decide_eq_true_2; auto.
Qed.

Lemma column_again c : column_ok uuid_cast c → uuid_column uuid_cast (default "" c) = Some c.
Proof.
  destruct c as [u|]; [|done]. intros Hc. destruct (Hc u eq_refl) as [[v Hv] Hd]. simpl. unfold uuid_column.
  rewrite decide_False by (intros ->; done). rewrite (cast_idem v u Hv). by rewrite bool_decide_eq_true_2.
Qed.

(** The head of an interaction as the database keeps it. *)
Lemma head_columns d t i :
  route_inv d → let st := head_state (d_heads d !! (t, i)) in
  bigint (fs_VisibilityGeneration st) = true ∧ fs_Version st = head_version d t i ∧
  (∃ c, uuid_column uuid_cast (fs_DeliveryAuthorizationID st) = Some c) ∧
  (∃ c, uuid_column uuid_cast (fs_ReceiptID st) = Some c).
Proof.
  intros Hd st. unfold st, head_version. destruct (d_heads d !! (t, i)) as [h|] eqn:Hh; simpl.
  - destruct (ri_head _ _ _ Hd t i h Hh) as [_ (_ & Hg & Ha & Hr)]. split_and!; eauto using column_again.
  - split_and!; [done..| |]; by exists None.
Qed.

Lemma next_head_row st f floor prov :
  validateFact f = None → bigint (rf_Version f) = true → bigint (fs_VisibilityGeneration st) = true →
  (∃ c, uuid_column uuid_cast (fs_DeliveryAuthorizationID st) = Some c) →
  (∃ c, uuid_column uuid_cast (fs_ReceiptID st) = Some c) →
  is_Some (head_row uuid_cast (fold_fact sha256 st f) floor prov).
Proof.
  intros (_ & _ & _ & He & Hk)%validateFact_spec Hb Hg [ca Hca] [cr Hcr].
  unfold head_row, fold_fact.
  destruct Hk as [Hk|[Hk|(Hk & Ha & Hr & Hgen & _)]]; rewrite Hk; cbn -[uuid_column bigint].
  - rewrite Hb, Hg, cast_canonical by done. simpl. rewrite Hca, Hcr. simpl. eauto.
  - rewrite Hb, Hg, cast_canonical by done. simpl. rewrite Hca, Hcr. simpl. eauto.
  - rewrite Hgen, Hb, cast_canonical by done. simpl. rewrite !column_canonical by done. simpl. eauto.
Qed.

(** ** Statements that succeed *)

Lemma lock_head_must d t i :
  route_inv d →
  must t (lock_head faults t i) d (λ v d', locked sha256 uuid_cast d t i v d' ∧ v = head_version d t i ∧
    d_versions d' = d_versions d ∧ d_events d' = d_events d ∧
    head_state (d_heads d' !! (t, i)) = head_state (d_heads d !! (t, i))).
Proof.
  intros Hd. assert (tx_ok t (lock_head faults t i) d (locked sha256 uuid_cast d t i)) as Hok by (by apply lock_head_ok).
  intros n Hn. specialize (Hok n). revert Hok. unfold lock_head, ensureProjectionHead, tx_bind, write, query, stmt, stmt_at.
  rewrite !Hn by lia. rewrite bool_decide_eq_true_2 by done. simpl.
  destruct (d_heads d !! (t, i)) as [h|] eqn:Hh; simpl.
  - rewrite Hh. simpl. intros Hok. split; [lia|]. split_and!; try done; unfold head_version; by rewrite Hh.
  - rewrite lookup_insert_eq. simpl. intros Hok. split; [lia|]. split_and!; try done.
    + unfold head_version. by rewrite Hh.
    + simpl. by rewrite lookup_insert_eq.
Qed.

(** The version after the head has no entry. *)
Lemma next_entry_fresh d t i v :
  route_inv d → v = (head_version d t i + 1)%N →
  d_versions d !! (t, i, v) = None ∧
  ¬ map_Exists (λ k r, k.1 = t ∧ re_interaction r = i ∧ re_version r = v) (d_events d).
Proof.
  intros Hd Hv. assert (d_versions d !! (t, i, v) = None) as Hn.
  { destruct (d_versions d !! (t, i, v)) as [r|] eqn:E; [|done].
    destruct (ri_entry _ _ _ Hd t i v r E) as (h & Hh & Hle). unfold head_version in Hv. rewrite Hh in Hv. simpl in Hv. lia. }
  split; [done|]. intros ([t' e] & er & He & <- & <- & <-). simpl in *.
  destruct (ri_ledgers _ _ _ Hd) as [Hl _]. destruct (Hl _ _ _ He) as (r & Hr & _). congruence.
Qed.

Lemma install_next_must d t i f body :
  route_inv d → validateFact f = None → rf_TenantID f = t → rf_InteractionID f = i → marshalFact f = Some body →
  rf_Version f = (head_version d t i + 1)%N → bigint (rf_Version f) = true → d_events d !! (t, rf_EventID f) = None →
  must t (installBatchTx sha256 faults uuid_cast t i (head_version d t i) [f]
            (fold_fact sha256 (head_state (d_heads d !! (t, i))) f) "") d
    (λ ok d', ok = true ∧ ∃ h floor prov, d_heads d' !! (t, i) = Some h ∧
       head_row uuid_cast (fold_fact sha256 (head_state (d_heads d !! (t, i))) f) floor prov = Some h).
Proof.
  intros Hd Hv Ht Hi Hb Hver Hbig Hev. unfold installBatchTx. apply tx_must_bind.
  eapply tx_must_mono; [by apply lock_head_must|].
  intros v d1 ((Hd1 & _ & _ & h & Hh & Hhv) & -> & Hv1 & He1 & Hs1). rewrite N.eqb_refl. cbn [negb].
  apply tx_must_bind. rewrite decide_True by done. apply tx_must_ret. cbn [negb]. cbn [insert_facts].
  assert (head_version d1 t i = head_version d t i) as Hhv1 by (unfold head_version at 1; by rewrite Hh).
  destruct (next_entry_fresh d1 t i (rf_Version f) Hd1) as [Hn1 Hn2]; [by rewrite Hhv1|].
  destruct (validateFact_spec f Hv) as (Hpos & _).
  do 2 apply tx_must_bind. unfold insertFactLedgers. rewrite Hb, Ht, Hi. apply tx_must_bind.
  apply tx_must_write; [by rewrite Hbig, (proj2 (N.ltb_lt _ _) Hpos), bool_decide_eq_true_2|].
  apply tx_must_write.
  { simpl. rewrite Hbig, (proj2 (N.ltb_lt _ _) Hpos). rewrite bool_decide_eq_true_2 by (by rewrite He1). cbn [andb].
    by rewrite bool_decide_eq_false_2. }
  apply tx_must_ret. apply tx_must_bind. apply tx_must_stmt_at. intros n. simpl. rewrite Hh.
  destruct (head_columns d t i Hd) as (Hg & _ & Hca & Hcr).
  destruct (next_head_row (head_state (d_heads d !! (t, i))) f (rh_floor h) (rh_provenance h)) as [h' Hrow]; [done..|].
  rewrite Hrow. apply tx_must_bind, tx_must_ret, tx_must_ret.
  split; [done|]. exists h', (rh_floor h), (rh_provenance h). simpl. by rewrite lookup_insert_eq.
Qed.

Lemma Load_must t i v s :
  answers_from faults (st_clock s) → v ≠ 0%N → bigint v = true →
  ∃ p known s', Load faults now t i v s = (inr (p, known), s') ∧ st_db s' = st_db s ∧ answers_from faults (st_clock s') ∧
    pj_TenantID p = t ∧ pj_InteractionID p = i ∧ pj_State p = head_state (d_heads (st_db s) !! (t, i)) ∧
    known = (λ r, mkFactIdentity (rv_event r) (rv_hash r)) <$> d_versions (st_db s) !! (t, i, v).
Proof.
  intros Hs Hv Hb. unfold Load.
  match goal with |- context [run_tx faults t ?m s] => assert (must t m (st_db s) (λ _ _, True)) as Hm end.
  { apply tx_must_bind, tx_must_stmt_at. intros n. apply tx_must_bind, tx_must_query.
    rewrite (proj2 (N.eqb_neq _ _) Hv). apply tx_must_bind, tx_must_stmt_at. intros m. rewrite Hb. by apply tx_must_ret. }
  destruct (run_tx_must faults t _ s _ Hs Hm) as ([p known] & s' & Hr & _ & Hs').
  exists p, known, s'. pose proof Hr as Hr'. apply Load_ok in Hr' as [Hdb Hx]. destruct (Hx p known eq_refl) as (?&?&?&?).
  split_and!; auto.
Qed.

Lemma Authorization_must t i aid rid s :
  answers_from faults (st_clock s) → delivered (st_db s) → canonicalUUIDv7 aid = true → bound (st_db s) t i aid rid →
  ∃ s', Authorization faults uuid_cast t aid s = (inr (Some (mkBinding i rid)), s') ∧ st_db s' = st_db s ∧
    answers_from faults (st_clock s').
Proof.
  intros Hs Hd Hc (row & Hrow & <- & <-). unfold Authorization, stmt. rewrite run_stmt_healthy by done.
  rewrite cast_canonical, Hrow by done. simpl.
  destruct (dv_authorization _ Hd _ _ _ Hrow) as (input & result & _ & _ & _ & -> & _). simpl.
  eexists. split_and!; [done..|]. simpl. intros k Hk. apply Hs. lia.
Qed.

(** The bindings of one fact. *)
Lemma bindings_exec replay snap f s :
  answers_from faults (st_clock s) → delivered (st_db s) → validateFact f = None →
  (rf_Kind f = FactRinging →
     bound (st_db s) (rf_TenantID f) (rf_InteractionID f) (rf_DeliveryAuthorizationID f) (rf_ReceiptID f)) →
  ∃ s', exec replay snap (validateAuthorizationBindings [f]) s = (None, s') ∧ st_db s' = st_db s ∧
    answers_from faults (st_clock s').
Proof.
  intros Hs Hd Hv Hb. cbn [validateAuthorizationBindings]. destruct (rf_Kind f =? FactRinging)%N eqn:Ek; cbn [negb].
  - apply N.eqb_eq in Ek. destruct (validateFact_spec f Hv) as (_ & _ & _ & _ & Hk).
    destruct Hk as [E|[E|(_ & Hca & _)]]; [by rewrite Ek in E..|].
    destruct (Authorization_must _ _ _ _ s Hs Hd Hca (Hb Ek)) as (s' & Ha & Hdb & Hs').
    cbn [RouteProjectionPg.exec exec_call]. rewrite Ha. simpl. rewrite decide_False by naive_solver. eauto.
  - simpl. eauto.
Qed.

Lemma exec_bind {A B} replay snap (p : rprog A) (k : A → rprog B) s :
  exec replay snap (rbind p k) s = let '(a, s') := exec replay snap p s in exec replay snap (k a) s'.
Proof.
  revert s. induction p as [a|C c kk IH|pr q kk IH|pr q kk IH|kk IH]; intros s; simpl; [done|..|apply IH].
  - destruct (exec_call _ _ _ _ _ c s) as [x s']. apply IH.
  - apply IH.
  - apply IH.
Qed.

Lemma InstallBatch_must f s :
  let t := rf_TenantID f in let i := rf_InteractionID f in let d := st_db s in
  answers_from faults (st_clock s) → route_inv d → validateFact f = None → is_Some (marshalFact f) →
  rf_Version f = (head_version d t i + 1)%N → bigint (rf_Version f) = true → d_events d !! (t, rf_EventID f) = None →
  ∃ s' h floor prov, InstallBatch sha256 faults uuid_cast (head_version d t i) [f]
      (fold_fact sha256 (head_state (d_heads d !! (t, i))) f) s = (inr true, s') ∧
    d_heads (st_db s') !! (t, i) = Some h ∧
    head_row uuid_cast (fold_fact sha256 (head_state (d_heads d !! (t, i))) f) floor prov = Some h.
Proof.
  intros t i d Hs Hd Hv [body Hb] Hver Hbig Hev.
  destruct (run_tx_must faults t _ s _ Hs (install_next_must d t i f body Hd Hv eq_refl eq_refl Hb Hver Hbig Hev))
    as (ok & s' & Hr & [-> (h & floor & prov & Hh & Hrow)] & _).
  exists s', h, floor, prov. split_and!; [exact Hr|done..].
Qed.

(** C20: In every state the system reaches, a valid fact of the next version is
    applied at once, the call running by itself on a database that answers,
    provided that its version fits a bigint, that its event id is unused in the
    tenant and that a ringing fact names an authorization accepted for the
    interaction with its receipt: the head becomes this fact, visible exactly when
    it is a ringing fact. *)
Theorem next_fact_applies ps s f replay snap :
  let t := rf_TenantID f in let i := rf_InteractionID f in
  rtc sys_step sys_start (ps, s) → answers_from faults (st_clock s) →
  validateFact f = None → is_Some (marshalFact f) →
  rf_Version f = (head_version (st_db s) t i + 1)%N → bigint (rf_Version f) = true →
  d_events (st_db s) !! (t, rf_EventID f) = None →
  (rf_Kind f = FactRinging → bound (st_db s) t i (rf_DeliveryAuthorizationID f) (rf_ReceiptID f)) →
  ∃ s' h, exec replay snap (Apply sha256 f) s = ((Applied, None), s') ∧
    d_heads (st_db s') !! (t, i) = Some h ∧ rh_version h = rf_Version f ∧ rh_event h = Some (rf_EventID f) ∧
    rh_hash h = Some (Hash f) ∧ rh_visibility h = (if decide (rf_Kind f = FactRinging) then "visible" else "hidden").
Proof.
  intros t i Hrun Hs Hv Hm Hver Hbig Hev Hb.
  destruct (sys_run_ok faults now nextval new_id uuid_cast cast_canonical sha_inj _ _
              (sys_start_ok faults now new_id uuid_cast) Hrun) as [[Hd Hr _] _]. simpl in Hd, Hr.
  destruct (validateFact_spec f Hv) as (Hpos & Hct & _ & Hce & _).
  destruct (Load_must t i (rf_Version f) s Hs) as (p & known & s1 & Hl & Hdb1 & Hs1 & Hpt & Hpi & Hpst & _); [lia|done|].
  destruct (head_columns (st_db s) t i Hr) as (_ & Hcur & _). rewrite <-Hpst in Hcur.
  assert (inc64 (head_version (st_db s) t i) = rf_Version f) as Hinc.
  { rewrite Hver. apply inc64_id. apply N.ltb_lt in Hbig. lia. }
  unfold Apply. rewrite Hv. cbn [RouteProjectionPg.exec exec_call]. fold t i. rewrite Hl. cbn beta iota.
  rewrite Hcur. destruct (rf_Version f <=? _)%N eqn:El; [apply N.leb_le in El; lia|].
  rewrite Hinc, N.ltb_irrefl. rewrite exec_bind.
  destruct (bindings_exec replay snap f s1 Hs1) as (s2 & Hx & Hdb2 & Hs2); [by rewrite Hdb1|done|by rewrite Hdb1|].
  rewrite Hx. cbn beta iota.
  assert (FoldBatch sha256 p [f] = Some (fold_fact sha256 (pj_State p) f)) as ->.
  { unfold FoldBatch. rewrite decide_False by (rewrite Hpt; by apply canonicalUUIDv7_nonempty). cbn [fold_facts].
    rewrite Hv, bool_decide_eq_false_2 by (by intros []). rewrite Hcur, Hinc, N.eqb_refl, Hpt, Hpi.
    by rewrite !bool_decide_eq_true_2. }
  destruct (InstallBatch_must f s2 Hs2) as (s' & h & floor & prov & Hi & Hh & Hrow); try (by rewrite Hdb2, Hdb1); try done.
  rewrite Hdb2, Hdb1 in Hi, Hrow. fold t i in Hi, Hrow, Hh. rewrite <-Hpst in Hi, Hrow.
  cbn [RouteProjectionPg.exec exec_call]. rewrite Hi. exists s', h. split; [done|]. split; [done|].
  destruct (fold_fact_shows sha256 (pj_State p) f Hv) as (H1 & H2 & H3 & H4).
  destruct (head_row_spec uuid_cast cast_canonical _ _ _ _ Hrow) as (G1 & _ & G2 & G3 & G4 & _); [by rewrite H2|].
  split_and!; [congruence..|]. rewrite G4. case_decide; [by destruct H4 as [-> _]|by rewrite H4].
Qed.

(** C21: A version is settled once: when a fact arrives for a version that has an
    entry, the same fact is reported as a duplicate and nothing changes; any other
    fact is reported as poisoned and changes the dead letters only. *)
Theorem applied_version_is_settled ps s g r replay snap o s' :
  rtc sys_step sys_start (ps, s) → answers_from faults (st_clock s) →
  validateFact g = None → bigint (rf_Version g) = true → d_versions (st_db s) !! fact_key g = Some r →
  exec replay snap (Apply sha256 g) s = (o, s') →
  if decide (rv_event r = rf_EventID g ∧ rv_hash r = Hash g)
  then o = (Duplicate, None) ∧ st_db s' = st_db s
  else o.1 = Poisoned ∧ is_Some o.2 ∧ ∃ m, st_db s' = set_dlq m (st_db s).
Proof.
  intros Hrun Hs Hv Hbig Hent Hex.
  destruct (sys_run_ok faults now nextval new_id uuid_cast cast_canonical sha_inj _ _
              (sys_start_ok faults now new_id uuid_cast) Hrun) as [[_ Hr _] _]. simpl in Hr.
  destruct (validateFact_spec g Hv) as (Hpos & _).
  destruct (Load_must (rf_TenantID g) (rf_InteractionID g) (rf_Version g) s Hs)
    as (p & known & s1 & Hl & Hdb1 & _ & _ & _ & Hpst & Hk); [lia|done|].
  destruct (head_columns (st_db s) (rf_TenantID g) (rf_InteractionID g) Hr) as (_ & Hcur & _). rewrite <-Hpst in Hcur.
  destruct (ri_entry _ _ _ Hr _ _ _ _ Hent) as (h & Hh & Hle).
  unfold Apply in Hex. rewrite Hv in Hex. cbn [RouteProjectionPg.exec exec_call] in Hex. rewrite Hl in Hex. cbn beta iota in Hex.
  assert (head_version (st_db s) (rf_TenantID g) (rf_InteractionID g) = rh_version h) as Hhv
    by (unfold head_version; by rewrite Hh).
  rewrite Hcur, Hhv, (proj2 (N.leb_le _ _) (proj2 Hle)), Hk in Hex. unfold fact_key in Hent. rewrite Hent in Hex. cbn in Hex.
  case_decide as Hsame; [by injection Hex as <- <-|].
  cbn [poison RouteProjectionPg.exec exec_call] in Hex.
  destruct (RecordPoison sha256 faults new_id g ErrDivergentHistory s1) as [x s2] eqn:Hp.
  assert (∃ m, st_db s2 = set_dlq m (st_db s1)) as [m Hm].
  { unfold RecordPoison in Hp. destruct (marshalFact g) as [body|]; [|injection Hp as <- <-; exists (d_dlq (st_db s1)); by destruct (st_db s1)].
    eapply (run_tx_ok faults _ _ s1 x s2 (λ _ d', ∃ m, d' = set_dlq m (st_db s1))) in Hp; [|apply insert_dlq_ok; eauto].
    destruct Hp as [(? & _ & ->)|(a & Ha & _)]; [exists (d_dlq (st_db s1)); by destruct (st_db s1)|done]. }
  rewrite Hdb1 in Hm. destruct x as [e|[]]; injection Hex as <- <-; eauto.
Qed.
End Progress.
