(* ===== verification/RouteRuns.v ===== *)
(** Concrete runs of the route projection on one database with the deliveries: an
    accepted delivery made visible by its ringing fact, and the runs in which a
    fact is refused for good. *)

From S2P Require Import Prelude Bytes Subjects Uuid PgTx Delivery DeliveryPg DeliveryTheorems DeliveryCorrect DeliveryRuns.
From S2P Require Import RouteProjection RouteProjectionPg RouteTheorems RouteCorrect RouteSystem RouteProgress.

#[local] Existing Instance bit_codec.
#[local] Existing Instance bit_codec_laws.
#[local] Existing Instance text_uuid.
#[local] Existing Instance text_uuid_laws.

(** * The environment *)

#[local] Instance parts_json : RouteJson := {
  marshalFact f := Some (put_parts (fact_parts f));
  marshal_snapshot s := Some (ss_Provenance s);
  jsonMarshalAlert s f := Some (put_parts (fact_parts f));
}.

(** The cast to uuid, of canonical UUIDv7 text. *)
Definition v7_cast (s : string) : option string := if uuidv7Pattern s then Some s else None.

Definition hex_digit (n : nat) : ascii :=
  default "0"%char (String.get (n mod 16) "0123456789abcdef").
Definition v7_ids (n : nat) : string :=
  "00000000-0000-7000-8000-0000000000" +:+ String (hex_digit (n / 16)) (String (hex_digit n) "").

Lemma text_canonical v : canonicalUUIDv7 v = uuidv7Pattern v.
Proof.
  unfold canonicalUUIDv7. simpl. destruct (decide _) as [H|H]; simpl.
  - by rewrite bool_decide_eq_true_2.
  - by destruct (uuidv7Pattern v).
Qed.

Lemma v7_cast_canonical v : canonicalUUIDv7 v = true → v7_cast v = Some v.
Proof. rewrite text_canonical. unfold v7_cast. by intros ->. Qed.

Lemma v7_cast_idem v u : v7_cast v = Some u → v7_cast u = Some u.
Proof. unfold v7_cast. destruct (uuidv7Pattern v) eqn:E; [|done]. intros [= <-]. by rewrite E. Qed.

Lemma match_classes_get n p s f :
  p !! n = Some f → match_classes p s = true → ∃ c, String.get n s = Some c ∧ f c = true.
Proof.
  revert n s. induction p as [|g p IH]; intros n [|c s] Hn Hm; simplify_eq/=.
  apply andb_prop in Hm as [Hc Hm]. destruct n as [|n]; simplify_eq/=; [by exists c|by apply IH].
Qed.

Lemma v7_digit v : canonicalUUIDv7 v = true → String.get 14 v = Some "7"%char.
Proof.
  rewrite text_canonical. intros (c & Hc & Hs)%(match_classes_get 14 _ _ (isc "7")); [|done].
  by apply bool_decide_eq_true in Hs as ->.
Qed.

#[local] Hint Extern 0 (AuthorizationStore DState) => exact (accept_store no_faults clock sequence) : typeclass_instances.
#[local] Hint Extern 0 (AckStore DState) => exact (ack_store no_faults clock v7_ids v7_cast) : typeclass_instances.

#[local] Abbreviation run := (exec sha256 no_faults clock v7_ids v7_cast).
#[local] Abbreviation step := (sys_step no_faults clock sequence v7_ids v7_cast).

(** * Facts *)

Definition interaction1 : string := uuid_n "4".

(** The ringing fact of the accepted delivery, at a version. *)
Definition ringing (v : N) (event : ascii) : RouteFact :=
  mkRouteFact tenant interaction1 (uuid_n event) v FactRinging (uuid_n "1") (uuid_n "a") v (10 ^ 15)%Z.
Definition reserved (v : N) (event : ascii) : RouteFact :=
  mkRouteFact tenant interaction1 (uuid_n event) v FactReserved "" "" 0 zero_time.

(** A router that does not answer. *)
Definition no_replay (q : ReplayRequest) : rerr + ReplayResult := inl ErrRouteRouter.
Definition no_snapshot (q : SnapshotRequest) : rerr + Snapshot := inl ErrRouteRouter.

Abbreviation r1 := ((AcceptDelivery producer (Some (sample "" "5" 1)) (uuid_n "a") start).2).
Abbreviation applied1 := (run no_replay no_snapshot (Apply sha256 (ringing 1 "b")) r1).
Abbreviation r2 := (applied1.2).

Example applied1_run : applied1.1 = (Applied, None).
Proof. vm_compute. reflexivity. Qed.

Lemma ringing_go v e : (v < 18446744073709551616)%N → go_fact (ringing v e).
Proof. intros Hv. split_and!; [|done..]. simpl. repeat constructor; unfold len_ok; simpl; lia. Qed.

Lemma no_replay_go q : go_replay (no_replay q).
Proof. done. Qed.

Lemma r1_run : rtc step sys_start ([], r1).
Proof. eapply run_delivery; [apply call_accept|apply rtc_refl]. Qed.

Lemma r2_run : ∃ ps, rtc step sys_start (ps, r2).
Proof. eapply run_fact; [exact no_replay_go|by apply ringing_go|exact r1_run]. Qed.

(** * The delivery becomes visible *)

Abbreviation key1 := (tenant, interaction1).
Abbreviation head2 := (default no_route_head (d_heads (st_db r2) !! key1)).

Lemma head2_found : d_heads (st_db r2) !! key1 = Some head2.
Proof. apply found. vm_compute. reflexivity. Qed.

Lemma visible_is_authorized_witness :
  rh_visibility head2 = "visible" ∧
  ∃ aid row, rh_authorization head2 = Some aid ∧ d_authorizations (st_db r2) !! (tenant, aid) = Some row ∧
    az_interaction row = interaction1 ∧ rh_receipt head2 = Some (az_receipt row).
Proof.
  assert (rh_visibility head2 = "visible") as Hvis by (vm_compute; reflexivity). split; [exact Hvis|].
  destruct r2_run as [ps Hrun].
  destruct (visible_is_authorized no_faults clock sequence v7_ids v7_cast v7_cast_canonical bit_codec_collision_free
              ps r2 tenant interaction1 head2 Hrun head2_found Hvis) as (aid & row & _ & _ & _ & H1 & H2 & _ & H3 & H4 & _).
  exists aid, row. by split_and!.
Defined.

Lemma visible_answer_witness :
  ∃ h lease, d_heads (st_db r2) !! key1 = Some h ∧ rh_lease h = Some lease ∧ (clock (S (S (st_clock r2))) < lease)%Z.
Proof.
  destruct r2_run as [ps Hrun].
  destruct (visible_answer no_faults clock sequence v7_ids v7_cast v7_cast_canonical bit_codec_collision_free
              ps r2 tenant interaction1 no_replay no_snapshot (run no_replay no_snapshot (is_visible tenant interaction1) r2).2
              Hrun) as (h & _ & _ & lease & H1 & _ & _ & _ & _ & H2 & H3).
  - apply pair_run. vm_compute. reflexivity.
  - exists h, lease. by split_and!.
Defined.

Lemma ring_bound : bound (st_db r1) tenant interaction1 (uuid_n "1") (uuid_n "a").
Proof.
  exists (default (mkAuthorizationRow "" "" "" "" "" 0 0%Z "" "" "" "" 0 0 "" "") (d_authorizations (st_db r1) !! (tenant, uuid_n "1"))).
  split; [apply found|split]; vm_compute; reflexivity.
Qed.

Lemma next_fact_applies_witness :
  ∃ s' h, run no_replay no_snapshot (Apply sha256 (ringing 1 "b")) r1 = ((Applied, None), s') ∧
    d_heads (st_db s') !! key1 = Some h ∧ rh_version h = 1%N ∧ rh_visibility h = "visible".
Proof.
  assert (rf_Version (ringing 1 "b") = (head_version (st_db r1) tenant interaction1 + 1)%N) as Hnext
    by (vm_compute; reflexivity).
  assert (d_events (st_db r1) !! (tenant, uuid_n "b") = None) as Hnew by (vm_compute; reflexivity).
  destruct (next_fact_applies no_faults clock sequence v7_ids v7_cast v7_cast_canonical bit_codec_collision_free
              v7_cast_idem v7_digit [] r1 (ringing 1 "b") no_replay no_snapshot r1_run (λ _ _, eq_refl) eq_refl
              (mk_is_Some _ _ eq_refl) Hnext eq_refl Hnew (λ _, ring_bound)) as (s' & h & H1 & H2 & H3 & _ & _ & H4).
  exists s', h. split_and!; [exact H1|exact H2|exact H3|exact H4].
Defined.

Abbreviation entry1 := (default (mkRouteVersionRow "" "" "") (d_versions (st_db r2) !! (tenant, interaction1, 1%N))).

(** The same fact once more, and another fact for its version. *)
Lemma applied_version_is_settled_witness :
  (run no_replay no_snapshot (Apply sha256 (ringing 1 "b")) r2).1 = (Duplicate, None) ∧
  (run no_replay no_snapshot (Apply sha256 (reserved 1 "c")) r2).1.1 = Poisoned.
Proof.
  destruct r2_run as [ps Hrun].
  assert (∀ g, validateFact g = None → fact_key g = (tenant, interaction1, 1%N) → bigint (rf_Version g) = true →
    let x := run no_replay no_snapshot (Apply sha256 g) r2 in
    if decide (rv_event entry1 = rf_EventID g ∧ rv_hash entry1 = HashRouteFact sha256 g)
    then x.1 = (Duplicate, None) ∧ st_db x.2 = st_db r2
    else x.1.1 = Poisoned ∧ is_Some x.1.2 ∧ ∃ m, st_db x.2 = set_dlq m (st_db r2)) as Hall.
  { intros g Hv Hk Hb x.
    apply (applied_version_is_settled no_faults clock sequence v7_ids v7_cast v7_cast_canonical bit_codec_collision_free
             v7_cast_idem ps r2 g entry1 no_replay no_snapshot x.1 x.2 Hrun); [done..| |apply surjective_pairing].
    rewrite Hk. apply found. vm_compute. reflexivity. }
  assert (rv_event entry1 = uuid_n "b" ∧ rv_hash entry1 = HashRouteFact sha256 (ringing 1 "b")) as [He Hh]
    by (split; vm_compute; reflexivity).
  split.
  - pose proof (Hall (ringing 1 "b") eq_refl eq_refl eq_refl) as Hx. cbv zeta in Hx.
    rewrite decide_True in Hx by (split; [exact He|exact Hh]). apply Hx.
  - pose proof (Hall (reserved 1 "c") eq_refl eq_refl eq_refl) as Hx. cbv zeta in Hx.
    rewrite decide_False in Hx by (intros [Hc _]; rewrite He in Hc; discriminate Hc). apply Hx.
Defined.

Lemma route_history_witness :
  head_version (st_db r1) tenant interaction1 = 0%N ∧ d_versions (st_db r1) ⊆ d_versions (st_db r2).
Proof.
  split; [vm_compute; reflexivity|].
  assert (rtc step ([], r1) ([] ++ [RRet applied1.1], r2)) as Hrun.
  { eapply rtc_l; [by apply (sys_fact _ _ _ _ _ [] _ (ringing 1 "b")), ringing_go|].
    exact (exec_is_a_run no_faults clock sequence v7_ids v7_cast no_replay no_snapshot 0 _ [Apply sha256 (ringing 1 "b")] r1
             no_replay_go eq_refl). }
  assert (∀ ps s ps' s', rtc step sys_start (ps, s) → rtc step (ps, s) (ps', s') →
            d_versions (st_db s) ⊆ d_versions (st_db s')) as Hall.
  { intros ps s ps' s' H1 H2.
    exact (proj1 (route_history no_faults clock sequence v7_ids v7_cast v7_cast_canonical bit_codec_collision_free
                    (ps, s) (ps', s') H1 H2)). }
  exact (Hall [] r1 ([] ++ [RRet applied1.1]) r2 r1_run Hrun).
Defined.

Lemma HashRouteFact_binds_witness : HashRouteFact (λ x, x) (ringing 1 "b") ≠ HashRouteFact (λ x, x) (ringing 1 "c").
Proof.
  intros He. apply (HashRouteFact_binds (λ x, x)) in He; [discriminate He|done|by apply ringing_go..| |];
    split; vm_compute; congruence.
Defined.

(** * Where the code departs from its intent *)

(** The fact of version 3 arrives while the router does not answer; versions 2 and
    3 are then applied as they come. *)
Abbreviation apply f s := ((run no_replay no_snapshot (Apply sha256 f) s).2).
Abbreviation overtaken := (apply (reserved 3 "d") (apply (reserved 2 "c") (apply (reserved 3 "d") r2))).

(** Databases are compared table by table. *)
#[local] Instance AuthorizationRow_eq_dec : EqDecision AuthorizationRow.
Proof. solve_decision. Defined.
#[local] Instance LogRow_eq_dec : EqDecision LogRow.
Proof. solve_decision. Defined.
#[local] Instance OutboxRow_eq_dec : EqDecision OutboxRow.
Proof. solve_decision. Defined.
#[local] Instance RouteHeadRow_eq_dec : EqDecision RouteHeadRow.
Proof. solve_decision. Defined.
#[local] Instance RouteVersionRow_eq_dec : EqDecision RouteVersionRow.
Proof. solve_decision. Defined.
#[local] Instance RouteEventRow_eq_dec : EqDecision RouteEventRow.
Proof. solve_decision. Defined.
#[local] Instance RouteIntentRow_eq_dec : EqDecision RouteIntentRow.
Proof. solve_decision. Defined.
#[local] Instance RouteDlqRow_eq_dec : EqDecision RouteDlqRow.
Proof. solve_decision. Defined.
#[local] Instance RouteAlertRow_eq_dec : EqDecision RouteAlertRow.
Proof. solve_decision. Defined.
#[local] Instance DPg_eq_dec : EqDecision DPg.
Proof. solve_decision. Defined.

Ltac by_eval := apply (bool_decide_unpack _); vm_compute; exact I.

(** A reconciliation that was begun and then overtaken blocks every later one:
    its intent stays pending, so the next gap of the interaction is refused as a
    lost compare-and-set, whatever the router would answer, and the database is as
    before; when the fact is delivered again the same happens. *)
Theorem stale_route_intent_blocks replay snap :
  let once := run replay snap (Apply sha256 (reserved 5 "e")) overtaken in
  let again := run replay snap (Apply sha256 (reserved 5 "e")) once.2 in
  head_version (st_db overtaken) tenant interaction1 = 3%N ∧
  once.1 = (CompareAndSetLost, None) ∧ st_db once.2 = st_db overtaken ∧
  again.1 = (CompareAndSetLost, None) ∧ st_db again.2 = st_db overtaken.
Proof.
  intros once again. subst once again.
  split_and!; by_eval.
Qed.

(** The router has forgotten the history; its snapshot is at version 5. *)
Definition forgotten (q : ReplayRequest) : rerr + ReplayResult := inl ErrUnknownHistory.
Definition snapshot5 : Snapshot :=
  mkSnapshot (mkProjection tenant interaction1 (mkFolded 5 (uuid_n "e") (be_bytes 32 1) Hidden "" "" 0 zero_time) 0) 4 "router".
Definition at_5 (q : SnapshotRequest) : rerr + Snapshot := inr snapshot5.

Abbreviation audited := (run forgotten at_5 (Apply sha256 (reserved 5 "e")) r2).
Abbreviation late3 s := (run forgotten at_5 (Apply sha256 (reserved 3 "d")) s).

(** A fact that a snapshot has overtaken is never settled: it arrives late, the
    router still does not know its history and still answers the snapshot that is
    installed, and the second entry for its version is an error of the database;
    no dead letter is written and every delivery of the fact ends alike. *)
Theorem late_fact_never_settles :
  audited.1 = (AuditedUnknownHistory, None) ∧
  (late3 audited.2).1 = (NoResult, Some ErrRouteStore) ∧
  (late3 (late3 audited.2).2).1 = (NoResult, Some ErrRouteStore) ∧
  d_dlq (st_db (late3 audited.2).2) = d_dlq (st_db audited.2) ∧
  d_versions (st_db (late3 audited.2).2) !! (tenant, interaction1, 3%N) = None.
Proof. split_and!; by_eval. Qed.

(** Two facts of one version whose leases lie 2^64 nanoseconds apart have one
    hash, so the later is taken for the earlier. *)
Example lease_hash_wraps :
  let f := ringing 1 "b" in
  let g := mkRouteFact tenant interaction1 (uuid_n "b") 1 FactRinging (uuid_n "1") (uuid_n "a") 1 (10 ^ 15 + 2 ^ 64)%Z in
  validateFact g = None ∧ f ≠ g ∧ HashRouteFact (λ x, x) f = HashRouteFact (λ x, x) g.
Proof.
  split_and!; [vm_compute; reflexivity| |vm_compute; reflexivity].
  intros He%(f_equal rf_LeaseUntil). vm_compute in He. discriminate He.
Qed.
