(* ===== verification/ProjectorMain.v ===== *)
(** The projector binary (cmd/projector): its database configuration
    (postgres.go), and how main.go supervises the feed projector and the
    participation consumer. Opening files, connections and sockets are arguments. *)

From S2P Require Import Prelude Wire Identity FeedProjector Fence FeedRun ParticipationRuntime.

(** * The database configuration *)

Definition dsnFlag : string := "--postgres-dsn-file=".

(** [postgresDSNPath]; [None] is [errPostgresConfiguration]. *)
Definition postgresDSNPath (arguments : list string) : option string :=
  match arguments with
  | [a] =>
      path ← strip dsnFlag a;
      if decide (path = "" ∨ TrimSpace path ≠ path) then None
      else if has_char "013" path || has_char "010" path || has_char "000" path then None
      else Some path
  | _ => None
  end.

(** What [url.Parse] finds: the user with its password when one is present, and
    the keys of the query. *)
Record Url := mkUrl {
  u_Scheme : string; u_Host : string; u_Path : string; u_User : option (string * option string);
  u_Query : list string }.

(** [strings.ToLower] of a key that is compared with ASCII words: besides A to Z,
    the Kelvin sign and the dotted I have ASCII lower cases. *)
Fixpoint lower (s : string) : string :=
  match s with
  | String "226" (String "132" (String "170" s')) => String "k" (lower s')
  | String "196" (String "176" s') => String "i" (lower s')
  | String c s' =>
      let n := N_of_ascii c in
      String (if ((65 <=? n) && (n <=? 90))%N then ascii_of_N (n + 32) else c) (lower s')
  | EmptyString => ""
  end.

Definition refusedKeys : list string := ["service"; "servicefile"; "passfile"; "sslcert"; "sslkey"; "sslrootcert"].
Definition maxSecret : nat := 16 * 1024.

Section Postgres.
Context (url_Parse : string → option Url).

(** The part of [openProjectorPostgres] up to the pool's configuration. [secret]
    is what the limited reader yields of the file: at most one byte too many. *)
Definition projectorDSN (secret : option string) : option string :=
  match secret with
  | None => None
  | Some s =>
      if (maxSecret <? String.length s)%nat then None
      else
        let dsn := TrimSpace s in
        match url_Parse dsn with
        | None => None
        | Some u =>
            if (negb (bool_decide (u_Scheme u = "postgres")) && negb (bool_decide (u_Scheme u = "postgresql")))
               || bool_decide (u_Host u = "") || bool_decide (u_Path u = "")
            then None
            else match u_User u with
                 | Some (username, Some password) =>
                     if bool_decide (username = "") || bool_decide (password = "") then None
                     else if existsb (λ key, bool_decide (lower key ∈ refusedKeys)) (u_Query u) then None
                     else Some dsn
                 | _ => None
                 end
        end
  end.
End Postgres.

(** A row of the identity query: session user, current user, superuser, bypasses
    row security. *)
Record Role := mkRole { ro_session : string; ro_current : string; ro_superuser : bool; ro_bypassRLS : bool }.

(** [verifyProjectorPostgresIdentity]: the session may be used. *)
Definition verifyIdentity (row : option Role) : bool :=
  match row with
  | None => false
  | Some r => negb (bool_decide (ro_session r = "")) && bool_decide (ro_session r = ro_current r)
              && negb (ro_superuser r) && negb (ro_bypassRLS r)
  end.

(** * Supervision *)

(** What a runtime returns: nil, an error that is [context.Canceled], another. *)
Inductive rt_err := RNil | RCanceled | ROther (text : string).

(** [runProjectors]: which runners are set, what they returned in the order in
    which they ended, and whether the parent context has ended; nil is []. *)
Definition genuine (errs : list rt_err) : list string :=
  omap (λ e, match e with ROther t => Some t | _ => None end) errs.

Definition runProjectors (runners : list bool) (collected : list rt_err) (parent : bool) : list string :=
  if decide (runners = []) then ["no projector runtimes configured"]
  else if existsb negb runners then ["nil projector runtime"]
  else match genuine collected with
       | [] => if parent then [] else ["projector runtime stopped without an error"]
       | errs => errs
       end.

(** [workerID]: the name a replica holds the lease under. *)
Definition workerID (host uuid : string) : string := host +:+ "-" +:+ uuid.

(** The exit status of [main] after its runtimes ended. *)
Definition exitStatus (errs : list string) (parent : bool) : N :=
  if decide (errs ≠ [] ∧ parent = false) then 1%N else 0%N.

(** The runtimes' results as errors: [acquire] and [hydrate] say whether those
    errors are the context's. *)
Definition feed_error (canceled : bool) (x : run_exit) : rt_err :=
  match x with
  | XFence (Some EParent) => RCanceled
  | XFence _ => ROther "lease lost"
  | XAcquire => if canceled then RCanceled else ROther "acquire lease"
  | XHydrate => if canceled then RCanceled else ROther "hydrate"
  | XDeliver => ROther "deliver"
  | XProcess _ => ROther "process"
  end.

Definition consumer_error (failed : bool) : rt_err := if failed then ROther "fetch" else RNil.

(** [ready] of main.go: the leader's fence, the consumer, and the connections. *)
Definition ready (f : option fence) (c : option Consumer) (live : bool) : bool := Ready f && Consumer_Ready c && live.

(** * Theorems *)

(** Replicas that drew different identifiers, which are of one length, never hold
    the lease under the same name, even when their hosts share a name or have none. *)
Lemma workerID_inj host host' uuid uuid' :
  String.length uuid = String.length uuid' → workerID host uuid = workerID host' uuid' → host = host' ∧ uuid = uuid'.
Proof.
  unfold workerID. intros Hl He. assert (String.length host = String.length host') as Hh.
  { apply (f_equal String.length) in He. rewrite !str_length_app in He. lia. }
  apply str_app_inj_len in He as [-> He]; [|done]. by injection He.
Qed.

(** The process ends successfully only when it was told to stop; a runtime that
    fails or stops by itself makes it fail, with every genuine error reported. *)
Lemma runProjectors_verdict runners collected parent :
  runners ≠ [] → Forall (λ r, r = true) runners →
  (runProjectors runners collected parent = [] ↔ parent = true ∧ genuine collected = []) ∧
  (exitStatus (runProjectors runners collected parent) parent = 0%N ↔ parent = true) ∧
  (∀ t, ROther t ∈ collected → t ∈ runProjectors runners collected parent).
Proof.
  intros Hne Hall. unfold runProjectors, exitStatus. rewrite decide_False by done.
  assert (existsb negb runners = false) as ->.
  { clear Hne. induction Hall as [|r rs -> Hall IH]; [done|]. simpl. by rewrite IH. }
  assert (∀ t, ROther t ∈ collected → t ∈ genuine collected) as Hg
    by (intros t Ht; apply list_elem_of_omap; by exists (ROther t)).
  destruct (genuine collected) as [|t ts]; destruct parent; simpl; (split_and!; [naive_solver|naive_solver|]).
  - intros t Ht. by apply Hg.
  - intros t Ht. by apply Hg, elem_of_nil in Ht.
  - intros t' Ht. by apply Hg.
  - intros t' Ht. by apply Hg.
Qed.
