(* ===== verification/ProjectorSetup.v ===== *)
(** How the projector's NATS resources are set up (internal/projector/nats.go and
    the constants of cmd/projector/main.go): the feed stream, the consumer of the
    log, the buckets of the lease and of the snapshots; and what the set-up means
    for the models that use them. *)

From S2P Require Import Prelude Wire Subjects Membership FeedProjector FeedTheorems Fence AuthTheorems.

(** * Streams and consumers *)

Definition minute : Z := (60 * second)%Z.

Record FeedStream := mkFeedStream {
  fs_Name : string; fs_Subjects : list string; fs_MaxAge : Z; fs_MaxMsgsPerSubject : Z; fs_Duplicates : Z }.

(** The configuration [EnsureFeedStream] asks for. *)
Definition feedStreamConfig (maxAge dedupWindow : Z) : FeedStream :=
  mkFeedStream "AGENT_FEED" ["tenant.*.agent.*.feed.*"; "tenant.*.agent.dlq.feed"]
    (if (maxAge <=? 0)%Z then (60 * minute)%Z else maxAge) 256
    (if (dedupWindow <=? 0)%Z then (10 * minute)%Z else dedupWindow).

(** An error is [Some]; when both fail it is the one of [AddStream]. *)
Definition EnsureFeedStream (add update : FeedStream → option string) (maxAge dedupWindow : Z) : option string :=
  let cfg := feedStreamConfig maxAge dedupWindow in
  match add cfg with
  | None => None
  | Some err => match update cfg with None => None | Some _ => Some err end
  end.

(** The durable consumer of [NewLogSource]. *)
Record LogConsumer := mkLogConsumer {
  lc_Subject : string; lc_Durable : string; lc_MaxAckPending : Z; lc_MaxDeliver : Z; lc_AckWait : Z }.
Definition NewLogSource (maxDeliver ackWait : Z) : LogConsumer :=
  mkLogConsumer "tenant.*.interaction.*.log" "fanout-projector" 1 maxDeliver
    (if (ackWait <=? 0)%Z then (30 * second)%Z else ackWait).

(** [Delivered]: a fact without a message or without metadata counts as 0. *)
Definition Delivered (numDelivered : option Z) : Z := default 0%Z numDelivered.

(** * Buckets *)

(** [NewLeaseStore]: the bucket's time-to-live when it exists, whether one can be
    created, and whether its status can be read; the result is the bucket's
    time-to-live, [None] an error. *)
Definition leaseTTL (ttl : Z) : Z := if (ttl <=? 0)%Z then (5 * second)%Z else ttl.
Definition NewLeaseStore (existing : option Z) (created status : bool) (ttl : Z) : option Z :=
  bucket ← match existing with
           | Some t => Some t
           | None => if created then Some (leaseTTL ttl) else None
           end;
  if negb status then None else if decide (bucket = leaseTTL ttl) then Some bucket else None.

(** [NewSnapshotStore]: an existing bucket or a new one with a history of eight. *)
Definition NewSnapshotStore (existing : option Z) (created : bool) : option Z :=
  match existing with Some h => Some h | None => if created then Some 8%Z else None end.

(** The constants of main.go. *)
Definition mainMaxDeliver : Z := 5.
Definition mainLeaseTTL : Z := (5 * second)%Z.
Definition mainAckWait : Z := (30 * second)%Z.

(** * What the set-up gives *)

(** A renewal round ends before the bucket can drop the lease: the time-to-live
    the renew budget is computed from is the bucket's own, or the store refuses to
    start. *)
Theorem renewal_beats_expiry existing created status config bucket per attempts backoff :
  NewLeaseStore existing created status (LeaseTTL config) = Some bucket →
  LeaseTTL config ≠ 1%Z → (9 * bucket < two63)%Z →
  let cfg := withDefaults config in
  renewBudget (LeaseTTL cfg) (LeaseRenew cfg) = (per, attempts, backoff) →
  LeaseTTL cfg = bucket ∧ (LeaseRenew cfg + (attempts * per + (attempts - 1) * backoff) < bucket)%Z.
Proof.
  intros Hnew Hne Hbig cfg Hb.
  assert (bucket = LeaseTTL cfg) as ->.
  { unfold NewLeaseStore in Hnew. destruct (match existing with Some _ => _ | None => _ end) as [b|]; [|done].
    simpl in Hnew. destruct (negb status); [done|]. case_decide as Hd; [|done]. injection Hnew as <-. exact Hd. }
  split; [done|]. destruct (withDefaults_usable config Hne) as ((_ & _ & _ & _ & Hr & _) & _).
  apply (renew_round_fits (LeaseTTL cfg) (LeaseRenew cfg) per attempts backoff); try done; unfold cfg; lia.
Qed.

(** What a stream stores: a subject without empty tokens that one of its patterns
    matches. *)
Definition valid_subject (s : string) : bool := forallb (λ t, negb (bool_decide (t = ""))) (split_on "." s).
Definition captured (cfg : FeedStream) (s : string) : bool := valid_subject s && existsb (λ p, acl_match p s) (fs_Subjects cfg).

Lemma feedSubject_tokens t a i :
  tok t → tok a → tok i → split_on "." (feedSubject t a i) = ["tenant"; t; "agent"; a; "feed"; i].
Proof.
  intros Ht Ha Hi.
  assert (feedSubject t a i = join_on "." ["tenant"; t; "agent"; a; "feed"; i]) as -> by
    (unfold feedSubject; simpl; by rewrite ?str_app_assoc).
  apply split_join; [done|repeat constructor; done].
Qed.

Lemma dlqSubject_tokens t : tok t → split_on "." (dlqSubject t) = ["tenant"; t; "agent"; "dlq"; "feed"].
Proof.
  intros Ht.
  assert (dlqSubject t = join_on "." ["tenant"; t; "agent"; "dlq"; "feed"]) as -> by
    (unfold dlqSubject; simpl; by rewrite ?str_app_assoc).
  apply split_join; [done|repeat constructor; done].
Qed.

(** The feed stream stores every feed message and dead letter of a named tenant,
    agent and interaction, and none of the facts of a log. *)
Theorem feed_stream_captures maxAge window t a i :
  tok t → tok a → tok i → t ≠ "" → a ≠ "" → i ≠ "" →
  let cfg := feedStreamConfig maxAge window in
  captured cfg (feedSubject t a i) = true ∧ captured cfg (dlqSubject t) = true ∧ captured cfg (logSubjectFor t i) = false.
Proof.
  intros Ht Ha Hi Hte Hae Hie cfg. unfold captured, valid_subject, acl_match.
  rewrite feedSubject_tokens, dlqSubject_tokens, split_logSubject by done. simpl.
  rewrite !(bool_decide_eq_false_2 _ Hte), !(bool_decide_eq_false_2 _ Hae), !(bool_decide_eq_false_2 _ Hie).
  split_and!; [done|done|]. reflexivity.
Qed.

(** A corrupt envelope is never dead-lettered: it has no tenant, so its dead
    letter goes to a subject with an empty token that no stream stores; the
    publish fails, and the last delivery ends as a negative acknowledgement like
    the ones before. *)
Theorem corrupt_envelope_not_dead_lettered marshal_feed marshal_control cfg f p w maxAge window :
  f_Event f = None →
  let stored := captured (feedStreamConfig maxAge window) (dlqSubject "") in
  let w' := mkWorld (w_pub w) [if stored then Done else Refused] (w_ack w) [] (w_save w) (w_done w) (w_trace w) (w_reads w) in
  (process marshal_feed marshal_control cfg f p w').1.1.2 = [ONak (f_StreamSeq f)].
Proof.
  intros He stored w'. destruct (process _ _ cfg f p w') as [[[r o] p'] w2] eqn:E. unfold process in E.
  apply PM_bind_inv in E as (c & o1 & p1 & w1 & o2 & Hc & E & ->).
  assert (w_dlq w1 = [Refused] ∧ w_nak w1 = [] ∧ o1 = []) as (Hd & Hn & ->).
  { revert Hc. unfold fact_context. case_decide; [destruct (pop _ _)|]; intros [= _ <- _ <-]; done. }
  revert E. unfold process_in. rewrite He. unfold dlqOrNak, nak. rewrite He. unfold mbind, PM_bind, src_Nak, sink_Dlq.
  destruct (f_Delivered f <? MaxDeliver cfg)%Z; simpl; rewrite ?Hd; simpl; rewrite Hn; by intros [= <- <- <- <-].
Qed.

(** A fact is redelivered within the window in which the broker drops duplicate
    feed messages. *)
Example redelivery_within_window :
  (lc_MaxDeliver (NewLogSource mainMaxDeliver mainAckWait) * lc_AckWait (NewLogSource mainMaxDeliver mainAckWait)
   < fs_Duplicates (feedStreamConfig (60 * minute) (10 * minute)))%Z.
Proof. reflexivity. Qed.
