(* ===== verification/FeedRuns.v ===== *)
(** Concrete runs of the signaling plane: the two routers of the sample run and a
    projector that takes over, crashes, and is replaced by a standby which reads
    its snapshot; and a command the router accepts that no feed ever carries. *)

From S2P Require Import Prelude Bytes Wire Identity Subjects Membership.
From S2P Require Import LogStore Lifecycle RouterState Router StreamInvariant RouterSafety RouterTraffic RouterCorrect.
From S2P Require Import FeedProjector FeedTheorems FeedOutputs MemStore ProjectorNats FeedSystem AuthCallout AuthTheorems.
From S2P Require Import Fence ProjectorSetup FeedProgress.

(** * Executable histories of the projector's side *)

Definition run_feed (e : Event) : option string := Some (ev_EventId e +:+ " " +:+ ev_EventType e).
Definition run_control (c : FeedControl) : option string := Some ("revoked " +:+ fc_InteractionId c).
Definition run_config : Config := mkPConfig 0 2 0 0 0 0 "" 0.

(** The deliveries of entries [es], each once, all ports answering. *)
Fixpoint deliver_calmly (es : list entry) (n : nat) (p : pst) (hist : list snap_entry) (out : list output) : feed :=
  match es with
  | [] => mkFeed n (Some p) hist out
  | e :: es' =>
      let '(_, o, p', _) := process run_feed run_control (withDefaults run_config) (fact_of_entry e) p calm in
      deliver_calmly es' (S n) p' (save_outputs o hist) (out ++ o)
  end.

Lemma deliver_calmly_steps l es n p hist out :
  (∀ k e, es !! k = Some e → l !! (n + k) = Some e) →
  rtc (feed_step true run_feed run_control run_config l) (mkFeed n (Some p) hist out) (deliver_calmly es n p hist out).
Proof.
  revert n p hist out. induction es as [|e es IH]; intros n p hist out Hes; [done|]. simpl.
  destruct (process _ _ _ (fact_of_entry e) p calm) as [[[r o] p'] w'] eqn:E.
  eapply rtc_l; [eapply (feed_delivery _ _ _ _ l n (S n) e (fact_of_entry e)); [|done|by right|exact E]|].
  - rewrite <-(Nat.add_0_r n). by apply Hes.
  - apply IH. intros k e' He. replace (S n + k) with (n + S k) by lia. by apply Hes.
Qed.

Definition fresh_pst : pst := mkPst newState 0 0.

(** A leader serves three messages and stops; the standby hydrates from its
    snapshot and serves the rest. *)
Definition first_leader : feed := deliver_calmly (take 3 demo_log) 0 fresh_pst [] [].
Definition standby : pst :=
  default fresh_pst (Hydrate (Some 3%N) (λ m, Some (Load (fd_hist first_leader) m))
    (λ lo hi, FoldRange lo hi [FMsgs (numbered (row <$> drop 2 demo_log)); FTimeout]) fresh_pst).
Definition second_leader : feed := deliver_calmly (drop 3 demo_log) 3 standby (fd_hist first_leader) (fd_out first_leader).

Lemma lookup_by_value (l es : log) n : es = drop n l → ∀ k e, es !! k = Some e → l !! (n + k) = Some e.
Proof. intros -> k e. by rewrite lookup_drop. Qed.

Lemma one_batch (ms c : list (string * string * N)) : ms = c → (0 <? length c)%nat = true → delivers ms [c].
Proof.
  intros -> Hc. split; [simpl; apply app_nil_r|]. constructor; [|constructor]. by intros ->.
Qed.

Lemma leaders_run : rtc (feed_step true run_feed run_control run_config demo_log) feed0 second_leader.
Proof.
  eapply rtc_l.
  { apply (feed_takeover _ _ _ _ demo_log 0 0 [] [] (row <$> demo_log) [row <$> demo_log] fresh_pst); [lia|exists []; vm_compute; reflexivity|intros _; vm_compute; reflexivity| |].
    - apply one_batch; vm_compute; reflexivity.
    - vm_compute. reflexivity. }
  etrans; [apply (deliver_calmly_steps demo_log (take 3 demo_log)); intros k e [He _]%lookup_take_Some; exact He|].
  change (deliver_calmly (take 3 demo_log) 0 fresh_pst [] []) with first_leader.
  assert (first_leader = mkFeed 3 (Some (default fresh_pst (fd_leader first_leader))) (fd_hist first_leader) (fd_out first_leader))
    as -> by (vm_compute; reflexivity).
  eapply rtc_l; [apply feed_stop|].
  eapply rtc_l.
  { apply (feed_takeover _ _ _ _ demo_log 3 3 (fd_hist first_leader) (fd_out first_leader) (row <$> drop 2 demo_log) [row <$> drop 2 demo_log] standby).
    - vm_compute. lia.
    - exists []. vm_compute. reflexivity.
    - intros _. vm_compute. reflexivity.
    - apply one_batch; vm_compute; reflexivity.
    - vm_compute. reflexivity. }
  apply (deliver_calmly_steps demo_log (drop 3 demo_log)). by apply lookup_by_value.
Qed.

Lemma sys_of_pool {A} (c c' : list (prog A) * log) F :
  rtc (pool_step quiet_broker) c c' → rtc (sys_step quiet_broker true run_feed run_control run_config) (c, F) (c', F).
Proof. induction 1; [done|]. eapply rtc_l; [by apply sys_router|done]. Qed.

Lemma sys_of_feed {A} (ps : list (prog A)) l F F' :
  rtc (feed_step true run_feed run_control run_config l) F F' →
  rtc (sys_step quiet_broker true run_feed run_control run_config) ((ps, l), F) ((ps, l), F').
Proof. induction 1; [done|]. eapply rtc_l; [by apply sys_feed|done]. Qed.

Lemma plane_run :
  rtc (sys_step quiet_broker true run_feed run_control run_config) ((start demo_routers, []), feed0)
    ((demo_ps, demo_log), second_leader).
Proof. etrans; [apply sys_of_pool, demo_reaches|apply sys_of_feed, leaders_run]. Qed.

(** Who is sent what in the run: ann leaves with the fifth fact and is not sent
    the sixth. *)
Definition sent (o : list output) : list (string * string) :=
  omap (λ x, match x with OPublish _ a _ _ payload _ => Some (a, payload) | _ => None end) o.
Definition acked (o : list output) : list N := omap (λ x, match x with OAck q => Some q | _ => None end) o.

Lemma sent_elem o a payload : (a, payload) ∈ sent o → ∃ t i d h, OPublish t a i d payload h ∈ o.
Proof.
  unfold sent. rewrite list_elem_of_omap. intros (x & Hx & Heq). destruct x; try done. injection Heq as <- <-. eauto.
Qed.

Lemma acked_elem o q : q ∈ acked o → OAck q ∈ o.
Proof. unfold acked. rewrite list_elem_of_omap. intros (x & Hx & Heq). destruct x; try done. by injection Heq as <-. Qed.

Example who_is_sent_what :
  (sent (fd_out second_leader)).*1 = ["ann"; "ann"; "ann"; "bob"; "ann"; "bob"; "ann"; "bob"] ∧
  acked (fd_out second_leader) = [1; 2; 3; 4; 5; 6]%N.
Proof. split; vm_compute; reflexivity. Qed.



(** A leader that has just taken over works off the whole stream. *)
Definition new_leader : feed := mkFeed 0 (Some fresh_pst) [] [].

Lemma new_leader_reached :
  rtc (sys_step quiet_broker true run_feed run_control run_config) ((start demo_routers, []), feed0) ((demo_ps, demo_log), new_leader).
Proof.
  etrans; [apply sys_of_pool, demo_reaches|]. apply sys_of_feed, rtc_once.
  apply (feed_takeover _ _ _ _ demo_log 0 0 [] [] (row <$> demo_log) [row <$> demo_log] fresh_pst); [lia|exists []; vm_compute; reflexivity|intros _; vm_compute; reflexivity| |].
  - apply one_batch; vm_compute; reflexivity.
  - vm_compute. reflexivity.
Qed.


(** * Commands that no feed carries *)

(** A participant's command without a type. *)
Definition untyped_requests : list request :=
  [demo_msg "desk" "c1" "desk" "interaction.started" "";
   demo_msg "desk" "c2" "desk" "participant.assign" (pd_data (mkPD "ann" "" "" ""));
   demo_msg "ann" "c3" "ann" "" "lost"].
Definition untyped_run := exec (serve defaultConfig untyped_requests emptyRouter) demo_host.

(** C39: The router accepts a command without a type and puts it on the log, where
    the projector takes it for a malformed envelope: whatever the ports answer and
    however often it is delivered, it is published to no feed, so an accepted
    message reaches no member of its interaction. *)
Theorem untyped_command_never_fed :
  res_Status <$> untyped_run.1.1 = [STATUS_ACCEPTED; STATUS_ACCEPTED; STATUS_ACCEPTED] ∧
  ∃ e, h_store untyped_run.2 !! 2 = Some e ∧
    (ev_ActorId <$> unmarshal_event (e_data e)) = Some "ann" ∧
    ∀ mf mc cfg f p w t a i d payload h, same_fact (fact_of_entry e) f →
      OPublish t a i d payload h ∉ (process mf mc cfg f p w).1.1.2.
Proof.
  split; [vm_compute; reflexivity|]. destruct (h_store untyped_run.2 !! 2) as [e|] eqn:He; [|vm_compute in He; discriminate].
  exists e. split; [done|]. assert (∃ ev, unmarshal_event (e_data e) = Some ev ∧ ev_ActorId ev = "ann" ∧ ev_EventType ev = "") as (ev & Hev & Ha & Hty).
  { assert (e = default e (h_store untyped_run.2 !! 2)) as -> by (by rewrite He). vm_compute. eauto. }
  split; [by rewrite Hev; simpl; rewrite Ha|]. intros mf mc cfg f p w t a i d payload h (Hf & _) Hin.
  destruct (process mf mc cfg f p w) as [[[r o] p'] w'] eqn:E. simpl in Hin.
  destruct (process_emits _ _ _ _ _ _ _ _ _ _ E _ Hin) as (_ & ev' & (Hev' & _ & Hne & _) & _).
  change (unmarshal_event (e_data e) = f_Event f) in Hf. congruence.
Qed.

(** A trusted backend may assign any name, but a name that is not one token of a
    subject has a feed subject the feed stream does not store: the publish fails,
    and with it the delivery of every fact of the interaction while the agent is a
    member. *)
Example dotted_agent_not_stored :
  res_Status <$> (exec (serve defaultConfig
    [demo_msg "desk" "c1" "desk" "interaction.started" "";
     demo_msg "desk" "c2" "desk" "participant.assign" (pd_data (mkPD "sales.ann" "" "" ""))] emptyRouter) demo_host).1.1 =
    [STATUS_ACCEPTED; STATUS_ACCEPTED] ∧
  captured (feedStreamConfig 0 0) (feedSubject "acme" "sales.ann" "i1") = false.
Proof. split; vm_compute; reflexivity. Qed.
