(* ===== verification/AuthSetup.v ===== *)
(** How the auth callout is put together: the HTTP source of its keys
    (internal/authcallout/jwks_http.go), the constructors and options of the
    responder and of the verifiers, and what cmd/authcallout/main.go makes
    of its environment. Base64, seeds and durations are arguments. *)

From S2P Require Import Prelude Identity FeedProjector Fence ProjectorSetup AuthCallout AuthTheorems.

(** * The HTTP source of keys *)

(** A response: its status, the bytes of its body, and whether reading fails
    behind them. *)
Record HttpResponse := mkHttpResponse { hr_StatusCode : Z; hr_Body : string; hr_broken : bool }.
Definition jwksLimit : N := 1048576.

(** [io.ReadAll (io.LimitReader …)]: at the limit the reader ends without asking
    for more, so a failure behind it is not seen. *)
Definition readLimited (n : N) (r : HttpResponse) : option string :=
  if (n <=? N.of_nat (String.length (hr_Body r)))%N then Some (String.substring 0 (N.to_nat n) (hr_Body r))
  else if hr_broken r then None else Some (hr_Body r).

(** [Fetch]; [None] for the response is a request that could not be made or sent. *)
Definition Fetch (limit : N) (response : option HttpResponse) : option string :=
  match response with
  | None => None
  | Some r => if decide (Z.quot (hr_StatusCode r) 100 ≠ 2)%Z then None else readLimited limit r
  end.

(** * Constructors and options *)

(** The settings of a [VisitorVerifier]; the clock and the source are arguments of
    its calls. [vv_fetchTimeout] bounds a fetch when there is one. *)
Record VisitorVerifier := mkVisitorVerifier { vv_config : vconfig; vv_fetchTimeout : option Z }.

Inductive VisitorOption := WithVisitorClock | WithVisitorFetchTimeout (d : Z) | WithVisitorRefetchCooldown (d : Z).
Definition visitor_option (v : VisitorVerifier) (o : VisitorOption) : VisitorVerifier :=
  match o with
  | WithVisitorClock => v
  | WithVisitorFetchTimeout d => mkVisitorVerifier (vv_config v) (Some d)
  | WithVisitorRefetchCooldown d => mkVisitorVerifier (mkVConfig (vc_ttl (vv_config v)) d) (vv_fetchTimeout v)
  end.

Definition NewVisitorVerifier (ttl : Z) (opts : list VisitorOption) : VisitorVerifier :=
  fold_left visitor_option opts (mkVisitorVerifier (mkVConfig ttl (5 * second)) None).

(** The settings of an [HMACVerifier]; its clock is an argument of its calls. The
    zero value does not let a token assert a trusted backend. *)
Record HMACVerifier := mkHMACVerifier { hv_Secret : string; hv_allowTrustedBackend : bool }.

Inductive HMACOption := AllowHMACTrustedBackend.
Definition hmac_option (v : HMACVerifier) (o : HMACOption) : HMACVerifier :=
  match o with AllowHMACTrustedBackend => mkHMACVerifier (hv_Secret v) true end.

Definition NewHMACVerifier (secret : string) (opts : list HMACOption) : HMACVerifier :=
  fold_left hmac_option opts (mkHMACVerifier secret false).

(** The settings of a [Responder]; its clock, connection ids and log are arguments
    of its calls. *)
Record Responder := mkResponder { rs_issuer : string; rs_account : string; rs_visitorTTLCap : Z }.
Definition defaultVisitorTTLCap : Z := (60 * minute)%Z.

Inductive ResponderOption := WithLogger | WithConnIDGen | WithVisitorTTLCap (d : Z) | WithClock.
Definition responder_option (r : Responder) (o : ResponderOption) : Responder :=
  match o with
  | WithVisitorTTLCap d => if (0 <? d)%Z then mkResponder (rs_issuer r) (rs_account r) d else r
  | _ => r
  end.

(** [NewResponder]; [fromSeed] is [nkeys.FromSeed]. *)
Definition NewResponder (fromSeed : string → option string) (issuerSeed account : string) (opts : list ResponderOption) :
    option Responder :=
  kp ← fromSeed issuerSeed; Some (fold_left responder_option opts (mkResponder kp account defaultVisitorTTLCap)).

(** * The binary *)

(** The environment: a variable that is not set reads as the empty string. *)
Definition Env := gmap string string.
Definition Getenv (env : Env) (k : string) : string := default "" (env !! k).
Definition envOr (env : Env) (k d : string) : string := if decide (Getenv env k ≠ "") then Getenv env k else d.

(** [mustEnv]; [None] is the end of the process. *)
Definition mustEnv (env : Env) (k : string) : option string :=
  if decide (Getenv env k = "") then None else Some (Getenv env k).

Section Main.
Context (DefaultURL : string) (ParseDuration : string → option Z) (StdDecode : string → option string) (fromSeed : string → option string).

Definition envDuration (env : Env) (k : string) (d : Z) : Z :=
  if decide (Getenv env k ≠ "") then default d (ParseDuration (Getenv env k)) else d.

(** [decodeSeed]; [None] is the end of the process. *)
Definition decodeSeed (v : string) : option string :=
  match v with String "S" _ => Some v | _ => StdDecode v end.

(** What [main] runs with: the connection, the secret, the verifier of visitors
    when keys are configured, and the responder. *)
Record AuthService := mkAuthService {
  as_url : string; as_user : string; as_pass : string; as_secret : string;
  as_visitor : option (string * VisitorVerifier); as_responder : Responder }.

Definition auth_main (env : Env) : option AuthService :=
  let url := envOr env "NATS_URL" DefaultURL in
  let user := envOr env "NATS_AUTH_USER" "authsvc" in
  pass ← mustEnv env "NATS_AUTH_PASSWORD";
  let account := envOr env "AUTH_CALLOUT_ACCOUNT" "RP" in
  seed ← mustEnv env "AUTH_CALLOUT_ISSUER_SEED";
  issuerSeed ← decodeSeed seed;
  tokenSecret ← mustEnv env "AUTH_TOKEN_SECRET";
  let jwksURL := Getenv env "DESK_INGRESS_JWKS_URL" in
  let visitor :=
    if decide (jwksURL ≠ "") then
      let ttl := envDuration env "DESK_INGRESS_JWKS_TTL" (5 * minute) in
      Some (jwksURL, NewVisitorVerifier ttl [WithVisitorFetchTimeout (5 * second)])
    else None in
  resp ← NewResponder fromSeed issuerSeed account [];
  Some (mkAuthService url user pass tokenSecret visitor resp).
End Main.

(** The answer of the service to a request: the verifier [main] constructs, with
    the keys its source fetches. *)
Section Answer.
Context {TL : TokenLib} {KS : Type} {JL : JoseLib KS} {NJ : NatsJwt}.

Definition with_answer (c : vcall) (response : option HttpResponse) : vcall :=
  mkVCall (ck_fresh c) (ck_poll c) (ck_mark c) (ck_fetched c) (ck_validate c) (Fetch jwksLimit response).

(** The implementations of [Verifier]: a link, or a chain of links; [hnow] is the
    HMAC link's clock in Unix seconds. *)
Inductive Link := LHmac (h : HMACVerifier) | LVisitor (vv : VisitorVerifier).
Inductive Verifier := VLink (l : Link) | ChainVerifier (links : list Link).

Definition link_Verify (hnow : Z) (c : vcall) (l : Link) (token : string) (v : vstate KS) : (auth_err + Identity) * vstate KS :=
  match l with
  | LHmac h => (hmac_Verify (hv_Secret h) (hv_allowTrustedBackend h) hnow token, v)
  | LVisitor vv => visitor_Verify (vv_config vv) c token v
  end.
Definition Verify (hnow : Z) (c : vcall) (verifier : Verifier) (token : string) (v : vstate KS) : (auth_err + Identity) * vstate KS :=
  match verifier with
  | VLink l => link_Verify hnow c l token v
  | ChainVerifier links => chain_Verify (map (link_Verify hnow c) links) token v
  end.

(** The posture follows the key endpoint: with one, the HMAC link may not assert a
    backend and visitors are verified; without one, the HMAC link alone, and it may. *)
Definition service_verifier (s : AuthService) : Verifier :=
  match as_visitor s with
  | Some (_, visitor) => ChainVerifier [LHmac (NewHMACVerifier (as_secret s) []); LVisitor visitor]
  | None => VLink (LHmac (NewHMACVerifier (as_secret s) [AllowHMACTrustedBackend]))
  end.

Definition service_verify (s : AuthService) (hnow : Z) (c : vcall) (response : option HttpResponse) (token : string)
    (v : vstate KS) : (auth_err + Identity) * vstate KS :=
  Verify hnow (with_answer c response) (service_verifier s) token v.

(** Verifiers that agree give the same answer. *)
Lemma on_auth_request_ext account cap verify verify' conn now reqJWT :
  (∀ tk, verify tk = verify' tk) → on_auth_request account cap verify conn now reqJWT = on_auth_request account cap verify' conn now reqJWT.
Proof. intros H. unfold on_auth_request, handle_auth. destruct (decode_request reqJWT) as [req|]; [|done]. by rewrite H. Qed.

(** The verifier that is constructed is the deployed chain. *)
Lemma service_verify_deployed s hnow c response token (v : vstate KS) :
  service_verify s hnow c response token v =
  match as_visitor s with
  | Some (_, vv) => deployed_verify true (vv_config vv) (as_secret s) hnow (with_answer c response) token v
  | None => deployed_verify false (mkVConfig 0 0) (as_secret s) hnow (with_answer c response) token v
  end.
Proof. unfold service_verify, service_verifier. by destruct (as_visitor s) as [[url vv]|]. Qed.

Definition service_answer (s : AuthService) (conn : string) (hnow now : Z) (c : vcall) (response : option HttpResponse)
    (reqJWT : string) (v : vstate KS) : option string :=
  on_auth_request (rs_account (as_responder s)) (rs_visitorTTLCap (as_responder s))
    (λ tk, (service_verify s hnow c response tk v).1) conn now reqJWT.
End Answer.

(** * Theorems *)

(** Nothing but the answer of a successful request reaches the verifier, whole or
    cut at the limit. *)
Lemma Fetch_success limit response body :
  Fetch limit response = Some body →
  ∃ r, response = Some r ∧ (200 <= hr_StatusCode r < 300)%Z ∧ (N.of_nat (String.length body) <= limit)%N ∧
    (body = hr_Body r ∧ hr_broken r = false ∨ body = String.substring 0 (N.to_nat limit) (hr_Body r)).
Proof.
  unfold Fetch, readLimited. destruct response as [r|]; [|done]. case_decide as Hs; [done|]. intros H.
  exists r. split; [done|]. split; [clear H; Z.to_euclidean_division_equations; lia|].
  destruct (N.leb_spec limit (N.of_nat (String.length (hr_Body r)))) as [Hl|Hl].
  - injection H as <-. split; [|by right].
    enough (∀ n s, (String.length (String.substring 0 n s) <= n)%nat) as Hle by (specialize (Hle (N.to_nat limit) (hr_Body r)); lia).
    clear. induction n as [|n IH]; intros [|x s]; simpl; [lia..|]. specialize (IH s). lia.
  - destruct (hr_broken r); [done|]. injection H as <-. split; [lia|by left].
Qed.

Section Keys.
Context {KS : Type} {JL : JoseLib KS}.

(** Keys that are no longer fresh are never used: unless the endpoint answers
    success, the verification fails, and the cache is as before. *)
Theorem unreachable_keys_fail_closed cfg kid c response (v : vstate KS) :
  is_fresh cfg (ck_fresh c) v = None →
  (∀ r, response = Some r → ¬ (200 <= hr_StatusCode r < 300)%Z) →
  keySet cfg kid (with_answer c response) v = (inl AEFetch, true, v).
Proof.
  intros Hf Hr. unfold keySet, refetch. simpl. rewrite Hf.
  destruct (Fetch jwksLimit response) as [body|] eqn:E; [|done].
  apply Fetch_success in E as (r & -> & Hs & _). by destruct (Hr r).
Qed.

(** The cooldown protects a fresh cache only: while the cache is empty or expired
    every verification asks the endpoint, whatever its key id. *)
Theorem stale_cache_unthrottled cfg kid c (v : vstate KS) :
  is_fresh cfg (ck_fresh c) v = None → (keySet cfg kid c v).1.2 = true.
Proof. intros Hf. unfold keySet. rewrite Hf. by destruct (refetch c v). Qed.

(** A lifetime that is not positive makes every cache expired. *)
Lemma nonpositive_ttl_stale cfg t (v : vstate KS) : (vc_ttl cfg <= 0)%Z → (v_fetchedAt v <= t)%Z → is_fresh cfg t v = None.
Proof. intros Hc Ht. unfold is_fresh. destruct (v_cached v); [|done]. by rewrite (proj2 (Z.ltb_ge _ _)) by lia. Qed.
End Keys.

Section Started.
Context (DefaultURL : string) (ParseDuration : string → option Z) (StdDecode fromSeed : string → option string).

Lemma mustEnv_set env k v : mustEnv env k = Some v → v ≠ "".
Proof. unfold mustEnv. case_decide; [done|]. by intros [= <-]. Qed.

(** What a started service has: every credential set, the cap of one hour, the
    cooldown of five seconds, and a visitor verifier exactly when an endpoint is
    configured. *)
Lemma auth_main_started env s :
  auth_main DefaultURL ParseDuration StdDecode fromSeed env = Some s →
  as_pass s ≠ "" ∧ as_secret s ≠ "" ∧ rs_visitorTTLCap (as_responder s) = defaultVisitorTTLCap ∧
  (as_visitor s = None ↔ Getenv env "DESK_INGRESS_JWKS_URL" = "") ∧
  ∀ url vv, as_visitor s = Some (url, vv) → vc_refetchMin (vv_config vv) = (5 * second)%Z ∧ vv_fetchTimeout vv = Some (5 * second)%Z.
Proof.
  unfold auth_main, NewResponder.
  destruct (mustEnv env "NATS_AUTH_PASSWORD") as [pass|] eqn:Hp; [|done].
  destruct (mustEnv env "AUTH_CALLOUT_ISSUER_SEED") as [sd|]; [|done]. simpl.
  destruct (decodeSeed _ sd) as [seed|]; [|done]. simpl.
  destruct (mustEnv env "AUTH_TOKEN_SECRET") as [secret|] eqn:Hs; [|done]. simpl.
  destruct (fromSeed seed) as [kp|]; [|done]. simpl. intros [= <-]. simpl.
  apply mustEnv_set in Hp, Hs. destruct (decide (Getenv env "DESK_INGRESS_JWKS_URL" ≠ "")) as [Hj|Hj]; [naive_solver|].
  apply dec_stable in Hj. naive_solver.
Qed.

Context {TL : TokenLib} {KS : Type} {JL : JoseLib KS} {NJ : NatsJwt}.

(** The posture follows the environment: with a key endpoint no token makes a
    trusted backend, without one no token makes a visitor. *)
Theorem posture_from_environment env s hnow c response token (v : vstate KS) id v' :
  auth_main DefaultURL ParseDuration StdDecode fromSeed env = Some s →
  service_verify s hnow c response token v = (inr id, v') →
  if decide (Getenv env "DESK_INGRESS_JWKS_URL" = "") then id_Role id ≠ RoleVisitor
  else id_Role id ≠ RoleTrustedBackend.
Proof.
  intros (_ & _ & _ & Hv & _)%auth_main_started. rewrite service_verify_deployed. case_decide as Hj.
  - rewrite (proj2 Hv Hj). unfold deployed_verify. intros [= H _]. by apply hmac_grantable in H as (_ & ? & _).
  - destruct (as_visitor s) as [[url vv]|]; [|by destruct Hj; apply Hv]. by intros [_ ?]%production_grantable.
Qed.

(** C31: The service as it is started fails closed and mints no backend. Whatever
    its environment, when it starts with a key endpoint, then whatever the
    endpoint and the clocks answer, a request is answered by a signed denial
    without a credential, or by a credential for the identity a verifier accepted,
    with exactly that identity's grant; it is never a trusted backend's; a
    visitor's allows no publishing and no responses and expires no later than its
    token and one hour from now. *)
Theorem service_mints_safely env s conn hnow now c response reqJWT (v : vstate KS) out :
  auth_main DefaultURL ParseDuration StdDecode fromSeed env = Some s →
  Getenv env "DESK_INGRESS_JWKS_URL" ≠ "" → conn ≠ "" →
  service_answer s conn hnow now c response reqJWT v = Some out →
  ∃ req, decode_request reqJWT = Some req ∧
    ((∃ e, encode_response (mkAuthResponse (rq_UserNkey req) (rq_ServerID req) "" (Some e)) = Some out) ∨
     ∃ id g uj, (service_verify s hnow c response (rq_Token req) v).1 = inr id ∧
       GrantsFor id conn = inr g ∧ id_Role id ≠ RoleTrustedBackend ∧
       encode_user (user_claims (rs_account (as_responder s)) defaultVisitorTTLCap req id g now) = Some uj ∧
       encode_response (mkAuthResponse (rq_UserNkey req) (rq_ServerID req) uj None) = Some out ∧
       (id_Role id = RoleVisitor → (∀ s, ¬ may_publish g s) ∧ AllowResponses g = false ∧
          (cappedExpiry defaultVisitorTTLCap now id <= unix (now + 3600 * second))%Z ∧
          ∀ e, id_ExpiresAt id = Some e → (cappedExpiry defaultVisitorTTLCap now id <= unix e)%Z)).
Proof.
  intros (_ & _ & Hcap & Hv & _)%auth_main_started Hj Hconn. unfold service_answer.
  assert (∃ cfg, ∀ tk, service_verify s hnow c response tk v =
    deployed_verify true cfg (as_secret s) hnow (with_answer c response) tk v) as [cfg Hsv].
  { destruct (as_visitor s) as [[url vv]|] eqn:Ev; [|by destruct Hj; apply Hv].
    exists (vv_config vv). intros tk. by rewrite service_verify_deployed, Ev. }
  rewrite Hcap. intros H. setoid_rewrite Hsv. apply (production_mints_safely cfg _ _ (as_secret s) hnow now (with_answer c response)); [done|done|].
  rewrite <-H. apply on_auth_request_ext. intros tk. by rewrite Hsv.
Qed.
End Started.

(** * A started service *)

#[local] Existing Instance demo_tokens.
#[local] Existing Instance demo_jose.
#[local] Existing Instance demo_jwt.

Definition demo_env : Env :=
  {[ "NATS_AUTH_PASSWORD" := "p"; "AUTH_CALLOUT_ISSUER_SEED" := "SA1"; "AUTH_TOKEN_SECRET" := "k";
     "DESK_INGRESS_JWKS_URL" := "https://desk/jwks" ]}.
Definition demo_main : option AuthService := auth_main "nats://n" (λ _, None) (λ _, None) Some demo_env.

(** A visitor is admitted with the keys the endpoint answers, and the credential
    expires with its token. *)
Lemma service_mints_safely_witness :
  ∃ s req, demo_main = Some s ∧ decode_request "visit" = Some req ∧
    (service_verify s 5 (mkVCall 1 1 1 1 1 None) (Some (mkHttpResponse 200 "k1" false)) (rq_Token req)
      (mkVState None 0 0)).1 = inr (mkIdentity "t1" "v9" RoleVisitor "" "i7" (Some 7000000000%Z)).
Proof.
  destruct demo_main as [s|] eqn:Hs; [|vm_compute in Hs; discriminate].
  destruct (service_mints_safely "nats://n" (λ _, None) (λ _, None) Some demo_env s "c1" 5 5000000000
    (mkVCall 1 1 1 1 1 None) (Some (mkHttpResponse 200 "k1" false)) "visit" (mkVState None 0 0) "t1/v9")
    as (req & Hreq & _); [exact Hs|vm_compute; discriminate|discriminate| |].
  - vm_compute in Hs. injection Hs as <-. vm_compute. reflexivity.
  - exists s, req. split; [done|]. split; [exact Hreq|]. vm_compute in Hs. injection Hs as <-. injection Hreq as <-.
    vm_compute. reflexivity.
Defined.

(** A denial is an answer too: with the endpoint down the visitor is refused. *)
Example endpoint_down_denies :
  (s ← demo_main; service_answer s "c1" 5 5000000000 (mkVCall 1 1 1 1 1 None) (Some (mkHttpResponse 503 "k1" false))
     "visit" (mkVState None 0 0)) = Some "".
Proof. vm_compute. reflexivity. Qed.
