(* ===== verification/Health.v ===== *)
(** The probes of the binaries (internal/health/health.go): the handler behind the
    liveness and readiness paths, the self-probe of a container, and the checks
    the binaries install. Sockets are arguments. *)

From S2P Require Import Prelude Wire FeedProjector Fence ParticipationRuntime ProjectorMain.

Definition DefaultAddr : string := ":8222".
Definition livePath : string := "/healthz".
Definition readyPath : string := "/readyz".
Definition metricsPath : string := "/metrics".
Definition probeFlag : string := "-healthcheck".

(** * The handler *)

(** A check answers nil or an error's text; an answer is a status and a body. *)
Definition check := option string.
Definition answer : Type := Z * string.
Definition StatusOK : Z := 200.
Definition StatusNotFound : Z := 404.
Definition StatusServiceUnavailable : Z := 503.
Definition newline : string := String "010" "".

(** [probe]; [None] is a nil check. [http.Error] ends the text with a newline. *)
Definition probe (c : option check) : answer :=
  match c with
  | Some (Some err) => (StatusServiceUnavailable, err +:+ newline)
  | _ => (StatusOK, "ok" +:+ newline)
  end.

(** [Handler], for a request of a cleaned path: the multiplexer's patterns have no
    trailing slash, so each matches one path. *)
Definition Handler (live ready : option check) (metrics : option answer) (path : string) : answer :=
  if decide (path = livePath) then probe live
  else if decide (path = readyPath) then probe ready
  else match metrics with
       | Some m => if decide (path = metricsPath) then m else (StatusNotFound, "404 page not found" +:+ newline)
       | None => (StatusNotFound, "404 page not found" +:+ newline)
       end.

(** What [ListenAndServe] ends with; [Serve] reports it unless the server was
    closed. *)
Inductive listen_end := ServerClosed | ListenError (text : string).
Definition serve_addr (addr : string) : string := if decide (addr = "") then DefaultAddr else addr.
Definition Serve (addr : string) (listen : string → listen_end) : option string :=
  match listen (serve_addr addr) with ServerClosed => None | ListenError e => Some e end.

(** * Host and port ([net.SplitHostPort], [net.JoinHostPort]) *)

(** The string before and after the first and the last occurrence of a byte. *)
Fixpoint cut_first (c : ascii) (s : string) : option (string * string) :=
  match s with
  | EmptyString => None
  | String x r =>
      if decide (x = c) then Some ("", r)
      else match cut_first c r with Some (a, b) => Some (String x a, b) | None => None end
  end.

Fixpoint cut_last (c : ascii) (s : string) : option (string * string) :=
  match s with
  | EmptyString => None
  | String x r =>
      match cut_last c r with
      | Some (a, b) => Some (String x a, b)
      | None => if decide (x = c) then Some ("", r) else None
      end
  end.

Definition SplitHostPort (hostport : string) : option (string * string) :=
  match cut_last ":" hostport with
  | None => None
  | Some (before, port) =>
      match hostport with
      | String "[" rest =>
          match cut_first "]" rest with
          | None => None
          | Some (host, after) =>
              if decide (after ≠ String ":" port) then None
              else if has_char "[" rest || has_char "]" after then None
              else Some (host, port)
          end
      | _ =>
          if has_char ":" before then None
          else if has_char "[" hostport || has_char "]" hostport then None
          else Some (before, port)
      end
  end.

Definition JoinHostPort (host port : string) : string :=
  if has_char ":" host then "[" +:+ host +:+ "]:" +:+ port else host +:+ ":" +:+ port.

(** * The self-probe *)

Definition IsProbe (args : list string) : bool := existsb (λ a, bool_decide (a = probeFlag)) args.

(** [RunProbe]: the exit status; [get] is the answer of a URL, if any. *)
Definition probe_url (addr : string) : option string :=
  match SplitHostPort (serve_addr addr) with
  | None => None
  | Some (host, port) =>
      Some ("http://" +:+ JoinHostPort (if decide (host = "") then "127.0.0.1" else host) port +:+ livePath)
  end.

Definition RunProbe (get : string → option answer) (addr : string) : Z :=
  match probe_url addr with
  | None => 1
  | Some url =>
      match get url with
      | None => 1
      | Some (status, _) => if decide (status ≠ StatusOK) then 1 else 0
      end
  end%Z.

(** * The checks of the binaries *)

(** cmd/authcallout, cmd/router, cmd/projector: the state of the connection, what
    the account request and the database ping answered. *)
Definition auth_check (connected : bool) : check := if connected then None else Some "nats disconnected".
Definition router_check (connected : bool) (account : check) : check :=
  if negb connected then Some "nats disconnected"
  else match account with Some e => Some ("jetstream unreachable: " +:+ e) | None => None end.
Definition projector_live (connected : bool) (account ping : check) : check :=
  match router_check connected account with Some e => Some e | None => ping end.

(** * Theorems *)

Lemma cut_last_spec c s a b : cut_last c s = Some (a, b) → s = a +:+ String c b ∧ has_char c b = false.
Proof.
  revert a b. induction s as [|x s IH]; intros a b; simpl; [done|].
  destruct (cut_last c s) as [[a' b']|] eqn:E.
  - intros [= <- <-]. by destruct (IH a' b' eq_refl) as [-> ?].
  - case_decide as Hx; [|done]. intros [= <- <-]. subst x. split; [done|].
    clear IH. induction s as [|y s IH]; [done|]. simpl in *. destruct (cut_last c s) as [[? ?]|]; [done|].
    case_decide; [done|]. rewrite bool_decide_eq_false_2 by done. by apply IH.
Qed.

Lemma cut_last_app c a b : has_char c b = false → cut_last c (a +:+ String c b) = Some (a, b).
Proof.
  intros Hb. assert (cut_last c b = None) as Hn.
  { induction b as [|x b IH]; [done|]. simpl in *. apply orb_false_iff in Hb as [Hx Hb].
    rewrite (IH Hb), decide_False; [done|]. by apply bool_decide_eq_false in Hx. }
  induction a as [|x a IH]; simpl; [by rewrite Hn, decide_True|]. by rewrite IH.
Qed.

Lemma cut_first_spec c s a b : cut_first c s = Some (a, b) → s = a +:+ String c b ∧ has_char c a = false.
Proof.
  revert a b. induction s as [|x s IH]; intros a b; simpl; [done|]. case_decide as Hx.
  - intros [= <- <-]. by subst x.
  - destruct (cut_first c s) as [[a' b']|]; [|done]. intros [= <- <-].
    destruct (IH a' b' eq_refl) as [-> Ha]. split; [done|]. simpl. by rewrite bool_decide_eq_false_2, Ha.
Qed.

Lemma cut_first_app c a b : has_char c a = false → cut_first c (a +:+ String c b) = Some (a, b).
Proof.
  induction a as [|x a IH]; simpl; [by rewrite decide_True|]. intros [Hx Ha]%orb_false_iff.
  apply bool_decide_eq_false in Hx. by rewrite decide_False, IH.
Qed.

(** The parts of an address hold no bracket, and the port no colon. *)
Lemma SplitHostPort_parts s h p :
  SplitHostPort s = Some (h, p) →
  has_char "[" h = false ∧ has_char "]" h = false ∧ has_char ":" p = false ∧ has_char "[" p = false ∧ has_char "]" p = false.
Proof.
  unfold SplitHostPort. destruct (cut_last ":" s) as [[before port]|] eqn:El; [|done].
  apply cut_last_spec in El as [Hs Hp].
  assert (has_char ":" before = false → has_char "[" s || has_char "]" s = false →
          has_char "[" before = false ∧ has_char "]" before = false ∧ has_char ":" port = false ∧
          has_char "[" port = false ∧ has_char "]" port = false) as Hplain.
  { intros _ Hn. rewrite Hs, !has_char_app in Hn. simpl in Hn. repeat apply orb_false_iff in Hn as [Hn ?].
    repeat match goal with H : _ || _ = false |- _ => apply orb_false_iff in H as [? ?] end. done. }
  assert (∀ rest, s = String "[" rest →
    match cut_first "]" rest with
    | None => None
    | Some (host, after) =>
        if decide (after ≠ String ":" port) then None
        else if has_char "[" rest || has_char "]" after then None else Some (host, port)
    end = Some (h, p) → has_char "[" h = false ∧ has_char "]" h = false ∧ has_char ":" p = false ∧
      has_char "[" p = false ∧ has_char "]" p = false) as Hbr.
  { intros rest _ H. destruct (cut_first "]" rest) as [[host after]|] eqn:Ef; [|done].
    apply cut_first_spec in Ef as [-> Hh]. case_decide as Ha; [done|]. subst after.
    revert H. destruct (has_char "[" (host +:+ _) || _) eqn:Hn; [done|]. intros [= <- <-].
    rewrite has_char_app in Hn. simpl in Hn.
    repeat match goal with H : _ || _ = false |- _ => apply orb_false_iff in H as [? ?] end. done. }
  destruct s as [|[[] [] [] [] [] [] [] []] rest]; try (by apply (Hbr rest));
    (destruct (has_char ":" before) eqn:Hb; [done|]);
    match goal with |- (if ?b then _ else _) = _ → _ => destruct b eqn:Hn; [done|] end;
    intros [= <- <-]; by apply Hplain.
Qed.

Lemma SplitHostPort_join h p :
  has_char "[" h = false → has_char "]" h = false → has_char ":" p = false → has_char "[" p = false →
  has_char "]" p = false → SplitHostPort (JoinHostPort h p) = Some (h, p).
Proof.
  intros Hh1 Hh2 Hp Hp1 Hp2. unfold JoinHostPort. destruct (has_char ":" h) eqn:Hc.
  - assert ("[" +:+ h +:+ "]:" +:+ p = ("[" +:+ h +:+ "]") +:+ String ":" p) as Hs
      by (simpl; by rewrite str_app_assoc).
    unfold SplitHostPort. rewrite Hs at 1. rewrite (cut_last_app ":" _ p Hp).
    change ("[" +:+ h +:+ "]:" +:+ p) with (String "[" (h +:+ String "]" (String ":" p))). cbv beta iota.
    rewrite (cut_first_app "]" h _ Hh2), decide_False by auto. rewrite has_char_app. simpl. by rewrite Hh1, Hp1, Hp2.
  - change (h +:+ ":" +:+ p) with (h +:+ String ":" p). unfold SplitHostPort. rewrite (cut_last_app ":" _ p Hp), Hc.
    assert (has_char "[" (h +:+ String ":" p) || has_char "]" (h +:+ String ":" p) = false) as Hn
      by (rewrite !has_char_app; simpl; by rewrite Hh1, Hh2, Hp1, Hp2).
    rewrite Hn. destruct h as [|x h']; [done|]. simpl in Hh1. apply orb_false_iff in Hh1 as [Hx _].
    by destruct x as [[] [] [] [] [] [] [] []].
Qed.

(** An address survives being split and joined, bracketed IPv6 hosts included. *)
Theorem host_port_roundtrip s h p : SplitHostPort s = Some (h, p) → SplitHostPort (JoinHostPort h p) = Some (h, p).
Proof. intros (? & ? & ? & ? & ?)%SplitHostPort_parts. by apply SplitHostPort_join. Qed.

(** The self-probe of a container reports exactly the liveness check of the binary
    that serves on the default port, whatever its readiness. *)
Theorem self_probe_reports_liveness live ready metrics get :
  (∀ path, get ("http://127.0.0.1:8222" +:+ path) = Some (Handler live ready metrics path)) →
  RunProbe get "" = 0%Z ↔ live = None ∨ live = Some None.
Proof.
  intros Hget. unfold RunProbe. change (probe_url "") with (Some ("http://127.0.0.1:8222" +:+ livePath)).
  cbv iota. rewrite Hget. unfold Handler. rewrite decide_True by done.
  destruct live as [[e|]|]; simpl; naive_solver.
Qed.

(** A ready projector is live. *)
Lemma ready_is_live f c connected account ping :
  ready f c (bool_decide (projector_live connected account ping = None)) = true →
  projector_live connected account ping = None ∧ connected = true ∧ account = None ∧ ping = None.
Proof.
  unfold ready. rewrite !andb_true_iff, bool_decide_eq_true. intros [_ Hl]. split; [done|].
  unfold projector_live, router_check in Hl. by destruct connected, account, ping.
Qed.
