(* ===== verification/Boot.v ===== *)
(** How the binaries start (cmd/router/main.go, cmd/projector/main.go and
    postgres.go, cmd/authcallout/main.go, cmd/signaltest-inject/main.go): what they read from the
    environment, which resources they open in which order, and what makes them stop.
    Whether an action succeeds is an argument; the sequence of actions tried is
    part of the result. *)

From S2P Require Import Prelude Bytes Wire Identity Subjects LogStore RouterState Router RouterTraffic.
From S2P Require Import FeedProjector Fence ProjectorSetup ProjectorMain AuthSetup Health.

(** * Start-up sequences *)

(** [AProbe] is the request of the self-probe, [ATracer] the set-up of the trace
    exporter. *)
Inductive action :=
| AProbe (url : string)
| ATracer (service : string)
| AConnect (url user pass : string)
| AJetStream | AJetStreamKV
| AResetLog | AEnsureLog
| ASubscribe (subject queue : string)
| AOpenPostgres (path : string)
| AEnsureFeed (maxAge dedupWindow : Z) | AEnsureParticipation
| ALogSource (maxDeliver ackWait : Z) | ALease (ttl : Z) | ASnapshots
| AParticipation.

#[export] Instance action_eq_dec : EqDecision action.
Proof. solve_decision. Defined.

(** A process that ends before it serves: the label [must] logs, or the status of
    the self-probe. *)
Inductive ending := Fatal (at_ : string) | Probed (status : Z).

Definition Boot (A : Type) : Type := list action → (ending + A) * list action.
#[export] Instance Boot_ret : MRet Boot := λ A a tr, (inr a, tr).
#[export] Instance Boot_bind : MBind Boot := λ A B g m tr,
  match m tr with (inr a, tr') => g a tr' | (inl e, tr') => (inl e, tr') end.

Definition stop {A} (e : ending) : Boot A := λ tr, (inl e, tr).

Section Start.
Context (ok : action → bool) (DefaultURL : string) (get : string → option Health.answer).

(** [must]: the action is tried, and its failure ends the process. *)
Definition must (label : string) (a : action) : Boot unit :=
  λ tr, (if ok a then inr tt else inl (Fatal label), tr ++ [a]).
Definition require (label : string) (env : Env) (k : string) : Boot string :=
  match mustEnv env k with Some v => mret v | None => stop (Fatal label) end.

(** [os.Exit(health.RunProbe(...))]. *)
Definition self_probe {A} : Boot A :=
  λ tr, (inl (Probed (RunProbe get DefaultAddr)),
         tr ++ match probe_url DefaultAddr with Some url => [AProbe url] | None => [] end).

(** [obs.InitTracer] in [main]: nothing without an endpoint; a failure is logged and
    start-up goes on. *)
Definition init_tracer (env : Env) (service : string) : Boot unit :=
  λ tr, (inr tt, if decide (Getenv env "OTEL_EXPORTER_OTLP_ENDPOINT" = "") then tr else tr ++ [ATracer service]).

(** ** The router *)

Record RouterBoot := mkRouterBoot { rb_config : RouterConfig; rb_dev : bool; rb_trusted : gset string }.

Definition router_main (args : list string) (env : Env) : Boot RouterBoot :=
  if IsProbe args then self_probe
  else
    init_tracer env "relaypoint-router";;
    let url := envOr env "NATS_URL" DefaultURL in
    let user := envOr env "NATS_USER" "router" in
    pass ← require "env" env "NATS_PASSWORD";
    must "connect" (AConnect url user pass);;
    must "jetstream" AJetStream;;
    (if decide (Getenv env "RP_RESET_LOG_STREAM" = "1") then must "reset-stream" AResetLog else mret tt);;
    must "stream" AEnsureLog;;
    let devMode := bool_decide (Getenv env "RP_DEV_NO_AUTH" = "1") in
    let cfg := if devMode then WithDevMode defaultConfig else defaultConfig in
    let trusted := trustedSet (Getenv env "RP_TRUSTED_BACKENDS") in
    must "subscribe" (ASubscribe "tenant.*.interaction.*.cmd.*" "router");;
    mret (mkRouterBoot cfg devMode trusted).

(** The request a started router makes of a message. *)
Definition boot_request (b : RouterBoot) (subject data : string) : request :=
  on_message (rb_dev b) (rb_trusted b) subject data.

(** ** The projector *)

(** [openProjectorPostgres]: the secret file's contents, whether the pool accepts
    the DSN, the role of the connection the ping opens, and the ping. *)
Definition openProjectorPostgres (url_Parse : string → option Url) (secret : option string)
    (pool : string → bool) (role : option Role) (ping : bool) : bool :=
  match projectorDSN url_Parse secret with
  | None => false
  | Some dsn => pool dsn && verifyIdentity role && ping
  end.

(** The configuration [main] gives the projector. *)
Definition mainConfig : Config := mkPConfig mainMaxDeliver 0 0 0 0 mainLeaseTTL DefaultAddr 0.

Definition projector_main (args : list string) (env : Env) : Boot Config :=
  if IsProbe args then self_probe
  else
    init_tracer env "relaypoint-projector";;
    match postgresDSNPath (tail args) with
    | None => stop (Fatal "postgres-config")
    | Some dsnPath =>
        must "postgres" (AOpenPostgres dsnPath);;
        let url := envOr env "NATS_URL" DefaultURL in
        let user := envOr env "NATS_USER" "projector" in
        pass ← require "config" env "NATS_PASSWORD";
        must "connect" (AConnect url user pass);;
        must "jetstream" AJetStream;;
        must "jetstream-kv" AJetStreamKV;;
        must "feed-stream" (AEnsureFeed (60 * minute) (10 * minute));;
        must "participation-stream" AEnsureParticipation;;
        must "log-source" (ALogSource mainMaxDeliver (30 * second));;
        must "lease" (ALease mainLeaseTTL);;
        must "snapshot-store" ASnapshots;;
        must "participation-consumer" AParticipation;;
        mret mainConfig
    end.

(** ** The auth callout *)

Definition AuthRequestSubject : string := "$SYS.REQ.USER.AUTH".
Definition authQueue : string := "authsvc".

(** [must] on a value that is there or not. *)
Definition must_have {A} (label : string) (x : option A) : Boot A :=
  match x with Some a => mret a | None => stop (Fatal label) end.

Context (ParseDuration : string → option Z) (StdDecode fromSeed : string → option string).

Definition authcallout_main (args : list string) (env : Env) : Boot AuthService :=
  if IsProbe args then self_probe
  else
    init_tracer env "relaypoint-authcallout";;
    let url := envOr env "NATS_URL" DefaultURL in
    let user := envOr env "NATS_AUTH_USER" "authsvc" in
    pass ← require "env" env "NATS_AUTH_PASSWORD";
    let account := envOr env "AUTH_CALLOUT_ACCOUNT" "RP" in
    seed ← require "env" env "AUTH_CALLOUT_ISSUER_SEED";
    issuerSeed ← must_have "decode issuer seed" (decodeSeed StdDecode seed);
    tokenSecret ← require "env" env "AUTH_TOKEN_SECRET";
    let jwksURL := Getenv env "DESK_INGRESS_JWKS_URL" in
    let visitor :=
      if decide (jwksURL ≠ "") then
        let ttl := envDuration ParseDuration env "DESK_INGRESS_JWKS_TTL" (5 * minute) in
        Some (jwksURL, NewVisitorVerifier ttl [WithVisitorFetchTimeout (5 * second)])
      else None in
    resp ← must_have "responder" (NewResponder fromSeed issuerSeed account []);
    must "connect" (AConnect url user pass);;
    must "subscribe" (ASubscribe AuthRequestSubject authQueue);;
    mret (mkAuthService url user pass tokenSecret visitor resp).
End Start.

(** ** The injection tool *)

(** The connection is tried up to [left_] times, one attempt after another. *)
Fixpoint connect_attempts (connect : nat → bool) (attempt left_ : nat) : bool :=
  match left_ with
  | O => false
  | S left' => if connect attempt then true else connect_attempts connect (S attempt) left'
  end.

Section Inject.
Context (chat_message : string → option string) (marshal_command : Command → option string).
Context (unmarshal_result : string → option CommandResult).

(** The subject and the command of the tool; [fresh] is the id it makes up. *)
Definition inject_subject (env : Env) : string :=
  "tenant." +:+ Getenv env "TENANT" +:+ ".interaction." +:+ Getenv env "INTERACTION" +:+ ".cmd.desk-svc".
Definition inject_command (env : Env) (fresh data : string) : Command :=
  mkCommand (envOr env "CMD_ID" fresh) (Getenv env "TENANT") (envOr env "ACTOR" "customer-inbound") "message.created" "chat"
    (Getenv env "INTERACTION") data.
Definition inject_credentials (env : Env) : option (string * string) :=
  if decide (Getenv env "NATS_USER" ≠ "") then Some (Getenv env "NATS_USER", Getenv env "NATS_PASSWORD") else None.

(** The exit status; [connect] says which attempt at a server succeeds, [send] is
    the reply to a request, if any. *)
Definition inject_main (env : Env) (fresh : string) (connect : string → option (string * string) → nat → bool)
    (send : string → string → option string) : Z :=
  let url := envOr env "NATS_URL" "nats://nats.infra.svc.cluster.local:4222" in
  if negb (connect_attempts (connect url (inject_credentials env)) 0 10) then 1
  else
    match data ← chat_message (envOr env "TEXT" "inbound via RP"); marshal_command (inject_command env fresh data) with
    | None => 1
    | Some payload =>
        match reply ← send (inject_subject env) payload; unmarshal_result reply with
        | None => 1
        | Some res => if decide (res_Status res ≠ STATUS_ACCEPTED) then 1 else 0
        end
    end%Z.
End Inject.

(** * Theorems *)

Section Theorems.
Context (ok : action → bool) (DefaultURL : string) (get : string → option Health.answer).

(** A start-up that tries the actions [plan] in order and stops at the first that
    fails. *)
Inductive fail_stop {A} : list action → A → Boot A → Prop :=
| fst_done a : fail_stop [] a (mret a)
| fst_must label x plan a (m : unit → Boot A) :
    fail_stop plan a (m tt) → fail_stop (x :: plan) a (must ok label x ≫= m).

Lemma fail_stop_spec {A} plan (a : A) m tr :
  fail_stop plan a m →
  ∃ done_ rest, plan = done_ ++ rest ∧
    ((rest = [] ∧ Forall (λ x, ok x = true) done_ ∧ m tr = (inr a, tr ++ done_)) ∨
     ∃ l x label, done_ = l ++ [x] ∧ Forall (λ x, ok x = true) l ∧ ok x = false ∧ m tr = (inl (Fatal label), tr ++ done_)).
Proof.
  intros Hf. revert tr. induction Hf as [a|label x plan a m Hf IH]; intros tr.
  - exists [], []. split; [done|]. left. by rewrite app_nil_r.
  - unfold mbind, Boot_bind, must. destruct (ok x) eqn:Hx.
    + destruct (IH (tr ++ [x])) as (d & rest & -> & H). exists (x :: d), rest. split; [done|]. simpl.
      destruct H as [(-> & Hall & ->)|(l & y & lb & -> & Hall & Hy & ->)]; rewrite <-app_assoc; simpl.
      * left. split_and!; [done|by constructor|done].
      * right. exists (x :: l), y, lb. split_and!; [done|by constructor|done|done].
    + exists [x], plan. split; [done|]. right. exists [], x, label. split_and!; done.
Qed.

(** What a start-up that went through has done. *)
Lemma fail_stop_done {A} plan (a b : A) m tr0 tr :
  fail_stop plan a m → m tr0 = (inr b, tr) → b = a ∧ tr = tr0 ++ plan ∧ Forall (λ x, ok x = true) plan.
Proof.
  intros Hf Hm. destruct (fail_stop_spec plan a m tr0 Hf) as (d & rest & -> & [(-> & Hall & H)|(l & x & lb & _ & _ & _ & H)]);
    rewrite Hm in H; [|done]. injection H as -> ->. rewrite app_nil_r. done.
Qed.

(** It tries nothing besides its plan. *)
Lemma fail_stop_within {A} plan (a : A) m tr0 res tr x :
  fail_stop plan a m → m tr0 = (res, tr) → x ∈ tr → x ∈ tr0 ∨ x ∈ plan.
Proof.
  intros Hf Hm Hx. destruct (fail_stop_spec plan a m tr0 Hf) as (d & rest & -> & H).
  assert (tr = tr0 ++ d) as -> by (destruct H as [(_ & _ & H)|(? & ? & ? & _ & _ & _ & H)]; rewrite Hm in H; by injection H).
  set_solver.
Qed.

(** Whatever a start-up tries, everything before it in the plan has succeeded. *)
Lemma fail_stop_before {A} plan (a : A) m l x r tr0 res tr :
  fail_stop plan a m → m tr0 = (res, tr) → plan = l ++ x :: r → x ∉ l → x ∉ tr0 → x ∈ tr → Forall (λ y, ok y = true) l.
Proof.
  intros Hf Hm Hp Hx H0 Hin. destruct (fail_stop_spec plan a m tr0 Hf) as (d & rest & Hd & H).
  assert (tr = tr0 ++ d ∧ ∃ l', (d = l' ∨ ∃ y, d = l' ++ [y]) ∧ Forall (λ y, ok y = true) l') as [-> (l' & Hl' & Hall)].
  { destruct H as [(_ & Hall & H)|(l' & y & lb & Hy & Hall & _ & H)]; rewrite Hm in H; injection H as _ ->; split; eauto. }
  apply elem_of_app in Hin as [|Hin]; [done|].
  rewrite Hp in Hd. assert (l `prefix_of` l') as [k ->]; [|by apply Forall_app in Hall as [? _]].
  destruct (decide (length l < length d)) as [Hlt|Hge].
  - assert (l = take (length l) d) as ->.
    { rewrite <-(take_app_le d rest) by lia. rewrite <-Hd. by rewrite take_app_length. }
    destruct Hl' as [->|(y & ->)]; [apply prefix_take|]. rewrite length_app in Hlt. simpl in Hlt.
    rewrite take_app_le by lia. apply prefix_take.
  - destruct Hx. apply (f_equal (take (length d))) in Hd. rewrite take_app_length, take_app_le in Hd by lia.
    rewrite <-Hd in Hin. by eapply elem_of_sublist, sublist_take.
Qed.

(** What is tried before the configuration is read: the trace exporter. *)
Definition tracing (env : Env) (service : string) : list action :=
  if decide (Getenv env "OTEL_EXPORTER_OTLP_ENDPOINT" = "") then [] else [ATracer service].

Lemma init_tracer_bind {A} env service (g : unit → Boot A) :
  (init_tracer env service ≫= g) [] = g tt (tracing env service).
Proof. unfold init_tracer, tracing, mbind, Boot_bind. by case_decide. Qed.

Lemma tracing_elem env service x : x ∈ tracing env service → x = ATracer service.
Proof. unfold tracing. case_decide; set_solver. Qed.

(** ** The router *)

Definition router_plan (env : Env) (pass : string) : list action :=
  [AConnect (envOr env "NATS_URL" DefaultURL) (envOr env "NATS_USER" "router") pass; AJetStream]
  ++ (if decide (Getenv env "RP_RESET_LOG_STREAM" = "1") then [AResetLog] else [])
  ++ [AEnsureLog; ASubscribe "tenant.*.interaction.*.cmd.*" "router"].
Definition router_boot (env : Env) : RouterBoot :=
  let dev := bool_decide (Getenv env "RP_DEV_NO_AUTH" = "1") in
  mkRouterBoot (if dev then WithDevMode defaultConfig else defaultConfig) dev (trustedSet (Getenv env "RP_TRUSTED_BACKENDS")).

(** The router's start-up after the tracer. *)
Lemma router_main_plan args env pass :
  IsProbe args = false → mustEnv env "NATS_PASSWORD" = Some pass →
  ∃ m, fail_stop (router_plan env pass) (router_boot env) m ∧
    router_main ok DefaultURL get args env [] = m (tracing env "relaypoint-router").
Proof.
  intros Hp Hpass. unfold router_main, router_plan, require. rewrite Hp, Hpass, init_tracer_bind.
  change (mret pass ≫= ?g) with (g pass). cbv beta. eexists. split; [|reflexivity].
  case_decide; repeat (apply fst_must); try (change (mret tt ≫= ?g) with (g tt); cbv beta; repeat (apply fst_must)); constructor.
Qed.

(** C24: The router starts closed. Without a password it tries nothing but the set-up
    of the trace exporter (and a self-probe nothing but its request), so it opens
    no connection to NATS; it wipes the log only when told to by
    RP_RESET_LOG_STREAM=1; it takes commands only after the log stream was there;
    and once started its gates are off exactly when RP_DEV_NO_AUTH is 1, for the
    handler and for the identities alike. *)
Theorem router_starts_closed args env res tr :
  router_main ok DefaultURL get args env [] = (res, tr) →
  (IsProbe args = true → Forall (λ x, ∃ url, x = AProbe url) tr ∧ ∃ status, res = inl (Probed status)) ∧
  (IsProbe args = false → mustEnv env "NATS_PASSWORD" = None →
     Forall (λ x, x = ATracer "relaypoint-router") tr ∧ ∃ label, res = inl (Fatal label)) ∧
  (AResetLog ∈ tr → Getenv env "RP_RESET_LOG_STREAM" = "1") ∧
  (∀ s q, ASubscribe s q ∈ tr → ok AEnsureLog = true) ∧
  (∀ b, res = inr b → ok AEnsureLog = true ∧ b = router_boot env ∧
     (devMode (rb_config b) = true ↔ Getenv env "RP_DEV_NO_AUTH" = "1") ∧
     ∀ subject data, rq_id (boot_request b subject data) = subscription_identity (devMode (rb_config b)) (rb_trusted b) subject).
Proof.
  intros Hm. destruct (IsProbe args) eqn:Hp.
  { unfold router_main in Hm. rewrite Hp in Hm. unfold self_probe in Hm. injection Hm as <- <-.
    split_and!; [intros _; split; [|by eauto]|done|set_solver|set_solver|done].
    apply Forall_singleton. by eexists. }
  destruct (mustEnv env "NATS_PASSWORD") as [pass|] eqn:Hpass.
  2: { unfold router_main, require in Hm. rewrite Hp, Hpass, init_tracer_bind in Hm. injection Hm as <- <-.
       pose proof (tracing_elem env "relaypoint-router") as Ht.
       split_and!; [done|intros _ _; split; [by apply Forall_forall|by eauto]|by intros ?%Ht|by intros s q ?%Ht|done]. }
  destruct (router_main_plan args env pass Hp Hpass) as (m & Hf & Heq). rewrite Heq in Hm. clear Heq.
  split; [done|]. split; [done|]. pose proof (tracing_elem env "relaypoint-router") as Ht.
  assert (∀ x, x ∈ tr → x = ATracer "relaypoint-router" ∨ x ∈ router_plan env pass) as Hsub.
  { intros x Hx. destruct (fail_stop_within _ _ _ _ _ _ x Hf Hm Hx) as [?%Ht|?]; auto. }
  split_and!.
  - intros [?|Hr]%Hsub; [done|]. unfold router_plan in Hr. case_decide; [done|]. set_solver.
  - intros s q Hs. assert (ASubscribe s q = ASubscribe "tenant.*.interaction.*.cmd.*" "router") as He.
    { apply Hsub in Hs as [?|Hs]; [done|]. unfold router_plan in Hs. case_decide; set_solver. }
    rewrite He in Hs. unfold router_plan in Hf.
    pose proof (fail_stop_before _ _ _ ([AConnect (envOr env "NATS_URL" DefaultURL) (envOr env "NATS_USER" "router") pass; AJetStream]
      ++ (if decide (Getenv env "RP_RESET_LOG_STREAM" = "1") then [AResetLog] else []) ++ [AEnsureLog])
      (ASubscribe "tenant.*.interaction.*.cmd.*" "router") [] _ _ _ Hf Hm) as Hall.
    rewrite Forall_forall in Hall. apply Hall; [by rewrite <-!app_assoc|case_decide; set_solver|by intros ?%Ht|done|set_solver].
  - intros b ->. destruct (fail_stop_done _ _ _ _ _ _ Hf Hm) as (-> & -> & Hall). rewrite Forall_forall in Hall.
    split; [apply Hall; unfold router_plan; set_solver|]. split; [done|]. unfold router_boot. simpl.
    destruct (decide (Getenv env "RP_DEV_NO_AUTH" = "1")) as [Hd|Hd].
    + rewrite bool_decide_eq_true_2 by done. done.
    + rewrite bool_decide_eq_false_2 by done. split; [done|]. done.
Qed.

(** ** The projector *)

Definition projector_plan (env : Env) (dsnPath pass : string) : list action :=
  [AOpenPostgres dsnPath; AConnect (envOr env "NATS_URL" DefaultURL) (envOr env "NATS_USER" "projector") pass; AJetStream; AJetStreamKV;
   AEnsureFeed (60 * minute) (10 * minute); AEnsureParticipation; ALogSource mainMaxDeliver (30 * second);
   ALease mainLeaseTTL; ASnapshots; AParticipation].

(** A projector that runs has a database it is confined in, both streams, its
    consumer, and a lease whose time-to-live is the one its renewals are timed by. *)
Theorem projector_started args env cfg tr :
  projector_main ok DefaultURL get args env [] = (inr cfg, tr) →
  ∃ dsnPath pass, postgresDSNPath (tail args) = Some dsnPath ∧ pass ≠ "" ∧
    tr = tracing env "relaypoint-projector" ++ projector_plan env dsnPath pass ∧
    Forall (λ x, ok x = true) (projector_plan env dsnPath pass) ∧ cfg = mainConfig ∧ ALease (LeaseTTL (withDefaults cfg)) ∈ tr.
Proof.
  unfold projector_main. destruct (IsProbe args); [done|]. rewrite init_tracer_bind. destruct (postgresDSNPath (tail args)) as [path|]; [|done].
  destruct (mustEnv env "NATS_PASSWORD") as [pass|] eqn:Hpass; unfold require; rewrite Hpass.
  - intros Hm. exists path, pass. apply mustEnv_set in Hpass.
    match type of Hm with ?m _ = _ => assert (fail_stop (projector_plan env path pass) mainConfig m) as Hf end.
    { unfold projector_plan. apply fst_must. change (mret pass ≫= ?g) with (g pass). cbv beta. repeat (apply fst_must). constructor. }
    destruct (fail_stop_done _ _ _ _ _ _ Hf Hm) as (-> & -> & Hall). split_and!; try done.
    change (LeaseTTL (withDefaults mainConfig)) with mainLeaseTTL. unfold projector_plan. set_solver.
  - unfold mbind, Boot_bind, must. by destruct (ok (AOpenPostgres path)).
Qed.

(** ** The auth callout *)

(** The connection is opened only with a complete configuration: without a
    password, a seed that makes a signing key or a secret nothing is contacted but
    the trace exporter. With
    them the callout connects as the configured user, answers requests in the queue
    group of its replicas once it is connected, and serves what [auth_main] makes of
    the environment. *)
Theorem authcallout_started ParseDuration StdDecode fromSeed args env res tr :
  IsProbe args = false →
  authcallout_main ok DefaultURL get ParseDuration StdDecode fromSeed args env [] = (res, tr) →
  let tr0 := tracing env "relaypoint-authcallout" in
  match auth_main DefaultURL ParseDuration StdDecode fromSeed env with
  | None => tr = tr0 ∧ ∃ label, res = inl (Fatal label)
  | Some s =>
      let c := AConnect (as_url s) (as_user s) (as_pass s) in
      let sub := ASubscribe AuthRequestSubject authQueue in
      if negb (ok c) then tr = tr0 ++ [c] ∧ res = inl (Fatal "connect")
      else tr = tr0 ++ [c; sub] ∧ res = if ok sub then inr s else inl (Fatal "subscribe")
  end.
Proof.
  intros Hp Hm tr0. unfold authcallout_main in Hm. rewrite Hp, init_tracer_bind in Hm. fold tr0 in Hm. clearbody tr0.
  unfold require, must_have, must, mbind, Boot_bind, mret, Boot_ret, stop in Hm. unfold auth_main.
  destruct (mustEnv env "NATS_AUTH_PASSWORD") as [pass|]; [|by simplify_eq/=; eauto].
  destruct (mustEnv env "AUTH_CALLOUT_ISSUER_SEED") as [sd|]; [|by simplify_eq/=; eauto]. cbn [mbind option_bind].
  destruct (decodeSeed StdDecode sd) as [seed|]; [|by simplify_eq/=; eauto].
  destruct (mustEnv env "AUTH_TOKEN_SECRET") as [secret|]; [|by simplify_eq/=; eauto]. cbn [mbind option_bind].
  destruct (NewResponder fromSeed seed _ []) as [resp|]; [|by simplify_eq/=; eauto].
  cbn [mbind option_bind as_url as_user as_pass]. cbv zeta. cbn [app] in Hm.
  destruct (ok (AConnect _ _ pass)); cbn [negb app] in *; [|by injection Hm as <- <-].
  rewrite <-app_assoc in Hm. destruct (ok (ASubscribe _ _)); by injection Hm as <- <-.
Qed.
End Theorems.

(** The database a started projector uses: a non-empty user with a password, no
    file-based secrets, and a session that is neither a superuser's nor exempt from
    row security. *)
Lemma openProjectorPostgres_confined url_Parse secret pool role ping :
  openProjectorPostgres url_Parse secret pool role ping = true →
  ∃ dsn r, projectorDSN url_Parse secret = Some dsn ∧ pool dsn = true ∧ role = Some r ∧ ping = true ∧
    ro_session r = ro_current r ∧ ro_superuser r = false ∧ ro_bypassRLS r = false.
Proof.
  unfold openProjectorPostgres, verifyIdentity. destruct (projectorDSN _ _) as [dsn|]; [|done].
  rewrite !andb_true_iff. destruct role as [r|]; [|naive_solver].
  rewrite !andb_true_iff, !negb_true_iff, bool_decide_eq_true. intros ((? & ((? & ?) & ?) & ?) & ?). exists dsn, r. done.
Qed.

(** ** The injection tool *)

Lemma envOr_set env k d : d ≠ "" → envOr env k d ≠ "".
Proof. unfold envOr. by case_decide. Qed.

Lemma connect_attempts_spec connect n k : connect_attempts connect k n = true ↔ ∃ j, k ≤ j < k + n ∧ connect j = true.
Proof.
  revert k. induction n as [|n IH]; intros k; simpl; [split; [done|intros (j & ? & _); lia]|].
  destruct (connect k) eqn:E; [split; [|done]; intros _; exists k; split; [lia|done]|].
  rewrite IH. split; intros (j & ? & ?); exists j; (split; [|done]); [lia|].
  assert (j ≠ k) by congruence. lia.
Qed.

(** The tool exits with 0 exactly when one of ten attempts connected and the reply
    to its command says that it was accepted. *)
Lemma inject_exits_zero chat marshal unmarshal env fresh connect send :
  inject_main chat marshal unmarshal env fresh connect send = 0%Z ↔
  (∃ j, j < 10 ∧ connect (envOr env "NATS_URL" "nats://nats.infra.svc.cluster.local:4222") (inject_credentials env) j = true) ∧
  ∃ data payload reply res, chat (envOr env "TEXT" "inbound via RP") = Some data ∧
    marshal (inject_command env fresh data) = Some payload ∧ send (inject_subject env) payload = Some reply ∧
    unmarshal reply = Some res ∧ res_Status res = STATUS_ACCEPTED.
Proof.
  unfold inject_main. cbv zeta.
  set (conn := connect (envOr env "NATS_URL" "nats://nats.infra.svc.cluster.local:4222") (inject_credentials env)).
  assert ((∃ j, j < 10 ∧ conn j = true) ↔ connect_attempts conn 0 10 = true) as ->.
  { rewrite connect_attempts_spec. split; intros (j & ? & ?); exists j; (split; [lia|done]). }
  destruct (connect_attempts conn 0 10); cbn [negb]; [|naive_solver].
  destruct (chat _) as [data|]; simpl; [|naive_solver]. destruct (marshal _) as [payload|] eqn:Hm; [|naive_solver].
  destruct (send _ _) as [reply|] eqn:Hs; simpl; [|naive_solver]. destruct (unmarshal reply) as [res|] eqn:Hu; [|naive_solver].
  case_decide; naive_solver.
Qed.

(** The tool's command is admitted by a router that trusts desk-svc, whoever it
    names as the actor; by one that does not it is refused unless it names desk-svc
    itself. Without a tenant or an interaction it is refused as a bad subject. *)
Theorem inject_admission {EX : Externals} cfg trusted env fresh data payload :
  let subject := inject_subject env in
  let cmd := inject_command env fresh data in
  let id := identityFromSubject subject trusted in
  unmarshal_command payload = Some cmd → fresh ≠ "" →
  tok (Getenv env "TENANT") → tok (Getenv env "INTERACTION") →
  admission cfg id subject payload =
    if decide (Getenv env "TENANT" = "" ∨ Getenv env "INTERACTION" = "") then inl (rejected "" "bad subject")
    else if decide ("desk-svc" ∈ trusted ∨ cmd_ActorId cmd = "desk-svc")
    then inr (Getenv env "TENANT", Getenv env "INTERACTION", "desk-svc", cmd)
    else inl (rejected (cmd_CommandId cmd) "actor_mismatch").
Proof.
  intros subject cmd id Hu Hfresh Ht Hi. unfold admission.
  assert (split_on "." subject = ["tenant"; Getenv env "TENANT"; "interaction"; Getenv env "INTERACTION"; "cmd"; "desk-svc"]) as Hs.
  { change subject with (join_on "." ["tenant"; Getenv env "TENANT"; "interaction"; Getenv env "INTERACTION"; "cmd"; "desk-svc"]).
    apply split_join; [done|]. repeat (apply Forall_cons; split); try apply Forall_nil; done. }
  assert (parseCmdSubject subject = if decide (Getenv env "TENANT" = "" ∨ Getenv env "INTERACTION" = "") then None
    else Some (Getenv env "TENANT", Getenv env "INTERACTION", "desk-svc")) as ->.
  { unfold parseCmdSubject. rewrite Hs, decide_True by done. repeat case_decide; naive_solver. }
  case_decide as Hne; [done|]. rewrite Hu. assert (Getenv env "TENANT" ≠ "") as Hte by naive_solver.
  assert (id = if decide ("desk-svc" ∈ trusted) then mkIdentity (Getenv env "TENANT") "desk-svc" RoleTrustedBackend "" "" None
               else mkIdentity (Getenv env "TENANT") "desk-svc" "" CapabilityAgentFeed "" None) as ->.
  { unfold id, identityFromSubject. rewrite Hs, decide_False by naive_solver. done. }
  assert (cmd_CommandId cmd ≠ "") by (by apply envOr_set). assert (cmd_ActorId cmd ≠ "") by (by apply envOr_set).
  assert (cmd_TenantId cmd = Getenv env "TENANT") as Hct by done.
  clear Hs Ht Hi Hu. clearbody cmd. set (tn := Getenv env "TENANT") in *. clearbody tn.
  assert (∀ v, v = tn → orDefault v tn = tn) as Hod by (intros v ->; unfold orDefault; by case_decide).
  assert (∀ u r c, u = "desk-svc" → isAuthenticated (mkIdentity tn u r c "" None) = true) as Hau by (by intros u r c ->).
  destruct (decide ("desk-svc" ∈ trusted)) as [Hin|Hin]; cbv zeta; rewrite Hau by done; cbn [negb andb id_TenantID];
    rewrite Hod, decide_False, decide_False, decide_False by auto.
  - rewrite decide_True by done. by rewrite decide_True by auto.
  - rewrite decide_False by done. rewrite decide_False by done.
    destruct (decide (cmd_ActorId cmd = "desk-svc")) as [Ha|Ha].
    + rewrite decide_False by auto. rewrite decide_False by (intros [_ Hx]; by apply Hx). by rewrite decide_True by auto.
    + rewrite decide_True by auto. rewrite decide_False; [done|]. by intros [?|?].
Qed.

(** A router that starts, and one that stops before it subscribes. *)
Definition boot_env : Env := {[ "NATS_PASSWORD" := "p"; "RP_TRUSTED_BACKENDS" := "desk-svc" ]}.

Lemma router_starts_closed_witness :
  ∃ b tr, router_main (λ _, true) "nats://n" (λ _, None) ["router"] boot_env [] = (inr b, tr) ∧ ¬ (AResetLog ∈ tr) ∧
    devMode (rb_config b) = false.
Proof.
  destruct (router_main (λ _, true) "nats://n" (λ _, None) ["router"] boot_env []) as [[e|b] tr] eqn:Hm;
    [vm_compute in Hm; discriminate|].
  destruct (router_starts_closed (λ _, true) "nats://n" (λ _, None) ["router"] boot_env (inr b) tr Hm) as (_ & _ & Hreset & _ & Hb).
  exists b, tr. split; [reflexivity|]. split.
  - intros Hin. apply Hreset in Hin. vm_compute in Hin. discriminate.
  - destruct (Hb b eq_refl) as (_ & _ & Hdev & _). destruct (devMode (rb_config b)); [|reflexivity].
    pose proof (proj1 Hdev eq_refl) as H. vm_compute in H. discriminate.
Defined.

Example router_stops_without_stream :
  (router_main (λ a, negb (bool_decide (a = AEnsureLog))) "nats://n" (λ _, None) ["router"] boot_env []).1 = inl (Fatal "stream").
Proof. vm_compute. reflexivity. Qed.
